(* ===== verification/_CoqProject ===== *)
-Q . S2P
Prelude.v
GoLib.v
ApiTypes.v
K8s.v
Prog.v
Client.v
Api.v
DeepCopy.v
Cluster.v
ModelPrometheus.v
ModelResources.v
Webhook.v
Utils.v
TokenStage.v
PromtailStage.v
GrafanaInstallationStage.v
GrafanaConfigurationStage.v
PrometheusInstallationStage.v
PrometheusConfigurationStage.v
AlertmanagerStage.v
CsvStage.v
MigrationStage.v
LoggingStage.v
Token.v
Controller.v
Main.v
ControllerProofs.v
Metrics.v
External.v
Sync.v
AlertmanagerConfig.v
PrometheusCr.v
TokenRefresher.v
PromtailCr.v
GrafanaCr.v
ConfigurationStage.v
Operator.v
Convergence.v
Liveness.v
