(* ===== verification/Prelude.v ===== *)
(** * Observability operator: verification library

    The program is a Kubernetes operator (Go) that keeps a monitoring stack
    running: Prometheus, Alertmanager, Grafana, Promtail, cluster logging and the
    token refreshers, configured by the custom resource Observability and by
    repositories of rules, dashboards and pod monitors.  This library models its
    code under src/ as executable definitions and proves what makes it correct.

    ** How the program is modelled

    The operator is sequential and calls its environment: the API server, HTTP
    servers, clock, random source, file system, metrics registry, and the runtime
    that orders a map iteration.  A Go function becomes a [prog A] (Prog.v): it
    returns, panics, or makes a call and goes on with the answer.  No answer is
    assumed: [wp p Φ] speaks of every sequence of answers, [beh] is the set of
    runs, [exec] runs a program against a concrete environment.  Where a theorem
    needs that the server answers what was asked, it says so ([answerOk]), and where
    it needs that the server remembers what was written, it is proved against the
    interface [ApiServer] of Cluster.v.  Errors
    are values ([option error], sums), nil dereferences and indexing out of range
    are [Panic], pointers shared by caller and callee are given back with the
    result, nil maps differ from empty ones ([gomap]), and 64-bit integers wrap
    ([wrap64]).

    ** Files and what they model

    - Prelude.v: automation, Go maps, list lemmas.
    - GoLib.v: what the code uses of the Go library: strings, strconv (with the
      int64 range), time, time.ParseDuration, sha256, base64, html escaping, command
      line flags, the retention pattern.  The round trip of decimal printing and parsing is proved
      here ([Strconv.ParseInt_FormatInt]).
    - ApiTypes.v, Api.v: the types and methods of api/v1 (observability_types.go,
      index.go).  Webhook.v: observability_webhook.go.
    - DeepCopy.v: zz_generated.deepcopy.go, over a model of memory with pointers,
      slices and maps; the declared fields of every struct type.
    - K8s.v: Kubernetes objects: one record per kind with the fields the operator
      reads or writes, and a type of objects indexed by kind.
    - Prog.v, Client.v: programs, their logic, and the idioms all reconcilers use;
      [ControllerUtil] is the interface of controller-runtime's CreateOrUpdate with
      its documented contract as a law, [referenceUtil] an instance.
    - Cluster.v: the API server as an interface, [ApiServer]: a state with a view of
      the stored objects, and the documented effect of every request as a law;
      [storeServer] is an instance.  It models no code under src/.
    - ModelPrometheus.v, ModelResources.v: controllers/model/*.go, the names and
      contents of the managed objects.
    - Utils.v: controllers/utils and the interface of a stage
      (reconcilers/reconciler.go): [ObservabilityReconciler] is the record of its two
      operations, [StageContract] what the controller may rely on.
    - TokenStage.v, PromtailStage.v, GrafanaInstallationStage.v,
      GrafanaConfigurationStage.v, PrometheusInstallationStage.v,
      PrometheusConfigurationStage.v, AlertmanagerStage.v, CsvStage.v,
      MigrationStage.v, LoggingStage.v: the packages of controllers/reconcilers of
      that name, one module each, with an instance of [StageContract].
    - Convergence.v: the controller's loop over the stages that write fixed objects,
      run again and again.
    - Token.v: controllers/token/token_fetcher.go and
      controllers/reconcilers/token/token_manager.go.
    - External.v: the interfaces of third-party code the configuration stage calls
      (net/url, the YAML and JSON decoders) and api/v1/alertmanager_config.go.
    - Sync.v (dashboards, rules, pod monitors), AlertmanagerConfig.v, PrometheusCr.v,
      TokenRefresher.v, PromtailCr.v, GrafanaCr.v, ConfigurationStage.v: the package
      controllers/reconcilers/configuration, file by file; ConfigurationStage.v has
      the whole Reconcile and Cleanup of the stage and its contract.
    - Controller.v, ControllerProofs.v: controllers/observability_controller.go, for
      any stages, and its theorems; Operator.v puts the real stages in
      ([getReconcilerForStage]) and states the theorems of the whole operator.
    - Metrics.v: controllers/metrics/metrics.go, the counters and what they read
      after any sequence of reconciles.
    - Main.v: main.go, runners/generic_runner.go, api/v1/groupversion_info.go and the
      registrations with the manager: start-up as programs over [setupCall].
    - Liveness.v: rounds of the controller on a deleted resource.

    ** What the theorems show

    - The controller: stages run in order and stop at the first that is not
      successful ([stages_run_in_order], a refinement of the inductive [pipeline]);
      for a resource that a user created the finalizer is dropped last, after every
      cleanup stage succeeded and everything of fixed name the stages own is deleted
      ([finalizer_dropped_after_cleanup], [finalizer_kept_until_clean]); the status
      names the stage that stopped, its result and its error
      ([status_names_stopped_stage]); what a stage created its cleanup deletes
      ([created_is_cleaned_up]); a request ends early for missing resources and
      missing finalizers; start-up does what the answer about the no-init config map
      says, and creates at most one operand.  A deleted resource is released after a
      bounded number of rounds when no request fails and nothing holds its cleanup up
      ([deletion_completes], with the conditions spelled out in [cleared] and
      [undisturbedIn]).
    - Against the API server: once the controller's loop over the stages of fixed
      objects has succeeded, later runs of it change nothing
      ([reconciled_is_stable]).
    - Start-up and metrics: the registrations happen in order and before the manager
      starts, an error of any of them but one ends the process, every command line
      of settings is read as the defaults with the settings applied; no stage has
      more failures than reconciliations; every sync is counted at most once.
    - Deep copies share nothing with their originals ([copies_are_independent]).
    - The stages: each instance of [StageContract] proves which objects a stage
      creates, which ones a successful cleanup has deleted, that a cleanup writes
      nothing, and that the resource is preserved.
    - The configuration: footprint, what of the resource and the status the stage
      may change, syncs are skipped within the resync period and the stage only
      looks, what the cleanup reaches; requested rules,
      dashboards and monitors are exactly collected, fetched, written and pruned;
      the Alertmanager configuration is well formed; remote-write tokens are
      mounted; the old volume claim goes last; the retention is one Prometheus
      reads; token refreshers and Promtail daemon sets that are created are kept.
    - Tokens: storage round trip, renewal to the nanosecond, requests only when
      due, no write but the token secrets.
    - The webhook admits exactly the updates that keep the default names, and which
      of the managed objects stay the same then
      ([admitted_update_keeps_resources]).
    - Behaviour that looks unintended is proved too, as it is: the recursion that
      does not end ([assignFromSecret_diverges]), panics on nil configuration,
      patterns that are never found to repeat, failed syncs that are not counted
      ([failed_sync_uncounted]), stages that fight over one name
      ([equal_names_fight]), a dropped error at start-up
      ([initializer_error_ignored]), and the examples
      [finalizer_stripped_early], [existingPVC_last_claim],
      [shouldExist_stops_early], [getUniqueRules_drops_unique],
      [self_contained_removal_admitted], [descoped_change_admitted],
      [promtailConfig_error_dropped].

    ** Bounds and fuel

    Loops are over lists and structural.  The one recursion of the source without
    a bound, assignFromSecret, takes the stack depth as an argument and panics when
    it is used up; the theorems hold for every depth.  [Duration.elements] has as
    fuel the length of the text, of which every round consumes at least one
    character; more fuel changes nothing ([Duration.elements_fuel]).  The copy of
    nested routes takes the depth of the stack, and works when it is at least the
    nesting of the value.  [releasedWithin] counts rounds of the controller: one more
    than there are cluster service versions to remove.  Integers are [Z] with
    [wrap64] where the source computes in int64.

    ** What is not modelled

    Logging calls.  The environments under bundle/, config/ and the tests hold no
    code of the operator.  Values are immutable outside DeepCopy.v, and sharing is
    modelled where it is observable.  Third-party code is a parameter: [Net],
    [Codec], [TokenCodec], [ControllerUtil], [ApiServer], [PrometheusClient],
    [ExternalTypes] and the predicate IsResourceNotFoundError; plain instances show
    that their laws can be met. *)

From stdpp Require Export gmap strings list fin_maps pretty.

(** ** Scope and automation of the development *)

Declare Scope obs_scope.
Delimit Scope obs_scope with obs.
#[global] Open Scope obs_scope.

(** Hints that close the routine goals of the development: [obs] for [eauto],
    [obs_rw] for [autorewrite]. *)
Create HintDb obs.
Create Rewrite HintDb obs_rw.

(** Case analysis on every scrutinee of a [match] or [if] of the goal or of a
    hypothesis, cleaning up the equations it leaves. *)
Ltac split_cases :=
  repeat match goal with
  | |- context [match ?x with _ => _ end] => destruct x eqn:?
  | H : context [match ?x with _ => _ end] |- _ => destruct x eqn:?
  end; simplify_eq/=.

(** Turn boolean facts into propositions. *)
Ltac bool_props :=
  repeat match goal with
  | H : bool_decide _ = true |- _ => apply bool_decide_eq_true_1 in H
  | H : bool_decide _ = false |- _ => apply bool_decide_eq_false_1 in H
  | H : negb _ = true |- _ => apply negb_true_iff in H
  | H : negb _ = false |- _ => apply negb_false_iff in H
  | H : andb _ _ = true |- _ => apply andb_true_iff in H; destruct H
  | H : orb _ _ = false |- _ => apply orb_false_iff in H; destruct H
  end; simplify_eq/=.

(** ** Go maps

    A Go map is [None] when it is the nil map and [Some m] otherwise; reading
    the nil map finds nothing, and [gomap_entries] is what a read can see. *)
Abbreviation gomap V := (option (gmap string V)).

Definition gomap_entries {V} (m : gomap V) : gmap string V := default ∅ m.

Definition gomap_get {V} (m : gomap V) (k : string) : option V :=
  gomap_entries m !! k.

(** A map literal of the source, [map[string]string{k1: v1, ...}]. *)
Definition mapOf {V} (kvs : list (string * V)) : gomap V :=
  Some (list_to_map kvs).

(** [m[k]] at type string or []byte, the zero value when the key is absent. *)
Definition gomap_str (m : gomap string) (k : string) : string :=
  default EmptyString (gomap_get m k).

Lemma gomap_get_nil {V} k : gomap_get (V:=V) None k = None.
Proof. apply lookup_empty. Qed.

Lemma gomap_get_some {V} (m : gmap string V) k : gomap_get (Some m) k = m !! k.
Proof. done. Qed.
#[export] Hint Rewrite @gomap_get_nil @gomap_get_some : obs_rw.

(** [p.Field] through a pointer that may be nil: nil when a step is nil. *)
Notation "m ?> f" := (mbind (M:=option) f m) (at level 61, left associativity) : obs_scope.

(** A result that is not an error. *)
Definition succeeded {A B} (r : A + B) : bool :=
  match r with inl _ => true | inr _ => false end.

(** ** Lists *)

(** The membership loops of the source ([for _, x := range xs { if x == y
    { return true } } return false]). *)
Definition existsIn {A} (p : A → bool) (xs : list A) : bool := existsb p xs.

Lemma existsIn_spec {A} (p : A → bool) xs :
  existsIn p xs = true ↔ ∃ x, x ∈ xs ∧ p x = true.
Proof.
  unfold existsIn. rewrite existsb_exists.
  split; intros (x & Hx & Hp); exists x; by rewrite ?list_elem_of_In in *.
Qed.

Lemma existsIn_false {A} (p : A → bool) xs :
  existsIn p xs = false ↔ ∀ x, x ∈ xs → p x = false.
Proof.
  rewrite <-not_true_iff_false, existsIn_spec. split.
  - intros H x Hx. apply not_true_iff_false. naive_solver.
  - intros H (x & Hx & Hp). rewrite H in Hp; done.
Qed.

(** First element that satisfies a test, and what it is worth. *)
Fixpoint firstSuchThat {A} (p : A → bool) (xs : list A) : option A :=
  match xs with
  | [] => None
  | x :: xs' => if p x then Some x else firstSuchThat p xs'
  end.

Lemma firstSuchThat_Some {A} (p : A → bool) xs x :
  firstSuchThat p xs = Some x ↔
  ∃ pre post, xs = pre ++ x :: post ∧ p x = true ∧ Forall (λ y, p y = false) pre.
Proof.
  split.
  - induction xs as [|a xs IH]; simpl; [done|]. destruct (p a) eqn:Ha.
    + intros [= ->]. by exists [], xs.
    + intros (pre & post & -> & Hx & Hpre)%IH. exists (a :: pre), post.
      by rewrite Forall_cons.
  - intros (pre & post & -> & Hx & Hpre).
    induction Hpre as [|a pre Ha _ IH]; simpl; [by rewrite Hx|by rewrite Ha].
Qed.

Lemma firstSuchThat_None {A} (p : A → bool) xs :
  firstSuchThat p xs = None ↔ Forall (λ y, p y = false) xs.
Proof.
  induction xs as [|a xs IH]; simpl; [done|]. rewrite Forall_cons.
  destruct (p a) eqn:?; naive_solver.
Qed.
