(* ===== verification/GoLib.v ===== *)
(** * The Go standard library, as far as the operator uses it

    [Strings]: the functions of package strings the operator calls, on byte
    strings.  [Strconv]: [ParseInt(s, 10, 64)] and [FormatInt(n, 10)] at width,
    with their range and syntax errors.  [Time]: the wall-clock part of
    [time.Time] (64-bit seconds since year 1 and nanoseconds), [Unix], [Add],
    [After], [Before] with the overflow behaviour of the library.  The round trip
    of the decimal printer and parser is proved here and used by the token
    store.  [Sha256], [Html] and [Base64]: the hash of configuration files, the
    escaping of html/template and the URL encoding of session secrets, with the
    published test vectors as examples.  [Duration]: [time.ParseDuration], with
    its float64 fractions.  [Retention]: the regular expression of a retention.
    [Flag]: the command line of package flag. *)

From Stdlib Require Import Ascii ZArith Lia SpecFloat.
From stdpp Require Import sorting.
From S2P Require Import Prelude.

(** ** Package strings *)
Module Strings.

(** [strings.TrimPrefix] with the information whether the prefix was there. *)
Fixpoint stripPrefix (p s : string) : option string :=
  match p, s with
  | EmptyString, _ => Some s
  | String a p', String b s' => if Ascii.eqb a b then stripPrefix p' s' else None
  | String _ _, EmptyString => None
  end.

Definition HasPrefix (s p : string) : bool :=
  match stripPrefix p s with Some _ => true | None => false end.

Fixpoint Contains (s sub : string) : bool :=
  HasPrefix s sub ||
  match s with EmptyString => false | String _ s' => Contains s' sub end.

(** [strings.Split(s, sep)] for a separator of one byte. *)
Fixpoint Split (s : string) (sep : ascii) : list string :=
  match s with
  | EmptyString => [EmptyString]
  | String a s' =>
      if Ascii.eqb a sep then EmptyString :: Split s' sep
      else match Split s' sep with
           | h :: t => String a h :: t
           | [] => [String a EmptyString]
           end
  end.

Fixpoint Join (xs : list string) (sep : string) : string :=
  match xs with
  | [] => EmptyString
  | [x] => x
  | x :: xs' => x +:+ sep +:+ Join xs' sep
  end.

(** Bytes from their codes: the encodings of the characters the source of the
    operator writes with an escape, or that have no readable literal. *)
Fixpoint bytes (codes : list nat) : string :=
  match codes with
  | [] => EmptyString
  | c :: cs => String (ascii_of_nat c) (bytes cs)
  end.

(** A double quote. *)
Definition dq : string := bytes [34].

(** The UTF-8 encodings of the characters for which [unicode.IsSpace] holds. *)
Definition spaces : list string :=
  map bytes
    [[9]; [10]; [11]; [12]; [13]; [32]; [194; 133]; [194; 160]; [225; 154; 128];
     [226; 128; 128]; [226; 128; 129]; [226; 128; 130]; [226; 128; 131];
     [226; 128; 132]; [226; 128; 133]; [226; 128; 134]; [226; 128; 135];
     [226; 128; 136]; [226; 128; 137]; [226; 128; 138]; [226; 128; 168];
     [226; 128; 169]; [226; 128; 175]; [226; 129; 159]; [227; 128; 128]].

Fixpoint firstStripped (ps : list string) (s : string) : option string :=
  match ps with
  | [] => None
  | p :: ps' =>
      match stripPrefix p s with Some r => Some r | None => firstStripped ps' s end
  end.

(** Removes the leading occurrences of the patterns [ps]; the number of bytes
    of [s] bounds the rounds. *)
Fixpoint trimLeft (fuel : nat) (ps : list string) (s : string) : string :=
  match fuel with
  | O => s
  | S n =>
      match firstStripped ps s with Some r => trimLeft n ps r | None => s end
  end.

Definition TrimSpace (s : string) : string :=
  let s1 := trimLeft (String.length s) spaces s in
  String.rev (trimLeft (String.length s1) (map String.rev spaces) (String.rev s1)).

(** [strings.ToLower] on ASCII letters; every other byte is kept.  The operator
    only compares its result with four words in which no letter has a non-ASCII
    upper-case form. *)
Definition lowerAscii (a : ascii) : ascii :=
  let n := nat_of_ascii a in
  if (65 <=? n)%nat && (n <=? 90)%nat then ascii_of_nat (n + 32) else a.

Fixpoint ToLower (s : string) : string :=
  match s with
  | EmptyString => EmptyString
  | String a s' => String (lowerAscii a) (ToLower s')
  end.

(** [sort.Strings]: byte-wise lexicographic order. *)
Definition sortStrings (xs : list string) : list string := merge_sort String.le xs.

Lemma stripPrefix_Some p s r : stripPrefix p s = Some r ↔ s = p +:+ r.
Proof.
  revert s; induction p as [|a p IH]; intros s.
  { simpl. split; [by intros [= ->]|by intros ->]. }
  destruct s as [|b s]; simpl; [split; by intros|].
  destruct (Ascii.eqb_spec a b) as [->|Hne].
  - rewrite IH. split; [by intros ->|by intros [= ->]].
  - split; [done|]. intros [= ??]. done.
Qed.

Lemma HasPrefix_spec s p : HasPrefix s p = true ↔ ∃ r, s = p +:+ r.
Proof.
  unfold HasPrefix. destruct (stripPrefix p s) as [r|] eqn:E.
  - apply stripPrefix_Some in E. naive_solver.
  - split; [done|]. intros [r Hr%stripPrefix_Some]. congruence.
Qed.

Lemma Split_nonempty s sep : Split s sep ≠ [].
Proof. destruct s as [|a s]; simpl; [done|]. by repeat case_match. Qed.

(** Splitting and joining again is the identity. *)
Lemma Join_Split s sep : Join (Split s sep) (String sep EmptyString) = s.
Proof.
  induction s as [|a s IH]; [done|]. simpl.
  pose proof (Split_nonempty s sep) as Hne.
  destruct (Ascii.eqb_spec a sep) as [->|Hs].
  - destruct (Split s sep) as [|h t]; [done|]. change (String sep (Join (h :: t)
      (String sep EmptyString)) = String sep s). by rewrite IH.
  - destruct (Split s sep) as [|h [|h' t]]; [done|by rewrite <-IH|].
    by rewrite <-IH.
Qed.

Lemma sortStrings_Permutation xs : sortStrings xs ≡ₚ xs.
Proof. apply merge_sort_Permutation. Qed.

Lemma sortStrings_Sorted xs : Sorted String.le (sortStrings xs).
Proof. apply (Sorted_merge_sort String.le xs). Qed.

(** [sort.Strings] is canonical: it only depends on the elements, not on the
    order in which they are given. *)
Lemma sortStrings_canonical xs ys : xs ≡ₚ ys → sortStrings xs = sortStrings ys.
Proof.
  intros Hp. apply (StronglySorted_unique String.le);
    try apply (StronglySorted_merge_sort String.le); [].
  by rewrite !sortStrings_Permutation.
Qed.

End Strings.

(** ** Machine integers *)

Definition maxInt64 : Z := 9223372036854775807.
Definition minInt64 : Z := -9223372036854775808.
Definition maxUint64 : Z := 18446744073709551615.

Definition int64_ok (z : Z) : Prop := (minInt64 ≤ z ≤ maxInt64)%Z.

(** Two's complement wrap-around of an int64 result. *)
Definition wrap64 (z : Z) : Z :=
  ((z + 9223372036854775808) mod 18446744073709551616 - 9223372036854775808)%Z.

Lemma wrap64_id z : int64_ok z → wrap64 z = z.
Proof. unfold int64_ok, minInt64, maxInt64, wrap64. intros. rewrite Z.mod_small; lia. Qed.

Lemma wrap64_ok z : int64_ok (wrap64 z).
Proof.
  unfold int64_ok, minInt64, maxInt64, wrap64.
  pose proof (Z.mod_pos_bound (z + 9223372036854775808) 18446744073709551616). lia.
Qed.
#[export] Hint Resolve wrap64_ok : obs.

(** ** Package strconv *)
Module Strconv.

Inductive NumErr := ErrSyntax | ErrRange.

(** The digit loop of [ParseUint] in base 10: the accumulated value saturates at
    [maxUint64] with [ErrRange], at once, even when a later byte is no digit. *)
Fixpoint uintLoop (s : string) (n : Z) : Z * option NumErr :=
  match s with
  | EmptyString => (n, None)
  | String c s' =>
      match Ascii.is_nat c with
      | None => (0%Z, Some ErrSyntax)
      | Some d =>
          (* cutoff = maxUint64/10 + 1 *)
          if (1844674407370955162 <=? n)%Z then (maxUint64, Some ErrRange)
          else
            let n1 := (n * 10 + Z.of_nat d)%Z in
            if (maxUint64 <? n1)%Z then (maxUint64, Some ErrRange)
            else uintLoop s' n1
      end
  end.

Definition ParseUint (s : string) : Z * option NumErr :=
  match s with
  | EmptyString => (0%Z, Some ErrSyntax)
  | _ => uintLoop s 0
  end.

(** [strconv.ParseInt(s, 10, 64)]. *)
Definition ParseInt (s : string) : Z * option NumErr :=
  match s with
  | EmptyString => (0%Z, Some ErrSyntax)
  | String c s' =>
      let '(neg, digits) :=
        if Ascii.eqb c "+" then (false, s')
        else if Ascii.eqb c "-" then (true, s') else (false, s) in
      match ParseUint digits with
      | (_, Some ErrSyntax) => (0%Z, Some ErrSyntax)
      | (un, _) =>
          if negb neg && (9223372036854775808 <=? un)%Z then (maxInt64, Some ErrRange)
          else if neg && (9223372036854775808 <? un)%Z then (minInt64, Some ErrRange)
          else ((if neg then (- un)%Z else un), None)
      end
  end.

(** [strconv.FormatInt(n, 10)]. *)
Definition FormatInt (n : Z) : string := pretty n.

Lemma is_nat_pretty_N_char x :
  (x < 10)%N → Ascii.is_nat (pretty_N_char x) = Some (N.to_nat x).
Proof.
  intros Hx. assert (x ∈ [0;1;2;3;4;5;6;7;8;9]%N) as Hin.
  { rewrite !elem_of_cons. lia. }
  rewrite !elem_of_cons, elem_of_nil in Hin.
  by repeat destruct Hin as [->|Hin].
Qed.

(** Parsing what the printer put in front of [s] continues with the printed
    number as the value read so far. *)
Lemma uintLoop_pretty_N_go x s :
  (Z.of_N x ≤ maxUint64)%Z →
  uintLoop (pretty_N_go x s) 0 = uintLoop s (Z.of_N x).
Proof.
  unfold maxUint64. revert s.
  induction (N.lt_wf_0 x) as [x _ IH]; intros s Hx.
  destruct (decide (x = 0)%N) as [->|Hne]; [by rewrite pretty_N_go_0|].
  pose proof (N.div_mod x 10 ltac:(done)) as Hdm.
  pose proof (N.mod_lt x 10 ltac:(done)) as Hm.
  assert (x `div` 10 < x)%N by (apply N.div_lt; lia).
  rewrite pretty_N_go_step by lia.
  rewrite IH by lia. simpl.
  rewrite is_nat_pretty_N_char by done.
  rewrite N_nat_Z. unfold maxUint64.
  set (q := (x `div` 10)%N) in *. set (m := (x `mod` 10)%N) in *. clearbody q m.
  destruct (Z.leb_spec 1844674407370955162 (Z.of_N q)); [lia|].
  destruct (Z.ltb_spec 18446744073709551615 (Z.of_N q * 10 + Z.of_N m))%Z; [lia|].
  f_equal. lia.
Qed.

Lemma pretty_N_go_head x s :
  (0 < x)%N → ∃ d s', pretty_N_go x s = String d s' ∧ Ascii.is_nat d ≠ None.
Proof.
  revert s. induction (N.lt_wf_0 x) as [x _ IH]; intros s Hx.
  rewrite pretty_N_go_step by done.
  destruct (decide (x `div` 10 = 0)%N) as [Hz|Hz].
  - rewrite Hz, pretty_N_go_0. eexists _, s. split; [done|].
    rewrite is_nat_pretty_N_char; [done|by apply N.mod_lt].
  - apply IH; [by apply N.div_lt|by apply N.neq_0_lt_0].
Qed.

Lemma ParseUint_pretty x :
  (Z.of_N x ≤ maxUint64)%Z → ParseUint (pretty x) = (Z.of_N x, None).
Proof.
  intros Hx. unfold pretty, pretty_N. case_decide as Hz; [by subst|].
  destruct (pretty_N_go_head x EmptyString) as (d & s' & He & _); [lia|].
  unfold ParseUint. rewrite He, <-He. by apply uintLoop_pretty_N_go.
Qed.

(** The printer and the parser of token lifetimes are inverse on int64. *)
Lemma ParseInt_FormatInt n : int64_ok n → ParseInt (FormatInt n) = (n, None).
Proof.
  unfold int64_ok, minInt64, maxInt64, FormatInt. intros Hn.
  destruct n as [|p|p]; [done| |].
  - change (pretty (Z.pos p)) with (pretty (N.pos p)).
    assert (ParseUint (pretty (N.pos p)) = (Z.pos p, None)) as Hp.
    { apply ParseUint_pretty. unfold maxUint64. simpl. lia. }
    destruct (pretty_N_go_head (N.pos p) EmptyString) as (d & s' & He & Hd); [lia|].
    change (pretty (N.pos p)) with (pretty_N_go (N.pos p) EmptyString) in *.
    unfold ParseInt. rewrite He. rewrite He in Hp.
    destruct (Ascii.eqb_spec d "+") as [->|_]; [done|].
    destruct (Ascii.eqb_spec d "-") as [->|_]; [done|].
    rewrite Hp. destruct (Z.leb_spec 9223372036854775808 (Z.pos p)); [lia|done].
  - change (pretty (Z.neg p)) with (String "-" (pretty (N.pos p))).
    unfold ParseInt. simpl.
    rewrite ParseUint_pretty by (unfold maxUint64; simpl; lia). simpl.
    destruct (Z.ltb_spec 9223372036854775808 (Z.pos p)); [lia|done].
Qed.

(** Whatever the input, the value returned fits the 64 bits. *)
Lemma uintLoop_bound s n :
  (0 ≤ n ≤ maxUint64)%Z → (0 ≤ (uintLoop s n).1 ≤ maxUint64)%Z.
Proof.
  unfold maxUint64. revert n; induction s as [|c s IH]; intros n Hn; simpl; [lia|].
  destruct (Ascii.is_nat c); [|simpl; lia].
  destruct (Z.leb_spec 1844674407370955162 n); [simpl; unfold maxUint64; lia|].
  unfold maxUint64. case_match eqn:Hlt; [simpl; lia|].
  apply Z.ltb_ge in Hlt. apply IH. lia.
Qed.

Lemma ParseInt_int64 s : int64_ok (ParseInt s).1.
Proof.
  assert (∀ t, 0 ≤ (ParseUint t).1 ≤ maxUint64)%Z as Hb.
  { intros [|c t]; [done|]. apply uintLoop_bound. by unfold maxUint64. }
  unfold maxUint64 in Hb. unfold int64_ok, minInt64, maxInt64.
  destruct s as [|c s]; [done|]. unfold ParseInt.
  destruct (if Ascii.eqb c "+" then _ else _) as [neg digits].
  specialize (Hb digits). destruct (ParseUint digits) as [un [[]|]]; simpl in Hb;
    try done; unfold maxInt64, minInt64;
    destruct neg; simpl; case_match eqn:Hc; simpl; try lia;
    first [apply Z.leb_gt in Hc|apply Z.ltb_ge in Hc]; lia.
Qed.

End Strconv.

(** ** Package time *)
Module Time.

(** The wall-clock part of [time.Time]: seconds since January 1 of year 1 (an
    int64) and nanoseconds in [0, 999999999].  The monotonic reading is left
    out: every comparison the operator makes has a side built by [time.Unix],
    which carries none, so only the wall clock is compared. *)
Record t := mkTime { sec : Z; nsec : Z }.

Definition ok (x : t) : Prop := int64_ok (sec x) ∧ (0 ≤ nsec x < 1000000000)%Z.

(** Seconds from January 1 of year 1 to January 1, 1970. *)
Definition unixToInternal : Z := 62135596800.

Definition Second : Z := 1000000000.
Definition Hour : Z := 3600000000000.

(** [time.Unix(s, 0)]: the addition wraps. *)
Definition Unix (s : Z) : t := mkTime (wrap64 (s + unixToInternal)) 0.

(** [t.Unix()]. *)
Definition toUnix (x : t) : Z := wrap64 (sec x - unixToInternal).

(** [t.addSec(d)]: saturates on overflow. *)
Definition addSec (s d : Z) : Z :=
  let sum := wrap64 (s + d) in
  if Bool.eqb (s <? sum)%Z (0 <? d)%Z then sum
  else if (0 <? d)%Z then maxInt64 else (- maxInt64)%Z.

(** [t.Add(d)], [d] in nanoseconds; Go's [/] and [%] truncate toward zero. *)
Definition Add (x : t) (d : Z) : t :=
  let dsec := (d ÷ 1000000000)%Z in
  let ns := (nsec x + Z.rem d 1000000000)%Z in
  let '(dsec, ns) :=
    if (1000000000 <=? ns)%Z then ((dsec + 1)%Z, (ns - 1000000000)%Z)
    else if (ns <? 0)%Z then ((dsec - 1)%Z, (ns + 1000000000)%Z)
    else (dsec, ns) in
  mkTime (addSec (sec x) dsec) ns.

Definition After (x y : t) : bool :=
  (sec y <? sec x)%Z || ((sec x =? sec y)%Z && (nsec y <? nsec x)%Z).

Definition Before (x y : t) : bool :=
  (sec x <? sec y)%Z || ((sec x =? sec y)%Z && (nsec x <? nsec y)%Z).

Lemma addSec_exact s d : int64_ok s → int64_ok (s + d) → addSec s d = (s + d)%Z.
Proof.
  intros Hs Hd. unfold addSec. rewrite wrap64_id by done.
  destruct (Z.ltb_spec s (s + d)), (Z.ltb_spec 0 d); simpl; try done; lia.
Qed.

(** Adding whole seconds moves the seconds and keeps the nanoseconds. *)
Lemma Add_seconds x k :
  ok x → int64_ok (sec x + k) →
  Add x (k * Second) = mkTime (sec x + k) (nsec x).
Proof.
  intros [Hs Hn] Hk. unfold Add, Second.
  rewrite Z.quot_mul, Z.rem_mul, Z.add_0_r by done.
  destruct (Z.leb_spec 1000000000 (nsec x)); [lia|].
  destruct (Z.ltb_spec (nsec x) 0); [lia|]. by rewrite addSec_exact.
Qed.

(** Adding any duration, as long as the seconds do not overflow, moves the instant
    by that many nanoseconds. *)
Lemma Add_nanos x d :
  ok x → int64_ok (sec x + d ÷ 1000000000 - 1) → int64_ok (sec x + d ÷ 1000000000 + 1) →
  let y := Add x d in (0 ≤ nsec y < 1000000000)%Z ∧
  (sec y * 1000000000 + nsec y = sec x * 1000000000 + nsec x + d)%Z.
Proof.
  intros [Hs Hn] Hlo Hhi y. pose proof (Z.quot_rem' d 1000000000) as Hqr.
  assert (-1000000000 < Z.rem d 1000000000 < 1000000000)%Z as Hr
    by (pose proof (Z.rem_bound_abs d 1000000000); lia).
  subst y. unfold Add. unfold int64_ok in *.
  destruct (Z.leb_spec 1000000000 (nsec x + Z.rem d 1000000000));
    [|destruct (Z.ltb_spec (nsec x + Z.rem d 1000000000) 0)];
    cbn [sec nsec]; rewrite addSec_exact by (unfold int64_ok in *; lia); lia.
Qed.

Lemma toUnix_Unix s : int64_ok s → int64_ok (s + unixToInternal) → toUnix (Unix s) = s.
Proof.
  intros Hs Hw. unfold toUnix, Unix. simpl.
  rewrite (wrap64_id (s + _)) by done. rewrite Z.add_simpl_r. by apply wrap64_id.
Qed.

End Time.

(** ** crypto/sha256 *)

Module Sha256.
Local Open Scope Z_scope.

Definition w32 (z : Z) : Z := z mod 4294967296.
Definition rotr (n x : Z) : Z :=
  Z.lor (Z.shiftr x n) (w32 (Z.shiftl x (32 - n))).

(** The first 32 bits of the fractional parts of the cube roots of the first 64
    primes, and the initial hash value. *)
Definition K : list Z :=
  [1116352408; 1899447441; 3049323471; 3921009573; 961987163; 1508970993;
   2453635748; 2870763221; 3624381080; 310598401; 607225278; 1426881987;
   1925078388; 2162078206; 2614888103; 3248222580; 3835390401; 4022224774;
   264347078; 604807628; 770255983; 1249150122; 1555081692; 1996064986;
   2554220882; 2821834349; 2952996808; 3210313671; 3336571891; 3584528711;
   113926993; 338241895; 666307205; 773529912; 1294757372; 1396182291;
   1695183700; 1986661051; 2177026350; 2456956037; 2730485921; 2820302411;
   3259730800; 3345764771; 3516065817; 3600352804; 4094571909; 275423344;
   430227734; 506948616; 659060556; 883997877; 958139571; 1322822218;
   1537002063; 1747873779; 1955562222; 2024104815; 2227730452; 2361852424;
   2428436474; 2756734187; 3204031479; 3329325298].

Definition H0 : list Z :=
  [1779033703; 3144134277; 1013904242; 2773480762; 1359893119; 2600822924;
   528734635; 1541459225].

Fixpoint octets (s : string) : list Z :=
  match s with
  | EmptyString => []
  | String a s' => Z.of_nat (nat_of_ascii a) :: octets s'
  end.

(** [n] big-endian bytes of [z]. *)
Fixpoint bigEndian (n : nat) (z : Z) : list Z :=
  match n with
  | O => []
  | S n' => bigEndian n' (z / 256) ++ [z mod 256]
  end.

Definition pad (m : list Z) : list Z :=
  let len := Z.of_nat (length m) in
  m ++ [128] ++ replicate (Z.to_nat ((55 - len) mod 64)) 0 ++ bigEndian 8 (len * 8).

Fixpoint words (m : list Z) : list Z :=
  match m with
  | a :: b :: c :: d :: m' =>
      (a * 16777216 + b * 65536 + c * 256 + d) :: words m'
  | _ => []
  end.

(** The message schedule, the latest word first. *)
Fixpoint schedule (n : nat) (ws : list Z) : list Z :=
  match n with
  | O => ws
  | S n' =>
      let w i := nth i ws 0 in
      let s0 := Z.lxor (Z.lxor (rotr 7 (w 14%nat)) (rotr 18 (w 14%nat))) (Z.shiftr (w 14%nat) 3) in
      let s1 := Z.lxor (Z.lxor (rotr 17 (w 1%nat)) (rotr 19 (w 1%nat))) (Z.shiftr (w 1%nat) 10) in
      schedule n' (w32 (w 15%nat + s0 + w 6%nat + s1) :: ws)
  end.

Definition round (st : list Z) (kw : Z * Z) : list Z :=
  match st with
  | [a; b; c; d; e; f; g; h] =>
      let s1 := Z.lxor (Z.lxor (rotr 6 e) (rotr 11 e)) (rotr 25 e) in
      let ch := Z.lxor (Z.land e f) (Z.land (4294967295 - e) g) in
      let t1 := h + s1 + ch + fst kw + snd kw in
      let s0 := Z.lxor (Z.lxor (rotr 2 a) (rotr 13 a)) (rotr 22 a) in
      let maj := Z.lxor (Z.lxor (Z.land a b) (Z.land a c)) (Z.land b c) in
      [w32 (t1 + s0 + maj); a; b; c; w32 (d + t1); e; f; g]
  | _ => st
  end.

Definition block (st ws : list Z) : list Z :=
  let st' := fold_left round (combine K (rev (schedule 48 (rev ws)))) st in
  map (λ p, w32 (fst p + snd p)) (combine st st').

Fixpoint blocks (n : nat) (st ws : list Z) : list Z :=
  match n with
  | O => st
  | S n' => blocks n' (block st (take 16 ws)) (drop 16 ws)
  end.

Definition hexDigit (z : Z) : ascii :=
  ascii_of_nat (Z.to_nat (if z <? 10 then 48 + z else 87 + z)).

Fixpoint hex (m : list Z) : string :=
  match m with
  | [] => EmptyString
  | b :: m' => String (hexDigit (b / 16)) (String (hexDigit (b mod 16)) (hex m'))
  end.

(** [fmt.Sprintf("%x", sha256.Sum256(s))] *)
Definition hexSum256 (s : string) : string :=
  let ws := words (pad (octets s)) in
  hex (mjoin (map (bigEndian 4) (blocks (Nat.div (length ws) 16) H0 ws))).

Example hexSum256_abc :
  hexSum256 "abc" = "ba7816bf8f01cfea414140de5dae2223b00361a396177a9cb410ff61f20015ad".
Proof. vm_compute. reflexivity. Qed.

Example hexSum256_two_blocks :
  hexSum256 "abcdbcdecdefdefgefghfghighijhijkijkljklmklmnlmnomnopnopq" =
  "248d6a61d20638b8e5c026930c3e6039a33ce45964ff2167f6ecedd419db06c1".
Proof. vm_compute. reflexivity. Qed.
End Sha256.

(** ** html/template *)

Module Html.

(** The replacements the escaper makes in text. *)
Definition replacement (a : ascii) : string :=
  match nat_of_ascii a with
  | 0 => Strings.bytes [239; 191; 189]
  | 34 => "&#34;"
  | 38 => "&amp;"
  | 39 => "&#39;"
  | 43 => "&#43;"
  | 60 => "&lt;"
  | 62 => "&gt;"
  | _ => String a EmptyString
  end.

Fixpoint escape (s : string) : string :=
  match s with
  | EmptyString => EmptyString
  | String a s' => replacement a +:+ escape s'
  end.

Definition special (a : ascii) : bool :=
  bool_decide (nat_of_ascii a ∈ [0; 34; 38; 39; 43; 60; 62]).

Fixpoint hasSpecial (s : string) : bool :=
  match s with
  | EmptyString => false
  | String a s' => special a || hasSpecial s'
  end.

Lemma replacement_length a :
  (1 ≤ String.length (replacement a)) ∧
  (special a = true → 2 ≤ String.length (replacement a)) ∧
  (special a = false → replacement a = String a EmptyString).
Proof. destruct a as [[] [] [] [] [] [] [] []]; vm_compute; repeat split; intros; try lia; done. Qed.

Lemma app_length_string s t : String.length (s +:+ t) = String.length s + String.length t.
Proof. induction s; simpl; auto. Qed.

(** Escaping is the identity exactly on the strings without special characters. *)
Lemma escape_id s : escape s = s ↔ hasSpecial s = false.
Proof.
  assert (∀ s, String.length s ≤ String.length (escape s)) as Hlen.
  { clear s. induction s as [|a s IH]; simpl; [lia|]. rewrite app_length_string.
    pose proof (replacement_length a). lia. }
  induction s as [|a s IH]; simpl; [done|].
  destruct (replacement_length a) as (H1 & H2 & H3).
  destruct (special a); simpl.
  - split; [|done]. intros H. apply (f_equal String.length) in H.
    rewrite app_length_string in H. simpl in H. specialize (Hlen s). lia.
  - rewrite H3 by done. simpl. rewrite <-IH. split; [by intros [= ]|by intros ->].
Qed.
End Html.

(** ** encoding/base64 *)

Module Base64.
Local Open Scope Z_scope.

(** The URL-safe alphabet. *)
Definition urlDigit (z : Z) : ascii :=
  ascii_of_nat (Z.to_nat (
    if z <? 26 then 65 + z else if z <? 52 then 71 + z
    else if z <? 62 then z - 4 else if z =? 62 then 45 else 95)).

Fixpoint encodeOctets (m : list Z) : string :=
  match m with
  | a :: b :: c :: m' =>
      String (urlDigit (a / 4)) (String (urlDigit (a mod 4 * 16 + b / 16))
        (String (urlDigit (b mod 16 * 4 + c / 64)) (String (urlDigit (c mod 64))
          (encodeOctets m'))))
  | [a; b] =>
      String (urlDigit (a / 4)) (String (urlDigit (a mod 4 * 16 + b / 16))
        (String (urlDigit (b mod 16 * 4)) "="))
  | [a] => String (urlDigit (a / 4)) (String (urlDigit (a mod 4 * 16)) "==")
  | [] => EmptyString
  end.

(** [base64.URLEncoding.EncodeToString] *)
Definition URLEncode (s : string) : string := encodeOctets (Sha256.octets s).

Example URLEncode_sample : URLEncode "any carnal pleas" = "YW55IGNhcm5hbCBwbGVhcw==".
Proof. reflexivity. Qed.
End Base64.

(** ** time.ParseDuration *)

Module Duration.
Local Open Scope Z_scope.

Definition isDigit (a : ascii) : bool :=
  let n := nat_of_ascii a in (48 <=? n)%nat && (n <=? 57)%nat.
Definition digit (a : ascii) : Z := Z.of_nat (nat_of_ascii a) - 48.
Definition isDot (a : ascii) : bool := (nat_of_ascii a =? 46)%nat.

(** [leadingInt]: [None] on overflow. *)
Fixpoint leadingInt (s : string) (x : Z) : option (Z * string) :=
  match s with
  | EmptyString => Some (x, s)
  | String a s' =>
      if isDigit a then
        if x >? 922337203685477580 then None
        else
          let x' := x * 10 + digit a in
          if x' >? 9223372036854775808 then None else leadingInt s' x'
      else Some (x, s)
  end.

(** [leadingFraction]: the digits that fit, the number of them and the rest; the
    scale is ten to that number, a float64 the factors of which are exact up to
    10^18. *)
Fixpoint leadingFraction (s : string) (x : Z) (digits : nat) (overflow : bool)
  : Z * nat * string :=
  match s with
  | EmptyString => (x, digits, s)
  | String a s' =>
      if isDigit a then
        if overflow then leadingFraction s' x digits true
        else if x >? 922337203685477580 then leadingFraction s' x digits true
        else
          let y := x * 10 + digit a in
          if y >? 9223372036854775808 then leadingFraction s' x digits true
          else leadingFraction s' y (S digits) false
      else (x, digits, s)
  end.

(** float64 arithmetic: 53 bits of precision, exponents below 1024. *)
Definition float (z : Z) : SpecFloat.spec_float :=
  SpecFloat.binary_normalize 53 1024 z 0 false.

Definition uint64OfFloat (x : SpecFloat.spec_float) : Z :=
  match x with
  | SpecFloat.S754_finite false m e => Z.shiftl (Z.pos m) e
  | _ => 0
  end.

(** [uint64(float64(f) * (float64(unit) / scale))] *)
Definition fractionOf (f unit : Z) (digits : nat) : Z :=
  let scale :=
    fold_left (λ s _, SpecFloat.SFmul 53 1024 s (float 10)) (seq 0 digits) (float 1) in
  uint64OfFloat (SpecFloat.SFmul 53 1024 (float f)
    (SpecFloat.SFdiv 53 1024 (float unit) scale)).

Definition unitMap (u : string) : option Z :=
  if String.eqb u "ns" then Some 1
  else if String.eqb u "us" then Some 1000
  else if String.eqb u (Strings.bytes [194; 181; 115]%nat) then Some 1000
  else if String.eqb u (Strings.bytes [206; 188; 115]%nat) then Some 1000
  else if String.eqb u "ms" then Some 1000000
  else if String.eqb u "s" then Some 1000000000
  else if String.eqb u "m" then Some 60000000000
  else if String.eqb u "h" then Some 3600000000000
  else None.

(** The characters up to the next digit or dot, and the rest. *)
Fixpoint takeUnit (s : string) : string * string :=
  match s with
  | EmptyString => (s, s)
  | String a s' =>
      if isDigit a || isDot a then (EmptyString, s)
      else let '(u, r) := takeUnit s' in (String a u, r)
  end.

(** One element of the duration: its value and the rest of the text. *)
Definition element (s : string) : option (Z * string) :=
  match s with
  | EmptyString => None
  | String a _ =>
      if isDigit a || isDot a then
        match leadingInt s 0 with
        | None => None
        | Some (v, s1) =>
            let pre := negb (String.length s1 =? String.length s)%nat in
            let '(f, digits, s2, post) :=
              match s1 with
              | String b s1' =>
                  if isDot b then
                    let '(f, digits, s2) := leadingFraction s1' 0 0 false in
                    (f, digits, s2, negb (String.length s2 =? String.length s1')%nat)
                  else (0, O, s1, false)
              | EmptyString => (0, O, s1, false)
              end in
            if pre || post then
              let '(u, rest) := takeUnit s2 in
              if String.eqb u EmptyString then None
              else
                match unitMap u with
                | None => None
                | Some unit =>
                    if v >? 9223372036854775808 / unit then None
                    else
                      let v1 := v * unit in
                      if f >? 0 then
                        let v2 := v1 + fractionOf f unit digits in
                        if v2 >? 9223372036854775808 then None else Some (v2, rest)
                      else Some (v1, rest)
                end
            else None
        end
      else None
  end.

(** The loop; every element consumes text, so the length of the text is enough
    fuel. *)
Fixpoint elements (fuel : nat) (s : string) (d : Z) : option Z :=
  match s with
  | EmptyString => Some d
  | _ =>
      match fuel with
      | O => None
      | S fuel' =>
          match element s with
          | None => None
          | Some (v, rest) =>
              if d + v >? 9223372036854775808 then None else elements fuel' rest (d + v)
          end
      end
  end.

(** [time.ParseDuration], [None] for an error. *)
Definition ParseDuration (orig : string) : option Z :=
  let '(neg, s) :=
    match orig with
    | String a s' =>
        if (nat_of_ascii a =? 45)%nat then (true, s')
        else if (nat_of_ascii a =? 43)%nat then (false, s') else (false, orig)
    | EmptyString => (false, orig)
    end in
  if String.eqb s "0" then Some 0
  else if String.eqb s EmptyString then None
  else
    match elements (String.length s) s 0 with
    | None => None
    | Some d =>
        if (neg : bool) then Some (- d)
        else if d >? 9223372036854775807 then None else Some d
    end.

Example ParseDuration_samples :
  (ParseDuration "1h", ParseDuration "1h30m", ParseDuration "-1.5h", ParseDuration "0",
   ParseDuration "1", ParseDuration "h", ParseDuration "10d", ParseDuration "0.3s") =
  (Some 3600000000000, Some 5400000000000, Some (-5400000000000), Some 0,
   None, None, None, Some 300000000).
Proof. vm_compute. reflexivity. Qed.

Lemma elements_bound fuel s d r :
  d <= 9223372036854775808 -> elements fuel s d = Some r -> r <= 9223372036854775808.
Proof.
  revert s d; induction fuel as [|fuel IH]; intros [|a s] d Hd; cbn [elements];
    try (intros [= <-]; done); try done.
  destruct (element (String a s)) as [[v rest]|]; [|done].
  destruct (Z.gtb_spec (d + v) 9223372036854775808); [done|]. by apply IH.
Qed.

(** *** The fuel is enough *)

Lemma leadingInt_length s x v r :
  leadingInt s x = Some (v, r) → (String.length r ≤ String.length s)%nat.
Proof.
  revert x; induction s as [|a s IH]; intros x; cbn [leadingInt]; [by intros [= _ <-]|].
  destruct (isDigit a); [|by intros [= _ <-]]. destruct (x >? _); [done|].
  destruct (_ >? _); [done|]. intros H. apply IH in H. simpl. lia.
Qed.

Lemma leadingFraction_length s x n o :
  (String.length (leadingFraction s x n o).2 ≤ String.length s)%nat.
Proof.
  revert x n o; induction s as [|a s IH]; intros x n o; cbn [leadingFraction]; [done|].
  destruct (isDigit a); [|done]. simpl String.length at 2.
  destruct o; [|destruct (x >? _); [|destruct (_ >? _)]];
    (etrans; [apply IH|]; lia).
Qed.

Lemma takeUnit_length s :
  (String.length (takeUnit s).1 + String.length (takeUnit s).2 = String.length s)%nat.
Proof.
  induction s as [|a s IH]; [done|]. simpl. destruct (isDigit a || isDot a); [done|].
  destruct (takeUnit s) as [u r]. simpl in *. lia.
Qed.

Lemma element_length s v rest :
  element s = Some (v, rest) → (String.length rest < String.length s)%nat.
Proof.
  unfold element. destruct s as [|a s']; [done|]. set (s := String a s').
  destruct (isDigit a || isDot a); [|done].
  destruct (leadingInt s 0) as [[v1 s1]|] eqn:Hi; [|done]. apply leadingInt_length in Hi.
  set (q := match s1 with EmptyString => _ | String b s1' => _ end).
  assert (String.length q.1.2 ≤ String.length s1)%nat as Hq.
  { subst q. destruct s1 as [|b s1']; [done|]. destruct (isDot b); [|done].
    pose proof (leadingFraction_length s1' 0 0 false) as Hf.
    destruct (leadingFraction s1' 0 0 false) as [[f n] s2]. simpl in *. lia. }
  destruct q as [[[f n] s2] post]. simpl in Hq. destruct (_ || post); [|done].
  pose proof (takeUnit_length s2) as Hu. destruct (takeUnit s2) as [u r]. simpl in Hu.
  destruct u as [|b u]; [done|]. simpl String.eqb. simpl in Hu.
  destruct (unitMap _) as [unit|]; [|done]. destruct (v1 >? _); [done|].
  destruct (f >? 0); [destruct (_ >? _); [done|]|]; intros [= _ <-]; lia.
Qed.

(** More fuel than characters changes nothing: running out of fuel is not one of
    the ways in which parsing fails. *)
Lemma elements_fuel fuel s d :
  (String.length s ≤ fuel)%nat → elements fuel s d = elements (String.length s) s d.
Proof.
  assert (∀ f1 f2 s d, (String.length s ≤ f1)%nat → (String.length s ≤ f2)%nat →
    elements f1 s d = elements f2 s d) as H; [|by intros; apply H].
  clear. induction f1 as [|f1 IH]; intros f2 [|a s] d H1 H2; try (by destruct f2);
    [simpl in H1; lia|]. destruct f2 as [|f2]; [simpl in H2; lia|]. cbn [elements].
  destruct (element (String a s)) as [[v rest]|] eqn:He; [|done].
  apply element_length in He. destruct (_ >? _); [done|]. apply IH; lia.
Qed.
End Duration.

(** The pattern of a retention: digits and one unit, nothing else. *)
Module Retention.
Definition units : list string := ["ms"; "y"; "w"; "d"; "h"; "m"; "s"].

Fixpoint digitsThenUnit (s : string) : bool :=
  match s with
  | EmptyString => false
  | String a s' =>
      if Duration.isDigit a then digitsThenUnit s' else bool_decide (s ∈ units)
  end.

(** [regexp.MatchString] of a digit one or more times and then one unit. *)
Definition matches (s : string) : bool :=
  match s with
  | String a s' => Duration.isDigit a && digitsThenUnit s'
  | EmptyString => false
  end.

Fixpoint allDigits (s : string) : bool :=
  match s with
  | EmptyString => true
  | String a s' => Duration.isDigit a && allDigits s'
  end.

Lemma digitsThenUnit_spec s :
  digitsThenUnit s = true ↔ ∃ ds u, s = ds +:+ u ∧ allDigits ds = true ∧ u ∈ units.
Proof.
  induction s as [|a s IH]; simpl.
  - split; [done|]. intros (ds & u & H & _ & Hu). destruct ds; [|done]. change (EmptyString = u) in H. subst u.
    by apply (bool_decide_eq_true_2 (EmptyString ∈ units)) in Hu.
  - destruct (Duration.isDigit a) eqn:Ha.
    + rewrite IH. split.
      * intros (ds & u & -> & Hd & Hu). exists (String a ds), u. simpl. by rewrite Ha.
      * intros (ds & u & H & Hd & Hu). destruct ds as [|b ds];
          [change (String a s = u) in H; subst u|
           change (String a s = String b (ds +:+ u)) in H; simpl in Hd; simplify_eq].
        -- exfalso. repeat (apply elem_of_cons in Hu as [Hu|Hu]; [by simplify_eq|]).
           by apply elem_of_nil in Hu.
        -- apply andb_true_iff in Hd as [_ Hd]. eauto.
    + rewrite bool_decide_eq_true. split; [intros; by exists EmptyString, (String a s)|].
      intros (ds & u & H & Hd & Hu). destruct ds as [|b ds];
        [change (String a s = u) in H; by subst u|].
      change (String a s = String b (ds +:+ u)) in H. simpl in Hd. simplify_eq.
      by rewrite Ha in Hd.
Qed.

(** The pattern: at least one digit, then exactly one unit. *)
Lemma matches_spec s :
  matches s = true ↔ ∃ ds u, s = ds +:+ u ∧ ds ≠ EmptyString ∧ allDigits ds = true ∧ u ∈ units.
Proof.
  destruct s as [|a s]; simpl.
  - split; [done|]. intros (ds & u & H & Hn & _). by destruct ds.
  - rewrite andb_true_iff, digitsThenUnit_spec. split.
    + intros (Ha & ds & u & -> & Hd & Hu). exists (String a ds), u. simpl. by rewrite Ha.
    + intros (ds & u & H & Hn & Hd & Hu). destruct ds as [|b ds]; [done|].
      change (String a s = String b (ds +:+ u)) in H. simpl in Hd.
      simplify_eq. apply andb_true_iff in Hd as [? ?]. split; [done|]. by exists ds, u.
Qed.
End Retention.

(** ** Package flag *)

(** [flag.CommandLine.Parse]: flags up to the first argument that is not one. *)
Module Flag.

(** A defined flag: whether it may stand without a value, and the values its
    [Set] accepts. *)
Record FlagDef := mkFlagDef { isBoolFlag : bool; accepts : string → bool }.

(** [strconv.ParseBool] *)
Definition ParseBool (s : string) : option bool :=
  if decide (s ∈ ["1"; "t"; "T"; "true"; "TRUE"; "True"]) then Some true
  else if decide (s ∈ ["0"; "f"; "F"; "false"; "FALSE"; "False"]) then Some false
  else None.

Definition boolFlag : FlagDef :=
  mkFlagDef true (λ v, match ParseBool v with Some _ => true | None => false end).
Definition stringFlag : FlagDef := mkFlagDef false (λ _, true).

(** What stops the program: [-h] with the exit code 0, an error with 2. *)
Inductive ParseError := ErrHelp | ErrFlag (msg : string).

Definition exitCode (e : ParseError) : Z := match e with ErrHelp => 0 | ErrFlag _ => 2 end.

(** The text of a flag without its one or two dashes; [None] when the argument is
    not a flag, and [Some EmptyString] for the terminator [--]. *)
Definition flagText (s : string) : option string :=
  match s with
  | String "-" (String "-" t) => Some t
  | String "-" (String a t) => Some (String a t)
  | _ => None
  end.

(** Name and value around the first equals sign. *)
Fixpoint cutEquals (s : string) : string * option string :=
  match s with
  | EmptyString => (EmptyString, None)
  | String a s' =>
      if Ascii.eqb a "=" then (EmptyString, Some s')
      else let '(n, v) := cutEquals s' in (String a n, v)
  end.

Section parse.
Context (formal : string → option FlagDef).

Abbreviation Assignments := (list (string * string)).

Definition set (name value : string) (d : FlagDef)
    (rest : Assignments + ParseError) : Assignments + ParseError :=
  if accepts d value then
    match rest with inl l => inl ((name, value) :: l) | inr e => inr e end
  else inr (ErrFlag ("invalid value for flag -" +:+ name)).

(** The assignments in the order in which they are made. *)
Fixpoint Parse (args : list string) : Assignments + ParseError :=
  match args with
  | [] => inl []
  | s :: rest =>
      match flagText s with
      | None | Some EmptyString => inl []
      | Some (String "-" _) | Some (String "=" _) => inr (ErrFlag ("bad flag syntax: " +:+ s))
      | Some text =>
          let '(name, value) := cutEquals text in
          match formal name with
          | None =>
              if decide (name = "help" ∨ name = "h") then inr ErrHelp
              else inr (ErrFlag ("flag provided but not defined: -" +:+ name))
          | Some d =>
              match value with
              | Some v => set name v d (Parse rest)
              | None =>
                  if isBoolFlag d then set name "true" d (Parse rest)
                  else
                    match rest with
                    | v :: rest' => set name v d (Parse rest')
                    | [] => inr (ErrFlag ("flag needs an argument: -" +:+ name))
                    end
              end
          end
      end
  end.
End parse.

(** A name of letters and dashes that does not start with a dash. *)
Fixpoint noEquals (s : string) : bool :=
  match s with EmptyString => true | String a s' => negb (Ascii.eqb a "=") && noEquals s' end.

Lemma cutEquals_app n v : noEquals n = true → cutEquals (n +:+ "=" +:+ v) = (n, Some v).
Proof.
  induction n as [|a n IH]; simpl; [done|]. intros [Ha Hn]%andb_true_iff.
  apply negb_true_iff in Ha. rewrite Ha. by rewrite IH.
Qed.
End Flag.
