(* ===== verification/ApiTypes.v ===== *)
(** * The data of the Observability API (api/v1)

    The custom resource's spec and status and the types of other packages they
    mention.  Kubernetes structures the operator only copies (resource
    requirements, tolerations, affinities, ...) are carried as the JSON document
    they serialise to; the ones it looks into are records of the fields it reads
    or writes.  Pointers are options, slices are lists, maps are [gomap]. *)

From S2P Require Import Prelude.

(** ** Kubernetes data the operator passes along *)

Inductive json :=
| JNull
| JBool (b : bool)
| JNum (z : Z)
| JStr (s : string)
| JArr (l : list json)
| JObj (fields : list (string * json)).

Abbreviation ResourceRequirements := json.
Abbreviation Toleration := json.
Abbreviation Affinity := json.

(** A resource quantity, by its canonical text ([Quantity.String()]). *)
Record Quantity := mkQuantity { q_String : string }.

Record LabelSelector := mkLabelSelector {
  ls_MatchLabels : gomap string;
  ls_MatchExpressions : list json;
}.

(** [&metav1.LabelSelector{MatchLabels: m}] *)
Definition matchLabels (m : gomap string) : LabelSelector := mkLabelSelector m [].

(** [&metav1.LabelSelector{}] *)
Definition emptySelector : LabelSelector := mkLabelSelector None [].

(** [StorageSpec.VolumeClaimTemplate]: its embedded name, the volume it names
    and the requested resources; [ss_Rest] is everything else. *)
Record StorageSpec := mkStorageSpec {
  ss_Name : string;
  ss_VolumeName : string;
  ss_Requests : gomap Quantity;
  ss_Rest : json;
}.

(** ** Enumerations

    Go string types with named constants; any other string, the zero value
    included, is the last constructor. *)

Inductive ObservabilityStageName :=
| GrafanaInstallation
| GrafanaConfiguration
| PrometheusInstallation
| PrometheusConfiguration
| Csv
| TokenRequest
| PromtailInstallation
| AlertmanagerInstallation
| Configuration
| LoggingInstallation
| Migration
| OtherStage (s : string).

Inductive ObservabilityStageStatus :=
| ResultSuccess
| ResultFailed
| ResultInProgress
| OtherStatus (s : string).

#[export] Instance StageName_eq_dec : EqDecision ObservabilityStageName.
Proof. solve_decision. Defined.
#[export] Instance StageStatus_eq_dec : EqDecision ObservabilityStageStatus.
Proof. solve_decision. Defined.

(** The authentication type is compared with the empty string and read from
    secrets, so it stays a string. *)
Abbreviation ObservabilityAuthType := string.
Definition AuthTypeDex : ObservabilityAuthType := "dex".
Definition AuthTypeRedhat : ObservabilityAuthType := "redhat".

(** ** Spec and status *)

Record Storage := mkStorage {
  st_PrometheusStorageSpec : option StorageSpec;
  st_AlertManagerStorageSpec : option StorageSpec;
}.

Record SelfContained := mkSelfContained {
  sc_DisableRepoSync : option bool;
  sc_DisableObservatorium : option bool;
  sc_DisablePagerDuty : option bool;
  sc_DisableDeadmansSnitch : option bool;
  sc_DisableSmtp : option bool;
  sc_DisableBlackboxExporter : option bool;
  sc_SelfSignedCerts : option bool;
  sc_OverrideSelectors : option bool;
  sc_FederatedMetrics : list string;
  sc_PodMonitorLabelSelector : option LabelSelector;
  sc_PodMonitorNamespaceSelector : option LabelSelector;
  sc_ServiceMonitorLabelSelector : option LabelSelector;
  sc_ServiceMonitorNamespaceSelector : option LabelSelector;
  sc_RuleLabelSelector : option LabelSelector;
  sc_RuleNamespaceSelector : option LabelSelector;
  sc_ProbeLabelSelector : option LabelSelector;
  sc_ProbeNamespaceSelector : option LabelSelector;
  sc_GrafanaDashboardLabelSelector : option LabelSelector;
  sc_AlertManagerConfigSecret : string;
  sc_AlertManagerVersion : string;
  sc_BlackboxBearerTokenSecret : string;
  sc_PrometheusVersion : string;
  sc_AlertManagerResourceRequirement : option ResourceRequirements;
  sc_PrometheusResourceRequirement : option ResourceRequirements;
  sc_PrometheusOperatorResourceRequirement : option ResourceRequirements;
  sc_GrafanaResourceRequirement : option ResourceRequirements;
  sc_GrafanaOperatorResourceRequirement : option ResourceRequirements;
  sc_GrafanaVersion : string;
  sc_GrafanaInitImage : string;
  sc_DisableLogging : option bool;
  sc_OriginOauthProxyImage : string;
}.

Record DescopedMode := mkDescopedMode {
  dm_Enabled : option bool;
  dm_PrometheusOperatorNamespace : string;
}.

Record ObservabilitySpec := mkObservabilitySpec {
  spec_ClusterID : string;
  spec_ConfigurationSelector : option LabelSelector;
  spec_ResyncPeriod : string;
  spec_Storage : option Storage;
  spec_Tolerations : option (list Toleration);
  spec_Affinity : option Affinity;
  spec_SelfContained : option SelfContained;
  spec_DescopedMode : option DescopedMode;
  spec_Retention : string;
  spec_AlertManagerDefaultName : string;
  spec_PrometheusDefaultName : string;
  spec_GrafanaDefaultName : string;
}.

Record ObservabilityStatus := mkObservabilityStatus {
  status_Stage : ObservabilityStageName;
  status_StageStatus : ObservabilityStageStatus;
  status_LastMessage : string;
  status_TokenExpires : Z;
  status_ClusterID : string;
  status_LastSynced : Z;
  status_Migrated : bool;
  status_ResourcesRoute : string;
}.

(** [reflect.DeepEqual] on two statuses. *)
#[export] Instance ObservabilityStatus_eq_dec : EqDecision ObservabilityStatus.
Proof. solve_decision. Defined.

(** ** Zero values and field assignments *)

Definition zeroSelfContained : SelfContained :=
  mkSelfContained None None None None None None None None [] None None None None
    None None None None None EmptyString EmptyString EmptyString EmptyString None
    None None None None EmptyString EmptyString None EmptyString.

Definition zeroSpec : ObservabilitySpec :=
  mkObservabilitySpec EmptyString None EmptyString None None None None None
    EmptyString EmptyString EmptyString EmptyString.

Definition zeroStatus : ObservabilityStatus :=
  mkObservabilityStatus (OtherStage EmptyString) (OtherStatus EmptyString)
    EmptyString 0 EmptyString 0 false EmptyString.

Definition set_Stage (v : ObservabilityStageName) (s : ObservabilityStatus) :=
  mkObservabilityStatus v (status_StageStatus s) (status_LastMessage s)
    (status_TokenExpires s) (status_ClusterID s) (status_LastSynced s)
    (status_Migrated s) (status_ResourcesRoute s).

Definition set_StageStatus (v : ObservabilityStageStatus) (s : ObservabilityStatus) :=
  mkObservabilityStatus (status_Stage s) v (status_LastMessage s)
    (status_TokenExpires s) (status_ClusterID s) (status_LastSynced s)
    (status_Migrated s) (status_ResourcesRoute s).

Definition set_LastMessage (v : string) (s : ObservabilityStatus) :=
  mkObservabilityStatus (status_Stage s) (status_StageStatus s) v
    (status_TokenExpires s) (status_ClusterID s) (status_LastSynced s)
    (status_Migrated s) (status_ResourcesRoute s).

Definition set_ClusterID (v : string) (s : ObservabilityStatus) :=
  mkObservabilityStatus (status_Stage s) (status_StageStatus s)
    (status_LastMessage s) (status_TokenExpires s) v (status_LastSynced s)
    (status_Migrated s) (status_ResourcesRoute s).

Definition set_LastSynced (v : Z) (s : ObservabilityStatus) :=
  mkObservabilityStatus (status_Stage s) (status_StageStatus s)
    (status_LastMessage s) (status_TokenExpires s) (status_ClusterID s) v
    (status_Migrated s) (status_ResourcesRoute s).

Definition set_Migrated (v : bool) (s : ObservabilityStatus) :=
  mkObservabilityStatus (status_Stage s) (status_StageStatus s)
    (status_LastMessage s) (status_TokenExpires s) (status_ClusterID s)
    (status_LastSynced s) v (status_ResourcesRoute s).

Definition set_ResourcesRoute (v : string) (s : ObservabilityStatus) :=
  mkObservabilityStatus (status_Stage s) (status_StageStatus s)
    (status_LastMessage s) (status_TokenExpires s) (status_ClusterID s)
    (status_LastSynced s) (status_Migrated s) v.
