(* ===== verification/K8s.v ===== *)
(** * Kubernetes objects

    The kinds of objects the operator reads or writes, each with the fields of
    its Go type that the operator touches; [Object k] is an object of kind [k],
    its metadata and its body.  [error] is what a call into the Kubernetes
    client, or into another library, can fail with, classified by the predicates
    the operator applies to it (IsNotFound, IsAlreadyExists, IsGone,
    IsNoMatchError). *)

From S2P Require Import Prelude ApiTypes.

(** ** Errors *)

Inductive Reason :=
| ReasonNotFound
| ReasonAlreadyExists
| ReasonGone
| ReasonBadRequest
| ReasonUnknown.

Inductive error :=
| StatusError (reason : Reason) (msg : string)
| NoMatchError (msg : string)
| OtherError (msg : string)
| WrapError (msg : string) (cause : error).

#[export] Instance Reason_eq_dec : EqDecision Reason.
Proof. solve_decision. Defined.

(** The API status an error carries; a wrapped error is looked through, as
    [errors.As] does. *)
Fixpoint reasonForError (e : error) : Reason :=
  match e with
  | StatusError r _ => r
  | WrapError _ c => reasonForError c
  | _ => ReasonUnknown
  end.

Definition IsNotFound (e : error) : bool :=
  bool_decide (reasonForError e = ReasonNotFound).
Definition IsAlreadyExists (e : error) : bool :=
  bool_decide (reasonForError e = ReasonAlreadyExists).
Definition IsGone (e : error) : bool :=
  bool_decide (reasonForError e = ReasonGone).

(** [meta.IsNoMatchError] looks at the error itself. *)
Definition IsNoMatchError (e : error) : bool :=
  match e with NoMatchError _ => true | _ => false end.

(** [err.Error()] *)
Fixpoint Error (e : error) : string :=
  match e with
  | StatusError _ m | NoMatchError m | OtherError m => m
  | WrapError m c => m +:+ ": " +:+ Error c
  end.

(** ** Metadata *)

Record ObjectMeta := mkMeta {
  Name : string;
  Namespace : string;
  Labels : gomap string;
  Annotations : gomap string;
  Finalizers : list string;
  DeletionTimestamp : option Z;
  ResourceVersion : string;
}.

(** ** Pod templates, shared by several kinds *)

Inductive IntOrString := FromInt (z : Z) | FromString (s : string).

Record ContainerPort := mkContainerPort {
  cp_Name : string;
  cp_ContainerPort : Z;
  cp_Protocol : string;
}.

Inductive EnvVar :=
| EnvValue (name value : string)
| EnvFieldRef (name fieldPath : string).

Record VolumeMount := mkVolumeMount { vm_Name : string; vm_MountPath : string }.

Inductive VolumeSource :=
| ConfigMapVolume (name : string)
| HostPathVolume (path : string)
| SecretVolume (secretName : string).

Record Volume := mkVolume { vol_Name : string; vol_Source : VolumeSource }.

Record Container := mkContainer {
  c_Name : string;
  c_Image : string;
  c_Command : list string;
  c_Args : list string;
  c_Ports : list ContainerPort;
  c_Env : list EnvVar;
  c_VolumeMounts : list VolumeMount;
  c_ImagePullPolicy : string;
  c_Privileged : option bool;
  c_TerminationMessagePath : string;
  c_TerminationMessagePolicy : string;
}.

Record PodSpec := mkPodSpec {
  pod_PriorityClassName : string;
  pod_ServiceAccountName : string;
  pod_Containers : list Container;
  pod_Volumes : list Volume;
  pod_ImagePullSecrets : list string;
  pod_Affinity : option Affinity;
}.

Record PodTemplateSpec := mkPodTemplate {
  pt_Labels : gomap string;
  pt_Spec : PodSpec;
}.

Definition zeroPodTemplate : PodTemplateSpec :=
  mkPodTemplate None (mkPodSpec EmptyString EmptyString [] [] [] None).

(** ** Bodies *)

Record SecretBody := mkSecretBody {
  secret_Type : string;
  secret_Data : gomap string;
  secret_StringData : gomap string;
}.

Record ConfigMapBody := mkConfigMapBody { configmap_Data : gomap string }.

Record Condition := mkCondition { cond_Type : string; cond_Status : string }.

Record ServicePort := mkServicePort {
  sp_Name : string;
  sp_Protocol : string;
  sp_Port : Z;
  sp_TargetPort : IntOrString;
}.

Record ServiceBody := mkServiceBody {
  service_Ports : list ServicePort;
  service_Selector : gomap string;
  service_Conditions : list Condition;
}.

Record PolicyRule := mkPolicyRule {
  pr_Verbs : list string;
  pr_APIGroups : list string;
  pr_Resources : list string;
  pr_ResourceNames : list string;
  pr_NonResourceURLs : list string;
}.

Record RoleRef := mkRoleRef { rr_APIGroup : string; rr_Kind : string; rr_Name : string }.
Record Subject := mkSubject { sub_Kind : string; sub_Name : string; sub_Namespace : string }.

Record ClusterRoleBody := mkClusterRoleBody { role_Rules : list PolicyRule }.
Record ClusterRoleBindingBody := mkClusterRoleBindingBody {
  binding_Subjects : list Subject;
  binding_RoleRef : RoleRef;
}.

Record RouteTargetReference := mkRouteTarget { to_Kind : string; to_Name : string }.

Record RouteSpec := mkRouteSpec {
  route_Host : string;
  route_To : RouteTargetReference;
  route_Port : option IntOrString;
  route_TLS : option string;
  route_WildcardPolicy : string;
}.

(** [route_Ingress]: the conditions of each ingress of the status. *)
Record RouteBody := mkRouteBody {
  route_Spec : RouteSpec;
  route_Ingress : list (list Condition);
}.

Record DeploymentBody := mkDeploymentBody {
  deployment_Selector : option LabelSelector;
  deployment_Template : PodTemplateSpec;
  deployment_ReadyReplicas : Z;
}.

Record DaemonSetBody := mkDaemonSetBody {
  daemonset_Selector : option LabelSelector;
  daemonset_Template : PodTemplateSpec;
}.

(** [np_Ingress]: the pod selectors of the peers of each ingress rule. *)
Record NetworkPolicyBody := mkNetworkPolicyBody {
  np_PodSelector : LabelSelector;
  np_Ingress : list (list LabelSelector);
  np_PolicyTypes : list string;
}.

Record PersistentVolumeBody := mkPVBody {
  pv_ClaimRef : option (string * string);
  pv_Capacity : gomap Quantity;
}.
Record PersistentVolumeClaimBody := mkPVCBody { pvc_VolumeName : string }.

Record CatalogSourceBody := mkCatalogSourceBody {
  cs_SourceType : string;
  cs_Image : string;
  cs_SecurityContextConfig : option string;
}.

Record SubscriptionSpec := mkSubscriptionSpec {
  subs_CatalogSource : string;
  subs_CatalogSourceNamespace : string;
  subs_Package : string;
  subs_Channel : string;
  subs_StartingCSV : string;
  subs_InstallPlanApproval : string;
  subs_Config : option ResourceRequirements;
}.
Record SubscriptionBody := mkSubscriptionBody {
  subscription_Spec : option SubscriptionSpec;
  subscription_InstalledCSV : string;
}.

Record OperatorGroupBody := mkOperatorGroupBody { og_TargetNamespaces : list string }.

(** One entry of [Spec.InstallStrategy.StrategySpec.DeploymentSpecs]: its name,
    the priority class of its pod template, and the rest. *)
Record StrategyDeploymentSpec := mkStrategyDeploymentSpec {
  sds_Name : string;
  sds_PriorityClassName : string;
  sds_Rest : json;
}.
Record CSVBody := mkCSVBody { csv_DeploymentSpecs : list StrategyDeploymentSpec }.

Record OAuth2 := mkOAuth2 {
  oauth2_ClientID : string * string;
  oauth2_ClientSecret : string * string;
  oauth2_TokenURL : string;
}.

Record RemoteWriteSpec := mkRemoteWriteSpec {
  rw_URL : string;
  rw_Name : string;
  rw_RemoteTimeout : string;
  rw_WriteRelabelConfigs : list json;
  rw_BearerTokenFile : string;
  rw_InsecureSkipVerify : bool;
  rw_ProxyURL : string;
  rw_QueueConfig : option json;
  rw_OAuth2 : option OAuth2;
}.

Record AlertmanagerEndpoints := mkAlertmanagerEndpoints {
  ae_Namespace : string;
  ae_Name : string;
  ae_Port : IntOrString;
  ae_Scheme : string;
  ae_CAFile : string;
  ae_ServerName : string;
  ae_BearerTokenFile : string;
}.

Record PrometheusBody := mkPrometheusBody {
  prom_PodAnnotations : gomap string;
  prom_Image : option string;
  prom_Version : string;
  prom_PriorityClassName : string;
  prom_ServiceAccountName : string;
  prom_ExternalURL : string;
  prom_AdditionalScrapeConfigs : option (string * string);
  prom_ExternalLabels : gomap string;
  prom_Volumes : list Volume;
  prom_PodMonitorSelector : option LabelSelector;
  prom_PodMonitorNamespaceSelector : option LabelSelector;
  prom_ServiceMonitorSelector : option LabelSelector;
  prom_ServiceMonitorNamespaceSelector : option LabelSelector;
  prom_ProbeSelector : option LabelSelector;
  prom_ProbeNamespaceSelector : option LabelSelector;
  prom_RemoteWrite : list RemoteWriteSpec;
  prom_Secrets : list string;
  prom_Containers : list Container;
  prom_Resources : ResourceRequirements;
  prom_Retention : string;
  prom_RuleSelector : option LabelSelector;
  prom_RuleNamespaceSelector : option LabelSelector;
  prom_Alerting : list AlertmanagerEndpoints;
  prom_Storage : option StorageSpec;
  prom_Tolerations : option (list Toleration);
  prom_Affinity : option Affinity;
}.

Record AlertmanagerBody := mkAlertmanagerBody {
  am_PodAnnotations : gomap string;
  am_ConfigSecret : string;
  am_ListenLocal : bool;
  am_ExternalURL : string;
  am_ServiceAccountName : string;
  am_Secrets : list string;
  am_PriorityClassName : string;
  am_Containers : list Container;
  am_Version : string;
  am_Resources : ResourceRequirements;
  am_Storage : option StorageSpec;
}.

Record Rule := mkRule {
  rule_Alert : string;
  rule_Expr : IntOrString;
  rule_Labels : gomap string;
  rule_Rest : json;
}.
Record RuleGroup := mkRuleGroup {
  group_Name : string;
  group_Rules : list Rule;
  group_Rest : json;
}.
Record PrometheusRuleBody := mkPrometheusRuleBody { rule_Groups : list RuleGroup }.

Record PodMonitorBody := mkPodMonitorBody { podmonitor_Spec : json }.

Record GrafanaDashboardBody := mkGrafanaDashboardBody {
  dashboard_Json : string;
  dashboard_Jsonnet : string;
  dashboard_Rest : json;
}.

Record GrafanaDataSourceFields := mkGrafanaDataSourceFields {
  ds_Name : string;
  ds_Type : string;
  ds_Access : string;
  ds_Url : string;
  ds_IsDefault : bool;
  ds_Version : Z;
  ds_Editable : bool;
  ds_TlsSkipVerify : bool;
  ds_TimeInterval : string;
}.
Record GrafanaDataSourceBody := mkGrafanaDataSourceBody {
  datasource_Name : string;
  datasource_Datasources : list GrafanaDataSourceFields;
}.

Record GrafanaBody := mkGrafanaBody {
  grafana_LogMode : string;
  grafana_LogLevel : string;
  grafana_DisableLoginForm : option bool;
  grafana_DisableSignoutMenu : option bool;
  grafana_AuthBasicEnabled : option bool;
  grafana_AuthAnonymousEnabled : option bool;
  grafana_Containers : list Container;
  grafana_BaseImage : string;
  grafana_DashboardLabelSelector : list LabelSelector;
  grafana_IngressEnabled : bool;
  grafana_IngressTargetPort : string;
  grafana_IngressTermination : string;
  grafana_InitImage : string;
  grafana_Secrets : list string;
  grafana_ServiceAnnotations : gomap string;
  grafana_ServicePorts : list ServicePort;
  grafana_ServiceAccountAnnotations : gomap string;
  grafana_PreferService : option bool;
  grafana_Replicas : option Z;
  grafana_PriorityClassName : string;
  grafana_DeploymentAnnotations : gomap string;
  grafana_Tolerations : option (list Toleration);
  grafana_Affinity : option Affinity;
  grafana_Resources : option ResourceRequirements;
}.

Record ClusterLoggingBody := mkClusterLoggingBody {
  cl_ManagementState : string;
  cl_LogsType : string;
  cl_Resources : option ResourceRequirements;
  cl_Tolerations : list Toleration;
}.

(** [input_Namespaces]: [Application.Namespaces], [None] for a nil Application. *)
Record InputSpec := mkInputSpec {
  input_Name : string;
  input_Namespaces : option (list string);
}.
Record OutputSpec := mkOutputSpec {
  output_Name : string;
  output_Type : string;
  output_Region : string;
  output_GroupBy : string;
  output_Secret : string;
}.
Record PipelineSpec := mkPipelineSpec {
  pipeline_OutputRefs : list string;
  pipeline_InputRefs : list string;
  pipeline_Name : string;
}.
Record ClusterLogForwarderBody := mkClusterLogForwarderBody {
  clf_Inputs : list InputSpec;
  clf_Outputs : list OutputSpec;
  clf_Pipelines : list PipelineSpec;
}.

(** [Status.PlatformStatus.Type], [None] for a nil PlatformStatus. *)
Record InfrastructureBody := mkInfrastructureBody { infra_PlatformType : option string }.

Record ClusterVersionBody := mkClusterVersionBody {
  cv_ClusterID : string;
  cv_DesiredVersion : string;
}.

Record ObservabilityBody := mkObservabilityBody {
  Spec : ObservabilitySpec;
  Status : ObservabilityStatus;
}.

(** ** Kinds and objects *)

Inductive Kind :=
| KSecret | KConfigMap | KService | KServiceAccount | KNamespace
| KClusterRole | KClusterRoleBinding | KRoute | KDeployment | KStatefulSet
| KDaemonSet | KNetworkPolicy | KPersistentVolume | KPersistentVolumeClaim
| KCatalogSource | KSubscription | KOperatorGroup | KClusterServiceVersion
| KPrometheus | KAlertmanager | KPrometheusRule | KPodMonitor
| KGrafana | KGrafanaDashboard | KGrafanaDataSource
| KClusterLogging | KClusterLogForwarder | KInfrastructure | KClusterVersion
| KObservability.

#[export] Instance Kind_eq_dec : EqDecision Kind.
Proof. solve_decision. Defined.

Definition bodyOf (k : Kind) : Type :=
  match k with
  | KSecret => SecretBody
  | KConfigMap => ConfigMapBody
  | KService => ServiceBody
  | KServiceAccount | KNamespace | KStatefulSet => unit
  | KClusterRole => ClusterRoleBody
  | KClusterRoleBinding => ClusterRoleBindingBody
  | KRoute => RouteBody
  | KDeployment => DeploymentBody
  | KDaemonSet => DaemonSetBody
  | KNetworkPolicy => NetworkPolicyBody
  | KPersistentVolume => PersistentVolumeBody
  | KPersistentVolumeClaim => PersistentVolumeClaimBody
  | KCatalogSource => CatalogSourceBody
  | KSubscription => SubscriptionBody
  | KOperatorGroup => OperatorGroupBody
  | KClusterServiceVersion => CSVBody
  | KPrometheus => PrometheusBody
  | KAlertmanager => AlertmanagerBody
  | KPrometheusRule => PrometheusRuleBody
  | KPodMonitor => PodMonitorBody
  | KGrafana => GrafanaBody
  | KGrafanaDashboard => GrafanaDashboardBody
  | KGrafanaDataSource => GrafanaDataSourceBody
  | KClusterLogging => ClusterLoggingBody
  | KClusterLogForwarder => ClusterLogForwarderBody
  | KInfrastructure => InfrastructureBody
  | KClusterVersion => ClusterVersionBody
  | KObservability => ObservabilityBody
  end.

Record Object (k : Kind) := mkObject { meta : ObjectMeta; body : bodyOf k }.
Arguments mkObject {k} _ _.
Arguments meta {k} _.
Arguments body {k} _.

Abbreviation Secret := (Object KSecret).
Abbreviation ConfigMap := (Object KConfigMap).
Abbreviation Route := (Object KRoute).
Abbreviation Service := (Object KService).
Abbreviation Observability := (Object KObservability).

(** The zero value of each body, for objects of which only the metadata is
    written. *)
Definition zeroBody (k : Kind) : bodyOf k :=
  let e := EmptyString in
  match k with
  | KSecret => mkSecretBody e None None
  | KConfigMap => mkConfigMapBody None
  | KService => mkServiceBody [] None []
  | KServiceAccount | KNamespace | KStatefulSet => tt
  | KClusterRole => mkClusterRoleBody []
  | KClusterRoleBinding => mkClusterRoleBindingBody [] (mkRoleRef e e e)
  | KRoute => mkRouteBody (mkRouteSpec e (mkRouteTarget e e) None None e) []
  | KDeployment => mkDeploymentBody None zeroPodTemplate 0
  | KDaemonSet => mkDaemonSetBody None zeroPodTemplate
  | KNetworkPolicy => mkNetworkPolicyBody emptySelector [] []
  | KPersistentVolume => mkPVBody None None
  | KPersistentVolumeClaim => mkPVCBody e
  | KCatalogSource => mkCatalogSourceBody e e None
  | KSubscription => mkSubscriptionBody None e
  | KOperatorGroup => mkOperatorGroupBody []
  | KClusterServiceVersion => mkCSVBody []
  | KPrometheus =>
      mkPrometheusBody None None e e e e None None [] None None None None None None
        [] [] [] JNull e None None [] None None None
  | KAlertmanager => mkAlertmanagerBody None e false e e [] e [] e JNull None
  | KPrometheusRule => mkPrometheusRuleBody []
  | KPodMonitor => mkPodMonitorBody JNull
  | KGrafana =>
      mkGrafanaBody e e None None None None [] e [] false e e e [] None [] None
        None None e None None None None
  | KGrafanaDashboard => mkGrafanaDashboardBody e e JNull
  | KGrafanaDataSource => mkGrafanaDataSourceBody e []
  | KClusterLogging => mkClusterLoggingBody e e None []
  | KClusterLogForwarder => mkClusterLogForwarderBody [] [] []
  | KInfrastructure => mkInfrastructureBody None
  | KClusterVersion => mkClusterVersionBody e e
  | KObservability => mkObservabilityBody zeroSpec zeroStatus
  end.

(** [ObjectMeta{Name: name, Namespace: ns}] *)
Definition metaOf (name ns : string) : ObjectMeta :=
  mkMeta name ns None None [] None EmptyString.

Definition set_Labels (ls : gomap string) (m : ObjectMeta) : ObjectMeta :=
  mkMeta (Name m) (Namespace m) ls (Annotations m) (Finalizers m)
    (DeletionTimestamp m) (ResourceVersion m).
Definition set_Annotations (a : gomap string) (m : ObjectMeta) : ObjectMeta :=
  mkMeta (Name m) (Namespace m) (Labels m) a (Finalizers m)
    (DeletionTimestamp m) (ResourceVersion m).
Definition set_Name (n : string) (m : ObjectMeta) : ObjectMeta :=
  mkMeta n (Namespace m) (Labels m) (Annotations m) (Finalizers m)
    (DeletionTimestamp m) (ResourceVersion m).
Definition set_Namespace (n : string) (m : ObjectMeta) : ObjectMeta :=
  mkMeta (Name m) n (Labels m) (Annotations m) (Finalizers m)
    (DeletionTimestamp m) (ResourceVersion m).
Definition set_Finalizers (f : list string) (m : ObjectMeta) : ObjectMeta :=
  mkMeta (Name m) (Namespace m) (Labels m) (Annotations m) f
    (DeletionTimestamp m) (ResourceVersion m).
Definition set_DeletionTimestamp (t : option Z) (m : ObjectMeta) : ObjectMeta :=
  mkMeta (Name m) (Namespace m) (Labels m) (Annotations m) (Finalizers m) t
    (ResourceVersion m).
Definition set_ResourceVersion (v : string) (m : ObjectMeta) : ObjectMeta :=
  mkMeta (Name m) (Namespace m) (Labels m) (Annotations m) (Finalizers m)
    (DeletionTimestamp m) v.

Section objects.
Context {k : Kind}.

(** An object with a name and a namespace and nothing else. *)
Definition stub (name ns : string) : Object k := mkObject (metaOf name ns) (zeroBody k).

Definition withMeta (f : ObjectMeta → ObjectMeta) (o : Object k) : Object k :=
  mkObject (f (meta o)) (body o).
Definition withBody (b : bodyOf k) (o : Object k) : Object k := mkObject (meta o) b.

Definition nameOf (o : Object k) : string := Name (meta o).
Definition namespaceOf (o : Object k) : string := Namespace (meta o).
End objects.
Arguments stub k name ns : clear implicits.

(** What identifies an object of the cluster: its kind, namespace and name. *)
Record ObjectKey := mkKey { key_Kind : Kind; key_Namespace : string; key_Name : string }.

#[export] Instance ObjectKey_eq_dec : EqDecision ObjectKey.
Proof. solve_decision. Defined.

Definition keyOf {k} (o : Object k) : ObjectKey := mkKey k (namespaceOf o) (nameOf o).
