(* ===== verification/Prog.v ===== *)
(** * Programs that call out

    The operator is sequential code that calls its environment: the Kubernetes
    API server, HTTP servers, the clock, the random source, the file system and
    the metrics registry (and the runtime, which chooses the order of a map
    iteration).  A Go function becomes a [prog A]: it returns a value,
    panics, or makes a call and continues with the answer.  Nothing is assumed
    of the answers: [wp p Φ] says that [Φ] holds of the trace of calls and the
    outcome of [p] for every sequence of answers, and [exec] runs [p] against a
    concrete environment.  [CreateOrUpdate] of controller-runtime takes a
    callback, so it is not a call but an interface, [ControllerUtil], with its
    documented contract as a law. *)

From S2P Require Import Prelude GoLib ApiTypes K8s.

(** ** Calls and answers *)

Inductive Metric :=
| TotalReconciliations (stage : ObservabilityStageName)
| FailedReconciliations (stage : ObservabilityStageName)
| SuccessfulConfigurationSyncs
| FailedConfigurationSyncs.

#[export] Instance Metric_eq_dec : EqDecision Metric.
Proof. solve_decision. Defined.

Record Request := mkRequest {
  req_Method : string;
  req_URL : string;
  req_Header : list (string * string);
  req_Body : list (string * string);
}.

(** [resp_Body] is what [io.ReadAll(resp.Body)] gives. *)
Record Response := mkResponse {
  resp_StatusCode : Z;
  resp_Status : string;
  resp_Body : string + error;
}.

Inductive FileError := FileNotExist | FileOther (msg : string).

(** [ns] empty: every namespace; [labels] nil or empty: no label condition.
    [CRange] is a [range] over a map with these keys, in an order the runtime
    chooses. *)
Inductive call :=
| CGet (k : Kind) (ns name : string)
| CList (k : Kind) (ns : string) (labels : gomap string)
| CCreate {k : Kind} (o : Object k)
| CUpdate {k : Kind} (o : Object k)
| CStatusUpdate (o : Observability)
| CDelete {k : Kind} (o : Object k)
| CHttp (r : Request)
| CNow
| CRand (n : nat)
| CReadFile (path : string)
| CGetenv (name : string)
| CInc (m : Metric)
| CRange (keys : list string).

(** Writing an object gives it back as the server stored it. *)
Definition answer (c : call) : Type :=
  match c with
  | CGet k _ _ => Object k + error
  | CList k _ _ => list (Object k) + error
  | @CCreate k _ | @CUpdate k _ => Object k + error
  | CStatusUpdate _ => Observability + error
  | @CDelete _ _ => option error
  | CHttp _ => Response + error
  | CNow => Time.t
  | CRand _ => string + error
  | CReadFile _ => string + FileError
  | CGetenv _ => string
  | CInc _ => unit
  | CRange _ => list string
  end.

(** ** Programs *)

Inductive prog (A : Type) : Type :=
| Ret (a : A)
| Panic
| Call (c : call) (k : answer c → prog A).
Arguments Ret {A} a.
Arguments Panic {A}.
Arguments Call {A} c k.

Fixpoint pbind {A B} (p : prog A) (f : A → prog B) : prog B :=
  match p with
  | Ret a => f a
  | Panic => Panic
  | Call c k => Call c (λ x, pbind (k x) f)
  end.

Notation "x ← y ; z" := (pbind y (λ x : _, z))
  (at level 20, y at level 100, z at level 200, only parsing) : obs_scope.
Notation "' x ← y ; z" := (pbind y (λ x : _, z))
  (at level 20, x pattern, y at level 100, z at level 200, only parsing) : obs_scope.

(** One call, its answer the result. *)
Definition request (c : call) : prog (answer c) := Call c (λ x, Ret x).

(** The calls at the types of their answers. *)
Abbreviation Get k ns name := (request (CGet k ns name) : prog (Object k + error)).
Abbreviation List_ k ns labels :=
  (request (CList k ns labels) : prog (list (Object k) + error)).
Abbreviation Create o := (request (CCreate o) : prog (Object _ + error)).
Abbreviation Update o := (request (CUpdate o) : prog (Object _ + error)).
Abbreviation StatusUpdate o := (request (CStatusUpdate o) : prog (Observability + error)).
Abbreviation Delete o := (request (CDelete o) : prog (option error)).
Abbreviation Http r := (request (CHttp r) : prog (Response + error)).
Abbreviation Now := (request CNow : prog Time.t).
Abbreviation Inc m := (request (CInc m) : prog unit).
Abbreviation RangeOver keys := (request (CRange keys) : prog (list string)).

(** [*p] for a pointer: nil panics. *)
Definition deref {A} (p : option A) : prog A :=
  match p with Some a => Ret a | None => Panic end.

(** [for _, x := range xs { body }]: [body] gives [Some r] for [return r] and
    [None] to go on with the next element. *)
Fixpoint forEach {A R} (xs : list A) (b : A → prog (option R)) : prog (option R) :=
  match xs with
  | [] => Ret None
  | x :: xs' =>
      r ← b x; match r with Some _ => Ret r | None => forEach xs' b end
  end.

(** The same with a variable the loop body assigns. *)
Fixpoint forEachS {S A R} (s : S) (xs : list A) (b : S → A → prog (S * option R))
  : prog (S * option R) :=
  match xs with
  | [] => Ret (s, None)
  | x :: xs' =>
      '(s', r) ← b s x;
      match r with Some _ => Ret (s', r) | None => forEachS s' xs' b end
  end.

(** ** Traces and outcomes *)

Abbreviation step := {c : call & answer c}.
Abbreviation trace := (list step).
Notation "c ⇝ x" := (existT (P:=answer) c x) (at level 70) : obs_scope.

Inductive outcome (A : Type) := Done (a : A) | Panicked.
Arguments Done {A} a.
Arguments Panicked {A}.

(** [beh p tr o]: some answers of the environment make [p] perform the calls of
    [tr] and end with [o]. *)
Fixpoint beh {A} (p : prog A) (tr : trace) (o : outcome A) : Prop :=
  match p with
  | Ret a => tr = [] ∧ o = Done a
  | Panic => tr = [] ∧ o = Panicked
  | Call c k => ∃ x tr', tr = (c ⇝ x) :: tr' ∧ beh (k x) tr' o
  end.

(** Every behaviour satisfies [Φ]. *)
Fixpoint wp {A} (p : prog A) (Φ : trace → outcome A → Prop) : Prop :=
  match p with
  | Ret a => Φ [] (Done a)
  | Panic => Φ [] Panicked
  | Call c k => ∀ x, wp (k x) (λ tr o, Φ ((c ⇝ x) :: tr) o)
  end.

(** Running against an environment with state [S]. *)
Definition Env (S : Type) := ∀ c : call, S → answer c * S.

Fixpoint exec {A S} (env : Env S) (p : prog A) (s : S) : outcome A * trace * S :=
  match p with
  | Ret a => (Done a, [], s)
  | Panic => (Panicked, [], s)
  | Call c k =>
      let '(x, s') := env c s in
      let '(o, tr, s'') := exec env (k x) s' in (o, (c ⇝ x) :: tr, s'')
  end.

(** ** Rules *)

Section rules.
Context {A : Type}.
Implicit Types (p : prog A) (Φ Ψ : trace → outcome A → Prop).

Lemma wp_beh p Φ : wp p Φ ↔ ∀ tr o, beh p tr o → Φ tr o.
Proof.
  revert Φ; induction p as [a| |c k IH]; intros Φ; simpl.
  - split; [intros H tr o [-> ->]; done|eauto].
  - split; [intros H tr o [-> ->]; done|eauto].
  - split.
    + intros H tr o (x & tr' & -> & Hb). by apply (proj1 (IH x _) (H x)).
    + intros H x. apply IH. intros tr o Hb. apply H. eauto.
Qed.

Lemma wp_mono p Φ Ψ : (∀ tr o, Φ tr o → Ψ tr o) → wp p Φ → wp p Ψ.
Proof. rewrite !wp_beh. naive_solver. Qed.

Lemma wp_and p Φ Ψ : wp p Φ → wp p Ψ → wp p (λ tr o, Φ tr o ∧ Ψ tr o).
Proof. rewrite !wp_beh. naive_solver. Qed.

Lemma wp_true p Φ : (∀ tr o, Φ tr o) → wp p Φ.
Proof. rewrite wp_beh. naive_solver. Qed.

(** Adequacy: what [wp] states holds of every run, whatever the environment. *)
Lemma wp_exec {S} (env : Env S) p s Φ :
  wp p Φ → Φ (exec env p s).1.2 (exec env p s).1.1.
Proof.
  revert s Φ; induction p as [a| |c k IH]; intros s Φ; simpl; try done.
  intros H. destruct (env c s) as [x s']. specialize (IH x s' _ (H x)).
  by destruct (exec env (k x) s') as [[o tr] s''].
Qed.

(** A run is a behaviour. *)
Lemma exec_beh {S} (env : Env S) p s : beh p (exec env p s).1.2 (exec env p s).1.1.
Proof. apply (wp_exec env p s (beh p)), wp_beh. done. Qed.

Lemma wp_bind {B} (p : prog A) (f : A → prog B) (Φ : trace → outcome B → Prop) :
  wp (pbind p f) Φ ↔
  wp p (λ tr o, match o with
                | Done a => wp (f a) (λ tr' o', Φ (tr ++ tr') o')
                | Panicked => Φ tr Panicked
                end).
Proof.
  revert Φ; induction p as [a| |c k IH]; intros Φ; simpl; try done.
  split; intros H x.
  - exact (proj1 (IH x (λ tr o, Φ ((c ⇝ x) :: tr) o)) (H x)).
  - exact (proj2 (IH x (λ tr o, Φ ((c ⇝ x) :: tr) o)) (H x)).
Qed.

(** A call in front of a program. *)
Lemma wp_request c (f : answer c → prog A) Φ :
  (∀ x, wp (f x) (λ tr o, Φ ((c ⇝ x) :: tr) o)) → wp (pbind (request c) f) Φ.
Proof. done. Qed.
End rules.

(** ** Loops *)

(** An invariant on the part of the loop that was run. *)
Lemma wp_forEach {A R} (xs : list A) (b : A → prog (option R))
    (I : list A → trace → Prop) Φ :
  I [] [] →
  (∀ pre x post tr, xs = pre ++ x :: post → I pre tr →
     wp (b x) (λ tr' o, match o with
       | Done None => I (pre ++ [x]) (tr ++ tr')
       | Done (Some r) => Φ (tr ++ tr') (Done (Some r))
       | Panicked => Φ (tr ++ tr') Panicked
       end)) →
  (∀ tr, I xs tr → Φ tr (Done None)) →
  wp (forEach xs b) Φ.
Proof.
  intros H0 Hstep Hend.
  assert (∀ post pre tr, xs = pre ++ post → I pre tr →
    wp (forEach post b) (λ tr' o, Φ (tr ++ tr') o)) as Hgen.
  { intros post. induction post as [|x post IH]; intros pre tr Hxs HI; simpl.
    - rewrite app_nil_r in Hxs. subst pre. rewrite app_nil_r. auto.
    - apply wp_bind. eapply wp_mono; [|exact (Hstep _ _ _ _ Hxs HI)].
      intros tr' [[r|]|]; simpl; try (rewrite ?app_nil_r; done).
      intros HI'. eapply wp_mono; [|apply (IH (pre ++ [x]) (tr ++ tr'))].
      + intros ??. by rewrite app_assoc.
      + by rewrite <-app_assoc.
      + done. }
  exact (Hgen xs [] [] eq_refl H0).
Qed.

Lemma wp_forEachS {S A R} (s : S) (xs : list A) (b : S → A → prog (S * option R))
    (I : list A → S → trace → Prop) Φ :
  I [] s [] →
  (∀ pre x post s' tr, xs = pre ++ x :: post → I pre s' tr →
     wp (b s' x) (λ tr' o, match o with
       | Done (s'', None) => I (pre ++ [x]) s'' (tr ++ tr')
       | Done (s'', Some r) => Φ (tr ++ tr') (Done (s'', Some r))
       | Panicked => Φ (tr ++ tr') Panicked
       end)) →
  (∀ s' tr, I xs s' tr → Φ tr (Done (s', None))) →
  wp (forEachS s xs b) Φ.
Proof.
  intros H0 Hstep Hend.
  assert (∀ post pre s' tr, xs = pre ++ post → I pre s' tr →
    wp (forEachS s' post b) (λ tr' o, Φ (tr ++ tr') o)) as Hgen.
  { intros post. induction post as [|x post IH]; intros pre s' tr Hxs HI; simpl.
    - rewrite app_nil_r in Hxs. subst pre. rewrite app_nil_r. auto.
    - apply wp_bind. eapply wp_mono; [|exact (Hstep _ _ _ _ _ Hxs HI)].
      intros tr' [[s'' [r|]]|]; simpl; try (rewrite ?app_nil_r; done).
      intros HI'. eapply wp_mono; [|apply (IH (pre ++ [x]) s'' (tr ++ tr'))].
      + intros ??. by rewrite app_assoc.
      + by rewrite <-app_assoc.
      + done. }
  exact (Hgen xs [] s [] eq_refl H0).
Qed.

(** A loop that makes no call and stops with [r] at the first element that
    satisfies a test. *)
Lemma forEach_pure {A R} (p : A → bool) (r : R) xs (b : A → prog (option R)) :
  (∀ x, x ∈ xs → b x = Ret (if p x then Some r else None)) →
  forEach xs b = Ret (if existsIn p xs then Some r else None).
Proof.
  induction xs as [|x xs IH]; intros Hb; simpl; [done|].
  rewrite Hb by constructor. simpl. destruct (p x); [done|].
  apply IH. intros y Hy. apply Hb. by constructor.
Qed.

(** ** What a trace did to the cluster *)

(** The object a call writes or deletes. *)
Definition callWrites (c : call) : option ObjectKey :=
  match c with
  | CCreate o | CUpdate o | CDelete o => Some (keyOf o)
  | CStatusUpdate o => Some (keyOf o)
  | _ => None
  end.

Definition writeKeys (tr : trace) : list ObjectKey :=
  omap (λ s, callWrites (projT1 s)) tr.

(** The objects a trace tried to create. *)
Definition createKeys (tr : trace) : list ObjectKey :=
  omap (λ s, match projT1 s with CCreate o => Some (keyOf o) | _ => None end) tr.

(** The objects a trace deleted: the request succeeded, or the object was not
    there, or the server does not know its kind, so that it cannot be there. *)
Definition deletedKey (s : step) : option ObjectKey :=
  match s with
  | existT (CDelete o) r =>
      match r with
      | None => Some (keyOf o)
      | Some e =>
          if IsNotFound e || IsNoMatchError e then Some (keyOf o) else None
      end
  | _ => None
  end.

Definition deletedKeys (tr : trace) : list ObjectKey := omap deletedKey tr.

(** The objects a trace asked to delete, whatever the answer. *)
Definition deleteRequests (tr : trace) : list ObjectKey :=
  omap (λ s, match projT1 s with CDelete o => Some (keyOf o) | _ => None end) tr.

Lemma writeKeys_app tr1 tr2 : writeKeys (tr1 ++ tr2) = writeKeys tr1 ++ writeKeys tr2.
Proof. apply omap_app. Qed.
Lemma createKeys_app tr1 tr2 : createKeys (tr1 ++ tr2) = createKeys tr1 ++ createKeys tr2.
Proof. apply omap_app. Qed.
Lemma deletedKeys_app tr1 tr2 : deletedKeys (tr1 ++ tr2) = deletedKeys tr1 ++ deletedKeys tr2.
Proof. apply omap_app. Qed.
Lemma deleteRequests_app tr1 tr2 :
  deleteRequests (tr1 ++ tr2) = deleteRequests tr1 ++ deleteRequests tr2.
Proof. apply omap_app. Qed.
#[export] Hint Rewrite writeKeys_app createKeys_app deletedKeys_app
  deleteRequests_app : obs_rw.

(** The metric a call counts up, and how often a trace does so. *)
Definition counts (c : call) : option Metric :=
  match c with CInc m => Some m | _ => None end.

Definition countOf (m : Metric) (tr : trace) : nat :=
  length (List.filter (λ s, bool_decide (counts (projT1 s) = Some m)) tr).

Lemma countOf_app m tr1 tr2 : countOf m (tr1 ++ tr2) = (countOf m tr1 + countOf m tr2)%nat.
Proof. unfold countOf. by rewrite List.filter_app, length_app. Qed.

Lemma countOf_cons m s tr :
  countOf m (s :: tr) = ((if decide (counts (projT1 s) = Some m) then 1 else 0) + countOf m tr)%nat.
Proof. unfold countOf; simpl. by case_bool_decide; case_decide. Qed.

Lemma countOf_none m tr : Forall (λ s, counts (projT1 s) ≠ Some m) tr → countOf m tr = 0%nat.
Proof.
  induction 1 as [|s tr Hs _ IH]; [done|]. rewrite countOf_cons, IH. by case_decide.
Qed.

(** The observers of a trace, one step at a time. *)
Lemma deletedKeys_cons s tr :
  deletedKeys (s :: tr) = option_list (deletedKey s) ++ deletedKeys tr.
Proof. unfold deletedKeys. simpl. by destruct (deletedKey s). Qed.

Lemma deletedKeys_nil : deletedKeys [] = [].
Proof. done. Qed.
#[export] Hint Rewrite deletedKeys_cons deletedKeys_nil : obs_rw.

Arguments writeKeys : simpl never.
Arguments createKeys : simpl never.
Arguments deletedKeys : simpl never.
Arguments deleteRequests : simpl never.
