(* ===== verification/Client.v ===== *)
(** * The Kubernetes client idioms of the reconcilers

    [ControllerUtil] is the interface of controller-runtime's [CreateOrUpdate]:
    the operation with its documented contract, and [referenceUtil] an instance
    that shows the contract can be met.  Then the idioms every reconciler
    repeats (delete and ignore a missing object, run the next sub-step only
    after success, delete the listed objects that match), and the three
    compositional properties the reconcilers are proved to have: [allSteps] (every
    call satisfies a condition), [deletesOnSuccess] (a successful run deleted
    these objects) and [neverPanics]. *)

From S2P Require Import Prelude GoLib ApiTypes K8s Prog.

(** ** CreateOrUpdate *)

(** A mutation callback, on the object and on the variables [S] of the caller it
    also assigns. *)
Definition MutateFnWith (S : Type) (k : Kind) :=
  S → Object k → prog (S * Object k * option error).

Section contract.
Context {S : Type} {k : Kind}.
Implicit Types (obj cur : Object k) (f : MutateFnWith S k) (s : S).

(** What follows the callback [f], run on [cur]: an error of the callback is
    returned and nothing is written; a callback that renamed the object is
    refused; otherwise [commit] writes. *)
Definition couAfterMutate s obj cur f (Φ : trace → outcome (S * Object k * option error) → Prop)
    (commit : trace → S → Object k → Prop) : Prop :=
  wp (f s cur) (λ tr o, match o with
    | Panicked => Φ tr Panicked
    | Done (s', obj', Some e) => Φ tr (Done (s', obj', Some e))
    | Done (s', obj', None) =>
        if decide (keyOf obj' = keyOf obj) then commit tr s' obj'
        else ∀ e, Φ tr (Done (s', obj', Some e))
    end).

(** The object as the server stored it, or the local one and the error. *)
Definition written s obj (r : Object k + error) : S * Object k * option error :=
  match r with inl o => (s, o, None) | inr e => (s, obj, Some e) end.

(** The contract: the object is fetched; when it is not there the callback runs
    on the given object, which is then created; when it is there the callback
    runs on the fetched object, which is then updated, or left alone when the
    callback changed nothing. *)
Definition couContract s obj f (Φ : trace → outcome (S * Object k * option error) → Prop) : Prop :=
  ∀ r : Object k + error,
    let get := CGet k (namespaceOf obj) (nameOf obj) ⇝ r in
    match r with
    | inl cur =>
        couAfterMutate s obj cur f (λ tr, Φ (get :: tr)) (λ tr s' obj',
          (obj' = cur → Φ (get :: tr) (Done (s', obj', None))) ∧
          ∀ r', Φ (get :: tr ++ [CUpdate obj' ⇝ r']) (Done (written s' obj' r')))
    | inr e =>
        if IsNotFound e then
          couAfterMutate s obj obj f (λ tr, Φ (get :: tr)) (λ tr s' obj',
            ∀ r', Φ (get :: tr ++ [CCreate obj' ⇝ r']) (Done (written s' obj' r')))
        else Φ [get] (Done (s, obj, Some e))
    end.

(** An implementation: fetch, mutate, write. *)
Definition referenceMutate s obj cur f
    (commit : S → Object k → prog (S * Object k * option error)) :=
  '(s', obj', e) ← f s cur;
  match e with
  | Some _ => Ret (s', obj', e)
  | None =>
      if decide (keyOf obj' = keyOf obj) then commit s' obj'
      else Ret (s', obj',
             Some (OtherError "MutateFn cannot mutate object name and/or object namespace"))
  end.

Definition referenceCreateOrUpdate s obj f : prog (S * Object k * option error) :=
  Call (CGet k (namespaceOf obj) (nameOf obj)) (λ r,
    match r with
    | inl cur =>
        referenceMutate s obj cur f (λ s' obj',
          Call (CUpdate obj') (λ r', Ret (written s' obj' r')))
    | inr e =>
        if IsNotFound e then
          referenceMutate s obj obj f (λ s' obj',
            Call (CCreate obj') (λ r', Ret (written s' obj' r')))
        else Ret (s, obj, Some e)
    end).

Lemma referenceMutate_wp s obj cur f commit Φ (C : trace → S → Object k → Prop) :
  (∀ tr s' obj', C tr s' obj' → wp (commit s' obj') (λ tr' o, Φ (tr ++ tr') o)) →
  couAfterMutate s obj cur f Φ C → wp (referenceMutate s obj cur f commit) Φ.
Proof.
  intros Hc H. apply wp_bind. eapply wp_mono; [|exact H].
  intros tr [[[s' obj'] [e|]]|]; simpl; rewrite ?app_nil_r; try done.
  case_decide; simpl; rewrite ?app_nil_r; auto.
Qed.

Lemma referenceCreateOrUpdate_contract s obj f Φ :
  couContract s obj f Φ → wp (referenceCreateOrUpdate s obj f) Φ.
Proof.
  intros H r. specialize (H r). destruct r as [cur|e]; simpl in *.
  - eapply referenceMutate_wp; [|exact H]. intros tr s' obj' [_ Hu] r'. apply Hu.
  - destruct (IsNotFound e); [|done]. eapply referenceMutate_wp; [|exact H].
    intros tr s' obj' Hc r'. apply Hc.
Qed.
End contract.

Class ControllerUtil := {
  CreateOrUpdateWith {S : Type} {k} :
    S → Object k → MutateFnWith S k → prog (S * Object k * option error);
  CreateOrUpdate_contract : ∀ S k (s : S) (obj : Object k) (f : MutateFnWith S k) Φ,
    couContract s obj f Φ → wp (CreateOrUpdateWith s obj f) Φ;
}.

#[export] Instance referenceUtil : ControllerUtil :=
  {| CreateOrUpdateWith := @referenceCreateOrUpdate;
     CreateOrUpdate_contract := @referenceCreateOrUpdate_contract |}.

(** The common case: the callback assigns nothing but the object. *)
Definition MutateFn (k : Kind) := Object k → prog (Object k * option error).

Definition CreateOrUpdate `{ControllerUtil} {k} (obj : Object k) (f : MutateFn k)
  : prog (Object k * option error) :=
  '(_, o, e) ← CreateOrUpdateWith tt obj (λ _ o, '(o', e) ← f o; Ret (tt, o', e));
  Ret (o, e).

(** ** Idioms *)

Abbreviation StageResult := (ObservabilityStageStatus * option error)%type.

Definition success : prog StageResult := Ret (ResultSuccess, None).

(** [err := client.Delete(o); if err != nil && !IsNotFound(err) { return
    ResultFailed, err }; rest] *)
Definition deleteThen {k} (o : Object k) (rest : prog StageResult) : prog StageResult :=
  e ← request (CDelete o);
  match e with
  | Some e => if IsNotFound e then rest else Ret (ResultFailed, Some e)
  | None => rest
  end.

(** The same when a missing custom resource definition is ignored too. *)
Definition deleteMatchThen {k} (o : Object k) (rest : prog StageResult) : prog StageResult :=
  e ← request (CDelete o);
  match e with
  | Some e =>
      if IsNotFound e || IsNoMatchError e then rest else Ret (ResultFailed, Some e)
  | None => rest
  end.

(** [status, err := p; if status != ResultSuccess { return status, err }; rest] *)
Definition andThen (p rest : prog StageResult) : prog StageResult :=
  '(st, e) ← p;
  if decide (st = ResultSuccess) then rest else Ret (st, e).

(** [for _, o := range xs { if sel(o) { err := client.Delete(o); if err != nil
    { return err } } } return nil] *)
Fixpoint deleteWhere {k} (sel : Object k → bool) (xs : list (Object k))
  : prog (option error) :=
  match xs with
  | [] => Ret None
  | o :: xs' =>
      if sel o then
        e ← request (CDelete o);
        match e with Some _ => Ret e | None => deleteWhere sel xs' end
      else deleteWhere sel xs'
  end.

(** A sub-step that ends in [_, err := CreateOrUpdate(obj, f); if err != nil
    { return ResultFailed, err }; return ResultSuccess, nil]. *)
Definition ensure `{ControllerUtil} {k} (obj : Object k) (f : MutateFn k) : prog StageResult :=
  '(_, e) ← CreateOrUpdate obj f;
  match e with Some _ => Ret (ResultFailed, e) | None => success end.

(** A callback that cannot fail and makes no call. *)
Definition pureMutate {k} (g : Object k → Object k) : MutateFn k :=
  λ o, Ret (g o, None).

Notation "p ;;; q" := (andThen p q) (at level 100, right associativity) : obs_scope.

(** ** Properties of runs *)

(** Every call of every run satisfies [S]. *)
Definition allSteps {A} (S : step → Prop) (p : prog A) : Prop :=
  wp p (λ tr _, Forall S tr).

Definition neverPanics {A} (p : prog A) : Prop := wp p (λ _ o, o ≠ Panicked).

(** A run that ends with [ResultSuccess] deleted the objects [K]. *)
Definition deletesOnSuccess (K : list ObjectKey) (p : prog StageResult) : Prop :=
  wp p (λ tr o, ∀ e, o = Done (ResultSuccess, e) → K ⊆ deletedKeys tr).

(** A call that writes to the cluster writes an object for which [P] holds. *)
Definition writesIn (P : ObjectKey → Prop) (s : step) : Prop :=
  ∀ key, callWrites (projT1 s) = Some key → P key.

(** A call that creates an object creates one for which [P] holds. *)
Definition createsIn (P : ObjectKey → Prop) (s : step) : Prop :=
  match projT1 s with CCreate o => P (keyOf o) | _ => True end.

(** A call that creates and updates nothing: what a cleanup may do. *)
Definition readsOrDeletes (s : step) : Prop :=
  match projT1 s with
  | CCreate _ | CUpdate _ | CStatusUpdate _ => False
  | _ => True
  end.

(** A call that touches no counter. *)
Definition silent (s : step) : Prop := counts (projT1 s) = None.

(** A call that leaves the counters of the stages alone. *)
Definition stageSilent (s : step) : Prop :=
  match counts (projT1 s) with
  | Some (TotalReconciliations _ | FailedReconciliations _) => False
  | _ => True
  end.

Lemma silent_stageSilent s : silent s → stageSilent s.
Proof. unfold stageSilent. by intros ->. Qed.

Lemma allSteps_impl {A} (S S' : step → Prop) (p : prog A) :
  (∀ s, S s → S' s) → allSteps S p → allSteps S' p.
Proof. intros H. apply wp_mono. intros tr _ Htr. by eapply Forall_impl. Qed.

Section allSteps_rules.
Context {S : step → Prop}.

Lemma allSteps_ret {A} (a : A) : allSteps S (Ret a).
Proof. constructor. Qed.

Lemma allSteps_panic {A} : allSteps S (Panic (A:=A)).
Proof. constructor. Qed.

Lemma allSteps_bind {A B} (p : prog A) (f : A → prog B) :
  allSteps S p → (∀ a, allSteps S (f a)) → allSteps S (pbind p f).
Proof.
  intros Hp Hf. apply wp_bind. eapply wp_mono; [|exact Hp].
  intros tr [a|] Htr; [|done]. eapply wp_mono; [|apply Hf].
  intros tr' ? Htr'. by apply Forall_app.
Qed.

(** The same when the continuation needs what is known of the first result. *)
Lemma allSteps_bind_post {A B} (p : prog A) (f : A → prog B) (Q : A → Prop) :
  allSteps S p → wp p (λ _ o, ∀ a, o = Done a → Q a) →
  (∀ a, Q a → allSteps S (f a)) → allSteps S (pbind p f).
Proof.
  intros Hp HQ Hf. apply wp_bind. eapply wp_mono; [|exact (wp_and _ _ _ Hp HQ)].
  intros tr [a|] [Htr Ha]; [|done]. eapply wp_mono; [|apply (Hf a), Ha; done].
  intros tr' ? Htr'. by apply Forall_app.
Qed.

Lemma allSteps_request c : (∀ x, S (c ⇝ x)) → allSteps S (request c).
Proof. intros H x. simpl. repeat constructor. apply H. Qed.

Lemma allSteps_call {A} c (k : answer c → prog A) :
  (∀ x, S (c ⇝ x)) → (∀ x, allSteps S (k x)) → allSteps S (Call c k).
Proof.
  intros H Hk x. eapply wp_mono; [|apply Hk]. intros tr ? Htr. by constructor.
Qed.

Lemma allSteps_forEach {A R} (xs : list A) (b : A → prog (option R)) :
  (∀ x, x ∈ xs → allSteps S (b x)) → allSteps S (forEach xs b).
Proof.
  induction xs as [|x xs IH]; intros H; simpl; [apply allSteps_ret|].
  apply allSteps_bind; [apply H; constructor|].
  intros [r|]; [apply allSteps_ret|]. apply IH. intros y Hy. apply H. by constructor.
Qed.

Lemma allSteps_forEachS {T A R} (s : T) (xs : list A) (b : T → A → prog (T * option R)) :
  (∀ s x, x ∈ xs → allSteps S (b s x)) → allSteps S (forEachS s xs b).
Proof.
  revert s; induction xs as [|x xs IH]; intros s H; simpl; [apply allSteps_ret|].
  apply allSteps_bind; [apply H; constructor|].
  intros [s' [r|]]; [apply allSteps_ret|]. apply IH. intros ?? Hy. apply H. by constructor.
Qed.

Lemma allSteps_deleteThen {k} (o : Object k) rest :
  (∀ x, S (CDelete o ⇝ x)) → allSteps S rest → allSteps S (deleteThen o rest).
Proof.
  intros H Hr. apply allSteps_bind; [by apply allSteps_request|].
  intros [e|]; [destruct (IsNotFound e)|]; auto using allSteps_ret.
Qed.

Lemma allSteps_deleteMatchThen {k} (o : Object k) rest :
  (∀ x, S (CDelete o ⇝ x)) → allSteps S rest → allSteps S (deleteMatchThen o rest).
Proof.
  intros H Hr. apply allSteps_bind; [by apply allSteps_request|].
  intros [e|]; [destruct (_ || _)|]; auto using allSteps_ret.
Qed.

Lemma allSteps_andThen p rest :
  allSteps S p → allSteps S rest → allSteps S (andThen p rest).
Proof.
  intros Hp Hr. apply allSteps_bind; [done|].
  intros [st e]. case_decide; auto using allSteps_ret.
Qed.

Lemma allSteps_deleteWhere {k} (sel : Object k → bool) xs :
  (∀ o x, o ∈ xs → sel o = true → S (CDelete o ⇝ x)) → allSteps S (deleteWhere sel xs).
Proof.
  induction xs as [|o xs IH]; intros H; simpl; [apply allSteps_ret|].
  assert (allSteps S (deleteWhere sel xs)).
  { apply IH. intros ????. apply H; [by constructor|done]. }
  destruct (sel o) eqn:Hs; [|done]. apply allSteps_call.
  - intros x. apply H; [constructor|done].
  - intros [e|]; auto using allSteps_ret.
Qed.

Context `{ControllerUtil}.

Lemma allSteps_CreateOrUpdateWith {T k} (t : T) (obj : Object k) (f : MutateFnWith T k) :
  (∀ x, S (CGet k (namespaceOf obj) (nameOf obj) ⇝ x)) →
  (∀ o, allSteps S (f t o)) →
  (∀ (o : Object k) x, keyOf o = keyOf obj → S (CCreate o ⇝ x)) →
  (∀ (o : Object k) x, keyOf o = keyOf obj → S (CUpdate o ⇝ x)) →
  allSteps S (CreateOrUpdateWith t obj f).
Proof.
  intros Hg Hf Hc Hu. apply CreateOrUpdate_contract. intros [cur|e].
  - eapply wp_mono; [|apply (Hf cur)]. intros tr [[[t' obj'] [e|]]|] Htr;
      [by constructor| |by constructor].
    case_decide; [split; [by constructor|]|by constructor].
    intros r'. constructor; [done|]. apply Forall_app; auto.
  - case_match; [|by repeat constructor].
    eapply wp_mono; [|apply (Hf obj)]. intros tr [[[t' obj'] [?|]]|] Htr;
      [by constructor| |by constructor].
    case_decide; [|by constructor].
    intros r'. constructor; [done|]. apply Forall_app; auto.
Qed.

Lemma allSteps_CreateOrUpdate {k} (obj : Object k) (f : MutateFn k) :
  (∀ x, S (CGet k (namespaceOf obj) (nameOf obj) ⇝ x)) →
  (∀ o, allSteps S (f o)) →
  (∀ (o : Object k) x, keyOf o = keyOf obj → S (CCreate o ⇝ x)) →
  (∀ (o : Object k) x, keyOf o = keyOf obj → S (CUpdate o ⇝ x)) →
  allSteps S (CreateOrUpdate obj f).
Proof.
  intros Hg Hf Hc Hu. apply allSteps_bind; [|intros [[] ?]; apply allSteps_ret].
  apply allSteps_CreateOrUpdateWith; try done. intros o.
  apply allSteps_bind; [done|]. intros []; apply allSteps_ret.
Qed.

(** A callback that cannot fail and makes no call: what is written is what it
    made of some object. *)
Lemma allSteps_CreateOrUpdate_pure {k} (obj : Object k) (g : Object k → Object k) :
  (∀ x, S (CGet k (namespaceOf obj) (nameOf obj) ⇝ x)) →
  (∀ o x, keyOf (g o) = keyOf obj → S (CCreate (g o) ⇝ x)) →
  (∀ o x, keyOf (g o) = keyOf obj → S (CUpdate (g o) ⇝ x)) →
  allSteps S (CreateOrUpdate obj (pureMutate g)).
Proof.
  intros Hg Hc Hu. apply allSteps_bind; [|intros [[] ?]; apply allSteps_ret].
  apply CreateOrUpdate_contract. intros [cur|e]; cbn.
  - case_decide; [split|]; repeat constructor; auto.
  - destruct (IsNotFound e); [|by repeat constructor].
    cbn. case_decide; repeat constructor; auto.
Qed.

Lemma allSteps_ensure {k} (obj : Object k) (f : MutateFn k) :
  (∀ x, S (CGet k (namespaceOf obj) (nameOf obj) ⇝ x)) →
  (∀ o, allSteps S (f o)) →
  (∀ (o : Object k) x, keyOf o = keyOf obj → S (CCreate o ⇝ x)) →
  (∀ (o : Object k) x, keyOf o = keyOf obj → S (CUpdate o ⇝ x)) →
  allSteps S (ensure obj f).
Proof.
  intros. apply allSteps_bind; [by apply allSteps_CreateOrUpdate|].
  intros [o [e|]]; apply allSteps_ret.
Qed.
End allSteps_rules.

Lemma allSteps_pureMutate S {k} (g : Object k → Object k) o :
  allSteps S (pureMutate g o).
Proof. apply allSteps_ret. Qed.

(** *** Order of writes and deletions *)

(** A call that deletes, and one that writes and was refused. *)
Definition isDelete (s : step) : bool :=
  match projT1 s with CDelete _ => true | _ => false end.

Definition writeFailed (s : step) : bool :=
  match s with
  | existT (CCreate _) r => negb (succeeded r)
  | existT (CUpdate _) r => negb (succeeded r)
  | _ => false
  end.

(** Nothing was deleted, and when the run succeeded no write was refused. *)
Definition writesThen {A} (ok : A → Prop) (tr : trace) (o : outcome A) : Prop :=
  Forall (λ s, isDelete s = false) tr ∧
  ∀ a, o = Done a → ok a → Forall (λ s, writeFailed s = false) tr.

Section writesThen_rules.
Context `{ControllerUtil} {T : Type} {k : Kind}.
Implicit Types (t : T) (obj : Object k) (f : MutateFnWith T k).

Let Res : Type := T * Object k * option error.
Let ended (r : Res) : Prop := r.2 = None.

Lemma writesThen_cons s tr (o : outcome Res) :
  isDelete s = false → writeFailed s = false → writesThen ended tr o →
  writesThen ended (s :: tr) o.
Proof.
  intros Hsd Hsw [Hd Hw]. split; [by constructor|]. intros a Ha Hok. constructor; [done|]. eauto.
Qed.

(** The write that ends a run, accepted or not. *)
Lemma writesThen_written t obj c (r : answer c) tr (res : Object k + error) :
  isDelete (c ⇝ r) = false → writeFailed (c ⇝ r) = negb (succeeded res) →
  Forall (λ s, isDelete s = false) tr → Forall (λ s, writeFailed s = false) tr →
  writesThen ended (tr ++ [c ⇝ r]) (Done (written t obj res)).
Proof.
  intros Hc Hf Hd Hw. split; [apply Forall_app; auto|]. intros a [= <-].
  destruct res; simpl in *; [|done]. intros _. apply Forall_app. auto.
Qed.

(** A callback that deletes nothing and reports a refused write. *)
Lemma CreateOrUpdateWith_writesThen t obj f :
  (∀ o, wp (f t o) (writesThen ended)) → wp (CreateOrUpdateWith t obj f) (writesThen ended).
Proof.
  intros Hf. apply CreateOrUpdate_contract.
  assert (∀ cur (commit : trace → T → Object k → Prop) x,
    (∀ tr t' obj', Forall (λ s, isDelete s = false) tr →
       Forall (λ s, writeFailed s = false) tr → commit tr t' obj') →
    couAfterMutate t obj cur f
      (λ tr, writesThen ended ((CGet k (namespaceOf obj) (nameOf obj) ⇝ x) :: tr)) commit) as Hm.
  { intros cur commit x Hc. eapply wp_mono; [|apply (Hf cur)].
    intros tr [[[t' obj'] [e|]]|] Hw; [by apply writesThen_cons| |by apply writesThen_cons].
    destruct Hw as [Hd Hw]. specialize (Hw _ eq_refl eq_refl).
    case_decide; [by apply Hc|]. intros e. apply writesThen_cons; [done..|].
    by split; [|intros ? [= <-]]. }
  intros [cur|e].
  - apply Hm. intros tr t' obj' Hd Hw. split.
    + intros _. apply writesThen_cons; [done..|]. by split.
    + intros r'. apply writesThen_cons; [done..|]. by apply writesThen_written.
  - case_match.
    + apply Hm. intros tr t' obj' Hd Hw r'. apply writesThen_cons; [done..|].
      by apply writesThen_written.
    + by split; [repeat constructor|intros ? [= <-]].
Qed.

(** The variables of the caller afterwards: as before when the object could not
    be read, and otherwise as the callback left them. *)
Lemma CreateOrUpdateWith_state (P : T → Prop) t obj f :
  (∀ o, wp (f t o) (λ _ out, ∀ r, out = Done r → P r.1.1)) →
  wp (CreateOrUpdateWith t obj f) (λ _ out, ∀ r, out = Done r →
    (r.1.1 = t ∧ r.2 ≠ None) ∨ P r.1.1).
Proof.
  intros Hf. apply CreateOrUpdate_contract.
  assert (∀ cur Φ (commit : trace → T → Object k → Prop),
    (∀ tr (r : Res), P r.1.1 → Φ tr (Done r)) → (∀ tr, Φ tr Panicked) →
    (∀ tr t' obj', P t' → commit tr t' obj') →
    couAfterMutate t obj cur f Φ commit) as Hm.
  { intros cur Φ commit HΦ Hp Hc. eapply wp_mono; [|apply (Hf cur)].
    intros tr [[[t' obj'] [e|]]|] Hs; [| |done]; specialize (Hs _ eq_refl); [by apply HΦ|].
    case_decide; [by apply Hc|]. intros e. by apply HΦ. }
  intros [cur|e].
  - apply Hm; [by intros tr r HP r0 Heq; injection Heq as <-; right|done|]. intros tr t' obj' HP. split.
    + by intros _ ? [= <-]; right.
    + intros r' ? [= <-]. right. by destruct r'.
  - destruct (IsNotFound e).
    + apply Hm; [by intros tr r HP r0 Heq; injection Heq as <-; right|done|]. intros tr t' obj' HP r' ? [= <-].
      right. by destruct r'.
    + intros get r0 [= <-]. by left.
Qed.
End writesThen_rules.

#[export] Hint Resolve allSteps_ret allSteps_panic allSteps_bind allSteps_request
  allSteps_call allSteps_forEach allSteps_forEachS allSteps_deleteThen
  allSteps_deleteMatchThen allSteps_andThen allSteps_deleteWhere
  allSteps_CreateOrUpdate allSteps_ensure allSteps_pureMutate : obs.

(** *** Answers that match their requests

    The API server returns the object that was asked for and lists objects of the
    namespace that was asked for; writing an object gives it back under its own
    name; ranging over a map visits every key once. *)
Definition answerOk (s : step) : Prop :=
  match s with
  | existT (CGet k ns name) r => ∀ o, r = inl o → keyOf o = mkKey k ns name
  | existT (CList k ns _) r =>
      ∀ os, r = inl os → ns ≠ EmptyString → Forall (λ o, namespaceOf o = ns) os
  | existT (CCreate o) r => ∀ o', r = inl o' → keyOf o' = keyOf o
  | existT (CUpdate o) r => ∀ o', r = inl o' → keyOf o' = keyOf o
  | existT (CStatusUpdate o) r => ∀ o', r = inl o' → keyOf o' = keyOf o
  | existT (CRange keys) r => r ≡ₚ keys
  | _ => True
  end.

(** Every call satisfies [S] as long as the answers match the requests. *)
Definition allStepsOk {A} (S : step → Prop) (p : prog A) : Prop :=
  wp p (λ tr _, Forall answerOk tr → Forall S tr).

Lemma allSteps_ok {A} S (p : prog A) : allSteps S p → allStepsOk S p.
Proof. apply wp_mono. auto. Qed.

Lemma allStepsOk_bind {A B} S (p : prog A) (f : A → prog B) :
  allStepsOk S p → (∀ a, allStepsOk S (f a)) → allStepsOk S (pbind p f).
Proof.
  intros Hp Hf. apply wp_bind. eapply wp_mono; [|exact Hp].
  intros tr [a|] Htr; [|done]. eapply wp_mono; [|apply Hf].
  intros tr' ? Htr' [??]%Forall_app. apply Forall_app. auto.
Qed.

Lemma allStepsOk_call {A} S c (k : answer c → prog A) :
  (∀ x, S (c ⇝ x)) → (∀ x, answerOk (c ⇝ x) → allStepsOk S (k x)) →
  allStepsOk S (Call c k).
Proof.
  intros H Hk x.
  assert (answerOk (c ⇝ x) → wp (k x) (λ tr _, Forall answerOk tr → Forall S tr)) as Hx
    by apply Hk.
  apply wp_beh. intros tr o Hb [Ha Htr]%Forall_cons. constructor; [done|].
  by apply (proj1 (wp_beh _ _) (Hx Ha) tr o Hb).
Qed.

Lemma allStepsOk_andThen S p rest :
  allStepsOk S p → allStepsOk S rest → allStepsOk S (andThen p rest).
Proof.
  intros Hp Hr. apply allStepsOk_bind; [done|]. intros [st e].
  case_decide; [done|]. apply allSteps_ok, allSteps_ret.
Qed.

#[export] Hint Resolve allStepsOk_andThen | 2 : obs.
#[export] Hint Resolve allSteps_ok | 3 : obs.

(** The writes of a program, from a bound on each call. *)
Lemma Forall_writeKeys (P : ObjectKey → Prop) tr :
  Forall (writesIn P) tr → Forall P (writeKeys tr).
Proof.
  induction 1 as [|s tr Hs _ IH]; [constructor|].
  unfold writeKeys; simpl. destruct (callWrites (projT1 s)) eqn:E; [|done].
  constructor; [by apply Hs|done].
Qed.

Lemma allSteps_writeKeys {A} (P : ObjectKey → Prop) (p : prog A) :
  allSteps (writesIn P) p → wp p (λ tr _, Forall P (writeKeys tr)).
Proof. apply wp_mono. intros tr _. apply Forall_writeKeys. Qed.

Section deletes_rules.
Implicit Types (K : list ObjectKey).

Lemma deletesOnSuccess_nil p : deletesOnSuccess [] p.
Proof. apply wp_true. intros tr o e _. apply list_subseteq_nil. Qed.

Lemma deletesOnSuccess_weaken K K' p :
  K ⊆ K' → deletesOnSuccess K' p → deletesOnSuccess K p.
Proof. intros HK. apply wp_mono. intros tr o H e He. etrans; [done|by eapply H]. Qed.

Lemma deletesOnSuccess_fail K st e : st ≠ ResultSuccess → deletesOnSuccess K (Ret (st, e)).
Proof. intros Hst e' [=]. done. Qed.

Lemma deletesOnSuccess_bind {A} K (p : prog A) (f : A → prog StageResult) :
  (∀ a, deletesOnSuccess K (f a)) → deletesOnSuccess K (pbind p f).
Proof.
  intros Hf. apply wp_bind. apply wp_true. intros tr [a|]; [|done].
  eapply wp_mono; [|apply Hf]. intros tr' o H e He. autorewrite with obs_rw.
  etrans; [by eapply H|]. set_solver.
Qed.

Lemma deletesOnSuccess_step K key s rest :
  deletedKey s = Some key → deletesOnSuccess K rest →
  wp rest (λ tr o, ∀ e, o = Done (ResultSuccess, e) → (key :: K) ⊆ deletedKeys (s :: tr)).
Proof.
  intros Hs. apply wp_mono. intros tr o H e He. unfold deletedKeys; simpl.
  rewrite Hs. specialize (H e He). unfold deletedKeys in H. set_solver.
Qed.

Lemma deletesOnSuccess_deleteThen {k} K (o : Object k) rest :
  deletesOnSuccess K rest → deletesOnSuccess (keyOf o :: K) (deleteThen o rest).
Proof.
  intros H [e|]; simpl.
  - destruct (IsNotFound e) eqn:He; [|by intros ? [=]].
    apply deletesOnSuccess_step; [simpl; by rewrite He|done].
  - by apply deletesOnSuccess_step.
Qed.

(** The same for a key spelled out. *)
Lemma deletesOnSuccess_deleteKey {k} K (o : Object k) key rest :
  keyOf o = key → deletesOnSuccess K rest → deletesOnSuccess (key :: K) (deleteThen o rest).
Proof. intros <-. apply deletesOnSuccess_deleteThen. Qed.

Lemma deletesOnSuccess_deleteMatchThen {k} K (o : Object k) rest :
  deletesOnSuccess K rest → deletesOnSuccess (keyOf o :: K) (deleteMatchThen o rest).
Proof.
  intros H [e|]; simpl.
  - destruct (IsNotFound e || IsNoMatchError e) eqn:He; [|by intros ? [=]].
    apply deletesOnSuccess_step; [simpl; by rewrite He|done].
  - by apply deletesOnSuccess_step.
Qed.

Lemma deletesOnSuccess_andThen K p rest :
  deletesOnSuccess K rest → deletesOnSuccess K (andThen p rest).
Proof.
  intros H. apply deletesOnSuccess_bind. intros [st e].
  case_decide; [done|by apply deletesOnSuccess_fail].
Qed.

(** Both parts of a sequence that succeeded have succeeded. *)
Lemma deletesOnSuccess_seq K1 K2 p rest :
  deletesOnSuccess K1 p → deletesOnSuccess K2 rest → deletesOnSuccess (K1 ++ K2) (andThen p rest).
Proof.
  intros Hp Hr. apply wp_bind. eapply wp_mono; [|exact Hp].
  intros tr [[st e]|] HK; [|done]. case_decide; simpl; [subst|naive_solver].
  eapply wp_mono; [|exact Hr]. intros tr' o HK' e' He'. autorewrite with obs_rw.
  specialize (HK e eq_refl). specialize (HK' e' He'). set_solver.
Qed.
End deletes_rules.

#[export] Hint Resolve deletesOnSuccess_nil deletesOnSuccess_deleteThen
  deletesOnSuccess_deleteMatchThen deletesOnSuccess_andThen : obs.

(** Walks down a chain of deletions. *)
Ltac solve_deletes :=
  repeat first
    [ apply deletesOnSuccess_deleteThen | apply deletesOnSuccess_deleteMatchThen
    | apply deletesOnSuccess_nil | apply deletesOnSuccess_andThen ].

(** A delete loop issues its requests in list order for exactly the selected
    objects, up to the first one that fails. *)
Definition deletedAll {k} (os : list (Object k)) : trace :=
  map (λ o, CDelete o ⇝ None) os.

Lemma deleteWhere_wp {k} (sel : Object k → bool) xs :
  wp (deleteWhere sel xs) (λ tr o, match o with
    | Done None => tr = deletedAll (List.filter sel xs)
    | Done (Some e) => ∃ pre o post,
        List.filter sel xs = pre ++ o :: post ∧
        tr = deletedAll pre ++ [CDelete o ⇝ Some e]
    | Panicked => False
    end).
Proof.
  induction xs as [|o xs IH]; simpl; [done|]. destruct (sel o) eqn:Hs; [|done].
  intros [e|]; simpl.
  - exists [], o, (List.filter sel xs). done.
  - eapply wp_mono; [|exact IH]. intros tr [[e|]|]; simpl; [|by intros ->|done].
    intros (pre & o' & post & -> & ->). by exists (o :: pre), o', post.
Qed.
