(* ===== verification/Api.v ===== *)
(** * Methods of the Observability API and the repository index (api/v1)

    [Observability] is the custom resource ([Object KObservability]); its
    accessor methods decide which parts of the operator run.  The index types are
    what a configuration repository's index.json decodes to.  A nil slice and an
    empty one behave alike everywhere in the operator except for [Tolerations],
    so slices are lists. *)

From S2P Require Import Prelude ApiTypes K8s.

(** ** Accessors of the custom resource *)

Definition specOf (cr : Observability) : ObservabilitySpec := Spec (body cr).
Definition statusOf (cr : Observability) : ObservabilityStatus := Status (body cr).

Definition selfContained (cr : Observability) : option SelfContained :=
  spec_SelfContained (specOf cr).

Definition set_CrStatus (s : ObservabilityStatus) (cr : Observability) : Observability :=
  mkObject (k:=KObservability) (meta cr) (mkObservabilityBody (specOf cr) s).

(** [sc != nil && sc.Field != nil && *sc.Field] *)
Definition scFlag (field : SelfContained → option bool) (cr : Observability) : bool :=
  match selfContained cr with
  | Some sc => default false (field sc)
  | None => false
  end.

Definition ExternalSyncDisabled (cr : Observability) : bool := scFlag sc_DisableRepoSync cr.
Definition OverrideSelectors (cr : Observability) : bool := scFlag sc_OverrideSelectors cr.
Definition ObservatoriumDisabled (cr : Observability) : bool := scFlag sc_DisableObservatorium cr.
Definition PagerDutyDisabled (cr : Observability) : bool := scFlag sc_DisablePagerDuty cr.
Definition DeadMansSnitchDisabled (cr : Observability) : bool := scFlag sc_DisableDeadmansSnitch cr.
Definition SmtpDisabled (cr : Observability) : bool := scFlag sc_DisableSmtp cr.
Definition BlackboxExporterDisabled (cr : Observability) : bool :=
  scFlag sc_DisableBlackboxExporter cr.
Definition SelfSignedCerts (cr : Observability) : bool := scFlag sc_SelfSignedCerts cr.

(** A string field of the self-contained block, the empty string when it is not
    set. *)
Definition scString (field : SelfContained → string) (cr : Observability) : string :=
  match selfContained cr with Some sc => field sc | None => EmptyString end.

(** [if sc != nil && sc.Field != empty { return true, sc.Field }; return false, empty] *)
Definition hasScString (field : SelfContained → string) (cr : Observability) : bool * string :=
  if decide (scString field cr = EmptyString) then (false, EmptyString)
  else (true, scString field cr).

Definition HasAlertmanagerConfigSecret (cr : Observability) : bool * string :=
  hasScString sc_AlertManagerConfigSecret cr.
Definition HasBlackboxBearerTokenSecret (cr : Observability) : bool * string :=
  hasScString sc_BlackboxBearerTokenSecret cr.

Definition DescopedModeEnabled (cr : Observability) : bool :=
  match spec_DescopedMode (specOf cr) with
  | Some dm => default false (dm_Enabled dm)
  | None => false
  end.

Definition GetPrometheusOperatorNamespace (cr : Observability) : string :=
  let ns :=
    match spec_DescopedMode (specOf cr) with
    | Some dm => dm_PrometheusOperatorNamespace dm
    | None => EmptyString
    end in
  if DescopedModeEnabled cr && negb (bool_decide (ns = EmptyString)) then ns
  else namespaceOf cr.

(** ** The repository index *)

Record RepositoryInfo := mkRepositoryInfo {
  ri_Repository : string;
  ri_Channel : string;
  ri_Tag : string;
  ri_AccessToken : string;
  ri_Source : option Secret;
}.

Record GrafanaIndex := mkGrafanaIndex {
  gi_Dashboards : list string;
  gi_DashboardLabelSelector : option LabelSelector;
  gi_GrafanaVersion : string;
}.

Record DexConfig := mkDexConfig {
  dex_Url : string;
  dex_Username : string;
  dex_Password : string;
  dex_Secret : string;
  dex_CredentialSecretNamespace : string;
  dex_CredentialSecretName : string;
}.

Record RedhatSsoConfig := mkRedhatSsoConfig {
  sso_Url : string;
  sso_Realm : string;
  sso_MetricsClient : string;
  sso_MetricsSecret : string;
  sso_LogsClient : string;
  sso_LogsSecret : string;
}.

Definition nonempty (s : string) : bool := negb (bool_decide (s = EmptyString)).

Definition HasAuthServer (c : RedhatSsoConfig) : bool :=
  nonempty (sso_Url c) && nonempty (sso_Realm c).
Definition HasMetrics (c : RedhatSsoConfig) : bool :=
  HasAuthServer c && nonempty (sso_MetricsClient c) && nonempty (sso_MetricsSecret c).
Definition HasLogs (c : RedhatSsoConfig) : bool :=
  HasAuthServer c && nonempty (sso_LogsClient c) && nonempty (sso_LogsSecret c).

Record ObservatoriumIndex := mkObservatoriumIndex {
  oi_Id : string;
  oi_SecretName : string;
  oi_Gateway : string;
  oi_Tenant : string;
  oi_AuthType : ObservabilityAuthType;
  oi_DexConfig : option DexConfig;
  oi_RedhatSsoConfig : option RedhatSsoConfig;
}.

Definition IsValid (o : ObservatoriumIndex) : bool := nonempty (oi_Gateway o).

Record RemoteWriteIndex := mkRemoteWriteIndex {
  rwi_QueueConfig : option json;
  rwi_RemoteTimeout : string;
  rwi_ProxyUrl : string;
  rwi_WriteRelabelConfigs : list json;
}.

Record AlertmanagerIndex := mkAlertmanagerIndex {
  ai_PagerDutySecretName : string;
  ai_PagerDutySecretNamespace : string;
  ai_DeadmansSnitchSecretName : string;
  ai_DeadmansSnitchSecretNamespace : string;
  ai_SmtpSecretName : string;
  ai_SmtpSecretNamespace : string;
  ai_SmtpToEmailAddress : list string;
  ai_SmtpFromEmailAddress : string;
  ai_OverrideAlertmanagerPvcSize : string;
}.

Definition zeroAlertmanagerIndex : AlertmanagerIndex :=
  let e := EmptyString in mkAlertmanagerIndex e e e e e e [] e e.

Record PrometheusIndex := mkPrometheusIndex {
  pi_Rules : list string;
  pi_PodMonitors : list string;
  pi_Federation : string;
  pi_Observatorium : string;
  pi_RemoteWrite : string;
  pi_OverridePrometheusPvcSize : string;
  pi_Labels : option LabelSelector;
  pi_PodMonitorLabelSelector : option LabelSelector;
  pi_PodMonitorNamespaceSelector : option LabelSelector;
  pi_ServiceMonitorLabelSelector : option LabelSelector;
  pi_ServiceMonitorNamespaceSelector : option LabelSelector;
  pi_RuleLabelSelector : option LabelSelector;
  pi_RuleNamespaceSelector : option LabelSelector;
  pi_ProbeLabelSelector : option LabelSelector;
  pi_ProbeNamespaceSelector : option LabelSelector;
}.

Definition zeroPrometheusIndex : PrometheusIndex :=
  let e := EmptyString in
  mkPrometheusIndex [] [] e e e e None None None None None None None None None.

Record PromtailIndex := mkPromtailIndex {
  pti_Enabled : bool;
  pti_NamespaceLabelSelector : gomap string;
  pti_Observatorium : string;
  pti_DaemonSetLabelSelector : option LabelSelector;
}.

Record RepositoryConfig := mkRepositoryConfig {
  rc_Grafana : option GrafanaIndex;
  rc_Prometheus : option PrometheusIndex;
  rc_Alertmanager : option AlertmanagerIndex;
  rc_Promtail : option PromtailIndex;
  rc_Observatoria : list ObservatoriumIndex;
}.

Record RepositoryIndex := mkRepositoryIndex {
  idx_BaseUrl : string;
  idx_AccessToken : string;
  idx_Tag : string;
  idx_Source : option Secret;
  idx_Id : string;
  idx_Config : option RepositoryConfig;
}.

(** ** Properties *)

(** The accessor agrees with the field it guards. *)
Lemma scFlag_true field cr :
  scFlag field cr = true ↔ ∃ sc, selfContained cr = Some sc ∧ field sc = Some true.
Proof.
  unfold scFlag. destruct (selfContained cr) as [sc|]; [|naive_solver].
  destruct (field sc) as [[]|] eqn:E; naive_solver.
Qed.

Lemma hasScString_spec field cr s :
  hasScString field cr = (true, s) ↔
  s ≠ EmptyString ∧ ∃ sc, selfContained cr = Some sc ∧ field sc = s.
Proof.
  unfold hasScString, scString. destruct (selfContained cr); case_decide; naive_solver.
Qed.

(** Outside descoped mode the Prometheus operator lives in the namespace of the
    custom resource. *)
Lemma GetPrometheusOperatorNamespace_scoped cr :
  DescopedModeEnabled cr = false → GetPrometheusOperatorNamespace cr = namespaceOf cr.
Proof. unfold GetPrometheusOperatorNamespace. by intros ->. Qed.
