(* ===== verification/DeepCopy.v ===== *)
(** * Deep copies (api/v1/zz_generated.deepcopy.go)

    Elsewhere the library treats Go values as immutable.  This file is about what
    justifies that: the copies the code takes are independent.  It models memory: a
    struct is a [value] with its fields, a pointer, slice or map is a reference to a
    cell of the heap, and each DeepCopyInto is translated statement by statement to a
    [copier], a function that reads the heap and allocates.  The types of the package
    are declared as the sources declare them ([structs]), and the theorem says that
    the copy of a value of any of these types has the same content and uses only new
    cells: no reference field is forgotten.  The structs of other packages are the
    interface [ExternalTypes]: what they contain and how they are copied.

    A slice owns its array here; slices that overlap are not modelled. *)

From S2P Require Import Prelude.

Module deepcopy.

(** ** Memory *)

Abbreviation loc := positive.

(** [VBasic]: a string, number or boolean; [VRef]: a pointer, slice or map. *)
Inductive value :=
| VBasic (s : string)
| VStruct (fields : gmap string value)
| VRef (r : option loc).

(** What [new], [make([]T, n)] and [make(map[string]string)] allocate. *)
Inductive cell :=
| Var (v : value)
| Array (vs : list value)
| Dict (m : gmap string string).

Abbreviation heap := (gmap loc cell).

(** Reads the memory and allocates; [None] when a reference has not the type it is
    used at, or the stack is used up. *)
Definition M (A : Type) : Type := heap → option (A * heap).
Definition copier : Type := value → M value.

Definition mbind_ {A B} (p : M A) (f : A → M B) : M B :=
  λ h, match p h with Some (a, h') => f a h' | None => None end.
Notation "x ⇐ p ; q" := (mbind_ p (λ x : _, q))
  (at level 20, p at level 100, q at level 200, only parsing) : obs_scope.

Definition ret {A} (a : A) : M A := λ h, Some (a, h).
Definition fail {A} : A → M A := λ _ _, None.
Definition load (l : loc) : M cell := λ h, c ← h !! l; Some (c, h).
Definition alloc (c : cell) : M value := λ h,
  let l := fresh (dom h) in Some (VRef (Some l), <[l := c]> h).

(** ** Copying *)

(** [*out = *in] *)
Definition plain : copier := ret.

(** [if in != nil { *out = new(T); ( *in).DeepCopyInto( *out) }] *)
Definition newOf (c : copier) : copier := λ v,
  match v with
  | VRef None => ret v
  | VRef (Some l) =>
      x ⇐ load l;
      match x with Var x => x' ⇐ c x; alloc (Var x') | _ => fail v end
  | _ => fail v
  end.

(** The loop over the elements of a slice. *)
Fixpoint copyAll (c : copier) (vs : list value) : M (list value) :=
  match vs with
  | [] => ret []
  | v :: vs => v' ⇐ c v; vs' ⇐ copyAll c vs; ret (v' :: vs')
  end.

(** [if in != nil { *out = make([]T, len( *in)); for i := range *in {
    ( *in)[i].DeepCopyInto(&( *out)[i]) } }] *)
Definition makeOf (c : copier) : copier := λ v,
  match v with
  | VRef None => ret v
  | VRef (Some l) =>
      x ⇐ load l;
      match x with Array vs => vs' ⇐ copyAll c vs; alloc (Array vs') | _ => fail v end
  | _ => fail v
  end.

(** [if in != nil { *out = make(map[string]string, len( *in)); for key, val := range
    *in { ( *out)[key] = val } }] *)
Definition makeMap : copier := λ v,
  match v with
  | VRef None => ret v
  | VRef (Some l) =>
      x ⇐ load l;
      match x with
      | Dict m => alloc (Dict (map_fold (λ key val out, <[key := val]> out) ∅ m))
      | _ => fail v
      end
  | _ => fail v
  end.

(** The statements of a DeepCopyInto after [*out = *in]: each reads a field of [in]
    and assigns the field of [out]. *)
Fixpoint runFields (stmts : list (string * copier)) (in_ out : gmap string value)
  : M (gmap string value) :=
  match stmts with
  | [] => ret out
  | (f, c) :: stmts =>
      match in_ !! f with
      | Some v => v' ⇐ c v; runFields stmts in_ (<[f := v']> out)
      | None => fail out
      end
  end.

Definition into (stmts : list (string * copier)) : copier := λ v,
  match v with
  | VStruct fields => fields' ⇐ runFields stmts fields fields; ret (VStruct fields')
  | _ => fail v
  end.

(** [if c := in.DeepCopy(); c != nil { return c }; return nil] *)
Definition asObject (c : copier) : copier := λ v,
  v' ⇐ c v; match v' with VRef None => ret (VRef None) | _ => ret v' end.

(** ** Types *)

(** [External]: a struct of another package. *)
Inductive ty :=
| Basic
| Ptr (t : ty)
| Slice (t : ty)
| Map
| Named (name : string)
| External (name : string).

Definition AlertmanagerConfigGlobal_fields : list (string * ty) :=
  [("ResolveTimeout", Basic); ("SmtpSmartHost", Basic); ("SmtpFrom", Basic);
   ("SmtpAuthUserName", Basic); ("SmtpAuthPassword", Basic); ("SmtpRequireTls", Basic)].

Definition AlertmanagerConfigReceiver_fields : list (string * ty) :=
  [("Name", Basic); ("PagerDutyConfigs", Slice (Named "PagerDutyConfig"));
   ("WebhookConfigs", Slice (Named "WebhookConfig"));
   ("EmailConfig", Slice (Named "EmailConfig"))].

Definition AlertmanagerConfigRoute_fields : list (string * ty) :=
  [("Receiver", Basic); ("RepeatInterval", Basic); ("Match", Map);
   ("Routes", Slice (Named "AlertmanagerConfigRoute"))].

Definition AlertmanagerConfigRoot_fields : list (string * ty) :=
  [("Global", Ptr (Named "AlertmanagerConfigGlobal"));
   ("Route", Ptr (Named "AlertmanagerConfigRoute"));
   ("Receivers", Slice (Named "AlertmanagerConfigReceiver"))].

Definition AlertmanagerIndex_fields : list (string * ty) :=
  [("PagerDutySecretName", Basic); ("PagerDutySecretNamespace", Basic);
   ("DeadmansSnitchSecretName", Basic); ("DeadmansSnitchSecretNamespace", Basic);
   ("SmtpSecretName", Basic); ("SmtpSecretNamespace", Basic);
   ("SmtpToEmailAddress", Slice Basic); ("SmtpFromEmailAddress", Basic);
   ("OverrideAlertmanagerPvcSize", Basic)].

Definition DescopedMode_fields : list (string * ty) :=
  [("Enabled", Ptr Basic); ("PrometheusOperatorNamespace", Basic)].

Definition DexConfig_fields : list (string * ty) :=
  [("Url", Basic); ("Username", Basic); ("Password", Basic); ("Secret", Basic);
   ("CredentialSecretNamespace", Basic); ("CredentialSecretName", Basic)].

Definition EmailConfig_fields : list (string * ty) :=
  [("SendResolved", Basic); ("To", Basic); ("EmailHeader", Named "EmailSubject");
   ("Html", Basic)].

Definition EmailSubject_fields : list (string * ty) :=
  [("Subject", Basic)].

Definition GrafanaIndex_fields : list (string * ty) :=
  [("Dashboards", Slice Basic);
   ("DashboardLabelSelector", Ptr (External "metav1.LabelSelector")); ("GrafanaVersion", Basic)].

Definition Storage_fields : list (string * ty) :=
  [("PrometheusStorageSpec", Ptr (External "monitoringv1.StorageSpec"));
   ("AlertManagerStorageSpec", Ptr (External "monitoringv1.StorageSpec"))].

Definition SelfContained_fields : list (string * ty) :=
  [("DisableRepoSync", Ptr Basic); ("DisableObservatorium", Ptr Basic);
   ("DisablePagerDuty", Ptr Basic); ("DisableDeadmansSnitch", Ptr Basic);
   ("DisableSmtp", Ptr Basic); ("DisableBlackboxExporter", Ptr Basic);
   ("SelfSignedCerts", Ptr Basic); ("OverrideSelectors", Ptr Basic);
   ("FederatedMetrics", Slice Basic);
   ("PodMonitorLabelSelector", Ptr (External "metav1.LabelSelector"));
   ("PodMonitorNamespaceSelector", Ptr (External "metav1.LabelSelector"));
   ("ServiceMonitorLabelSelector", Ptr (External "metav1.LabelSelector"));
   ("ServiceMonitorNamespaceSelector", Ptr (External "metav1.LabelSelector"));
   ("RuleLabelSelector", Ptr (External "metav1.LabelSelector"));
   ("RuleNamespaceSelector", Ptr (External "metav1.LabelSelector"));
   ("ProbeLabelSelector", Ptr (External "metav1.LabelSelector"));
   ("ProbeNamespaceSelector", Ptr (External "metav1.LabelSelector"));
   ("GrafanaDashboardLabelSelector", Ptr (External "metav1.LabelSelector"));
   ("AlertManagerConfigSecret", Basic); ("AlertManagerVersion", Basic);
   ("BlackboxBearerTokenSecret", Basic); ("PrometheusVersion", Basic);
   ("AlertManagerResourceRequirement", Ptr (External "corev1.ResourceRequirements"));
   ("PrometheusResourceRequirement", Ptr (External "corev1.ResourceRequirements"));
   ("PrometheusOperatorResourceRequirement", Ptr (External "corev1.ResourceRequirements"));
   ("GrafanaResourceRequirement", Ptr (External "corev1.ResourceRequirements"));
   ("GrafanaOperatorResourceRequirement", Ptr (External "corev1.ResourceRequirements"));
   ("GrafanaVersion", Basic); ("GrafanaInitImage", Basic); ("DisableLogging", Ptr Basic);
   ("OriginOauthProxyImage", Basic)].

Definition ObservabilitySpec_fields : list (string * ty) :=
  [("ClusterID", Basic); ("ConfigurationSelector", Ptr (External "metav1.LabelSelector"));
   ("ResyncPeriod", Basic); ("Storage", Ptr (Named "Storage"));
   ("Tolerations", Slice (External "corev1.Toleration"));
   ("Affinity", Ptr (External "corev1.Affinity"));
   ("SelfContained", Ptr (Named "SelfContained")); ("DescopedMode", Ptr (Named "DescopedMode"));
   ("Retention", Basic); ("AlertManagerDefaultName", Basic); ("PrometheusDefaultName", Basic);
   ("GrafanaDefaultName", Basic)].

Definition Observability_fields : list (string * ty) :=
  [("TypeMeta", External "metav1.TypeMeta"); ("ObjectMeta", External "metav1.ObjectMeta");
   ("Spec", Named "ObservabilitySpec"); ("Status", Named "ObservabilityStatus")].

Definition ObservabilityList_fields : list (string * ty) :=
  [("TypeMeta", External "metav1.TypeMeta"); ("ListMeta", External "metav1.ListMeta");
   ("Items", Slice (Named "Observability"))].

Definition ObservabilityStatus_fields : list (string * ty) :=
  [("Stage", Basic); ("StageStatus", Basic); ("LastMessage", Basic); ("TokenExpires", Basic);
   ("ClusterID", Basic); ("LastSynced", Basic); ("Migrated", Basic); ("ResourcesRoute", Basic)].

Definition ObservatoriumIndex_fields : list (string * ty) :=
  [("Id", Basic); ("SecretName", Basic); ("Gateway", Basic); ("Tenant", Basic);
   ("AuthType", Basic); ("DexConfig", Ptr (Named "DexConfig"));
   ("RedhatSsoConfig", Ptr (Named "RedhatSsoConfig"))].

Definition PagerDutyConfig_fields : list (string * ty) :=
  [("ServiceKey", Basic)].

Definition PrometheusIndex_fields : list (string * ty) :=
  [("Rules", Slice Basic); ("PodMonitors", Slice Basic); ("Federation", Basic);
   ("Observatorium", Basic); ("RemoteWrite", Basic); ("OverridePrometheusPvcSize", Basic);
   ("Labels", Ptr (External "metav1.LabelSelector"));
   ("PodMonitorLabelSelector", Ptr (External "metav1.LabelSelector"));
   ("PodMonitorNamespaceSelector", Ptr (External "metav1.LabelSelector"));
   ("ServiceMonitorLabelSelector", Ptr (External "metav1.LabelSelector"));
   ("ServiceMonitorNamespaceSelector", Ptr (External "metav1.LabelSelector"));
   ("RuleLabelSelector", Ptr (External "metav1.LabelSelector"));
   ("RuleNamespaceSelector", Ptr (External "metav1.LabelSelector"));
   ("ProbeLabelSelector", Ptr (External "metav1.LabelSelector"));
   ("ProbeNamespaceSelector", Ptr (External "metav1.LabelSelector"))].

Definition PromtailIndex_fields : list (string * ty) :=
  [("Enabled", Basic); ("NamespaceLabelSelector", Map); ("Observatorium", Basic);
   ("DaemonSetLabelSelector", Ptr (External "metav1.LabelSelector"))].

Definition RedhatSsoConfig_fields : list (string * ty) :=
  [("Url", Basic); ("Realm", Basic); ("MetricsClient", Basic); ("MetricsSecret", Basic);
   ("LogsClient", Basic); ("LogsSecret", Basic)].

Definition RemoteWriteIndex_fields : list (string * ty) :=
  [("QueueConfig", Ptr (External "monitoringv1.QueueConfig")); ("RemoteTimeout", Basic);
   ("ProxyUrl", Basic); ("WriteRelabelConfigs", Slice (External "monitoringv1.RelabelConfig"))].

Definition RepositoryConfig_fields : list (string * ty) :=
  [("Grafana", Ptr (Named "GrafanaIndex")); ("Prometheus", Ptr (Named "PrometheusIndex"));
   ("Alertmanager", Ptr (Named "AlertmanagerIndex")); ("Promtail", Ptr (Named "PromtailIndex"));
   ("Observatoria", Slice (Named "ObservatoriumIndex"))].

Definition RepositoryIndex_fields : list (string * ty) :=
  [("BaseUrl", Basic); ("AccessToken", Basic); ("Tag", Basic);
   ("Source", Ptr (External "corev1.Secret")); ("Id", Basic);
   ("Config", Ptr (Named "RepositoryConfig"))].

Definition RepositoryInfo_fields : list (string * ty) :=
  [("Repository", Basic); ("Channel", Basic); ("Tag", Basic); ("AccessToken", Basic);
   ("Source", Ptr (External "corev1.Secret"))].

Definition WebhookConfig_fields : list (string * ty) :=
  [("Url", Basic)].

(** The struct types of the package. *)
Definition structs : list (string * list (string * ty)) :=
  [("AlertmanagerConfigGlobal", AlertmanagerConfigGlobal_fields);
   ("AlertmanagerConfigReceiver", AlertmanagerConfigReceiver_fields);
   ("AlertmanagerConfigRoute", AlertmanagerConfigRoute_fields);
   ("AlertmanagerConfigRoot", AlertmanagerConfigRoot_fields);
   ("AlertmanagerIndex", AlertmanagerIndex_fields); ("DescopedMode", DescopedMode_fields);
   ("DexConfig", DexConfig_fields); ("EmailConfig", EmailConfig_fields);
   ("EmailSubject", EmailSubject_fields); ("GrafanaIndex", GrafanaIndex_fields);
   ("Storage", Storage_fields); ("SelfContained", SelfContained_fields);
   ("ObservabilitySpec", ObservabilitySpec_fields); ("Observability", Observability_fields);
   ("ObservabilityList", ObservabilityList_fields);
   ("ObservabilityStatus", ObservabilityStatus_fields);
   ("ObservatoriumIndex", ObservatoriumIndex_fields);
   ("PagerDutyConfig", PagerDutyConfig_fields); ("PrometheusIndex", PrometheusIndex_fields);
   ("PromtailIndex", PromtailIndex_fields); ("RedhatSsoConfig", RedhatSsoConfig_fields);
   ("RemoteWriteIndex", RemoteWriteIndex_fields); ("RepositoryConfig", RepositoryConfig_fields);
   ("RepositoryIndex", RepositoryIndex_fields); ("RepositoryInfo", RepositoryInfo_fields);
   ("WebhookConfig", WebhookConfig_fields)].

Fixpoint assoc {A} (f : string) (l : list (string * A)) : option A :=
  match l with
  | [] => None
  | (g, x) :: l => if decide (f = g) then Some x else assoc f l
  end.

Lemma assoc_elem {A} f (l : list (string * A)) x : assoc f l = Some x → (f, x) ∈ l.
Proof.
  induction l as [|[g y] l IH]; simpl; [done|]. case_decide as Hf.
  - intros [= ->]. subst g. left.
  - intros Hx. right. auto.
Qed.
#[global] Arguments assoc : simpl never.

(** ** Contents *)

(** What a value says, without the addresses. *)
Inductive tree (E : Type) :=
| CBasic (s : string)
| CNil
| CPtr (tr : tree E)
| CSlice (trs : list (tree E))
| CMap (m : gmap string string)
| CStruct (trs : list (string * tree E))
| CExternal (e : E).
Arguments CBasic {E} s.
Arguments CNil {E}.
Arguments CPtr {E} tr.
Arguments CSlice {E} trs.
Arguments CMap {E} m.
Arguments CStruct {E} trs.
Arguments CExternal {E} e.

(** How deep references are nested. *)
Fixpoint height {E} (tr : tree E) : nat :=
  match tr with
  | CPtr tr => S (height tr)
  | CSlice trs => S (foldr (λ tr n, height tr `max` n) 0 trs)
  | CStruct trs => S (foldr (λ '(_, tr) n, height tr `max` n) 0 trs)
  | _ => 0
  end.

(** Whatever holds of a content at the cells [P] of a heap holds where these cells
    are the same. *)
Definition kept (P P' : loc → Prop) (h h' : heap) : Prop :=
  ∀ l c, P l → h !! l = Some c → h' !! l = Some c ∧ P' l.

(** The structs of other packages.  Those without references are copied by an
    assignment. *)
Class ExternalTypes := {
  econtent : Type;
  eholds : string → (loc → Prop) → heap → econtent → value → Prop;
  ecopy : string → copier;
  eflat : string → bool;
  eholds_kept : ∀ n P P' h h' e v, kept P P' h h' → eholds n P h e v → eholds n P' h' e v;
  ecopy_deep : ∀ n h e v, eholds n (λ _, True) h e v → ∃ v' h', ecopy n v h = Some (v', h') ∧
    h ⊆ h' ∧ eholds n (λ l, h !! l = None) h' e v';
  eflat_plain : ∀ n P P' h h' e v, eflat n = true → eholds n P h e v → eholds n P' h' e v;
  eflat_used : eflat "metav1.TypeMeta" = true ∧ eflat "monitoringv1.QueueConfig" = true;
}.

Section all.
Context {A B : Type} (R : A → B → Prop).
Fixpoint all2 (xs : list A) (ys : list B) : Prop :=
  match xs, ys with
  | [], [] => True
  | x :: xs, y :: ys => R x y ∧ all2 xs ys
  | _, _ => False
  end.
End all.

Section each.
Context {A : Type} (Q : A → Prop).
Fixpoint each (xs : list A) : Prop :=
  match xs with [] => True | x :: xs => Q x ∧ each xs end.
End each.

Lemma each_elem {A} (Q : A → Prop) xs : each Q xs ↔ ∀ x, x ∈ xs → Q x.
Proof.
  induction xs as [|x xs IH]; simpl.
  - split; [by intros _ x ?%elem_of_nil|done].
  - rewrite IH. setoid_rewrite elem_of_cons. naive_solver.
Qed.

Section contents.
Context `{ExternalTypes}.

(** The value has the type and the content, and its cells are in [P]. *)
Fixpoint holds (P : loc → Prop) (h : heap) (tr : tree econtent) (t : ty) (v : value) : Prop :=
  match tr, t, v with
  | CBasic s, Basic, VBasic s' => s' = s
  | CNil, (Ptr _ | Slice _ | Map), VRef None => True
  | CPtr tr, Ptr t, VRef (Some l) => P l ∧ ∃ x, h !! l = Some (Var x) ∧ holds P h tr t x
  | CSlice trs, Slice t, VRef (Some l) =>
      P l ∧ ∃ xs, h !! l = Some (Array xs) ∧ all2 (λ tr x, holds P h tr t x) trs xs
  | CMap m, Map, VRef (Some l) => P l ∧ h !! l = Some (Dict m)
  | CStruct trs, Named n, VStruct fields =>
      ∃ fs, assoc n structs = Some fs ∧ trs.*1 = fs.*1 ∧
        each (λ '(f, tr), ∃ t x, assoc f fs = Some t ∧ fields !! f = Some x ∧ holds P h tr t x) trs
  | CExternal e, External n, v => eholds n P h e v
  | _, _, _ => False
  end.
End contents.

(** ** The copies of the package *)

Section copies.
Context `{ExternalTypes} (depth : nat).

Definition AlertmanagerConfigGlobal_DeepCopyInto : copier := into [].

Definition AlertmanagerConfigGlobal_DeepCopy : copier :=
  newOf AlertmanagerConfigGlobal_DeepCopyInto.

Definition AlertmanagerConfigReceiver_DeepCopyInto : copier := into
  [("PagerDutyConfigs", makeOf plain); ("WebhookConfigs", makeOf plain);
   ("EmailConfig", makeOf plain)].

Definition AlertmanagerConfigReceiver_DeepCopy : copier :=
  newOf AlertmanagerConfigReceiver_DeepCopyInto.

(** The routes of a route are copied by the same function; it takes the depth of
    the stack. *)
Fixpoint AlertmanagerConfigRoute_copy (d : nat) : copier :=
  match d with
  | 0 => fail
  | S d => into
      [("Match", makeMap); ("Routes", makeOf (AlertmanagerConfigRoute_copy d))]
  end.

Definition AlertmanagerConfigRoute_DeepCopyInto : copier := AlertmanagerConfigRoute_copy depth.

Definition AlertmanagerConfigRoute_DeepCopy : copier :=
  newOf AlertmanagerConfigRoute_DeepCopyInto.

Definition AlertmanagerConfigRoot_DeepCopyInto : copier := into
  [("Global", newOf plain); ("Route", newOf AlertmanagerConfigRoute_DeepCopyInto);
   ("Receivers", makeOf AlertmanagerConfigReceiver_DeepCopyInto)].

Definition AlertmanagerConfigRoot_DeepCopy : copier :=
  newOf AlertmanagerConfigRoot_DeepCopyInto.

Definition AlertmanagerIndex_DeepCopyInto : copier := into
  [("SmtpToEmailAddress", makeOf plain)].

Definition AlertmanagerIndex_DeepCopy : copier := newOf AlertmanagerIndex_DeepCopyInto.

Definition DescopedMode_DeepCopyInto : copier := into
  [("Enabled", newOf plain)].

Definition DescopedMode_DeepCopy : copier := newOf DescopedMode_DeepCopyInto.

Definition DexConfig_DeepCopyInto : copier := into [].

Definition DexConfig_DeepCopy : copier := newOf DexConfig_DeepCopyInto.

Definition EmailConfig_DeepCopyInto : copier := into
  [("EmailHeader", plain)].

Definition EmailConfig_DeepCopy : copier := newOf EmailConfig_DeepCopyInto.

Definition EmailSubject_DeepCopyInto : copier := into [].

Definition EmailSubject_DeepCopy : copier := newOf EmailSubject_DeepCopyInto.

Definition GrafanaIndex_DeepCopyInto : copier := into
  [("Dashboards", makeOf plain);
   ("DashboardLabelSelector", newOf (ecopy "metav1.LabelSelector"))].

Definition GrafanaIndex_DeepCopy : copier := newOf GrafanaIndex_DeepCopyInto.

Definition Storage_DeepCopyInto : copier := into
  [("PrometheusStorageSpec", newOf (ecopy "monitoringv1.StorageSpec"));
   ("AlertManagerStorageSpec", newOf (ecopy "monitoringv1.StorageSpec"))].

Definition Storage_DeepCopy : copier := newOf Storage_DeepCopyInto.

Definition SelfContained_DeepCopyInto : copier := into
  [("DisableRepoSync", newOf plain); ("DisableObservatorium", newOf plain);
   ("DisablePagerDuty", newOf plain); ("DisableDeadmansSnitch", newOf plain);
   ("DisableSmtp", newOf plain); ("DisableBlackboxExporter", newOf plain);
   ("SelfSignedCerts", newOf plain); ("OverrideSelectors", newOf plain);
   ("FederatedMetrics", makeOf plain);
   ("PodMonitorLabelSelector", newOf (ecopy "metav1.LabelSelector"));
   ("PodMonitorNamespaceSelector", newOf (ecopy "metav1.LabelSelector"));
   ("ServiceMonitorLabelSelector", newOf (ecopy "metav1.LabelSelector"));
   ("ServiceMonitorNamespaceSelector", newOf (ecopy "metav1.LabelSelector"));
   ("RuleLabelSelector", newOf (ecopy "metav1.LabelSelector"));
   ("RuleNamespaceSelector", newOf (ecopy "metav1.LabelSelector"));
   ("ProbeLabelSelector", newOf (ecopy "metav1.LabelSelector"));
   ("ProbeNamespaceSelector", newOf (ecopy "metav1.LabelSelector"));
   ("GrafanaDashboardLabelSelector", newOf (ecopy "metav1.LabelSelector"));
   ("AlertManagerResourceRequirement", newOf (ecopy "corev1.ResourceRequirements"));
   ("PrometheusResourceRequirement", newOf (ecopy "corev1.ResourceRequirements"));
   ("PrometheusOperatorResourceRequirement", newOf (ecopy "corev1.ResourceRequirements"));
   ("GrafanaResourceRequirement", newOf (ecopy "corev1.ResourceRequirements"));
   ("GrafanaOperatorResourceRequirement", newOf (ecopy "corev1.ResourceRequirements"));
   ("DisableLogging", newOf plain)].

Definition SelfContained_DeepCopy : copier := newOf SelfContained_DeepCopyInto.

Definition ObservabilitySpec_DeepCopyInto : copier := into
  [("ConfigurationSelector", newOf (ecopy "metav1.LabelSelector"));
   ("Storage", newOf Storage_DeepCopyInto); ("Tolerations", makeOf (ecopy "corev1.Toleration"));
   ("Affinity", newOf (ecopy "corev1.Affinity"));
   ("SelfContained", newOf SelfContained_DeepCopyInto);
   ("DescopedMode", newOf DescopedMode_DeepCopyInto)].

Definition ObservabilitySpec_DeepCopy : copier := newOf ObservabilitySpec_DeepCopyInto.

Definition Observability_DeepCopyInto : copier := into
  [("TypeMeta", plain); ("ObjectMeta", (ecopy "metav1.ObjectMeta"));
   ("Spec", ObservabilitySpec_DeepCopyInto); ("Status", plain)].

Definition Observability_DeepCopy : copier := newOf Observability_DeepCopyInto.

Definition Observability_DeepCopyObject : copier := asObject Observability_DeepCopy.

Definition ObservabilityList_DeepCopyInto : copier := into
  [("TypeMeta", plain); ("ListMeta", (ecopy "metav1.ListMeta"));
   ("Items", makeOf Observability_DeepCopyInto)].

Definition ObservabilityList_DeepCopy : copier := newOf ObservabilityList_DeepCopyInto.

Definition ObservabilityList_DeepCopyObject : copier := asObject ObservabilityList_DeepCopy.

Definition ObservabilityStatus_DeepCopyInto : copier := into [].

Definition ObservabilityStatus_DeepCopy : copier := newOf ObservabilityStatus_DeepCopyInto.

Definition ObservatoriumIndex_DeepCopyInto : copier := into
  [("DexConfig", newOf plain); ("RedhatSsoConfig", newOf plain)].

Definition ObservatoriumIndex_DeepCopy : copier := newOf ObservatoriumIndex_DeepCopyInto.

Definition PagerDutyConfig_DeepCopyInto : copier := into [].

Definition PagerDutyConfig_DeepCopy : copier := newOf PagerDutyConfig_DeepCopyInto.

Definition PrometheusIndex_DeepCopyInto : copier := into
  [("Rules", makeOf plain); ("PodMonitors", makeOf plain);
   ("Labels", newOf (ecopy "metav1.LabelSelector"));
   ("PodMonitorLabelSelector", newOf (ecopy "metav1.LabelSelector"));
   ("PodMonitorNamespaceSelector", newOf (ecopy "metav1.LabelSelector"));
   ("ServiceMonitorLabelSelector", newOf (ecopy "metav1.LabelSelector"));
   ("ServiceMonitorNamespaceSelector", newOf (ecopy "metav1.LabelSelector"));
   ("RuleLabelSelector", newOf (ecopy "metav1.LabelSelector"));
   ("RuleNamespaceSelector", newOf (ecopy "metav1.LabelSelector"));
   ("ProbeLabelSelector", newOf (ecopy "metav1.LabelSelector"));
   ("ProbeNamespaceSelector", newOf (ecopy "metav1.LabelSelector"))].

Definition PrometheusIndex_DeepCopy : copier := newOf PrometheusIndex_DeepCopyInto.

Definition PromtailIndex_DeepCopyInto : copier := into
  [("NamespaceLabelSelector", makeMap);
   ("DaemonSetLabelSelector", newOf (ecopy "metav1.LabelSelector"))].

Definition PromtailIndex_DeepCopy : copier := newOf PromtailIndex_DeepCopyInto.

Definition RedhatSsoConfig_DeepCopyInto : copier := into [].

Definition RedhatSsoConfig_DeepCopy : copier := newOf RedhatSsoConfig_DeepCopyInto.

Definition RemoteWriteIndex_DeepCopyInto : copier := into
  [("QueueConfig", newOf plain);
   ("WriteRelabelConfigs", makeOf (ecopy "monitoringv1.RelabelConfig"))].

Definition RemoteWriteIndex_DeepCopy : copier := newOf RemoteWriteIndex_DeepCopyInto.

Definition RepositoryConfig_DeepCopyInto : copier := into
  [("Grafana", newOf GrafanaIndex_DeepCopyInto);
   ("Prometheus", newOf PrometheusIndex_DeepCopyInto);
   ("Alertmanager", newOf AlertmanagerIndex_DeepCopyInto);
   ("Promtail", newOf PromtailIndex_DeepCopyInto);
   ("Observatoria", makeOf ObservatoriumIndex_DeepCopyInto)].

Definition RepositoryConfig_DeepCopy : copier := newOf RepositoryConfig_DeepCopyInto.

Definition RepositoryIndex_DeepCopyInto : copier := into
  [("Source", newOf (ecopy "corev1.Secret")); ("Config", newOf RepositoryConfig_DeepCopyInto)].

Definition RepositoryIndex_DeepCopy : copier := newOf RepositoryIndex_DeepCopyInto.

Definition RepositoryInfo_DeepCopyInto : copier := into
  [("Source", newOf (ecopy "corev1.Secret"))].

Definition RepositoryInfo_DeepCopy : copier := newOf RepositoryInfo_DeepCopyInto.

Definition WebhookConfig_DeepCopyInto : copier := into [].

Definition WebhookConfig_DeepCopy : copier := newOf WebhookConfig_DeepCopyInto.

(** The DeepCopyInto of every struct type. *)
Definition copies : list (string * copier) :=
  [("AlertmanagerConfigGlobal", AlertmanagerConfigGlobal_DeepCopyInto);
   ("AlertmanagerConfigReceiver", AlertmanagerConfigReceiver_DeepCopyInto);
   ("AlertmanagerConfigRoute", AlertmanagerConfigRoute_DeepCopyInto);
   ("AlertmanagerConfigRoot", AlertmanagerConfigRoot_DeepCopyInto);
   ("AlertmanagerIndex", AlertmanagerIndex_DeepCopyInto);
   ("DescopedMode", DescopedMode_DeepCopyInto); ("DexConfig", DexConfig_DeepCopyInto);
   ("EmailConfig", EmailConfig_DeepCopyInto); ("EmailSubject", EmailSubject_DeepCopyInto);
   ("GrafanaIndex", GrafanaIndex_DeepCopyInto); ("Storage", Storage_DeepCopyInto);
   ("SelfContained", SelfContained_DeepCopyInto);
   ("ObservabilitySpec", ObservabilitySpec_DeepCopyInto);
   ("Observability", Observability_DeepCopyInto);
   ("ObservabilityList", ObservabilityList_DeepCopyInto);
   ("ObservabilityStatus", ObservabilityStatus_DeepCopyInto);
   ("ObservatoriumIndex", ObservatoriumIndex_DeepCopyInto);
   ("PagerDutyConfig", PagerDutyConfig_DeepCopyInto);
   ("PrometheusIndex", PrometheusIndex_DeepCopyInto);
   ("PromtailIndex", PromtailIndex_DeepCopyInto);
   ("RedhatSsoConfig", RedhatSsoConfig_DeepCopyInto);
   ("RemoteWriteIndex", RemoteWriteIndex_DeepCopyInto);
   ("RepositoryConfig", RepositoryConfig_DeepCopyInto);
   ("RepositoryIndex", RepositoryIndex_DeepCopyInto);
   ("RepositoryInfo", RepositoryInfo_DeepCopyInto);
   ("WebhookConfig", WebhookConfig_DeepCopyInto)].

(** The DeepCopy of every struct type. *)
Definition deepCopies : list (string * copier) :=
  [("AlertmanagerConfigGlobal", AlertmanagerConfigGlobal_DeepCopy);
   ("AlertmanagerConfigReceiver", AlertmanagerConfigReceiver_DeepCopy);
   ("AlertmanagerConfigRoute", AlertmanagerConfigRoute_DeepCopy);
   ("AlertmanagerConfigRoot", AlertmanagerConfigRoot_DeepCopy);
   ("AlertmanagerIndex", AlertmanagerIndex_DeepCopy); ("DescopedMode", DescopedMode_DeepCopy);
   ("DexConfig", DexConfig_DeepCopy); ("EmailConfig", EmailConfig_DeepCopy);
   ("EmailSubject", EmailSubject_DeepCopy); ("GrafanaIndex", GrafanaIndex_DeepCopy);
   ("Storage", Storage_DeepCopy); ("SelfContained", SelfContained_DeepCopy);
   ("ObservabilitySpec", ObservabilitySpec_DeepCopy); ("Observability", Observability_DeepCopy);
   ("ObservabilityList", ObservabilityList_DeepCopy);
   ("ObservabilityStatus", ObservabilityStatus_DeepCopy);
   ("ObservatoriumIndex", ObservatoriumIndex_DeepCopy);
   ("PagerDutyConfig", PagerDutyConfig_DeepCopy); ("PrometheusIndex", PrometheusIndex_DeepCopy);
   ("PromtailIndex", PromtailIndex_DeepCopy); ("RedhatSsoConfig", RedhatSsoConfig_DeepCopy);
   ("RemoteWriteIndex", RemoteWriteIndex_DeepCopy);
   ("RepositoryConfig", RepositoryConfig_DeepCopy);
   ("RepositoryIndex", RepositoryIndex_DeepCopy); ("RepositoryInfo", RepositoryInfo_DeepCopy);
   ("WebhookConfig", WebhookConfig_DeepCopy)].
End copies.

(** ** Rules *)

Lemma tree_ind' {E} (Q : tree E → Prop) :
  (∀ s, Q (CBasic s)) → Q CNil → (∀ tr, Q tr → Q (CPtr tr)) →
  (∀ trs, each Q trs → Q (CSlice trs)) → (∀ m, Q (CMap m)) →
  (∀ trs, each (λ p, Q p.2) trs → Q (CStruct trs)) → (∀ e, Q (CExternal e)) → ∀ tr, Q tr.
Proof.
  intros H1 H2 H3 H4 H5 H6 H7. fix IH 1. intros [s| |tr|trs|m|trs|e].
  - apply H1.
  - apply H2.
  - apply H3, IH.
  - apply H4. induction trs as [|tr trs IHtrs]; simpl; [done|]. split; [apply IH|apply IHtrs].
  - apply H5.
  - apply H6. induction trs as [|[f tr] trs IHtrs]; simpl; [done|]. split; [apply IH|apply IHtrs].
  - apply H7.
Qed.

Section rules.
Context `{ExternalTypes}.

Lemma all2_mono {A B} (R R' : A → B → Prop) xs ys :
  each (λ x, ∀ y, R x y → R' x y) xs → all2 R xs ys → all2 R' xs ys.
Proof.
  revert ys. induction xs as [|x xs IH]; intros [|y ys]; simpl; try done.
  intros [Hx Hxs] [HR Hall]. auto.
Qed.

(** Contents depend on the cells they use only. *)
Lemma holds_kept P P' h h' tr t v :
  kept P P' h h' → holds P h tr t v → holds P' h' tr t v.
Proof.
  intros Hk. revert t v.
  induction tr as [s| |tr IH|trs IH|m|trs IH|e] using tree_ind'; intros [] []; simpl; try done;
    try (by destruct r).
  - destruct r as [l|]; [|done]. intros (HP & x & Hl & Hx).
    destruct (Hk l _ HP Hl) as [Hl' HP']. split; [done|]. eauto.
  - destruct r as [l|]; [|done]. intros (HP & xs & Hl & Hxs).
    destruct (Hk l _ HP Hl) as [Hl' HP']. split; [done|]. exists xs. split; [done|].
    revert Hxs. apply all2_mono. revert IH. rewrite !each_elem. eauto.
  - destruct r as [l|]; [|done]. intros (HP & Hl). destruct (Hk l _ HP Hl). auto.
  - intros (fs & Hfs & Hn & Hall). exists fs. split; [done|]. split; [done|].
    rewrite each_elem in *. intros [f tr] Hin. destruct (Hall _ Hin) as (t & x & ? & ? & Hx).
    exists t, x. split; [done|]. split; [done|]. by apply (IH (f, tr)).
  - by apply eholds_kept.
  - by apply eholds_kept.
  - by apply eholds_kept.
Qed.

Lemma kept_grow (P P' : loc → Prop) (h h' : heap) :
  h ⊆ h' → (∀ l, P l → P' l) → kept P P' h h'.
Proof. intros Hh HP l c Hl Hc. split; [by eapply lookup_weaken|auto]. Qed.

(** [c] makes independent copies of the values of a type: the same content, in new
    cells; the memory that was there is unchanged. *)
Definition deep (n : nat) (t : ty) (c : copier) : Prop :=
  ∀ h v tr, height tr ≤ n → holds (λ _, True) h tr t v →
  ∃ v' h', c v h = Some (v', h') ∧ h ⊆ h' ∧ holds (λ l, h !! l = None) h' tr t v'.

Lemma deep_le n m t c : m ≤ n → deep n t c → deep m t c.
Proof. intros Hle Hc h v tr Ht. apply Hc. lia. Qed.

(** Contents without references. *)
Definition flat (t : ty) : Prop :=
  ∀ P P' h h' tr v, holds P h tr t v → holds P' h' tr t v.

Lemma flat_deep n t : flat t → deep n t plain.
Proof. intros Ht h v tr _ Hv. exists v, h. split; [done|]. split; [done|]. by eapply Ht. Qed.

Lemma flat_basic : flat Basic.
Proof. by intros P P' h h' [] []. Qed.

Lemma flat_external n : eflat n = true → flat (External n).
Proof. intros Hn P P' h h' [] v; simpl; try done. by apply eflat_plain. Qed.

Lemma flat_named n fs : assoc n structs = Some fs → Forall (λ p, flat p.2) fs → flat (Named n).
Proof.
  intros Hn Hall P P' h h' [] []; simpl; try done. intros (fs' & Hn' & Hnames & Hv).
  exists fs'. split; [done|]. split; [done|]. rewrite each_elem in *. intros [f tr] Hin.
  destruct (Hv _ Hin) as (t & x & Ht & Hx & Hx'). exists t, x. split; [done|]. split; [done|].
  rewrite Hn in Hn'. injection Hn' as <-. apply assoc_elem in Ht.
  rewrite Forall_forall in Hall. by eapply (Hall _ Ht).
Qed.

(** A new cell for a copied content. *)
Lemma alloc_grows (h h1 : heap) c :
  h ⊆ h1 → let l := fresh (dom h1) in
  h ⊆ <[l := c]> h1 ∧ h !! l = None ∧ h1 ⊆ <[l := c]> h1.
Proof.
  intros Hh l. assert (h1 !! l = None) as Hl by apply not_elem_of_dom, is_fresh.
  assert (h1 ⊆ <[l:=c]> h1) by by apply insert_subseteq. split_and!; [by etrans| |done].
  by eapply lookup_weaken_None.
Qed.

Lemma deep_newOf n t c : deep n t c → deep (S n) (Ptr t) (newOf c).
Proof.
  intros Hc h [| |[l|]] [] Hh; simpl; try done.
  - intros (_ & x & Hl & Hx). simpl in Hh.
    destruct (Hc h x tr ltac:(lia) Hx) as (x' & h1 & Hrun & Hsub & Hx').
    destruct (alloc_grows h h1 (Var x') Hsub) as (Hsub' & Hfresh & Hgrow).
    eexists _, _. split; [unfold mbind_, load; rewrite Hl; simpl; by rewrite Hrun|].
    split; [done|]. split; [done|]. exists x'. split; [apply lookup_insert_eq|].
    eapply holds_kept; [|done]. by apply kept_grow.
  - intros _. eexists _, h. by split.
Qed.

Lemma copyAll_deep n t c vs trs h h0 :
  deep n t c → h0 ⊆ h → foldr (λ tr m, height tr `max` m) 0 trs ≤ n →
  all2 (λ tr x, holds (λ _, True) h tr t x) trs vs →
  ∃ vs' h', copyAll c vs h = Some (vs', h') ∧ h ⊆ h' ∧
    all2 (λ tr x, holds (λ l, h0 !! l = None) h' tr t x) trs vs'.
Proof.
  intros Hc. revert h vs. induction trs as [|tr trs IH]; intros h [|v vs] Hh0; simpl; try done.
  { intros _ _. by exists [], h. }
  intros Hht [Hv Hvs]. destruct (Hc h v tr ltac:(lia) Hv) as (v' & h1 & Hrun & Hsub & Hv').
  destruct (IH h1 vs) as (vs' & h2 & Hrun' & Hsub' & Hvs'); [by etrans|lia| |].
  { revert Hvs. apply all2_mono, each_elem. intros ?? y. apply holds_kept. by apply kept_grow. }
  exists (v' :: vs'), h2. unfold mbind_. rewrite Hrun, Hrun'. split; [done|].
  split; [by etrans|]. split; [|done]. eapply holds_kept; [|exact Hv'].
  apply kept_grow; [done|]. intros l Hl. by eapply lookup_weaken_None.
Qed.

Lemma deep_makeOf n t c : deep n t c → deep (S n) (Slice t) (makeOf c).
Proof.
  intros Hc h [| |[l|]] [] Hh; simpl; try done.
  - intros (_ & xs & Hl & Hxs). simpl in Hh.
    destruct (copyAll_deep n t c xs trs h h Hc) as (xs' & h1 & Hrun & Hsub & Hxs'); [done|lia|done|].
    destruct (alloc_grows h h1 (Array xs') Hsub) as (Hsub' & Hfresh & Hgrow).
    eexists _, _. split; [unfold mbind_, load; rewrite Hl; simpl; by rewrite Hrun|].
    split; [done|]. split; [done|]. exists xs'. split; [apply lookup_insert_eq|].
    revert Hxs'. apply all2_mono, each_elem. intros ?? y. apply holds_kept. by apply kept_grow.
  - intros _. eexists _, h. by split.
Qed.

Lemma map_fold_copy (m : gmap string string) :
  map_fold (λ key val out, <[key := val]> out) ∅ m = m.
Proof. apply (map_fold_weak_ind (λ out m, out = m)); [done|]. by intros key val m' out _ ->. Qed.

Lemma deep_makeMap n : deep n Map makeMap.
Proof.
  intros h [| |[l|]] [] Hh; simpl; try done.
  - intros (_ & Hl). destruct (alloc_grows h h (Dict m) ltac:(done)) as (Hsub & Hfresh & _).
    eexists _, _. split; [unfold mbind_, load; by rewrite Hl; simpl; rewrite map_fold_copy|].
    split; [done|]. split; [done|]. apply lookup_insert_eq.
  - intros _. eexists _, h. by split.
Qed.

Lemma deep_ecopy n name : deep n (External name) (ecopy name).
Proof. intros h v [] _; simpl; try (by destruct v). apply ecopy_deep. Qed.

(** The fields of a struct: the ones copied so far are in new cells, the others are
    as in the original. *)
Section fields.
Context (n : nat) (fs : list (string * ty)) (trs : list (string * tree econtent)).
Context (in_ : gmap string value) (h0 : heap).
Hypothesis names : trs.*1 = fs.*1.
Hypothesis heights : ∀ f tr, (f, tr) ∈ trs → height tr ≤ n.

Definition fieldHolds (P : loc → Prop) (h : heap) (fields : gmap string value)
    (p : string * tree econtent) : Prop :=
  ∃ t x, assoc p.1 fs = Some t ∧ fields !! p.1 = Some x ∧ holds P h p.2 t x.

Definition isNew (l : loc) : Prop := h0 !! l = None.

Lemma fieldHolds_kept P P' h h' fields p :
  kept P P' h h' → fieldHolds P h fields p → fieldHolds P' h' fields p.
Proof.
  intros Hk (t & x & Ht & Hx & Hv). exists t, x. split; [done|]. split; [done|].
  by eapply holds_kept.
Qed.

Definition progress (copied : list string) (h : heap) (out : gmap string value) : Prop :=
  ∀ p, p ∈ trs → (p.1 ∈ copied → fieldHolds isNew h out p) ∧ (p.1 ∉ copied → out !! p.1 = in_ !! p.1).

(** One statement. *)
Lemma field_step f t c copied h out :
  assoc f fs = Some t → deep n t c → h0 ⊆ h →
  (∀ p, p ∈ trs → fieldHolds (λ _, True) h in_ p) → progress copied h out →
  ∃ x v' h', in_ !! f = Some x ∧ c x h = Some (v', h') ∧ h ⊆ h' ∧
    progress (f :: copied) h' (<[f := v']> out).
Proof.
  intros Ht Hc Hh Hin Hout.
  assert (∃ tr, (f, tr) ∈ trs) as [tr Htr].
  { apply assoc_elem in Ht.
    assert (f ∈ trs.*1) as Hf by (rewrite names; apply list_elem_of_fmap; by exists (f, t)).
    apply list_elem_of_fmap in Hf as ([f' tr] & -> & ?). eauto. }
  destruct (Hin _ Htr) as (t' & x & Ht' & Hx & Hv). simpl in *. assert (t' = t) as -> by congruence.
  destruct (Hc h x tr (heights _ _ Htr) Hv) as (v' & h' & Hrun & Hsub & _).
  exists x, v', h'. split_and!; [done..|].
  intros [g trg] Hg. simpl. destruct (decide (g = f)) as [->|Hne].
  - split; [|intros []; left]. intros _. exists t, v'. simpl. rewrite lookup_insert_eq.
    split_and!; [done..|]. destruct (Hin _ Hg) as (t' & x' & ? & ? & Hv'). simpl in *.
    assert (t' = t ∧ x' = x) as [-> ->] by (split; congruence).
    destruct (Hc h x trg (heights _ _ Hg) Hv') as (v2 & h2 & Hrun2 & _ & Hv2).
    rewrite Hrun in Hrun2. injection Hrun2 as <- <-. eapply holds_kept; [|exact Hv2].
    apply kept_grow; [done|]. intros l Hl. by eapply lookup_weaken_None.
  - destruct (Hout _ Hg) as [Hd Hu]. split.
    + intros [?|Hin']%elem_of_cons; [done|]. destruct (Hd Hin') as (t1 & x1 & ? & ? & Hx1).
      exists t1, x1. simpl in *. rewrite lookup_insert_ne by done. split_and!; [done..|].
      eapply holds_kept; [|done]. by apply kept_grow.
    + intros Hni. rewrite lookup_insert_ne by done. apply Hu. intros ?. apply Hni. by right.
Qed.

Lemma runFields_deep stmts copied h out :
  Forall (λ p, ∃ t, assoc p.1 fs = Some t ∧ deep n t p.2) stmts → h0 ⊆ h →
  (∀ p, p ∈ trs → fieldHolds (λ _, True) h in_ p) → progress copied h out →
  ∃ out' h', runFields stmts in_ out h = Some (out', h') ∧ h ⊆ h' ∧
    progress (rev stmts.*1 ++ copied) h' out'.
Proof.
  revert copied h out. induction stmts as [|[f c] stmts IH]; intros copied h out Hst Hh Hin Hout.
  { by exists out, h. }
  apply Forall_cons in Hst as [(t & Ht & Hc) Hst].
  destruct (field_step f t c copied h out) as (x & v' & h1 & Hx & Hrun & Hsub & Hout1); [done..|].
  destruct (IH (f :: copied) h1 (<[f := v']> out)) as (out' & h' & Hrun' & Hsub' & Hout');
    [done|by etrans| |done|].
  { intros p Hp. eapply fieldHolds_kept; [|by apply Hin]. by apply kept_grow. }
  exists out', h'. simpl. rewrite Hx. unfold mbind_. rewrite Hrun. split; [done|].
  split; [by etrans|]. by rewrite <-app_assoc.
Qed.
End fields.

(** A struct: every statement copies its field, and a field without statement has
    no references. *)
Lemma deep_into n name fs stmts :
  assoc name structs = Some fs →
  Forall (λ p, ∃ t, assoc p.1 fs = Some t ∧ deep n t p.2) stmts →
  Forall (λ p, p.1 ∈ stmts.*1 ∨ flat p.2) fs →
  deep (S n) (Named name) (into stmts).
Proof.
  intros Hname Hst Hfs h [|fields|] [] Hh; simpl; try done. intros (fs' & Hname' & Hnames & Hall).
  rewrite Hname in Hname'. injection Hname' as <-. rewrite each_elem in Hall. simpl in Hh.
  assert (∀ f tr, (f, tr) ∈ trs → height tr ≤ n) as Hheights.
  { clear -Hh. induction trs as [|[g trg] trs IH]; intros f tr; [by intros ?%elem_of_nil|].
    simpl in Hh. intros [[= -> ->]|Hin]%elem_of_cons; [lia|]. eapply IH; [|done]. lia. }
  destruct (runFields_deep n fs trs fields h Hnames Hheights stmts [] h fields)
    as (out & h' & Hrun & Hsub & Hout); [done|done| | |].
  { intros [f tr] Hp. exact (Hall _ Hp). }
  { intros p Hp. split; [by intros ?%elem_of_nil|done]. }
  eexists _, h'. split; [unfold mbind_; by rewrite Hrun|]. split; [done|].
  exists fs. split; [done|]. split; [done|]. apply each_elem. intros [f tr] Hp.
  destruct (Hout _ Hp) as [Hcopied Hrest]. rewrite app_nil_r in *. simpl in *.
  destruct (decide (f ∈ rev stmts.*1)) as [Hin|Hni]; [by apply Hcopied|].
  destruct (Hall _ Hp) as (t & x & Ht & Hx & Hv). exists t, x. split; [done|].
  split; [by rewrite (Hrest Hni)|]. apply assoc_elem in Ht.
  rewrite Forall_forall in Hfs. destruct (Hfs _ Ht) as [Hin|Hflat]; [|by eapply Hflat].
  destruct Hni. by rewrite list_elem_of_In, <-in_rev, <-list_elem_of_In.
Qed.

(** The rules at one depth. *)
Lemma deep_zero name c : deep 0 (Named name) c.
Proof. intros h v [] Hh; simpl in *; try done; lia. Qed.

Lemma deep_ptr n t c : deep n t c → deep n (Ptr t) (newOf c).
Proof. intros Hc. eapply deep_le; [|by apply deep_newOf]. lia. Qed.

Lemma deep_slice n t c : deep n t c → deep n (Slice t) (makeOf c).
Proof. intros Hc. eapply deep_le; [|by apply deep_makeOf]. lia. Qed.

Lemma deep_struct n name fs stmts :
  assoc name structs = Some fs →
  Forall (λ p, ∃ t, assoc p.1 fs = Some t ∧ deep n t p.2) stmts →
  Forall (λ p, p.1 ∈ stmts.*1 ∨ flat p.2) fs →
  deep n (Named name) (into stmts).
Proof.
  intros Hn Hst Hfs. eapply deep_le; [|by eapply deep_into]. lia.
Qed.
End rules.

(** Closes [deep] goals of the copiers of structs; [deep_copies] has the ones that
    were proved before. *)
Create HintDb deep_copies discriminated.
#[export] Hint Constants Opaque : deep_copies.

Ltac solve_flat :=
  match goal with
  | |- flat Basic => apply flat_basic
  | |- flat (External _) => apply flat_external; apply eflat_used
  | |- flat (Named _) =>
      eapply flat_named;
        [reflexivity|repeat apply Forall_cons_2; try apply Forall_nil_2; simpl; solve_flat]
  end.

Ltac solve_deep :=
  repeat match goal with
  | |- deep _ _ _ => solve [auto with deep_copies nocore]
  | H : deep _ _ ?c |- deep _ _ ?c => exact H
  | |- deep _ _ plain => apply flat_deep; solve_flat
  | |- deep _ _ (newOf _) => apply deep_ptr
  | |- deep _ _ (makeOf _) => apply deep_slice
  | |- deep _ _ makeMap => apply deep_makeMap
  | |- deep _ _ (ecopy _) => apply deep_ecopy
  | |- deep _ _ (into _) =>
      eapply deep_struct;
        [reflexivity
        |repeat apply Forall_cons_2; try apply Forall_nil_2; (eexists; split; [reflexivity|]); simpl
        |repeat apply Forall_cons_2; try apply Forall_nil_2; simpl;
           first [right; solve_flat|left; apply (bool_decide_unpack _); reflexivity]]
  | |- deep _ _ (?c _) => unfold c
  | |- deep _ _ ?c => unfold c
  end.

(** ** Properties *)

Section properties.
Context `{ExternalTypes} (depth : nat).

Lemma AlertmanagerConfigRoute_deep n :
  deep n (Named "AlertmanagerConfigRoute") (AlertmanagerConfigRoute_copy n).
Proof.
  induction n as [|n IH]; [apply deep_zero|]. simpl. eapply deep_into; [reflexivity|..].
  - repeat apply Forall_cons_2; try apply Forall_nil_2; (eexists; split; [reflexivity|]);
      simpl; solve_deep.
  - repeat apply Forall_cons_2; try apply Forall_nil_2; simpl;
      first [right; solve_flat|left; apply (bool_decide_unpack _); reflexivity].
Qed.

(** The structs that are parts of others. *)
Lemma AlertmanagerConfigReceiver_deep :
  deep depth (Named "AlertmanagerConfigReceiver") AlertmanagerConfigReceiver_DeepCopyInto.
Proof. solve_deep. Qed.
#[local] Hint Resolve AlertmanagerConfigReceiver_deep : deep_copies.

Lemma AlertmanagerIndex_deep :
  deep depth (Named "AlertmanagerIndex") AlertmanagerIndex_DeepCopyInto.
Proof. solve_deep. Qed.
#[local] Hint Resolve AlertmanagerIndex_deep : deep_copies.

Lemma DescopedMode_deep : deep depth (Named "DescopedMode") DescopedMode_DeepCopyInto.
Proof. solve_deep. Qed.
#[local] Hint Resolve DescopedMode_deep : deep_copies.

Lemma GrafanaIndex_deep : deep depth (Named "GrafanaIndex") GrafanaIndex_DeepCopyInto.
Proof. solve_deep. Qed.
#[local] Hint Resolve GrafanaIndex_deep : deep_copies.

Lemma Storage_deep : deep depth (Named "Storage") Storage_DeepCopyInto.
Proof. solve_deep. Qed.
#[local] Hint Resolve Storage_deep : deep_copies.

Lemma SelfContained_deep : deep depth (Named "SelfContained") SelfContained_DeepCopyInto.
Proof. solve_deep. Qed.
#[local] Hint Resolve SelfContained_deep : deep_copies.

Lemma ObservabilitySpec_deep :
  deep depth (Named "ObservabilitySpec") ObservabilitySpec_DeepCopyInto.
Proof. solve_deep. Qed.
#[local] Hint Resolve ObservabilitySpec_deep : deep_copies.

Lemma Observability_deep : deep depth (Named "Observability") Observability_DeepCopyInto.
Proof. solve_deep. Qed.
#[local] Hint Resolve Observability_deep : deep_copies.

Lemma ObservatoriumIndex_deep :
  deep depth (Named "ObservatoriumIndex") ObservatoriumIndex_DeepCopyInto.
Proof. solve_deep. Qed.
#[local] Hint Resolve ObservatoriumIndex_deep : deep_copies.

Lemma PrometheusIndex_deep : deep depth (Named "PrometheusIndex") PrometheusIndex_DeepCopyInto.
Proof. solve_deep. Qed.
#[local] Hint Resolve PrometheusIndex_deep : deep_copies.

Lemma PromtailIndex_deep : deep depth (Named "PromtailIndex") PromtailIndex_DeepCopyInto.
Proof. solve_deep. Qed.
#[local] Hint Resolve PromtailIndex_deep : deep_copies.

Lemma RepositoryConfig_deep :
  deep depth (Named "RepositoryConfig") RepositoryConfig_DeepCopyInto.
Proof. solve_deep. Qed.
#[local] Hint Resolve RepositoryConfig_deep : deep_copies.

(** Every struct type of the package is copied deeply. *)
Lemma copies_deep : Forall (λ p, deep depth (Named p.1) p.2) (copies depth).
Proof.
  pose proof (AlertmanagerConfigRoute_deep depth) as Hroute.
  repeat apply Forall_cons_2; try apply Forall_nil_2; simpl; solve_deep.
Qed.

Lemma deepCopies_new : deepCopies depth = prod_map id newOf <$> copies depth.
Proof. reflexivity. Qed.

(** All struct types are covered. *)
Lemma deepCopies_complete : (deepCopies depth).*1 = structs.*1.
Proof. reflexivity. Qed.

(** C17: A deep copy is independent of its original: for every struct type of the
    package, DeepCopy returns a pointer to the same content; the copy keeps that
    content whatever is done later to the memory that was there before, and the
    original keeps it whatever is done to the rest.  The stack has to be as deep as
    the nesting of the value. *)
Theorem copies_are_independent name c h v tr :
  (name, c) ∈ deepCopies depth → height tr ≤ depth →
  holds (λ _, True) h tr (Ptr (Named name)) v →
  ∃ v' h', c v h = Some (v', h') ∧
    (∀ h2, (∀ l, h !! l = None → h2 !! l = h' !! l) →
       holds (λ _, True) h2 tr (Ptr (Named name)) v') ∧
    (∀ h2, (∀ l, is_Some (h !! l) → h2 !! l = h' !! l) →
       holds (λ _, True) h2 tr (Ptr (Named name)) v).
Proof.
  rewrite deepCopies_new. intros ([name' c'] & [= -> ->] & Hc)%list_elem_of_fmap Hh Hv.
  pose proof copies_deep as Hall. rewrite Forall_forall in Hall. specialize (Hall _ Hc). simpl in Hall.
  destruct (deep_ptr _ _ _ Hall h v tr Hh Hv) as (v' & h' & Hrun & Hsub & Hv').
  exists v', h'. split; [done|]. split.
  - intros h2 Heq. eapply holds_kept; [|exact Hv']. intros l x Hl Hx. by rewrite Heq.
  - intros h2 Heq. eapply holds_kept; [|exact Hv]. intros l x _ Hx.
    rewrite Heq by eauto. split; [by eapply lookup_weaken|done].
Qed.
End properties.

(** ** An instance *)

(** Other packages' structs as one string, behind a pointer unless they are flat. *)
Definition plainFlat (n : string) : bool :=
  bool_decide (n ∈ ["metav1.TypeMeta"; "monitoringv1.QueueConfig"]).

#[local] Program Instance plainExternals : ExternalTypes := {|
  econtent := string;
  eholds n P h e v :=
    if plainFlat n then v = VBasic e
    else ∃ l, v = VRef (Some l) ∧ P l ∧ h !! l = Some (Var (VBasic e));
  ecopy n := if plainFlat n then plain else newOf plain;
  eflat := plainFlat;
|}.
Next Obligation.
  intros n P P' h h' e v Hk. simpl. destruct (plainFlat n); [done|].
  intros (l & -> & HP & Hl). destruct (Hk l _ HP Hl). eauto.
Qed.
Next Obligation.
  intros n h e v. simpl. destruct (plainFlat n); [intros ->; by exists (VBasic e), h|].
  intros (l & -> & _ & Hl). destruct (alloc_grows h h (Var (VBasic e))) as (Hsub & Hnew & _); [done|].
  eexists _, _. split; [simpl; unfold mbind_, load; by rewrite Hl|]. split; [done|].
  eexists. split; [done|]. split; [done|]. apply lookup_insert_eq.
Qed.
Next Obligation. intros n P P' h h' e v Hn. simpl in *. by rewrite Hn. Qed.
Next Obligation. done. Qed.

(** A repository in memory: the struct, the secret it points to, and what the secret
    refers to. *)
Definition repositoryMemory : heap :=
  {[1%positive := Var (VStruct {["Repository" := VBasic "r"; "Channel" := VBasic "c";
      "Tag" := VBasic "t"; "AccessToken" := VBasic "a"; "Source" := VRef (Some 2%positive)]});
    2%positive := Var (VRef (Some 3%positive));
    3%positive := Var (VBasic "secret")]}.

Definition repositoryContent : tree string :=
  CPtr (CStruct [("Repository", CBasic "r"); ("Channel", CBasic "c"); ("Tag", CBasic "t");
    ("AccessToken", CBasic "a"); ("Source", CPtr (CExternal "secret"))]).

Definition repositoryHolds (h : heap) (v : value) : Prop :=
  holds (λ _, True) h repositoryContent (Ptr (Named "RepositoryInfo")) v.

(** After the copy the secret of the original is changed; the copy is as it was. *)
Lemma copies_are_independent_witness :
  ∃ v' h', RepositoryInfo_DeepCopy (VRef (Some 1%positive)) repositoryMemory = Some (v', h') ∧
    repositoryHolds (<[3%positive := Var (VBasic "other")]> h') v'.
Proof.
  destruct (@copies_are_independent plainExternals 3 "RepositoryInfo" RepositoryInfo_DeepCopy repositoryMemory
    (VRef (Some 1%positive)) repositoryContent) as (v' & h' & Hrun & Hcopy & _).
  - by do 24 right; left.
  - vm_compute. lia.
  - split; [done|]. eexists. split; [reflexivity|]. eexists. split; [reflexivity|].
    split; [reflexivity|]. simpl. split_and!; [..|done].
    1-5: (eexists _, _; split; [reflexivity|]; split; [reflexivity|]; try reflexivity).
    split; [done|]. eexists. split; [reflexivity|]. exists 3%positive. by split_and!.
  - exists v', h'. split; [done|]. apply Hcopy. intros l Hl. apply lookup_insert_ne.
    intros <-. vm_compute in Hl. done.
Defined.
End deepcopy.
