(* ===== verification/Cluster.v ===== *)
(** * The cluster the operator runs against

    The theorems about single programs assume nothing of the answers they get.
    This file is for the ones that need the API server to remember what was
    written: [ApiServer] is its interface, a state with a [view] of the stored
    objects and a labelled step relation [serve], with the documented effect of
    every request as a law.  Requests may fail at any time.  [storeServer] is an
    instance on a concrete store.  [served] relates the states before and after a
    trace, and [hoare] triples speak of programs that run against the server. *)

From S2P Require Import Prelude GoLib ApiTypes K8s Prog Client Api.

(** ** What the server stores *)

Definition stamp {k} (v : string) (o : Object k) : Object k := withMeta (set_ResourceVersion v) o.

(** The string data of a secret is merged into its data, and a secret without a
    type is of type Opaque. *)
Definition admitSecret (s : Secret) : Secret :=
  let b := body s in
  withBody (k:=KSecret)
    (mkSecretBody (if nonempty (secret_Type b) then secret_Type b else "Opaque")
       (match secret_StringData b with
        | None => secret_Data b
        | Some sd =>
            if decide (sd = ∅) then secret_Data b
            else Some (sd ∪ gomap_entries (secret_Data b))
        end) None) s.

Lemma admitSecret_twice (s : Secret) : admitSecret (admitSecret s) = admitSecret s.
Proof.
  unfold admitSecret. simpl. destruct (nonempty (secret_Type (body s))) eqn:Ht; simpl; [|done].
  by rewrite Ht.
Qed.

(** A port without protocol is a TCP port. *)
Definition admitPort (p : ServicePort) : ServicePort :=
  mkServicePort (sp_Name p) (if nonempty (sp_Protocol p) then sp_Protocol p else "TCP")
    (sp_Port p) (sp_TargetPort p).

Definition admitService (s : Service) : Service :=
  let b := body s in
  withBody (k:=KService)
    (mkServiceBody (map admitPort (service_Ports b)) (service_Selector b) (service_Conditions b)) s.

Lemma admitService_twice (s : Service) : admitService (admitService s) = admitService s.
Proof.
  assert (∀ ps, map admitPort (map admitPort ps) = map admitPort ps) as Hm.
  { intros ps. rewrite map_map. apply map_ext. intros p. unfold admitPort. simpl.
    destruct (nonempty (sp_Protocol p)) eqn:Hp; simpl; [by rewrite Hp|done]. }
  unfold admitService. simpl. by rewrite Hm.
Qed.

Definition withHost (h : string) (r : Route) : Route :=
  let spec := route_Spec (body r) in
  withBody (k:=KRoute)
    (mkRouteBody (mkRouteSpec h (route_To spec) (route_Port spec) (route_TLS spec)
                    (route_WildcardPolicy spec)) (route_Ingress (body r))) r.

Section admission.
(** The host the router gives to a new route that asks for none. *)
Context (assignHost : Route → string).

(** A route that asks for no host keeps the one it has. *)
Definition admitRoute (cur : option Route) (r : Route) : Route :=
  if nonempty (route_Host (route_Spec (body r))) then r
  else withHost (match cur with
                 | Some c => route_Host (route_Spec (body c))
                 | None => assignHost r
                 end) r.

(** What is stored for a written object, over the current one if there is one. *)
Definition storedForm {k} : option (Object k) → Object k → Object k :=
  match k as k return option (Object k) → Object k → Object k with
  | KSecret => λ _ s, admitSecret s
  | KService => λ _ s, admitService s
  | KRoute => admitRoute
  | _ => λ _ o, o
  end.

Lemma storedForm_kept {k} (cur : option (Object k)) o : meta (storedForm cur o) = meta o.
Proof. destruct k; try done. simpl. unfold admitRoute. by destruct (nonempty _). Qed.

Lemma storedForm_key {k} (cur : option (Object k)) o : keyOf (storedForm cur o) = keyOf o.
Proof. unfold keyOf, namespaceOf, nameOf. by rewrite storedForm_kept. Qed.

Lemma storedForm_stamp {k} (cur : Object k) v o :
  storedForm (Some cur) (stamp v o) = stamp v (storedForm (Some cur) o).
Proof. destruct k; try done. simpl. unfold admitRoute. simpl. by destruct (nonempty _). Qed.

Lemma storedForm_meta {k} (f : ObjectMeta → ObjectMeta) (o : Object k) :
  storedForm (Some (withMeta f o)) (withMeta f o) = withMeta f (storedForm (Some o) o).
Proof. destruct k; try done. simpl. unfold admitRoute. simpl. by destruct (nonempty _). Qed.
End admission.

(** A custom resource with another status. *)
Definition withStatus (st : ObservabilityStatus) (o : Observability) : Observability :=
  withBody (k:=KObservability) (mkObservabilityBody (Spec (body o)) st) o.

(** The kinds whose modelled fields the server stores as [storedForm] says.  The others
    have defaults of their own, or a part that an update does not write. *)
Definition described (k : Kind) : bool :=
  match k with
  | KSecret | KService | KServiceAccount | KClusterRole | KClusterRoleBinding | KRoute
  | KGrafanaDataSource | KConfigMap => true
  | _ => false
  end.

(** The object as it was, with another version and marked as deleted. *)
Definition marked {k} (o o' : Object k) : Prop :=
  ∃ t v, o' = stamp v (withMeta (set_DeletionTimestamp (Some t)) o).

(** ** The interface *)

(** [labels] is a subset of the labels of the object; the nil selector matches. *)
Definition matchesLabels {k} (labels : gomap string) (o : Object k) : bool :=
  bool_decide (map_Forall (λ key v, gomap_get (Labels (meta o)) key = Some v)
                 (gomap_entries labels)).

(** Whether a list request in [ns] covers an object. *)
Definition listed {k} (ns : string) (labels : gomap string) (o : Object k) : bool :=
  (negb (nonempty ns) || bool_decide (namespaceOf o = ns)) && matchesLabels labels o.

Class ApiServer := {
  State : Type;
  view : State → ∀ k, string → string → option (Object k);
  serve : State → step → State → Prop;
  hostOf : Route → string;

  (** A stored object has its name; one of a described kind is as the server stores
      it. *)
  view_key : ∀ s k ns n o, view s k ns n = Some o → keyOf o = mkKey k ns n;
  view_admitted : ∀ s k ns n o, view s k ns n = Some o → described k = true →
    storedForm hostOf (Some o) o = o;

  (** A call changes at most the object it names. *)
  serve_frame : ∀ s c x s' k ns n, serve s (c ⇝ x) s' →
    callWrites c ≠ Some (mkKey k ns n) → view s' k ns n = view s k ns n;

  serve_get : ∀ s k ns n r s', serve s (CGet k ns n ⇝ r) s' →
    match r with
    | inl o => view s k ns n = Some o
    | inr e => IsNotFound e = true → view s k ns n = None
    end;

  serve_list : ∀ s k ns labels os s', serve s (CList k ns labels ⇝ inl os) s' →
    NoDup os ∧ ∀ o, o ∈ os ↔
      listed ns labels o = true ∧ view s k (namespaceOf o) (nameOf o) = Some o;

  (** A created object was not there before; it gets a version. *)
  serve_create : ∀ s k (o : Object k) o' s', serve s (CCreate o ⇝ inl o') s' →
    view s k (namespaceOf o) (nameOf o) = None ∧
    view s' k (namespaceOf o) (nameOf o) = Some o' ∧
    (described k = true → DeletionTimestamp (meta o) = None →
       ∃ v, o' = stamp v (storedForm hostOf None o));

  (** An update that changes nothing keeps the version; a refused one may have
      been carried out.  Who removes the last finalizer may remove the object. *)
  serve_update : ∀ s k (o : Object k) r s', serve s (CUpdate o ⇝ r) s' →
    let before := view s k (namespaceOf o) (nameOf o) in
    let after := view s' k (namespaceOf o) (nameOf o) in
    (∃ e, r = inr e ∧ after = before) ∨
    ∃ cur o', before = Some cur ∧ (r = inl o' ∨ ∃ e, r = inr e) ∧
      (after = Some o' ∨
       after = None ∧ Finalizers (meta cur) ≠ [] ∧ Finalizers (meta o) = []) ∧
      Finalizers (meta o') = Finalizers (meta o) ∧
      (described k = true → DeletionTimestamp (meta o) = DeletionTimestamp (meta cur) →
         (∃ v, o' = stamp v (storedForm hostOf (Some cur) o)) ∧
         (stamp (ResourceVersion (meta cur)) (storedForm hostOf (Some cur) o) = cur → o' = cur));

  (** The status is all that a status update changes. *)
  serve_status : ∀ s o r s', serve s (CStatusUpdate o ⇝ r) s' →
    let before := view s KObservability (namespaceOf o) (nameOf o) in
    let after := view s' KObservability (namespaceOf o) (nameOf o) in
    after = before ∨ ∃ cur v st, before = Some cur ∧ after = Some (stamp v (withStatus st cur));

  (** A deleted object is gone or marked; without finalizers it is gone, unless it
      is a namespace, which has to be emptied first. *)
  serve_delete : ∀ s k (o : Object k) r s', serve s (CDelete o ⇝ r) s' →
    let before := view s k (namespaceOf o) (nameOf o) in
    let after := view s' k (namespaceOf o) (nameOf o) in
    match r with
    | None => ∃ cur, before = Some cur ∧
        (after = None ∨ ∃ o', after = Some o' ∧ marked cur o') ∧
        (Finalizers (meta cur) = [] → k ≠ KNamespace → after = None)
    | Some e => IsNotFound e = true → before = None ∧ after = None
    end;
}.

(** ** Traces and the states around them *)

Section served.
Context `{ApiServer}.

Fixpoint served (s : State) (tr : trace) (s' : State) : Prop :=
  match tr with
  | [] => s' = s
  | st :: tr' => ∃ s1, serve s st s1 ∧ served s1 tr' s'
  end.

Lemma served_app s tr1 tr2 s' :
  served s (tr1 ++ tr2) s' ↔ ∃ s1, served s tr1 s1 ∧ served s1 tr2 s'.
Proof.
  revert s. induction tr1 as [|st tr1 IH]; intros s; simpl.
  - split; [by exists s|]. by intros (? & -> & ?).
  - setoid_rewrite IH. naive_solver.
Qed.

(** Two states with the same objects. *)
Definition sameView (s s' : State) : Prop := ∀ k ns n, view s' k ns n = view s k ns n.

#[export] Instance sameView_equiv : Equivalence sameView.
Proof.
  split; unfold sameView; [done|intros s s' Heq k ns n; symmetry; apply Heq|].
  intros ??? H1 H2 k ns n. by rewrite H2, H1.
Qed.

(** What a trace that writes only objects in [P] leaves alone. *)
Lemma served_frame (P : ObjectKey → Prop) s tr s' :
  served s tr s' → Forall (writesIn P) tr →
  ∀ k ns n, ¬ P (mkKey k ns n) → view s' k ns n = view s k ns n.
Proof.
  revert s. induction tr as [|[c x] tr IH]; intros s; simpl; [by intros ->|].
  intros (s1 & Hs & Htr) [Hc Hw]%Forall_cons k ns n HP.
  rewrite (IH s1 Htr Hw) by done. apply (serve_frame _ _ _ _ _ _ _ Hs).
  intros Hk. by apply HP, Hc.
Qed.

Lemma served_reads s tr s' :
  served s tr s' → Forall (writesIn (λ _, False)) tr → sameView s s'.
Proof. intros Hs Hw k ns n. apply (served_frame _ s tr s' Hs Hw). tauto. Qed.

(** ** Programs against the server *)

(** Runs that start in a state with [P] end in a state with [Q]. *)
Definition hoare {A} (P : State → Prop) (p : prog A) (Q : outcome A → State → Prop) : Prop :=
  wp p (λ tr o, ∀ s s', P s → served s tr s' → Q o s').

Lemma hoare_bind {A B} P (p : prog A) (f : A → prog B) R Q :
  hoare P p R → (∀ s, R Panicked s → Q Panicked s) →
  (∀ a, hoare (R (Done a)) (f a) Q) → hoare P (pbind p f) Q.
Proof.
  intros Hp HP Hf. apply wp_bind. eapply wp_mono; [|exact Hp]. intros tr [a|] HR.
  - eapply wp_mono; [|apply Hf]. intros tr' o HQ s s' Hs (s1 & H1 & H2)%served_app. eauto.
  - eauto.
Qed.

Lemma hoare_conseq {A} P P' (p : prog A) Q Q' :
  (∀ s, P' s → P s) → (∀ o s, Q o s → Q' o s) → hoare P p Q → hoare P' p Q'.
Proof. intros HP HQ. apply wp_mono. eauto. Qed.

Lemma hoare_ret {A} P (a : A) Q : (∀ s, P s → Q (Done a) s) → hoare P (Ret a) Q.
Proof. intros HPQ s s' Hs ->. auto. Qed.

(** A program that writes nothing of [K] keeps what depends on [K] only. *)
Definition dependsOn (K : list ObjectKey) (C : State → Prop) : Prop :=
  ∀ s s', (∀ k ns n, mkKey k ns n ∈ K → view s' k ns n = view s k ns n) → C s → C s'.

Lemma hoare_frame {A} K C (p : prog A) :
  dependsOn K C → allSteps (writesIn (λ key, key ∉ K)) p → hoare C p (λ _, C).
Proof.
  intros HK Hw. eapply wp_mono; [|exact Hw]. intros tr o Htr s s' HC Hs.
  eapply HK; [|exact HC]. intros k ns n Hin. apply (served_frame _ s tr s' Hs Htr). tauto.
Qed.

Lemma hoare_and {A} P P' (p : prog A) Q Q' :
  hoare P p Q → hoare P' p Q' → hoare (λ s, P s ∧ P' s) p (λ o s, Q o s ∧ Q' o s).
Proof. intros H1 H2. eapply wp_mono; [|exact (wp_and _ _ _ H1 H2)]. naive_solver. Qed.
End served.

(** ** A server on a store *)

Definition Store : Type := ∀ k : Kind, gmap (string * string) (Object k).

Definition setKind {k} (m : gmap (string * string) (Object k)) (s : Store) : Store :=
  λ k', match decide (k = k') with
        | left E => eq_rect k (λ k, gmap (string * string) (Object k)) m k' E
        | right _ => s k'
        end.

Lemma setKind_eq {k} m s : setKind (k:=k) m s k = m.
Proof.
  unfold setKind. destruct (decide (k = k)) as [E|]; [|done].
  by rewrite (Eqdep_dec.UIP_dec Kind_eq_dec E eq_refl).
Qed.

Lemma setKind_ne {k} m s k' : k ≠ k' → setKind (k:=k) m s k' = s k'.
Proof. intros Hne. unfold setKind. by destruct (decide (k = k')). Qed.

Section store.
Context (assignHost : Route → string).

(** An entry as it is read: under its name, and in the form in which the server
    stores objects. *)
Definition readAs {k} (ns n : string) (o : Object k) : Object k :=
  storedForm assignHost (Some o) (withMeta (λ m, set_Name n (set_Namespace ns m)) o).

Definition storeView (s : Store) (k : Kind) (ns n : string) : option (Object k) :=
  readAs ns n <$> s k !! (ns, n).

Definition put {k} (o : Object k) (s : Store) : Store :=
  setKind (<[(namespaceOf o, nameOf o) := o]> (s k)) s.

Definition remove {k} (o : Object k) (s : Store) : Store :=
  setKind (delete (namespaceOf o, nameOf o) (s k)) s.

Definition notFound : error := StatusError ReasonNotFound "not found".

(** Whether writing [o] over [cur] takes away the last finalizer of a deleted
    object. *)
Definition released {k} (cur o : Object k) : bool :=
  match DeletionTimestamp (meta cur), Finalizers (meta cur), Finalizers (meta o) with
  | Some _, _ :: _, [] => true
  | _, _, _ => false
  end.

(** The object, deleted at time 0 unless it was deleted before. *)
Definition mark {k} (cur : Object k) : Object k :=
  withMeta (set_DeletionTimestamp (Some (default 0%Z (DeletionTimestamp (meta cur))))) cur.

(** The answers of the store; the version of a created object is [1], and an
    update keeps the version. *)
Definition respond (c : call) (s : Store) : answer c * Store :=
  match c as c return answer c * Store with
  | CGet k ns n =>
      (match storeView s k ns n with Some o => inl o | None => inr notFound end, s)
  | CList k ns labels =>
      (inl (List.filter (listed ns labels)
              (map (λ '((ns, n), o), readAs ns n o) (map_to_list (s k)))), s)
  | @CCreate k o =>
      match storeView s k (namespaceOf o) (nameOf o) with
      | Some _ => (inr (StatusError ReasonAlreadyExists "already exists"), s)
      | None =>
          let o' := stamp "1" (storedForm assignHost None o) in (inl o', put o' s)
      end
  | @CUpdate k o =>
      match storeView s k (namespaceOf o) (nameOf o) with
      | Some cur =>
          let o' := stamp (ResourceVersion (meta cur)) (storedForm assignHost (Some cur) o) in
          (inl o', if released cur o then remove o' s else put o' s)
      | None => (inr notFound, s)
      end
  | CStatusUpdate o =>
      match storeView s KObservability (namespaceOf o) (nameOf o) with
      | Some cur => let o' := withStatus (Status (body o)) cur in (inl o', put o' s)
      | None => (inr notFound, s)
      end
  | @CDelete k o =>
      match storeView s k (namespaceOf o) (nameOf o) with
      | Some cur =>
          (None, match Finalizers (meta cur) with [] => remove o s | _ => put (mark cur) s end)
      | None => (Some notFound, s)
      end
  | CHttp _ => (inr (OtherError "unavailable"), s)
  | CNow => (Time.Unix 0, s)
  | CRand n => (inl "random", s)
  | CReadFile _ => (inr FileNotExist, s)
  | CGetenv _ => (EmptyString, s)
  | CInc _ => (tt, s)
  | CRange keys => (keys, s)
  end.

Lemma withHost_same (r : Route) : withHost (route_Host (route_Spec (body r))) r = r.
Proof. by destruct r as [m [[]]]. Qed.

(** What was stored is not changed by storing it again. *)
Lemma storedForm_stored {k} c v (o : Object k) :
  let o' := stamp v (storedForm assignHost c o) in storedForm assignHost (Some o') o' = o'.
Proof.
  intros o'. destruct k; try done.
  - exact (f_equal (stamp v) (admitSecret_twice o)).
  - exact (f_equal (stamp v) (admitService_twice o)).
  - change (admitRoute assignHost (Some o') o' = o').
    unfold admitRoute. destruct (nonempty _); [done|]. apply withHost_same.
Qed.

Lemma storedForm_twice {k} c (o : Object k) :
  storedForm assignHost (Some (storedForm assignHost c o)) (storedForm assignHost c o) = storedForm assignHost c o.
Proof.
  pose proof (storedForm_stored c (ResourceVersion (meta (storedForm assignHost c o))) o) as Hs.
  enough (∀ x : Object k, stamp (ResourceVersion (meta x)) x = x) as He by (by rewrite !He in Hs).
  by intros [[] ?].
Qed.

Lemma placed_same {k} (o : Object k) :
  withMeta (λ m, set_Name (nameOf o) (set_Namespace (namespaceOf o) m)) o = o.
Proof. by destruct o as [[] ?]. Qed.

Lemma readAs_key {k} ns n (o : Object k) : keyOf (readAs ns n o) = mkKey k ns n.
Proof. unfold readAs. by rewrite storedForm_key. Qed.

Lemma readAs_stored {k} c v (o : Object k) :
  let o' := stamp v (storedForm assignHost c o) in readAs (namespaceOf o') (nameOf o') o' = o'.
Proof. intros o'. unfold readAs. rewrite (placed_same o'). apply storedForm_stored. Qed.

Lemma storeView_key s k ns n (o : Object k) :
  storeView s k ns n = Some o → keyOf o = mkKey k ns n.
Proof. unfold storeView. intros (o0 & _ & ->)%fmap_Some. apply readAs_key. Qed.

Lemma stored_key {k} c v (o : Object k) : keyOf (stamp v (storedForm assignHost c o)) = keyOf o.
Proof. exact (storedForm_key assignHost c o). Qed.

(** The entry of an object that is stored under its own name. *)
Lemma storeView_stored {k} c v (o : Object k) s :
  let o' := stamp v (storedForm assignHost c o) in
  storeView (put o' s) k (namespaceOf o) (nameOf o) = Some o'.
Proof.
  intros o'. pose proof (stored_key c v o) as [= <- <-]. fold o'.
  unfold storeView, put. rewrite setKind_eq, lookup_insert_eq.
  exact (f_equal Some (readAs_stored c v o)).
Qed.

Lemma storeView_put {k} (o : Object k) s :
  storeView (put o s) k (namespaceOf o) (nameOf o) = Some (readAs (namespaceOf o) (nameOf o) o).
Proof. unfold storeView, put. by rewrite setKind_eq, lookup_insert_eq. Qed.

Lemma storeView_put_ne {k} (o : Object k) s k' ns n :
  Some (keyOf o) ≠ Some (mkKey k' ns n) → storeView (put o s) k' ns n = storeView s k' ns n.
Proof.
  intros Hne. unfold storeView, put. destruct (decide (k = k')) as [<-|Hk].
  - rewrite setKind_eq, lookup_insert_ne; [done|]. intros [= <- <-]. by apply Hne.
  - by rewrite setKind_ne.
Qed.

Lemma storeView_remove_ne {k} (o : Object k) s k' ns n :
  Some (keyOf o) ≠ Some (mkKey k' ns n) → storeView (remove o s) k' ns n = storeView s k' ns n.
Proof.
  intros Hne. unfold storeView, remove. destruct (decide (k = k')) as [<-|Hk].
  - rewrite setKind_eq, lookup_delete_ne; [done|]. intros [= <- <-]. by apply Hne.
  - by rewrite setKind_ne.
Qed.

(** The entry of a stored object whose metadata was changed, but for its name. *)
Lemma storeView_withMeta {k} f s ns n (cur : Object k) :
  storeView s k ns n = Some cur →
  keyOf (withMeta f cur) = keyOf cur →
  storeView (put (withMeta f cur) s) k ns n = Some (withMeta f cur).
Proof.
  intros Hv Hk. pose proof (storeView_key _ _ _ _ _ Hv) as Hc. rewrite <-Hk in Hc.
  injection Hc as <- <-. rewrite storeView_put. unfold readAs. rewrite (placed_same (withMeta f cur)).
  rewrite storedForm_meta. unfold storeView in Hv. apply fmap_Some in Hv as (o0 & _ & ->).
  unfold readAs. by rewrite storedForm_twice.
Qed.

Lemma storeView_remove {k} (o : Object k) s :
  storeView (remove o s) k (namespaceOf o) (nameOf o) = None.
Proof. unfold storeView, remove. by rewrite setKind_eq, lookup_delete_eq. Qed.

Lemma elem_of_filter_bool {A} (p : A → bool) x l : x ∈ List.filter p l ↔ p x = true ∧ x ∈ l.
Proof. rewrite !list_elem_of_In, filter_In. tauto. Qed.

Lemma stored_list_NoDup (k : Kind) (m : gmap (string * string) (Object k)) :
  NoDup (map (λ '((ns, n), o), readAs ns n o) (map_to_list m)).
Proof.
  apply (NoDup_fmap_1 keyOf). rewrite <-list_fmap_compose.
  assert ((keyOf ∘ (λ '((ns, n), o), readAs ns n o)) <$> map_to_list m =
          (λ p : string * string, mkKey k p.1 p.2) <$> (map_to_list m).*1) as ->.
  { rewrite <-list_fmap_compose. apply list_fmap_ext. intros _ [[ns n] o] _. apply readAs_key. }
  apply NoDup_fmap_2; [|apply NoDup_fst_map_to_list]. by intros [] [] [= -> ->].
Qed.

#[export] Program Instance storeServer : ApiServer := {|
  State := Store;
  view := storeView;
  serve s st s' := respond (projT1 st) s = (projT2 st, s');
  hostOf := assignHost;
|}.
Next Obligation. intros s k ns n o. apply storeView_key. Qed.
Next Obligation.
  intros s k ns n o. unfold storeView. intros (o0 & _ & ->)%fmap_Some _. apply storedForm_twice.
Qed.
Next Obligation.
  intros s c x s' k ns n Hr Hk. destruct c; simpl in Hr; repeat case_match;
    injection Hr as <- <-; try done; simpl in Hk;
    first [apply storeView_put_ne|apply storeView_remove_ne]; rewrite ?stored_key; try done;
    match goal with Hv : storeView _ _ _ _ = Some ?o |- _ =>
      change (Some (keyOf o) ≠ Some (mkKey k ns n)); by rewrite (storeView_key _ _ _ _ _ Hv) end.
Qed.
Next Obligation.
  intros s k ns n r s' Hr. simpl in *. by destruct (storeView s k ns n); injection Hr as <- <-.
Qed.
Next Obligation.
  intros s k ns labels os s' Hr. simpl in *. injection Hr as <- <-. split.
  - apply NoDup_ListNoDup, List.NoDup_filter, NoDup_ListNoDup, stored_list_NoDup.
  - intros o. rewrite elem_of_filter_bool, list_elem_of_fmap. apply and_iff_compat_l. split.
    + intros ([[ns' n'] o0] & -> & Ho0%elem_of_map_to_list).
      pose proof (readAs_key ns' n' o0) as [= -> ->]. unfold storeView. by rewrite Ho0.
    + unfold storeView. intros (o0 & Ho0 & Heq)%fmap_Some.
      exists (namespaceOf o, nameOf o, o0). split; [done|]. by apply elem_of_map_to_list.
Qed.
Next Obligation.
  intros s k o o' s' Hr. simpl in *.
  destruct (storeView s k (namespaceOf o) (nameOf o)); [done|]. injection Hr as <- <-.
  split; [done|]. split; [apply storeView_stored|by eexists].
Qed.
Next Obligation.
  intros s k o r s' Hr. simpl in *.
  destruct (storeView s k (namespaceOf o) (nameOf o)) as [cur|] eqn:Hv; injection Hr as <- <-.
  - right. eexists cur, _. split; [done|]. split; [by left|]. split_and!.
    + destruct (released cur o) eqn:Hr; [right|left; apply storeView_stored]. split.
      * pose proof (stored_key (Some cur) (ResourceVersion (meta cur)) o) as [= <- <-].
        apply storeView_remove.
      * unfold released in Hr. by repeat case_match.
    + apply (f_equal Finalizers (storedForm_kept assignHost (Some cur) o)).
    + intros _ _. split; [by eexists|done].
  - left. by eexists.
Qed.
Next Obligation.
  intros s o r s' Hr. simpl in *.
  destruct (storeView s KObservability (namespaceOf o) (nameOf o)) as [cur|] eqn:Hv;
    injection Hr as <- <-; [|by left].
  right. exists cur, (ResourceVersion (meta cur)), (Status (body o)). split; [done|].
  pose proof (storeView_stored (k:=KObservability) None (ResourceVersion (meta cur))
    (withStatus (Status (body o)) cur) s) as Hp. simpl in Hp.
  pose proof (storeView_key _ _ _ _ _ Hv) as [= Hns Hn].
  change (namespaceOf (withStatus (Status (body o)) cur)) with (namespaceOf cur) in Hp.
  change (nameOf (withStatus (Status (body o)) cur)) with (nameOf cur) in Hp.
  rewrite Hns, Hn in Hp. rewrite <-Hp. f_equal. f_equal. by destruct cur as [[] []].
Qed.
Next Obligation.
  intros s k o r s' Hr. simpl in *.
  destruct (storeView s k (namespaceOf o) (nameOf o)) as [cur|] eqn:Hv; injection Hr as <- <-.
  - exists cur. destruct (Finalizers (meta cur)) as [|f fs] eqn:Hf.
    + rewrite storeView_remove. auto.
    + split; [done|]. split; [|done]. right. exists (mark cur). split; [by apply storeView_withMeta|].
      by eexists _, (ResourceVersion (meta cur)).
  - done.
Qed.
End store.
