(* ===== verification/ModelPrometheus.v ===== *)
(** * Prometheus resources (controllers/model/prometheus_resources.go)

    The objects of the Prometheus installation by name and namespace, the
    generated scrape and black-box configurations, and the choice between the
    custom resource, the repository index and the defaults for every selector,
    version, resource requirement and storage size. *)

From S2P Require Import Prelude GoLib ApiTypes K8s Prog Api.

Definition PrometheusVersion : string := "v2.36.2".
Definition PrometheusDefaultStorage : string := "250Gi".
Definition PrometheusOldDefaultName : string := "kafka-prometheus".
Definition ObservabilityPriorityClassName : string :=
  "observability-operator-priority-class".

Definition defaultPrometheusLabelSelectors : gomap string := mapOf [("app", "strimzi")].

(** ** Objects *)

Definition GetDefaultNamePrometheus (cr : Observability) : string :=
  match selfContained cr with
  | Some _ =>
      if nonempty (spec_PrometheusDefaultName (specOf cr))
      then spec_PrometheusDefaultName (specOf cr) else "obs-prometheus"
  | None => "obs-prometheus"
  end.

Definition GetPrometheusNamespace (cr : Observability) : Object KNamespace :=
  stub KNamespace (GetPrometheusOperatorNamespace cr) EmptyString.

Definition GetPrometheusAuthTokenLifetimes (cr : Observability) : ConfigMap :=
  stub KConfigMap "observatorium-token-lifetimes" (namespaceOf cr).

Definition GetPrometheusOperatorgroup (cr : Observability) : Object KOperatorGroup :=
  stub KOperatorGroup "observability-operatorgroup" (GetPrometheusOperatorNamespace cr).

Definition GetPrometheusSubscription (cr : Observability) : Object KSubscription :=
  stub KSubscription "prometheus-subscription" (GetPrometheusOperatorNamespace cr).

Definition GetPrometheusCatalogSource (cr : Observability) : Object KCatalogSource :=
  stub KCatalogSource "prometheus-catalogsource" (GetPrometheusOperatorNamespace cr).

Definition GetPrometheusProxySecret (cr : Observability) : Secret :=
  stub KSecret "prometheus-proxy" (GetPrometheusOperatorNamespace cr).

Definition GetPrometheusTLSSecret (cr : Observability) : Secret :=
  stub KSecret "prometheus-k8s-tls" (GetPrometheusOperatorNamespace cr).

Definition GetPrometheusRoute (cr : Observability) : Route :=
  stub KRoute (GetDefaultNamePrometheus cr) (GetPrometheusOperatorNamespace cr).

(** The OAuth redirect reference to a route, the JSON text of the annotation. *)
Definition quoted (s : string) : string := Strings.dq +:+ s +:+ Strings.dq.

Definition oauthRedirect (route : string) : string :=
  "{" +:+ quoted "kind" +:+ ":" +:+ quoted "OAuthRedirectReference" +:+ "," +:+
  quoted "apiVersion" +:+ ":" +:+ quoted "v1" +:+ "," +:+
  quoted "reference" +:+ ":{" +:+ quoted "kind" +:+ ":" +:+ quoted "Route" +:+ "," +:+
  quoted "name" +:+ ":" +:+ quoted route +:+ "}}".

Definition oauthAnnotations (route : string) : gomap string :=
  mapOf [("serviceaccounts.openshift.io/oauth-redirectreference.primary",
          oauthRedirect route)].

Definition GetPrometheusServiceAccount (cr : Observability) : Object KServiceAccount :=
  withMeta (set_Annotations (oauthAnnotations (nameOf (GetPrometheusRoute cr))))
    (stub KServiceAccount (GetDefaultNamePrometheus cr) (GetPrometheusOperatorNamespace cr)).

Definition GetPrometheusService (cr : Observability) : Service :=
  stub KService (GetDefaultNamePrometheus cr) (GetPrometheusOperatorNamespace cr).

Definition GetPrometheusClusterRole (cr : Observability) : Object KClusterRole :=
  stub KClusterRole (GetDefaultNamePrometheus cr) EmptyString.

Definition GetPrometheusClusterRoleBinding (cr : Observability) : Object KClusterRoleBinding :=
  stub KClusterRoleBinding (GetDefaultNamePrometheus cr) EmptyString.

Definition GetPrometheusAdditionalScrapeConfig (cr : Observability) : Secret :=
  stub KSecret "additional-scrape-configs" (GetPrometheusOperatorNamespace cr).

Definition GetPrometheusBlackBoxConfig (cr : Observability) : ConfigMap :=
  withMeta (set_Labels (mapOf [("managed-by", "observability-operator")]))
    (stub KConfigMap "black-box-config" (GetPrometheusOperatorNamespace cr)).

Definition GetPrometheus (cr : Observability) : Object KPrometheus :=
  stub KPrometheus (GetDefaultNamePrometheus cr) (GetPrometheusOperatorNamespace cr).

Definition GetDeadmansSwitch (cr : Observability) : Object KPrometheusRule :=
  stub KPrometheusRule "generated-deadmansswitch" (GetPrometheusOperatorNamespace cr).

(** ** Generated configuration *)

(** The federation scrape job; executing this template cannot fail. *)
Definition GetFederationConfigBearerToken (patterns : list string) : string := "
- job_name: openshift-monitoring-federation
  honor_labels: true
  kubernetes_sd_configs:
    - role: service
      namespaces:
        names:
          - openshift-monitoring
  scrape_interval: 120s
  scrape_timeout: 60s
  metrics_path: /federate
  relabel_configs:
    - action: keep
      source_labels: [ '__meta_kubernetes_service_name' ]
      regex: prometheus-k8s
    - action: keep
      source_labels: [ '__meta_kubernetes_service_port_name' ]
      regex: web
  params:
    match[]: [" +:+ Strings.Join patterns "," +:+ "]
  scheme: https
  bearer_token_file: " +:+ quoted "/var/run/secrets/kubernetes.io/serviceaccount/token" +:+ "
  tls_config:
    insecure_skip_verify: true
".

Definition blackBoxTls (selfSigned : bool) : string :=
  if selfSigned then "
      tls_config:
        ca_file: /var/run/secrets/kubernetes.io/serviceaccount/ca.crt
        cert_file: /etc/tls/private/tls.crt
        key_file: /etc/tls/private/tls.key"
  else EmptyString.

(** The template of the black-box exporter configuration, executed by
    html/template, which escapes the bearer token. *)
Definition blackBoxConfig (selfSigned hasToken : bool) (token : string) : string :=
"modules:
  http_extern_2xx:
    prober: http
    http:
      preferred_ip_protocol: ip4
  http_2xx:
    prober: http
    http:
      preferred_ip_protocol: ip4" +:+ blackBoxTls selfSigned +:+
  (if hasToken then "
      bearer_token: " +:+ Html.escape token else EmptyString) +:+ "
  http_post_2xx:
    prober: http
    http:
      method: POST
      preferred_ip_protocol: ip4" +:+ blackBoxTls selfSigned.

Definition GetBlackboxBearerToken (cr : Observability) : prog (bool * string) :=
  let '(hasSecret, secretName) := HasBlackboxBearerTokenSecret cr in
  if hasSecret then
    r ← Get KSecret (namespaceOf cr) secretName;
    match r with
    | inl secret => Ret (true, gomap_str (secret_Data (body secret)) "token")
    | inr _ => Ret (false, EmptyString)
    end
  else Ret (false, EmptyString).

(** Parsing and executing the constant template cannot fail, so the error result
    is always nil and is left out. *)
Definition GetDefaultBlackBoxConfig (cr : Observability) : prog (string * string) :=
  '(hasToken, token) ← GetBlackboxBearerToken cr;
  let config := blackBoxConfig (SelfSignedCerts cr) hasToken token in
  Ret (config, Sha256.hexSum256 config).

(** ** Choices *)

(** The Prometheus configuration of the first index; a nil one stays nil. *)
Definition getPrometheusRepositoryIndexConfig (indexes : list RepositoryIndex)
  : option PrometheusIndex :=
  match indexes with
  | i :: _ =>
      match idx_Config i with
      | Some c => rc_Prometheus c
      | None => Some zeroPrometheusIndex
      end
  | [] => Some zeroPrometheusIndex
  end.

(** The body the eight selector functions share: the custom resource, the empty
    selector when selectors are overridden, the repository index, the default. *)
Definition prometheusSelector (own : SelfContained → option LabelSelector)
    (repo : PrometheusIndex → option LabelSelector) (dflt : option LabelSelector)
    (cr : Observability) (indexes : list RepositoryIndex) : option LabelSelector :=
  match selfContained cr ?> own with
  | Some s => Some s
  | None =>
      if OverrideSelectors cr then Some emptySelector
      else match getPrometheusRepositoryIndexConfig indexes ?> repo with
           | Some s => Some s
           | None => dflt
           end
  end.

Definition strimziSelector : option LabelSelector :=
  Some (matchLabels defaultPrometheusLabelSelectors).

Definition GetPrometheusPodMonitorLabelSelectors :=
  prometheusSelector sc_PodMonitorLabelSelector pi_PodMonitorLabelSelector strimziSelector.
Definition GetPrometheusServiceMonitorLabelSelectors :=
  prometheusSelector sc_ServiceMonitorLabelSelector pi_ServiceMonitorLabelSelector strimziSelector.
Definition GetPrometheusRuleLabelSelectors :=
  prometheusSelector sc_RuleLabelSelector pi_RuleLabelSelector strimziSelector.
Definition GetProbeLabelSelectors :=
  prometheusSelector sc_ProbeLabelSelector pi_ProbeLabelSelector strimziSelector.
Definition GetPrometheusPodMonitorNamespaceSelectors :=
  prometheusSelector sc_PodMonitorNamespaceSelector pi_PodMonitorNamespaceSelector None.
Definition GetPrometheusServiceMonitorNamespaceSelectors :=
  prometheusSelector sc_ServiceMonitorNamespaceSelector pi_ServiceMonitorNamespaceSelector None.
Definition GetPrometheusRuleNamespaceSelectors :=
  prometheusSelector sc_RuleNamespaceSelector pi_RuleNamespaceSelector None.
Definition GetProbeNamespaceSelectors :=
  prometheusSelector sc_ProbeNamespaceSelector pi_ProbeNamespaceSelector None.

(** A version or image of the self-contained block, or its default. *)
Definition scStringOr (field : SelfContained → string) (dflt : string) (cr : Observability)
  : string :=
  if nonempty (scString field cr) then scString field cr else dflt.

(** Resource requirements of the self-contained block; absent, the empty ones. *)
Definition scResources (field : SelfContained → option ResourceRequirements)
    (cr : Observability) : ResourceRequirements :=
  default (JObj []) (selfContained cr ?> field).

Definition GetPrometheusVersion (cr : Observability) : string :=
  scStringOr sc_PrometheusVersion PrometheusVersion cr.
Definition GetPrometheusResourceRequirement (cr : Observability) : ResourceRequirements :=
  scResources sc_PrometheusResourceRequirement cr.
Definition GetPrometheusOperatorResourceRequirement (cr : Observability) : ResourceRequirements :=
  scResources sc_PrometheusOperatorResourceRequirement cr.

(** [Requests.Storage().String()] for a storage spec with requests; a missing
    entry is the zero quantity. *)
Definition requestedStorage (ss : StorageSpec) : option string :=
  match ss_Requests ss with
  | Some m => Some (q_String (default (mkQuantity "0") (m !! "storage")))
  | None => None
  end.

Definition GetPrometheusStorageSize (cr : Observability) (indexes : list RepositoryIndex)
  : string :=
  let own :=
    match selfContained cr with
    | Some _ =>
        spec_Storage (specOf cr) ?> st_PrometheusStorageSpec ?> requestedStorage
    | None => None
    end in
  let size := default PrometheusDefaultStorage own in
  match getPrometheusRepositoryIndexConfig indexes with
  | Some c =>
      if nonempty (pi_OverridePrometheusPvcSize c)
      then pi_OverridePrometheusPvcSize c else size
  | None => size
  end.

(** ** Properties *)

(** Where a selector comes from, as a specification: the four sources in order of
    precedence. *)
Inductive selectorSource (own repo dflt : option LabelSelector) (override : bool)
  : option LabelSelector → Prop :=
| FromCr s : own = Some s → selectorSource own repo dflt override (Some s)
| FromOverride : own = None → override = true →
    selectorSource own repo dflt override (Some emptySelector)
| FromRepository s : own = None → override = false → repo = Some s →
    selectorSource own repo dflt override (Some s)
| FromDefault : own = None → override = false → repo = None →
    selectorSource own repo dflt override dflt.

(** The selector given to Prometheus for pod monitors, service monitors, rules
    and probes comes from exactly one of four sources, in this order: the custom
    resource; the empty selector, which matches everything, when selectors are
    overridden; the repository index; the default. *)
Lemma prometheusSelector_source own repo dflt cr indexes s :
  prometheusSelector own repo dflt cr indexes = s ↔
  selectorSource (selfContained cr ?> own)
    (getPrometheusRepositoryIndexConfig indexes ?> repo) dflt (OverrideSelectors cr) s.
Proof.
  unfold prometheusSelector. split.
  - intros <-. destruct (selfContained cr ?> own) eqn:?; [by constructor|].
    destruct (OverrideSelectors cr) eqn:?; [by constructor|].
    destruct (getPrometheusRepositoryIndexConfig indexes ?> repo) eqn:?; by constructor.
  - intros [s' Hs|Hs Ho|s' Hs Ho Hr|Hs Ho Hr]; rewrite Hs, ?Ho, ?Hr; done.
Qed.

(** With overridden selectors the repository has no influence. *)
Lemma prometheusSelector_override own repo dflt cr i1 i2 :
  OverrideSelectors cr = true →
  prometheusSelector own repo dflt cr i1 = prometheusSelector own repo dflt cr i2.
Proof. unfold prometheusSelector. by intros ->. Qed.
