(* ===== verification/ModelResources.v ===== *)
(** * The other resources (controllers/model)

    Grafana, Alertmanager, Promtail, logging, token, token refresher and
    configuration resources: their names and namespaces, and the choices between
    custom resource, repository index and default. *)

From S2P Require Import Prelude GoLib ApiTypes K8s Prog Api ModelPrometheus.

Definition managedBy : gomap string := mapOf [("managed-by", "observability-operator")].

(** ** Grafana (grafana_resources.go) *)

Definition defaultGrafanaLabelSelectors : gomap string := mapOf [("app", "strimzi")].
Definition GrafanaOldDefaultName : string := "kafka-grafana".
Definition GrafanaDefaultInitImage : string :=
  "quay.io/grafana-operator/grafana_plugins_init:0.1.0".

Definition GetDefaultNameGrafana (cr : Observability) : string :=
  match selfContained cr with
  | Some _ =>
      if nonempty (spec_GrafanaDefaultName (specOf cr))
      then spec_GrafanaDefaultName (specOf cr) else "obs-grafana"
  | None => "obs-grafana"
  end.

Definition GetGrafanaCatalogSource (cr : Observability) : Object KCatalogSource :=
  stub KCatalogSource "grafana-operator-catalog-source" (namespaceOf cr).
Definition GetGrafanaSubscription (cr : Observability) : Object KSubscription :=
  stub KSubscription "grafana-subscription" (namespaceOf cr).
Definition GetGrafanaOperatorGroup (cr : Observability) : Object KOperatorGroup :=
  stub KOperatorGroup "observability-operatorgroup" (namespaceOf cr).
Definition GetGrafanaProxySecret (cr : Observability) : Secret :=
  stub KSecret "grafana-k8s-proxy" (namespaceOf cr).
Definition GetGrafanaClusterRole (cr : Observability) : Object KClusterRole :=
  stub KClusterRole "grafana-oauth-proxy-cluster-role" EmptyString.
Definition GetGrafanaClusterRoleBinding (cr : Observability) : Object KClusterRoleBinding :=
  stub KClusterRoleBinding "cluster-grafana-oauth-proxy-cluster-role-binding" EmptyString.
Definition GetGrafanaCr (cr : Observability) : Object KGrafana :=
  stub KGrafana (GetDefaultNameGrafana cr) (namespaceOf cr).
Definition GetGrafanaDatasource (cr : Observability) : Object KGrafanaDataSource :=
  stub KGrafanaDataSource "on-cluster-prometheus" (namespaceOf cr).

Definition GetGrafanaDashboardLabelSelectors (cr : Observability)
    (indexes : list RepositoryIndex) : LabelSelector :=
  match selfContained cr ?> sc_GrafanaDashboardLabelSelector with
  | Some s => s
  | None =>
      match head indexes ?> idx_Config ?> rc_Grafana ?> gi_DashboardLabelSelector with
      | Some s => s
      | None => matchLabels defaultGrafanaLabelSelectors
      end
  end.

Definition GetGrafanaResourceRequirement (cr : Observability) : ResourceRequirements :=
  scResources sc_GrafanaResourceRequirement cr.
Definition GetGrafanaOperatorResourceRequirement (cr : Observability) : ResourceRequirements :=
  scResources sc_GrafanaOperatorResourceRequirement cr.

(** [config.Grafana.GrafanaVersion] panics when the first index has a
    configuration without a Grafana section. *)
Definition GetGrafanaVersion (indexes : list RepositoryIndex) (cr : Observability)
  : prog string :=
  let own := scStringOr sc_GrafanaVersion EmptyString cr in
  match head indexes ?> idx_Config with
  | Some config =>
      g ← deref (rc_Grafana config);
      if nonempty (gi_GrafanaVersion g) then Ret (gi_GrafanaVersion g) else Ret own
  | None => Ret own
  end.

Definition GetGrafanaInitImage (cr : Observability) : string :=
  scStringOr sc_GrafanaInitImage GrafanaDefaultInitImage cr.

(** ** Alertmanager (alertmanager_resources.go) *)

Definition AlertManagerOldDefaultName : string := "kafka-alertmanager".

Definition GetDefaultNameAlertmanager (cr : Observability) : string :=
  match selfContained cr with
  | Some _ =>
      if nonempty (spec_AlertManagerDefaultName (specOf cr))
      then spec_AlertManagerDefaultName (specOf cr) else "obs-alertmanager"
  | None => "obs-alertmanager"
  end.

Definition GetAlertmanagerProxySecret (cr : Observability) : Secret :=
  stub KSecret "alertmanager-proxy" (GetPrometheusOperatorNamespace cr).
Definition GetAlertmanagerTLSSecret (cr : Observability) : Secret :=
  stub KSecret "alertmanager-k8s-tls" (GetPrometheusOperatorNamespace cr).
Definition GetAlertmanagerRoute (cr : Observability) : Route :=
  stub KRoute (GetDefaultNameAlertmanager cr) (GetPrometheusOperatorNamespace cr).
Definition GetAlertmanagerServiceAccount (cr : Observability) : Object KServiceAccount :=
  withMeta (set_Annotations (oauthAnnotations (nameOf (GetAlertmanagerRoute cr))))
    (stub KServiceAccount (GetDefaultNameAlertmanager cr) (GetPrometheusOperatorNamespace cr)).
Definition GetAlertmanagerClusterRole (cr : Observability) : Object KClusterRole :=
  stub KClusterRole (GetDefaultNameAlertmanager cr) EmptyString.
Definition GetAlertmanagerClusterRoleBinding (cr : Observability) : Object KClusterRoleBinding :=
  stub KClusterRoleBinding (GetDefaultNameAlertmanager cr) EmptyString.
Definition GetAlertmanagerCr (cr : Observability) : Object KAlertmanager :=
  stub KAlertmanager (GetDefaultNameAlertmanager cr) (GetPrometheusOperatorNamespace cr).
Definition GetAlertmanagerSecret (cr : Observability) : Secret :=
  stub KSecret ("alertmanager-" +:+ nameOf (GetAlertmanagerCr cr))
    (GetPrometheusOperatorNamespace cr).

Definition GetAlertmanagerSecretName (cr : Observability) : string :=
  let '(override, name) := HasAlertmanagerConfigSecret cr in
  if override then name else nameOf (GetAlertmanagerSecret cr).

Definition GetAlertmanagerService (cr : Observability) : Service :=
  stub KService (GetDefaultNameAlertmanager cr) (GetPrometheusOperatorNamespace cr).
Definition GetAlertmanagerVersion (cr : Observability) : string :=
  scStringOr sc_AlertManagerVersion EmptyString cr.
Definition GetAlertmanagerResourceRequirement (cr : Observability) : ResourceRequirements :=
  scResources sc_AlertManagerResourceRequirement cr.

Definition getAlertmanagerRepositoryIndexConfig (indexes : list RepositoryIndex)
  : option AlertmanagerIndex :=
  match indexes with
  | i :: _ =>
      match idx_Config i with
      | Some c => rc_Alertmanager c
      | None => Some zeroAlertmanagerIndex
      end
  | [] => Some zeroAlertmanagerIndex
  end.

Definition GetAlertmanagerStorageSize (cr : Observability) (indexes : list RepositoryIndex)
  : string :=
  let own := spec_Storage (specOf cr) ?> st_AlertManagerStorageSpec ?> requestedStorage in
  let size := default EmptyString own in
  match getAlertmanagerRepositoryIndexConfig indexes with
  | Some c =>
      if nonempty (ai_OverrideAlertmanagerPvcSize c)
      then ai_OverrideAlertmanagerPvcSize c else size
  | None => size
  end.

(** ** Logging (logging_resources.go) *)

Definition loggingLabels : gomap string :=
  mapOf [("app.kubernetes.io/managed-by", "observability-operator")].

Definition GetLoggingSubscription (cr : Observability) : Object KSubscription :=
  withMeta (set_Labels loggingLabels) (stub KSubscription "cluster-logging" "openshift-logging").

Definition GetClusterLoggingCR : Object KClusterLogging :=
  let memoryRequests :=
    JObj [("limits", JObj []); ("requests", JObj [("memory", JStr "736Mi")])] in
  let profileToleration :=
    JObj [("key", JStr "bf2.org/kafkaInstanceProfileType"); ("operator", JStr "Exists");
          ("effect", JStr "NoExecute")] in
  mkObject (k:=KClusterLogging)
    (set_Labels loggingLabels (metaOf "instance" "openshift-logging"))
    (mkClusterLoggingBody "Managed" "fluentd" (Some memoryRequests) [profileToleration]).

Definition GetClusterLogForwarderCR : Object KClusterLogForwarder :=
  stub KClusterLogForwarder "instance" "openshift-logging".

(** ** Tokens and configuration (token_resources.go, configuration_resources.go) *)

Definition GetTokenSecret (cr : Observability) (name : string) : Secret :=
  withMeta (set_Labels (mapOf [("managed-by", "observability-operator");
                               ("purpose", "observatorium-token-secret")]))
    (stub KSecret name (namespaceOf cr)).

Definition GetResourcesDefaultName (cr : Observability) : string := "obs-resources".
Definition GetResourcesService (cr : Observability) : Service :=
  stub KService (GetResourcesDefaultName cr) (namespaceOf cr).
Definition GetResourcesDeployment (cr : Observability) : Object KDeployment :=
  stub KDeployment (GetResourcesDefaultName cr) (namespaceOf cr).
Definition GetResourcesRoute (cr : Observability) : Route :=
  stub KRoute "observability-resources-route" (namespaceOf cr).

(** ** Token refreshers (token_refresher_resources.go) *)

Inductive TokenRefresherType := MetricsTokenRefresher | LogsTokenRefresher.

#[export] Instance TokenRefresherType_eq_dec : EqDecision TokenRefresherType.
Proof. solve_decision. Defined.

Definition TokenRefresherType_string (t : TokenRefresherType) : string :=
  match t with MetricsTokenRefresher => "metrics" | LogsTokenRefresher => "logs" end.

Record TokenRefresherConfigSet := mkTokenRefresherConfigSet {
  trc_ObservatoriumUrl : string;
  trc_AuthUrl : string;
  trc_Name : string;
  trc_Realm : string;
  trc_Client : string;
  trc_Tenant : string;
  trc_Secret : string;
  trc_Type : TokenRefresherType;
}.

Definition GetTokenRefresherName (id : string) (t : TokenRefresherType) : string :=
  "token-refresher-" +:+ TokenRefresherType_string t +:+ "-" +:+ id.

Definition GetTokenRefresherService (cr : Observability) (name : string) : Service :=
  stub KService name (GetPrometheusOperatorNamespace cr).
Definition GetTokenRefresherDeployment (cr : Observability) (name : string)
  : Object KDeployment :=
  stub KDeployment name (GetPrometheusOperatorNamespace cr).
Definition GetTokenRefresherNetworkPolicy (cr : Observability) (name : string)
  : Object KNetworkPolicy :=
  stub KNetworkPolicy (name +:+ "-network-policy") (GetPrometheusOperatorNamespace cr).

(** ** Promtail (promtail_resources.go) *)

Definition PromtailOldDefaultName : string := "kafka-promtail".
Definition PromtailDefaultName : string := "obs-promtail".

Definition GetPromtailConfigmap (cr : Observability) (name : string) : ConfigMap :=
  withMeta (set_Labels managedBy)
    (stub KConfigMap ("promtail-config-" +:+ name) (namespaceOf cr)).
Definition GetPromtailDaemonSet (cr : Observability) (name : string) : Object KDaemonSet :=
  withMeta (set_Labels managedBy) (stub KDaemonSet ("promtail-" +:+ name) (namespaceOf cr)).
Definition GetPromtailServiceAccount (cr : Observability) : Object KServiceAccount :=
  stub KServiceAccount PromtailDefaultName (namespaceOf cr).
Definition GetPromtailClusterRole (cr : Observability) : Object KClusterRole :=
  stub KClusterRole PromtailDefaultName EmptyString.
Definition GetPromtailClusterRoleBinding (cr : Observability) : Object KClusterRoleBinding :=
  stub KClusterRoleBinding PromtailDefaultName EmptyString.

(** The text of the Promtail configuration; [{{-] swallows the line break before
    it. *)
Definition promtailConfigText (url : string) (requireToken : bool)
    (clusterId observabilityId namespaces : string) : string := "
server:
  http_listen_port: 9080
  http_listen_address: 0.0.0.0
clients:
  - url: " +:+ url +:+ (if requireToken then "
    bearer_token_file: /opt/secrets/token" else EmptyString) +:+ "
    external_labels:
      cluster_id: " +:+ quoted clusterId +:+ "
      observability_id: " +:+ quoted observabilityId +:+ "
    tls_config:
      insecure_skip_verify: true
scrape_configs:
  - job_name: " +:+ quoted "strimzi" +:+ "
    relabel_configs:
    - source_labels:
      - __meta_kubernetes_pod_node_name
      target_label: __host__
    - action: replace
      source_labels:
      - __meta_kubernetes_pod_node_name
      target_label: nodename
    - action: replace
      source_labels:
      - __meta_kubernetes_namespace
      target_label: namespace
    - action: replace
      source_labels:
      - __meta_kubernetes_pod_name
      target_label: instance
    - action: replace
      source_labels:
      - __meta_kubernetes_pod_container_name
      target_label: container_name
    - action: labelmap
      regex: __meta_kubernetes_pod_label_strimzi_io_(.+)
      replacement: strimzi_io_$1
    - replacement: /var/log/pods/*$1/*.log
      separator: /
      source_labels:
      - __meta_kubernetes_pod_uid
      - __meta_kubernetes_pod_container_name
      target_label: __path__
    kubernetes_sd_configs:
      - role: " +:+ quoted "pod" +:+ "
        namespaces:
          names: [" +:+ namespaces +:+ "]
".

(** The push URL and whether a token is needed. *)
Definition promtailTarget (cr : Observability) (c : ObservatoriumIndex)
  : (string * bool) + error :=
  if negb (IsValid c) then
    inr (OtherError ("invalid observatorium config for " +:+ oi_Id c))
  else if decide (oi_AuthType c = AuthTypeDex) then
    inl (oi_Gateway c +:+ "/api/logs/v1/" +:+ oi_Tenant c +:+ "/loki/api/v1/push", true)
  else if decide (oi_AuthType c = AuthTypeRedhat) then
    match oi_RedhatSsoConfig c with
    | Some sso =>
        if HasLogs sso then
          inl ("http://" +:+ GetTokenRefresherName (oi_Id c) LogsTokenRefresher +:+ "." +:+
               namespaceOf cr +:+ ".svc.cluster.local", false)
        else inr (OtherError ("invalid sso config for " +:+ oi_Id c))
    | None => inr (OtherError ("invalid sso config for " +:+ oi_Id c))
    end
  else inl (EmptyString, false).

(** [c] is nil when no observatorium is configured; [namespaces] is sorted in
    place, so the caller sees the sorted slice too: it is given back. *)
Definition GetPromtailConfig (cr : Observability) (c : option ObservatoriumIndex)
    (indexId : string) (namespaces : list string) : (string + error) * list string :=
  let render url requireToken :=
    let sorted := Strings.sortStrings namespaces in
    (inl (promtailConfigText url requireToken (status_ClusterID (statusOf cr)) indexId
            (Strings.Join sorted ",")), sorted) in
  match c with
  | None => render EmptyString false
  | Some c =>
      match promtailTarget cr c with
      | inr e => (inr e, namespaces)
      | inl (url, requireToken) => render url requireToken
      end
  end.

Definition GetPromtailDaemonSetLabels (index : RepositoryIndex) : LabelSelector :=
  match idx_Config index ?> rc_Promtail ?> pti_DaemonSetLabelSelector with
  | Some s => s
  | None => matchLabels (mapOf [("app", "promtail")])
  end.

(** ** Properties *)

(** The Promtail configuration, and so its hash, does not depend on the order in
    which the namespaces were listed. *)
Lemma GetPromtailConfig_order cr c indexId ns1 ns2 :
  ns1 ≡ₚ ns2 →
  (GetPromtailConfig cr c indexId ns1).1 = (GetPromtailConfig cr c indexId ns2).1.
Proof.
  intros Hp%Strings.sortStrings_canonical. unfold GetPromtailConfig.
  destruct c as [c|]; [destruct (promtailTarget cr c) as [[]|]|]; simpl; by rewrite ?Hp.
Qed.

(** Token refreshers for metrics and for logs never share a name. *)
Lemma GetTokenRefresherName_inj id t id' t' :
  GetTokenRefresherName id t = GetTokenRefresherName id' t' → id = id' ∧ t = t'.
Proof.
  unfold GetTokenRefresherName. destruct t, t'; simpl; intros H; by simplify_eq.
Qed.
