(* ===== verification/Webhook.v ===== *)
(** * The validating webhook (api/v1/observability_webhook.go)

    [ValidateUpdate] compares the three default names of the old and the new
    resource; creation and deletion are always admitted. *)

From S2P Require Import Prelude ApiTypes K8s Api ModelPrometheus ModelResources.

(** The three checks the webhook repeats for each name. *)
Definition checkDefaultName (field : string) (old new : string) : option error :=
  if nonempty old && negb (nonempty new) then
    Some (OtherError ("cannot unset " +:+ field +:+ " after cr creation"))
  else if negb (nonempty old) && nonempty new then
    Some (OtherError ("cannot set " +:+ field +:+ " after cr creation"))
  else if nonempty old && nonempty new && negb (bool_decide (old = new)) then
    Some (OtherError ("cannot update " +:+ field +:+ " after cr creation"))
  else None.

Definition ValidateCreate (new : Observability) : option error := None.

Definition ValidateUpdate (new old : Observability) : option error :=
  let check field proj :=
    checkDefaultName field (proj (specOf old)) (proj (specOf new)) in
  match check "AlertManagerDefaultName" spec_AlertManagerDefaultName with
  | Some e => Some e
  | None =>
  match check "GrafanaDefaultName" spec_GrafanaDefaultName with
  | Some e => Some e
  | None => check "PrometheusDefaultName" spec_PrometheusDefaultName
  end end.

Definition ValidateDelete (old : Observability) : option error := None.

Lemma checkDefaultName_None field old new :
  checkDefaultName field old new = None ↔ old = new.
Proof.
  unfold checkDefaultName, nonempty. repeat case_bool_decide; simpl; naive_solver.
Qed.

(** An update is admitted exactly when it changes none of the three default names:
    setting, unsetting and renaming are refused. *)
Lemma ValidateUpdate_None new old :
  ValidateUpdate new old = None ↔
  spec_AlertManagerDefaultName (specOf old) = spec_AlertManagerDefaultName (specOf new) ∧
  spec_GrafanaDefaultName (specOf old) = spec_GrafanaDefaultName (specOf new) ∧
  spec_PrometheusDefaultName (specOf old) = spec_PrometheusDefaultName (specOf new).
Proof.
  rewrite <-(checkDefaultName_None "AlertManagerDefaultName"),
    <-(checkDefaultName_None "GrafanaDefaultName"),
    <-(checkDefaultName_None "PrometheusDefaultName").
  unfold ValidateUpdate. destruct (checkDefaultName _ _ _); [naive_solver|].
  destruct (checkDefaultName _ _ _); naive_solver.
Qed.

(** The shape the three default names share. *)
Lemma defaultName_stable (name : string → string) (dflt : string) (o n : option SelfContained)
    (s : string) :
  (is_Some o ↔ is_Some n) →
  (match o with Some _ => name s | None => dflt end) =
  (match n with Some _ => name s | None => dflt end).
Proof.
  intros Hiff. destruct o, n; try done; exfalso; destruct Hiff as [H1 H2].
  - by destruct (H1 (ex_intro _ _ eq_refl)).
  - by destruct (H2 (ex_intro _ _ eq_refl)).
Qed.

Lemma admitted_update_keeps_names (new old : Observability) :
  ValidateUpdate new old = None →
  (is_Some (selfContained old) ↔ is_Some (selfContained new)) →
  GetDefaultNamePrometheus old = GetDefaultNamePrometheus new ∧
  GetDefaultNameGrafana old = GetDefaultNameGrafana new ∧
  GetDefaultNameAlertmanager old = GetDefaultNameAlertmanager new.
Proof.
  intros (Ha & Hg & Hp)%ValidateUpdate_None Hsc.
  unfold GetDefaultNamePrometheus, GetDefaultNameGrafana, GetDefaultNameAlertmanager.
  rewrite Ha, Hg, Hp. split_and!.
  - by apply (defaultName_stable (λ s, if nonempty s then s else "obs-prometheus")).
  - by apply (defaultName_stable (λ s, if nonempty s then s else "obs-grafana")).
  - by apply (defaultName_stable (λ s, if nonempty s then s else "obs-alertmanager")).
Qed.

(** C31: An admitted update of a resource, whatever else of the spec it changes, that
    neither adds nor removes the self-contained block leaves the operator with the
    Grafana it manages: the key (namespace and name) of that object is the same.  If
    the update does not change the descoped mode either, the same holds of the
    Prometheus and the Alertmanager.  A change of the descoped mode is admitted and
    may move these two to another namespace, under the same names. *)
Theorem admitted_update_keeps_resources (new old : Observability) :
  ValidateUpdate new old = None → namespaceOf new = namespaceOf old →
  (is_Some (selfContained old) ↔ is_Some (selfContained new)) →
  keyOf (GetGrafanaCr new) = keyOf (GetGrafanaCr old) ∧
  nameOf (GetPrometheus new) = nameOf (GetPrometheus old) ∧
  nameOf (GetAlertmanagerCr new) = nameOf (GetAlertmanagerCr old) ∧
  (spec_DescopedMode (specOf new) = spec_DescopedMode (specOf old) →
   keyOf (GetPrometheus new) = keyOf (GetPrometheus old) ∧
   keyOf (GetAlertmanagerCr new) = keyOf (GetAlertmanagerCr old)).
Proof.
  intros Hv Hns Hsc. destruct (admitted_update_keeps_names new old Hv Hsc) as (Hp & Hg & Ha).
  assert (spec_DescopedMode (specOf new) = spec_DescopedMode (specOf old) →
    GetPrometheusOperatorNamespace new = GetPrometheusOperatorNamespace old) as Hop.
  { intros Hd. unfold GetPrometheusOperatorNamespace, DescopedModeEnabled. by rewrite Hd, Hns. }
  unfold keyOf, nameOf. cbn -[GetPrometheusOperatorNamespace]. unfold namespaceOf in *. cbn in *.
  rewrite Hp, Hg, Ha, Hns.
  do 3 (split; [reflexivity|]). intros Hd. by rewrite (Hop Hd).
Qed.

(** A resource with a default name for Prometheus, with and without the block, in
    and out of descoped mode. *)
Definition userCr (sc : option SelfContained) (dm : option DescopedMode) (retention : string)
  : Observability :=
  mkObject (k:=KObservability) (metaOf "obs" "ns")
    (mkObservabilityBody
       (mkObservabilitySpec EmptyString None EmptyString None None None sc dm retention
          EmptyString "my-prometheus" EmptyString) zeroStatus).

Definition namedCr (sc : option SelfContained) : Observability := userCr sc None EmptyString.

(** An update that sets the retention and disables the deadman's snitch. *)
Lemma admitted_update_keeps_resources_witness :
  let old := namedCr (Some zeroSelfContained) in
  let new := userCr (Some (mkSelfContained None None None (Some true) None None None None [] None
    None None None None None None None None EmptyString EmptyString EmptyString EmptyString
    None None None None None EmptyString EmptyString None EmptyString)) None "10d" in
  new ≠ old ∧ keyOf (GetPrometheus new) = keyOf (GetPrometheus old).
Proof.
  split; [discriminate|].
  apply (admitted_update_keeps_resources (userCr (Some _) None "10d")
           (namedCr (Some zeroSelfContained)));
    [reflexivity|reflexivity|split; intros _; eexists; reflexivity|reflexivity].
Defined.

(** Entering descoped mode is admitted and moves the Prometheus resource. *)
Lemma descoped_change_admitted :
  let old := namedCr (Some zeroSelfContained) in
  let new := userCr (Some zeroSelfContained) (Some (mkDescopedMode (Some true) "monitoring"))
    EmptyString in
  ValidateUpdate new old = None ∧
  keyOf (GetPrometheus old) = mkKey KPrometheus "ns" "my-prometheus" ∧
  keyOf (GetPrometheus new) = mkKey KPrometheus "monitoring" "my-prometheus".
Proof. by vm_compute. Qed.

(** Removing the block is admitted and renames the Prometheus resource. *)
Lemma self_contained_removal_admitted :
  ValidateUpdate (namedCr None) (namedCr (Some zeroSelfContained)) = None ∧
  GetDefaultNamePrometheus (namedCr (Some zeroSelfContained)) = "my-prometheus" ∧
  GetDefaultNamePrometheus (namedCr None) = "obs-prometheus".
Proof. by vm_compute. Qed.
