(* ===== verification/Utils.v ===== *)
(** * Reconcilers: the interface and the shared helpers

    The interface [ObservabilityReconciler] of controllers/reconcilers/reconciler.go
    and the helpers of controllers/utils/reconciler_utils.go.  A stage mutates the
    custom resource and the next status it is given, so both are passed through. *)

From S2P Require Import Prelude GoLib ApiTypes K8s Prog Client Api ModelPrometheus ModelResources.

(** ** The stage interface (reconciler.go) *)

Record ObservabilityReconciler := mkReconciler {
  Reconcile : Observability → ObservabilityStatus →
    prog (Observability * ObservabilityStatus * StageResult);
  Cleanup : Observability → prog StageResult;
}.

(** A stage that leaves the resource and the status as they are. *)
Definition stateless (p : Observability → prog StageResult) (cr : Observability)
    (s : ObservabilityStatus) : prog (Observability * ObservabilityStatus * StageResult) :=
  r ← p cr; Ret (cr, s, r).

(** What the controller relies on: a stage keeps the name, the namespace, the
    finalizers, the deletion timestamp and the spec of the resource (its labels
    may change), and does not change which stage the status names. *)
Definition sameResource (cr cr' : Observability) : Prop :=
  set_Labels None (meta cr') = set_Labels None (meta cr) ∧ specOf cr' = specOf cr.

Definition preservesResource (R : ObservabilityReconciler) : Prop :=
  ∀ cr s, wp (Reconcile R cr s) (λ _ o, ∀ cr' s' r, o = Done (cr', s', r) →
    sameResource cr cr' ∧ status_Stage s' = status_Stage s).

(** The objects a stage manages: [Reconcile] creates no others, and a successful
    [Cleanup] has deleted the owned ones; a [Cleanup] writes nothing else.
    [unguaranteed] are the ones whose removal is conditional, or is left to
    another stage.  The counters of the stages belong to the controller. *)
Class StageContract (R : ObservabilityReconciler) := {
  owned : Observability → list ObjectKey;
  unguaranteed : Observability → ObjectKey → Prop;
  reconcile_creates : ∀ cr s,
    allStepsOk (createsIn (λ key, key ∈ owned cr ∨ unguaranteed cr key)) (Reconcile R cr s);
  cleanup_deletes : ∀ cr, deletesOnSuccess (owned cr) (Cleanup R cr);
  reconcile_preserves : preservesResource R;
  cleanup_reads_or_deletes : ∀ cr, allSteps readsOrDeletes (Cleanup R cr);
  reconcile_stage_silent : ∀ cr s, allSteps stageSilent (Reconcile R cr s);
  cleanup_stage_silent : ∀ cr, allSteps stageSilent (Cleanup R cr);
}.

Lemma stateless_preserves p c : preservesResource (mkReconciler (stateless p) c).
Proof.
  intros cr s. apply wp_bind. apply wp_true. intros tr [r|]; [|done].
  intros cr' s' r' [=]. by subst.
Qed.

Lemma allStepsOk_stateless S p cr s : allStepsOk S (p cr) → allStepsOk S (stateless p cr s).
Proof.
  intros H. apply allStepsOk_bind; [done|]. intros. apply allSteps_ok, allSteps_ret.
Qed.

Lemma allSteps_stateless S p cr s : allSteps S (p cr) → allSteps S (stateless p cr s).
Proof. intros H. apply allSteps_bind; [done|]. intros. apply allSteps_ret. Qed.

(** ** Helpers (reconciler_utils.go) *)

Definition GetClusterId : prog (string + error) :=
  r ← Get KClusterVersion EmptyString "version";
  match r with
  | inl v => Ret (inl (cv_ClusterID (body v)))
  | inr e => Ret (inr e)
  end.

Definition GetClusterOSVersion : prog (string + error) :=
  r ← Get KClusterVersion EmptyString "version";
  match r with
  | inl v => Ret (inl (cv_DesiredVersion (body v)))
  | inr e => Ret (inr e)
  end.

Definition HasOperatorGroupForNamespace (ns : string) : prog (bool + error) :=
  r ← List_ KOperatorGroup ns None;
  match r with
  | inr e => Ret (inr e)
  | inl groups =>
      Ret (inl (existsIn (λ g : Object KOperatorGroup,
        existsIn (λ n, bool_decide (n = ns)) (og_TargetNamespaces (body g))) groups))
  end.

(** A condition of the given type that is not true makes the object not ready. *)
Definition conditionBlocks (type : string) (c : Condition) : bool :=
  bool_decide (cond_Type c = type) && negb (bool_decide (cond_Status c = "True")).

Definition IsRouteReady (route : option Route) : bool :=
  match route with
  | None => false
  | Some r =>
      negb (existsIn (existsIn (conditionBlocks "Admitted")) (route_Ingress (body r)))
  end.

Definition IsServiceReady (service : option Service) : bool :=
  match service with
  | None => false
  | Some s => negb (existsIn (conditionBlocks "Ready") (service_Conditions (body s)))
  end.

(** A failing random source panics. *)
Definition GenerateRandomBytes (n : nat) : prog string :=
  r ← request (CRand n);
  match r with inl b => Ret b | inr _ => Panic end.

Definition GenerateRandomString (n : nat) : prog string :=
  b ← GenerateRandomBytes n; Ret (Base64.URLEncode b).

(** Wait until no object of the kind in the namespace has the name. *)
Definition waitForRemoval (k : Kind) (cr : Observability) (name : string) : prog StageResult :=
  r ← List_ k (namespaceOf cr) None;
  match r with
  | inr e => if IsNotFound e then success else Ret (ResultFailed, Some e)
  | inl items =>
      if existsIn (λ o : Object k, bool_decide (nameOf o = name)) items
      then Ret (ResultInProgress, None) else success
  end.

Definition WaitForGrafanaToBeRemoved (cr : Observability) : prog StageResult :=
  waitForRemoval KDeployment cr "grafana-deployment".
Definition WaitForAlertmanagerToBeRemoved (cr : Observability) : prog StageResult :=
  waitForRemoval KStatefulSet cr ("alertmanager-" +:+ nameOf (GetAlertmanagerCr cr)).
Definition WaitForPrometheusToBeRemoved (cr : Observability) : prog StageResult :=
  waitForRemoval KStatefulSet cr ("prometheus-" +:+ nameOf (GetPrometheus cr)).

Definition RunningLocally : prog bool :=
  r ← request (CReadFile "/var/run/secrets/kubernetes.io/serviceaccount/namespace");
  match r with
  | inl _ => Ret false
  | inr FileNotExist => Ret true
  | inr (FileOther _) => Ret false
  end.

(** ** Shared callbacks and their rules *)

(** The secret with a session secret as its string data. *)
Definition sessionSecret (type : option string) (v : string) (secret : Secret) : Secret :=
  withBody (k:=KSecret)
    (mkSecretBody (default (secret_Type (body secret)) type) (secret_Data (body secret))
       (mapOf [("session_secret", v)])) secret.

(** [if secret.Data == nil { secret.StringData = {session_secret: random} }]; the
    type is set by the Alertmanager stage only. *)
Definition sessionSecretMutate (n : nat) (type : option string) : MutateFn KSecret :=
  λ secret,
    match secret_Data (body secret) with
    | Some _ => Ret (secret, None)
    | None =>
        v ← GenerateRandomString n;
        Ret (sessionSecret type v secret, None)
    end.

(** [for _, d := range list.Items { if sel(d.Name) && d.Status.ReadyReplicas > 0
    { return ResultSuccess } } return ResultInProgress] *)
Definition waitForReplicas (ns : string) (sel : string → bool) : prog StageResult :=
  r ← List_ KDeployment ns None;
  match r with
  | inr e => Ret (ResultFailed, Some e)
  | inl items =>
      if existsIn (λ d : Object KDeployment,
           sel (nameOf d) && bool_decide (0 < deployment_ReadyReplicas (body d))%Z) items
      then success else Ret (ResultInProgress, None)
  end.

(** [err := Get(route); NotFound: in progress; other: failed; ready: success] *)
Definition waitForRouteReady (route : Route) : prog StageResult :=
  r ← Get KRoute (namespaceOf route) (nameOf route);
  match r with
  | inr e =>
      if IsNotFound e then Ret (ResultInProgress, None) else Ret (ResultFailed, Some e)
  | inl route' =>
      if IsRouteReady (Some route') then success else Ret (ResultInProgress, None)
  end.

Section utils_rules.
Context {S : step → Prop}.

Lemma allSteps_GenerateRandomString n :
  (∀ x, S (CRand n ⇝ x)) → allSteps S (GenerateRandomString n).
Proof.
  intros H. apply allSteps_bind; [|auto with obs].
  apply allSteps_bind; [by apply allSteps_request|]. intros []; auto with obs.
Qed.

Lemma allSteps_sessionSecretMutate n type o :
  (∀ x, S (CRand n ⇝ x)) → allSteps S (sessionSecretMutate n type o).
Proof.
  intros H. unfold sessionSecretMutate. destruct (secret_Data _); [apply allSteps_ret|].
  apply allSteps_bind; [by apply allSteps_GenerateRandomString|auto with obs].
Qed.

Lemma allSteps_waitForRemoval k cr name :
  (∀ x, S (CList k (namespaceOf cr) None ⇝ x)) → allSteps S (waitForRemoval k cr name).
Proof.
  intros H. apply allSteps_bind; [by apply allSteps_request|].
  intros [items|e]; case_match; auto with obs; apply allSteps_ret.
Qed.

Lemma allSteps_waitForReplicas ns sel :
  (∀ x, S (CList KDeployment ns None ⇝ x)) → allSteps S (waitForReplicas ns sel).
Proof.
  intros H. apply allSteps_bind; [by apply allSteps_request|].
  intros [items|e]; [case_match|]; auto with obs; apply allSteps_ret.
Qed.

Lemma allSteps_waitForRouteReady route :
  (∀ x, S (CGet KRoute (namespaceOf route) (nameOf route) ⇝ x)) →
  allSteps S (waitForRouteReady route).
Proof.
  intros H. apply allSteps_bind; [by apply allSteps_request|].
  intros [r|e]; case_match; auto with obs; apply allSteps_ret.
Qed.

Lemma allSteps_HasOperatorGroupForNamespace ns :
  (∀ x, S (CList KOperatorGroup ns None ⇝ x)) → allSteps S (HasOperatorGroupForNamespace ns).
Proof.
  intros H. apply allSteps_bind; [by apply allSteps_request|].
  intros [r|e]; apply allSteps_ret.
Qed.

Lemma allSteps_GetClusterId :
  (∀ x, S (CGet KClusterVersion EmptyString "version" ⇝ x)) → allSteps S GetClusterId.
Proof.
  intros H. apply allSteps_bind; [by apply allSteps_request|].
  intros [r|e]; apply allSteps_ret.
Qed.
End utils_rules.

#[export] Hint Resolve allSteps_GenerateRandomString allSteps_sessionSecretMutate
  allSteps_waitForRemoval allSteps_waitForReplicas allSteps_waitForRouteReady
  allSteps_HasOperatorGroupForNamespace allSteps_GetClusterId : obs.

Ltac unfold_head t :=
  match t with
  | ?f _ => unfold_head f
  | _ => unfold t
  end.

(** Closes [allSteps (createsIn ...)] goals of a sub-step that ensures one object
    of the list. *)
Ltac solve_creates_step :=
  match goal with
  | H : keyOf _ = _ |- createsIn _ _ => unfold createsIn; simpl; rewrite H; set_solver
  | |- createsIn _ _ => unfold createsIn; simpl; try done; set_solver
  | |- allSteps _ (Ret _) => apply allSteps_ret
  | |- allSteps _ Panic => apply allSteps_panic
  | |- allSteps _ success => apply allSteps_ret
  | |- allSteps _ (pureMutate _ _) => apply allSteps_pureMutate
  | |- allSteps _ (sessionSecretMutate _ _ _) => apply allSteps_sessionSecretMutate
  | |- allSteps _ (andThen _ _) => apply allSteps_andThen
  | |- readsOrDeletes _ => exact I
  | |- stageSilent _ => exact I
  | |- silent _ => reflexivity
  | |- allSteps _ (deleteThen _ _) => apply allSteps_deleteThen
  | |- allSteps _ (deleteMatchThen _ _) => apply allSteps_deleteMatchThen
  | |- allSteps _ (deleteWhere _ _) => apply allSteps_deleteWhere
  | |- allSteps _ (forEach _ _) => apply allSteps_forEach
  | |- allSteps _ (forEachS _ _ _) => apply allSteps_forEachS
  | |- allSteps _ (CreateOrUpdateWith _ _ _) => apply allSteps_CreateOrUpdateWith
  | |- allSteps _ (ensure _ _) => apply allSteps_ensure
  | |- allSteps _ (CreateOrUpdate _ _) => apply allSteps_CreateOrUpdate
  | |- allSteps _ (waitForRemoval _ _ _) => apply allSteps_waitForRemoval
  | |- allSteps _ (waitForReplicas _ _) => apply allSteps_waitForReplicas
  | |- allSteps _ (waitForRouteReady _) => apply allSteps_waitForRouteReady
  | |- allSteps _ (HasOperatorGroupForNamespace _) =>
      apply allSteps_HasOperatorGroupForNamespace
  | |- allSteps _ GetClusterId => apply allSteps_GetClusterId
  | |- allSteps _ (pbind _ _) => apply allSteps_bind
  | |- allSteps _ (request _) => apply allSteps_request
  | |- allSteps _ (Call _ _) => apply allSteps_call
  | |- allSteps _ (match ?x with _ => _ end) => destruct x eqn:?
  | |- ∀ _, _ => intro
  | |- allSteps _ ?p => unfold_head p
  end.
Ltac solve_creates := repeat solve_creates_step.

(** ** Properties *)

(** A route is ready exactly when no ingress reports an admission that is not
    true; in particular a route without status is ready. *)
Lemma IsRouteReady_spec (r : Route) :
  IsRouteReady (Some r) = true ↔
  ∀ ingress c, ingress ∈ route_Ingress (body r) → c ∈ ingress →
    cond_Type c = "Admitted" → cond_Status c = "True".
Proof.
  unfold IsRouteReady. rewrite negb_true_iff, existsIn_false. split.
  - intros H ingress c Hi Hc Ht. specialize (H ingress Hi).
    rewrite existsIn_false in H. specialize (H c Hc). unfold conditionBlocks in H.
    rewrite bool_decide_true in H by done. simpl in H. by bool_props.
  - intros H ingress Hi. apply existsIn_false. intros c Hc. unfold conditionBlocks.
    case_bool_decide; simpl; [|done]. by rewrite bool_decide_true by eauto.
Qed.

(** The callback on a secret that has data, and on one that has none. *)
Lemma sessionSecretMutate_wp n type (secret : Secret) :
  wp (sessionSecretMutate n type secret) (λ tr o,
    match secret_Data (body secret) with
    | Some _ => tr = [] ∧ o = Done (secret, None)
    | None => (∃ e, tr = [CRand n ⇝ inr e] ∧ o = Panicked) ∨
        ∃ b, tr = [CRand n ⇝ inl b] ∧ o = Done (sessionSecret type (Base64.URLEncode b) secret, None)
    end).
Proof.
  unfold sessionSecretMutate. destruct (secret_Data (body secret)); [done|].
  intros [b|e]; simpl; eauto.
Qed.

(** C32: A session secret that exists is never replaced: when the server returns a
    secret with data, the only write that may follow is that same secret, and no
    random bytes are drawn, so logins survive a reconcile.  A missing secret is
    created with fresh random bytes, encoded, as its only entry; without random
    bytes the operator stops. *)
Theorem session_secret_kept n type (secret : Secret) :
  wp (ensure secret (sessionSecretMutate n type)) (λ tr o, ∃ r rest,
    tr = (CGet KSecret (namespaceOf secret) (nameOf secret) ⇝ r) :: rest ∧
    match r with
    | inl cur =>
        is_Some (secret_Data (body cur)) → rest = [] ∨ ∃ r', rest = [CUpdate cur ⇝ r']
    | inr e =>
        if IsNotFound e then
          secret_Data (body secret) = None →
          (∃ e', rest = [CRand n ⇝ inr e'] ∧ o = Panicked) ∨
          ∃ b r', rest = [CRand n ⇝ inl b;
                          CCreate (sessionSecret type (Base64.URLEncode b) secret) ⇝ r']
        else rest = [] ∧ o = Done (ResultFailed, Some e)
    end).
Proof.
  apply wp_bind, wp_bind, CreateOrUpdate_contract. intros [cur|e]; simpl.
  - apply wp_bind. eapply wp_mono; [|apply sessionSecretMutate_wp].
    intros tr o Ho. destruct (secret_Data (body cur)) eqn:Hd;
      [destruct Ho as [-> ->]|destruct Ho as [(e & -> & ->)|(b & -> & ->)]]; simpl;
      try case_decide; simpl; repeat split; try (intros r'; try destruct r'; simpl);
      eexists _, _; (split; [done|]); simpl; rewrite ?Hd; eauto; by intros [? ?].
  - destruct (IsNotFound e) eqn:He; simpl;
      [|eexists _, _; split; [done|]; simpl; by rewrite He].
    apply wp_bind. eapply wp_mono; [|apply sessionSecretMutate_wp].
    intros tr o Ho. destruct (secret_Data (body secret)) eqn:Hd;
      [destruct Ho as [-> ->]|destruct Ho as [(e' & -> & ->)|(b & -> & ->)]]; simpl;
      try (case_decide; [|done]); simpl; try (intros r'; destruct r'; simpl);
      eexists _, _; (split; [done|]); simpl; rewrite He; eauto 7; done.
Qed.
