(* ===== verification/TokenStage.v ===== *)
(** * The token request stage (controllers/reconcilers/token/token_reconciler.go)

    Nothing to install; cleaning up removes the credentials secret. *)

From S2P Require Import Prelude ApiTypes K8s Prog Client Api ModelResources Utils.

Module token.

Definition cleanup (cr : Observability) : prog StageResult :=
  deleteThen (GetTokenSecret cr "observatorium-credentials") success.

Definition reconcile (cr : Observability) : prog StageResult := success.

Definition reconciler : ObservabilityReconciler := mkReconciler (stateless reconcile) cleanup.

#[export] Program Instance contract : StageContract reconciler := {|
  owned cr := [keyOf (GetTokenSecret cr "observatorium-credentials")];
  unguaranteed cr key := False;
|}.
Next Obligation. intros. apply allStepsOk_stateless, allSteps_ok, allSteps_ret. Qed.
Next Obligation. intros. apply deletesOnSuccess_deleteThen, deletesOnSuccess_nil. Qed.
Next Obligation. apply stateless_preserves. Qed.
Next Obligation. intros cr. simpl. unfold cleanup. solve_creates. Qed.
Next Obligation. intros cr s. apply allSteps_stateless. unfold reconcile. solve_creates. Qed.
Next Obligation. intros cr. simpl. unfold cleanup. solve_creates. Qed.
End token.
