(* ===== verification/PromtailStage.v ===== *)
(** * The Promtail installation stage
    (controllers/reconcilers/promtail_installation/promtail_installation_reconciler.go)

    Service account, cluster role and binding for Promtail, unless Observatorium
    or the repository sync is switched off. *)

From S2P Require Import Prelude ApiTypes K8s Prog Client Api ModelPrometheus ModelResources Utils.

Module promtail_installation.
Section with_util.
Context `{ControllerUtil}.

Definition disabled (cr : Observability) : bool :=
  ObservatoriumDisabled cr || ExternalSyncDisabled cr.

Definition reconcilePromtailServiceAccount (cr : Observability) : prog StageResult :=
  ensure (GetPromtailServiceAccount cr) (pureMutate (λ sa, sa)).

Definition promtailRules : list PolicyRule :=
  [mkPolicyRule ["get"; "list"; "watch"] [EmptyString]
     ["nodes"; "nodes/proxy"; "services"; "endpoints"; "pods"] [] [];
   mkPolicyRule ["use"] ["security.openshift.io"] ["securitycontextconstraints"]
     ["privileged"] []].

Definition reconcilePromtailClusterRole (cr : Observability) : prog StageResult :=
  ensure (GetPromtailClusterRole cr)
    (pureMutate (withBody (k:=KClusterRole) (mkClusterRoleBody promtailRules))).

Definition reconcilePromtailClusterRoleBinding (cr : Observability) : prog StageResult :=
  let sa := GetPromtailServiceAccount cr in
  let role := GetPromtailClusterRole cr in
  ensure (GetPromtailClusterRoleBinding cr)
    (pureMutate (withBody (k:=KClusterRoleBinding) (mkClusterRoleBindingBody
       [mkSubject "ServiceAccount" (nameOf sa) (namespaceOf sa)]
       (mkRoleRef "rbac.authorization.k8s.io" "ClusterRole" (nameOf role))))).

Definition reconcile (cr : Observability) : prog StageResult :=
  if disabled cr then success
  else
    reconcilePromtailServiceAccount cr ;;;
    reconcilePromtailClusterRole cr ;;;
    reconcilePromtailClusterRoleBinding cr ;;;
    success.

Definition cleanup (cr : Observability) : prog StageResult :=
  if disabled cr then success
  else
    deleteThen (GetPromtailClusterRoleBinding cr) (
    deleteThen (GetPromtailClusterRole cr) (
    deleteThen (GetPromtailServiceAccount cr) success)).

Definition reconciler : ObservabilityReconciler := mkReconciler (stateless reconcile) cleanup.

#[export] Program Instance contract : StageContract reconciler := {|
  owned cr :=
    if disabled cr then []
    else [keyOf (GetPromtailClusterRoleBinding cr); keyOf (GetPromtailClusterRole cr);
          keyOf (GetPromtailServiceAccount cr)];
  unguaranteed cr key := False;
|}.
Next Obligation.
  intros cr s. apply allStepsOk_stateless, allSteps_ok. unfold reconcile.
  destruct (disabled cr); [apply allSteps_ret|].
  repeat apply allSteps_andThen; solve_creates.
Qed.
Next Obligation.
  intros cr. simpl. unfold cleanup. destruct (disabled cr); solve_deletes.
Qed.
Next Obligation. apply stateless_preserves. Qed.
Next Obligation. intros cr. simpl. unfold cleanup. solve_creates. Qed.
Next Obligation. intros cr s. apply allSteps_stateless. unfold reconcile. solve_creates. Qed.
Next Obligation. intros cr. simpl. unfold cleanup. solve_creates. Qed.
End with_util.
End promtail_installation.
