(* ===== verification/GrafanaInstallationStage.v ===== *)
(** * The Grafana installation stage
    (controllers/reconcilers/grafana_installation/grafana_installation_reconciler.go)

    Catalog source, subscription and operator group of the Grafana operator; an
    old community subscription is removed first.  Skipped in descoped mode. *)

From S2P Require Import Prelude GoLib ApiTypes K8s Prog Client Api ModelPrometheus ModelResources.
From S2P Require Import Utils.

Module grafana_installation.
Section with_util.
Context `{ControllerUtil}.

Definition GrafanaOperatorDefaultVersion : string := "v3.10.8".

Definition cleanup (cr : Observability) : prog StageResult :=
  if DescopedModeEnabled cr then success
  else
    deleteThen (GetGrafanaCatalogSource cr) (
    deleteThen (GetGrafanaSubscription cr) (
    deleteThen (GetGrafanaOperatorGroup cr) (
    r ← List_ KDeployment (namespaceOf cr) None;
    match r with
    | inr e => Ret (ResultFailed, Some e)
    | inl deployments =>
        res ← forEach deployments (λ deployment : Object KDeployment,
          if decide (nameOf deployment = "grafana-operator") then
            e ← Delete deployment;
            match e with
            | Some e => if IsNotFound e then Ret None else Ret (Some (ResultFailed, Some e))
            | None => Ret None
            end
          else Ret None);
        match res with Some r => Ret r | None => success end
    end))).

(** The old community subscription; a nil spec is dereferenced once the name
    matches. *)
Definition isOldSubscription (cr : Observability) (s : Object KSubscription) : prog bool :=
  if decide (nameOf s = nameOf (GetGrafanaSubscription cr)) then
    spec ← deref (subscription_Spec (body s));
    Ret (bool_decide (subs_CatalogSourceNamespace spec = "openshift-marketplace") &&
         bool_decide (subs_CatalogSource spec = "community-operators"))
  else Ret false.

Definition removeOldCsv (cr : Observability) : prog StageResult :=
  r ← List_ KClusterServiceVersion (namespaceOf cr) None;
  match r with
  | inr e => Ret (ResultFailed, Some e)
  | inl csvs =>
      match firstSuchThat (λ csv : Object KClusterServiceVersion,
              bool_decide (namespaceOf csv = namespaceOf cr) &&
              Strings.HasPrefix (nameOf csv) "grafana-operator.") csvs with
      | Some csv =>
          e ← Delete csv;
          match e with
          | Some e =>
              if IsNotFound e then Ret (ResultInProgress, None) else Ret (ResultFailed, Some e)
          | None => Ret (ResultInProgress, None)
          end
      | None => success
      end
  end.

Definition deleteUnrequestedSubscriptions (cr : Observability) : prog StageResult :=
  r ← List_ KSubscription (namespaceOf cr) None;
  match r with
  | inr e => Ret (ResultFailed, Some e)
  | inl subscriptions =>
      '(found, res) ← forEachS false subscriptions (λ found (s : Object KSubscription),
        old ← isOldSubscription cr s;
        if (old : bool) then
          e ← Delete s;
          match e with
          | Some e => Ret (true, Some (ResultFailed, Some e))
          | None => Ret (true, None)
          end
        else Ret (found, None));
      match res with
      | Some r => Ret r
      | None => if (found : bool) then removeOldCsv cr else success
      end
  end.

Definition reconcileCatalogSource (cr : Observability) : prog StageResult :=
  ensure (GetGrafanaCatalogSource cr)
    (pureMutate (withBody (k:=KCatalogSource) (mkCatalogSourceBody "grpc"
       ("quay.io/rhoas/grafana-operator-index:" +:+ GrafanaOperatorDefaultVersion)
       (Some "restricted")))).

Definition reconcileSubscription (cr : Observability) : prog StageResult :=
  let source := GetGrafanaCatalogSource cr in
  ensure (GetGrafanaSubscription cr)
    (pureMutate (λ s : Object KSubscription, withBody (k:=KSubscription) (mkSubscriptionBody
       (Some (mkSubscriptionSpec (nameOf source) (namespaceOf source) "grafana-operator"
          "alpha" ("grafana-operator." +:+ GrafanaOperatorDefaultVersion) EmptyString
          (Some (GetGrafanaOperatorResourceRequirement cr))))
       (subscription_InstalledCSV (body s))) s)).

Definition reconcileOperatorgroup (cr : Observability) : prog StageResult :=
  exists_ ← HasOperatorGroupForNamespace (namespaceOf cr);
  match exists_ with
  | inr e => Ret (ResultFailed, Some e)
  | inl true => success
  | inl false =>
      ensure (GetGrafanaOperatorGroup cr)
        (pureMutate (withBody (k:=KOperatorGroup) (mkOperatorGroupBody [namespaceOf cr])))
  end.

Definition waitForGrafanaOperator (cr : Observability) : prog StageResult :=
  waitForReplicas (namespaceOf cr) (λ n, bool_decide (n = "grafana-operator")).

Definition reconcile (cr : Observability) : prog StageResult :=
  if DescopedModeEnabled cr then success
  else
    deleteUnrequestedSubscriptions cr ;;;
    reconcileCatalogSource cr ;;;
    reconcileSubscription cr ;;;
    reconcileOperatorgroup cr ;;;
    waitForGrafanaOperator cr ;;;
    success.

Definition reconciler : ObservabilityReconciler := mkReconciler (stateless reconcile) cleanup.

Lemma deleteUnrequestedSubscriptions_creates_nothing cr P :
  allSteps (createsIn P) (deleteUnrequestedSubscriptions cr).
Proof.
  apply allSteps_bind; [by apply allSteps_request|]. intros [subs|e]; [|apply allSteps_ret].
  apply allSteps_bind.
  - apply allSteps_forEachS. intros found s _. solve_creates.
  - intros [found [r|]]; [apply allSteps_ret|]. destruct found; solve_creates.
Qed.

#[export] Program Instance contract : StageContract reconciler := {|
  owned cr :=
    if DescopedModeEnabled cr then []
    else [keyOf (GetGrafanaCatalogSource cr); keyOf (GetGrafanaSubscription cr);
          keyOf (GetGrafanaOperatorGroup cr)];
  unguaranteed cr key := False;
|}.
Next Obligation.
  intros cr s. apply allStepsOk_stateless, allSteps_ok. unfold reconcile.
  destruct (DescopedModeEnabled cr); [apply allSteps_ret|].
  apply allSteps_andThen; [apply deleteUnrequestedSubscriptions_creates_nothing|].
  solve_creates.
Qed.
Next Obligation.
  intros cr. simpl. unfold cleanup. destruct (DescopedModeEnabled cr); solve_deletes.
Qed.
Next Obligation. apply stateless_preserves. Qed.
Next Obligation. intros cr. simpl. unfold cleanup. solve_creates. Qed.
Next Obligation.
  intros cr s. apply allSteps_stateless. unfold reconcile. solve_creates.
Qed.
Next Obligation. intros cr. simpl. unfold cleanup. solve_creates. Qed.
End with_util.
End grafana_installation.
