(* ===== verification/GrafanaConfigurationStage.v ===== *)
(** * The Grafana configuration stage
    (controllers/reconcilers/grafana_configuration/grafana_configuration_reconciler.go)

    Session secret, cluster role and binding of the OAuth proxy and the Prometheus
    data source; skipped in descoped mode.  The file type helpers duplicate the
    ones of the configuration stage and are not called; Sync.v has them
    ([grafana_configuration_source]). *)

From S2P Require Import Prelude GoLib ApiTypes K8s Prog Client Api ModelPrometheus ModelResources.
From S2P Require Import Utils.

Module grafana_configuration.
Section with_util.
Context `{ControllerUtil}.

Definition reconileProxySecret (cr : Observability) : prog StageResult :=
  ensure (GetGrafanaProxySecret cr) (sessionSecretMutate 32 None).

Definition proxyRules : list PolicyRule :=
  [mkPolicyRule ["create"] ["authentication.k8s.io"] ["tokenreviews"] [] [];
   mkPolicyRule ["create"] ["authorization.k8s.io"] ["subjectaccessreviews"] [] []].

Definition reconcileClusterRole (cr : Observability) : prog StageResult :=
  ensure (GetGrafanaClusterRole cr)
    (pureMutate (withBody (k:=KClusterRole) (mkClusterRoleBody proxyRules))).

Definition reconcileClusterRoleBinding (cr : Observability) : prog StageResult :=
  ensure (GetGrafanaClusterRoleBinding cr)
    (pureMutate (withBody (k:=KClusterRoleBinding) (mkClusterRoleBindingBody
       [mkSubject "ServiceAccount" "grafana-serviceaccount" (namespaceOf cr)]
       (mkRoleRef "rbac.authorization.k8s.io" "ClusterRole"
          (nameOf (GetGrafanaClusterRole cr)))))).

Definition reconcileGrafanaDatasource (cr : Observability) : prog StageResult :=
  let url := "http://prometheus-operated." +:+ namespaceOf cr +:+ ":9090" in
  ensure (GetGrafanaDatasource cr)
    (pureMutate (withBody (k:=KGrafanaDataSource) (mkGrafanaDataSourceBody
       "obs-prometheus.yaml"
       [mkGrafanaDataSourceFields "Prometheus" "prometheus" "proxy" url true 1 true true
          "10s"]))).

Definition reconcile (cr : Observability) : prog StageResult :=
  if DescopedModeEnabled cr then success
  else
    reconileProxySecret cr ;;;
    reconcileClusterRole cr ;;;
    reconcileClusterRoleBinding cr ;;;
    reconcileGrafanaDatasource cr ;;;
    success.

Definition cleanup (cr : Observability) : prog StageResult :=
  if DescopedModeEnabled cr then success
  else
    deleteMatchThen (GetGrafanaCr cr) (
    WaitForGrafanaToBeRemoved cr ;;;
    deleteMatchThen (GetGrafanaDatasource cr) (
    deleteThen (GetGrafanaProxySecret cr) (
    deleteThen (GetGrafanaClusterRoleBinding cr) (
    deleteThen (GetGrafanaClusterRole cr) success)))).

Definition reconciler : ObservabilityReconciler := mkReconciler (stateless reconcile) cleanup.

#[export] Program Instance contract : StageContract reconciler := {|
  owned cr :=
    if DescopedModeEnabled cr then []
    else [keyOf (GetGrafanaCr cr); keyOf (GetGrafanaDatasource cr);
          keyOf (GetGrafanaProxySecret cr); keyOf (GetGrafanaClusterRoleBinding cr);
          keyOf (GetGrafanaClusterRole cr)];
  unguaranteed cr key := False;
|}.
Next Obligation.
  intros cr s. apply allStepsOk_stateless, allSteps_ok. unfold reconcile.
  destruct (DescopedModeEnabled cr); [apply allSteps_ret|]. solve_creates.
Qed.
Next Obligation.
  intros cr. simpl. unfold cleanup. destruct (DescopedModeEnabled cr); solve_deletes.
Qed.
Next Obligation. apply stateless_preserves. Qed.
Next Obligation. intros cr. simpl. unfold cleanup. solve_creates. Qed.
Next Obligation. intros cr s. apply allSteps_stateless. unfold reconcile. solve_creates. Qed.
Next Obligation. intros cr. simpl. unfold cleanup. solve_creates. Qed.
End with_util.
End grafana_configuration.
