(* ===== verification/PrometheusInstallationStage.v ===== *)
(** * The Prometheus installation stage
    (controllers/reconcilers/prometheus_installation/prometheus_installation_reconciler.go)

    Namespace (descoped mode), catalog source, subscription and operator group of
    the Prometheus operator; without a catalog source the resources of an earlier
    installation are removed first. *)

From S2P Require Import Prelude GoLib ApiTypes K8s Prog Client Api ModelPrometheus ModelResources.
From S2P Require Import Utils.

Module prometheus_installation.
Section with_util.
Context `{ControllerUtil}.

Definition cleanup (cr : Observability) : prog StageResult :=
  deleteThen (GetPrometheusSubscription cr) (
  deleteThen (GetPrometheusOperatorgroup cr) (
  deleteThen (GetPrometheusCatalogSource cr) (
  if DescopedModeEnabled cr then deleteThen (GetPrometheusNamespace cr) success
  else success))).

Definition waitForPrometheusOperator (cr : Observability) : prog StageResult :=
  waitForReplicas (GetPrometheusOperatorNamespace cr)
    (λ n, bool_decide (n = "prometheus-operator")).

Definition reconcileNamespace (cr : Observability) : prog StageResult :=
  ensure (GetPrometheusNamespace cr) (pureMutate (λ ns, ns)).

Definition oldCsv (cr : Observability) : Object KClusterServiceVersion :=
  stub KClusterServiceVersion "prometheusoperator.0.56.3" (GetPrometheusOperatorNamespace cr).

Definition oldSubscription (cr : Observability) : Object KSubscription :=
  withBody (k:=KSubscription) (mkSubscriptionBody
    (Some (mkSubscriptionSpec EmptyString EmptyString EmptyString EmptyString
             "prometheusoperator.0.56.3" EmptyString None)) EmptyString)
    (stub KSubscription "prometheus-subscription" (GetPrometheusOperatorNamespace cr)).

Definition removePrometheusOperatorResources (cr : Observability) : prog (option error) :=
  let deleteCsv :=
    e ← Delete (oldCsv cr);
    match e with
    | Some err => if IsNotFound err then Ret None else Ret e
    | None => Ret None
    end in
  e ← Delete (oldSubscription cr);
  match e with
  | Some err => if IsNotFound err then deleteCsv else Ret e
  | None => deleteCsv
  end.

Definition catalogSourceBody : CatalogSourceBody :=
  mkCatalogSourceBody "grpc" "quay.io/integreatly/custom-prometheus-index:2.0.0"
    (Some "restricted").

Definition reconcileCatalogSource (cr : Observability) : prog StageResult :=
  let source := GetPrometheusCatalogSource cr in
  let install source :=
    ensure source (pureMutate (withBody (k:=KCatalogSource) catalogSourceBody)) in
  r ← Get KCatalogSource (namespaceOf source) (nameOf source);
  match r with
  | inl source' => install source'
  | inr e =>
      if IsNotFound e then
        e ← removePrometheusOperatorResources cr;
        match e with
        | Some _ => Ret (ResultFailed, e)
        | None => install source
        end
      else Ret (ResultFailed, Some e)
  end.

Definition reconcileSubscription (cr : Observability) : prog StageResult :=
  ensure (GetPrometheusSubscription cr)
    (pureMutate (λ s : Object KSubscription, withBody (k:=KSubscription) (mkSubscriptionBody
       (Some (mkSubscriptionSpec (nameOf (GetPrometheusCatalogSource cr))
          (GetPrometheusOperatorNamespace cr) "prometheus" "preview" EmptyString "Automatic"
          (Some (GetPrometheusOperatorResourceRequirement cr))))
       (subscription_InstalledCSV (body s))) s)).

Definition reconcileOperatorgroup (cr : Observability) : prog StageResult :=
  exists_ ← HasOperatorGroupForNamespace (namespaceOf cr);
  match exists_ with
  | inr e => Ret (ResultFailed, Some e)
  | inl true => success
  | inl false =>
      ensure (GetPrometheusOperatorgroup cr)
        (pureMutate (withBody (k:=KOperatorGroup)
           (mkOperatorGroupBody [GetPrometheusOperatorNamespace cr])))
  end.

(** After the namespace only an error stops the stage. *)
Definition reconcile (cr : Observability) : prog StageResult :=
  let rest :=
    reconcileCatalogSource cr ;;;
    reconcileSubscription cr ;;;
    reconcileOperatorgroup cr ;;;
    waitForPrometheusOperator cr ;;;
    success in
  if DescopedModeEnabled cr then
    '(status, err) ← reconcileNamespace cr;
    match err with Some _ => Ret (status, err) | None => rest end
  else rest.

Definition reconciler : ObservabilityReconciler := mkReconciler (stateless reconcile) cleanup.

Definition ownedKeys (cr : Observability) : list ObjectKey :=
  [keyOf (GetPrometheusSubscription cr); keyOf (GetPrometheusOperatorgroup cr);
   keyOf (GetPrometheusCatalogSource cr)] ++
  (if DescopedModeEnabled cr then [keyOf (GetPrometheusNamespace cr)] else []).

Lemma reconcileCatalogSource_creates cr :
  allStepsOk (createsIn (λ key, key ∈ ownedKeys cr ∨ False)) (reconcileCatalogSource cr).
Proof.
  apply allStepsOk_call; [done|]. intros [source|e] Hok; apply allSteps_ok; [|solve_creates].
  simpl in Hok. specialize (Hok source eq_refl). simpl.
  apply allSteps_ensure; [done|intros; apply allSteps_pureMutate|intros o x Ho|done].
  unfold createsIn; simpl. rewrite Ho, Hok. left. unfold ownedKeys. set_solver.
Qed.

#[export] Program Instance contract : StageContract reconciler := {|
  owned := ownedKeys;
  unguaranteed cr key := False;
|}.
Next Obligation.
  intros cr s. apply allStepsOk_stateless. unfold reconcile.
  assert (allStepsOk (createsIn (λ key, key ∈ ownedKeys cr ∨ False))
    (reconcileCatalogSource cr ;;; reconcileSubscription cr ;;;
     reconcileOperatorgroup cr ;;; waitForPrometheusOperator cr ;;; success)) as Hrest.
  { apply allStepsOk_andThen; [apply reconcileCatalogSource_creates|].
    apply allSteps_ok. unfold ownedKeys. solve_creates. }
  destruct (DescopedModeEnabled cr) eqn:Hd; [|done].
  apply allStepsOk_bind.
  - apply allSteps_ok. unfold ownedKeys. rewrite Hd. solve_creates.
  - intros [st [e|]]; [apply allSteps_ok, allSteps_ret|done].
Qed.
Next Obligation.
  intros cr. unfold ownedKeys, cleanup. simpl.
  repeat apply deletesOnSuccess_deleteThen. destruct (DescopedModeEnabled cr); auto with obs.
Qed.
Next Obligation. apply stateless_preserves. Qed.
Next Obligation. intros cr. simpl. unfold cleanup. solve_creates. Qed.
Next Obligation. intros cr s. apply allSteps_stateless. unfold reconcile. solve_creates. Qed.
Next Obligation. intros cr. simpl. unfold cleanup. solve_creates. Qed.
End with_util.
End prometheus_installation.
