(* ===== verification/PrometheusConfigurationStage.v ===== *)
(** * The Prometheus configuration stage
    (controllers/reconcilers/prometheus_configuration/prometheus_configuration_reconciler.go)

    Session secret, service account, cluster role and binding, service and route
    of Prometheus, the cluster id and the storage of token lifetimes. *)

From S2P Require Import Prelude GoLib ApiTypes K8s Prog Client Api ModelPrometheus ModelResources.
From S2P Require Import Utils.

Module prometheus_configuration.
Section with_util.
Context `{ControllerUtil}.

Definition cleanup (cr : Observability) : prog StageResult :=
  deleteThen (GetPrometheusAdditionalScrapeConfig cr) (
  deleteThen (GetPrometheusRoute cr) (
  deleteMatchThen (GetPrometheus cr) (
  WaitForPrometheusToBeRemoved cr ;;;
  deleteThen (GetPrometheusClusterRoleBinding cr) (
  deleteThen (GetPrometheusClusterRole cr) (
  deleteThen (GetPrometheusServiceAccount cr) (
  deleteThen (GetPrometheusService cr) (
  deleteThen (GetPrometheusProxySecret cr) (
  deleteThen (GetPrometheusTLSSecret cr) success)))))))).

Definition reconcileTokenLifetimeStorage (cr : Observability) : prog StageResult :=
  ensure (GetPrometheusAuthTokenLifetimes cr) (pureMutate (withMeta (set_Labels managedBy))).

Definition reconcileServiceAccount (cr : Observability) : prog StageResult :=
  ensure (GetPrometheusServiceAccount cr) (pureMutate (λ sa, sa)).

Definition reconcilePrometheusProxySecret (cr : Observability) : prog StageResult :=
  ensure (GetPrometheusProxySecret cr) (sessionSecretMutate 64 None).

Definition reconcileService (cr : Observability) : prog StageResult :=
  ensure (GetPrometheusService cr) (pureMutate (λ service : Service,
    withMeta (set_Annotations
      (mapOf [("service.alpha.openshift.io/serving-cert-secret-name", "prometheus-k8s-tls")]))
    (withBody (k:=KService) (mkServiceBody
       [mkServicePort "web" EmptyString 9091 (FromString "proxy");
        mkServicePort "upstream" EmptyString 9090 (FromString "web")]
       (mapOf [("prometheus", nameOf (GetPrometheus cr))])
       (service_Conditions (body service))) service))).

Definition prometheusRules : list PolicyRule :=
  [mkPolicyRule ["get"; "list"; "watch"] [EmptyString] ["services"; "endpoints"; "pods"] [] [];
   mkPolicyRule ["create"] ["authorization.k8s.io"] ["subjectaccessreviews"] [] [];
   mkPolicyRule ["create"] ["authentication.k8s.io"] ["tokenreviews"] [] [];
   mkPolicyRule ["get"] [EmptyString] ["configmaps"; "namespaces"] [] [];
   mkPolicyRule ["get"] [] [] [] ["/metrics"]].

Definition reconcileClusterRole (cr : Observability) : prog StageResult :=
  ensure (GetPrometheusClusterRole cr)
    (pureMutate (withBody (k:=KClusterRole) (mkClusterRoleBody prometheusRules))).

Definition reconcileClusterRoleBinding (cr : Observability) : prog StageResult :=
  ensure (GetPrometheusClusterRoleBinding cr)
    (pureMutate (withBody (k:=KClusterRoleBinding) (mkClusterRoleBindingBody
       [mkSubject "ServiceAccount" (nameOf (GetPrometheusServiceAccount cr))
          (GetPrometheusOperatorNamespace cr)]
       (mkRoleRef "rbac.authorization.k8s.io" "ClusterRole"
          (nameOf (GetPrometheusClusterRole cr)))))).

(** A route that exists already is not an error here. *)
Definition reconcileRoute (cr : Observability) : prog StageResult :=
  '(_, e) ← CreateOrUpdate (GetPrometheusRoute cr) (pureMutate (λ route : Route,
    withBody (k:=KRoute) (mkRouteBody
      (mkRouteSpec EmptyString
         (mkRouteTarget "Service" (nameOf (GetPrometheusService cr)))
         (Some (FromString "web")) (Some "reencrypt") "None")
      (route_Ingress (body route))) route));
  match e with
  | Some err => if IsAlreadyExists err then success else Ret (ResultFailed, e)
  | None => success
  end.

Definition waitForRoute (cr : Observability) : prog StageResult :=
  waitForRouteReady (GetPrometheusRoute cr).

(** The cluster id is written to the next status and to the status of the
    resource, for the later stages of the same cycle. *)
Definition fetchClusterId (cr : Observability) (s : ObservabilityStatus)
  : prog (Observability * ObservabilityStatus * StageResult) :=
  let assign id :=
    (set_CrStatus (set_ClusterID id (statusOf cr)) cr, set_ClusterID id s,
     (ResultSuccess, None)) in
  if nonempty (status_ClusterID (statusOf cr)) then Ret (cr, s, (ResultSuccess, None))
  else if nonempty (spec_ClusterID (specOf cr)) then Ret (assign (spec_ClusterID (specOf cr)))
  else
    r ← GetClusterId;
    match r with
    | inr e => Ret (cr, s, (ResultFailed, Some e))
    | inl id => Ret (assign id)
    end.

(** The steps before the cluster id is fetched. *)
Definition reconcileResources (cr : Observability) : prog StageResult :=
  reconcilePrometheusProxySecret cr ;;;
  reconcileServiceAccount cr ;;;
  reconcileClusterRole cr ;;;
  reconcileClusterRoleBinding cr ;;;
  reconcileService cr ;;;
  reconcileRoute cr ;;;
  waitForRoute cr ;;;
  success.

Definition reconcile (cr : Observability) (s : ObservabilityStatus)
  : prog (Observability * ObservabilityStatus * StageResult) :=
  r ← reconcileResources cr;
  if decide (r.1 = ResultSuccess) then
    '(cr', s', r) ← fetchClusterId cr s;
    if decide (r.1 = ResultSuccess) then
      r ← (reconcileTokenLifetimeStorage cr' ;;; success); Ret (cr', s', r)
    else Ret (cr', s', r)
  else Ret (cr, s, r).

Definition reconciler : ObservabilityReconciler := mkReconciler reconcile cleanup.

Lemma fetchClusterId_preserves cr s :
  wp (fetchClusterId cr s) (λ _ o, ∀ cr' s' r, o = Done (cr', s', r) →
    sameResource cr cr' ∧ status_Stage s' = status_Stage s).
Proof.
  unfold fetchClusterId, sameResource, set_CrStatus.
  destruct (nonempty _); [naive_solver|]. destruct (nonempty _); [naive_solver|].
  intros [v|e]; simpl; naive_solver.
Qed.

(** Later stages of the cycle see the id that goes into the next status. *)
Lemma fetchClusterId_agree cr s :
  status_ClusterID s = status_ClusterID (statusOf cr) →
  wp (fetchClusterId cr s) (λ _ o, ∀ cr' s' r, o = Done (cr', s', r) →
    status_ClusterID s' = status_ClusterID (statusOf cr')).
Proof.
  intros Hs. unfold fetchClusterId.
  destruct (nonempty _); [naive_solver|]. destruct (nonempty _); [naive_solver|].
  intros [v|e]; simpl; naive_solver.
Qed.

Lemma reconcile_preserves_resource : preservesResource reconciler.
Proof.
  intros cr s. simpl. unfold reconcile. apply wp_bind, wp_true. intros tr [r|]; [|done].
  case_decide; [|intros cr' s' r' [=]; by subst].
  apply wp_bind. eapply wp_mono; [|apply (fetchClusterId_preserves cr s)].
  intros tr' [[[cr' s'] r']|] H'; [|done]. specialize (H' _ _ _ eq_refl).
  case_decide; [|intros ??? [=]; by subst].
  apply wp_bind, wp_true. intros tr'' [r''|]; [|done]. intros ??? [=]; by subst.
Qed.

Lemma sameResource_lifetimes cr cr' :
  sameResource cr cr' →
  keyOf (GetPrometheusAuthTokenLifetimes cr') = keyOf (GetPrometheusAuthTokenLifetimes cr).
Proof.
  intros [Hm _]. apply (f_equal Namespace) in Hm. unfold keyOf, namespaceOf, nameOf. simpl.
  unfold namespaceOf. simpl in Hm. by rewrite Hm.
Qed.

#[export] Program Instance contract : StageContract reconciler := {|
  owned cr :=
    [keyOf (GetPrometheusAdditionalScrapeConfig cr); keyOf (GetPrometheusRoute cr);
     keyOf (GetPrometheus cr); keyOf (GetPrometheusClusterRoleBinding cr);
     keyOf (GetPrometheusClusterRole cr); keyOf (GetPrometheusServiceAccount cr);
     keyOf (GetPrometheusService cr); keyOf (GetPrometheusProxySecret cr);
     keyOf (GetPrometheusTLSSecret cr)];
  unguaranteed cr key := key ∈ [keyOf (GetPrometheusAuthTokenLifetimes cr)];
|}.
Next Obligation.
  intros cr s. apply allSteps_ok. simpl. unfold reconcile.
  apply allSteps_bind; [unfold reconcileResources; solve_creates|]. intros r.
  case_decide; [|apply allSteps_ret].
  apply (allSteps_bind_post _ _ (λ a, sameResource cr a.1.1)).
  { unfold fetchClusterId. solve_creates. }
  { eapply wp_mono; [|apply (fetchClusterId_preserves cr s)]. intros ? o Ho [[cr' s'] r'] Hd.
    by apply (Ho cr' s' r'). }
  intros [[cr' s'] r'] Hs. simpl in Hs.
  case_decide; [|apply allSteps_ret]. apply allSteps_bind; [|intros; apply allSteps_ret].
  apply allSteps_andThen; [|apply allSteps_ret].
  apply allSteps_ensure; [done|intros; apply allSteps_pureMutate|intros o x Ho|done].
  unfold createsIn; simpl. rewrite Ho, (sameResource_lifetimes _ _ Hs). set_solver.
Qed.
Next Obligation. intros cr. simpl. unfold cleanup. solve_deletes. Qed.
Next Obligation. apply reconcile_preserves_resource. Qed.
Next Obligation. intros cr. simpl. unfold cleanup. solve_creates. Qed.
Next Obligation. intros cr s. simpl. unfold reconcile. solve_creates. Qed.
Next Obligation. intros cr. simpl. unfold cleanup. solve_creates. Qed.
End with_util.
End prometheus_configuration.
