(* ===== verification/AlertmanagerStage.v ===== *)
(** * The Alertmanager installation stage
    (controllers/reconcilers/alertmanager_installation/alertmanager_installation_reconciler.go)

    Session secret, service account, cluster role and binding, service and route
    of Alertmanager. *)

From S2P Require Import Prelude GoLib ApiTypes K8s Prog Client Api ModelPrometheus ModelResources.
From S2P Require Import Utils.

Module alertmanager_installation.
Section with_util.
Context `{ControllerUtil}.

Definition cleanup (cr : Observability) : prog StageResult :=
  deleteThen (GetAlertmanagerCr cr) (
  WaitForAlertmanagerToBeRemoved cr ;;;
  deleteThen (GetAlertmanagerSecret cr) (
  deleteThen (GetAlertmanagerProxySecret cr) (
  deleteThen (GetAlertmanagerTLSSecret cr) (
  deleteThen (GetAlertmanagerRoute cr) (
  deleteThen (GetAlertmanagerService cr) (
  deleteThen (GetAlertmanagerServiceAccount cr) (
  deleteThen (GetAlertmanagerClusterRole cr) (
  deleteThen (GetAlertmanagerClusterRoleBinding cr) success)))))))).

Definition waitForRoute (cr : Observability) : prog StageResult :=
  waitForRouteReady (GetAlertmanagerRoute cr).

Definition reconcileAlertmanagerServiceAccount (cr : Observability) : prog StageResult :=
  ensure (GetAlertmanagerServiceAccount cr) (pureMutate (λ sa, sa)).

Definition alertmanagerRules : list PolicyRule :=
  [mkPolicyRule ["create"] ["authorization.k8s.io"] ["subjectaccessreviews"] [] [];
   mkPolicyRule ["create"] ["authentication.k8s.io"] ["tokenreviews"] [] []].

Definition reconcileAlertmanagerClusterRole (cr : Observability) : prog StageResult :=
  ensure (GetAlertmanagerClusterRole cr)
    (pureMutate (withBody (k:=KClusterRole) (mkClusterRoleBody alertmanagerRules))).

Definition reconcileAlertmanagerClusterRoleBinding (cr : Observability) : prog StageResult :=
  ensure (GetAlertmanagerClusterRoleBinding cr)
    (pureMutate (withBody (k:=KClusterRoleBinding) (mkClusterRoleBindingBody
       [mkSubject "ServiceAccount" (nameOf (GetAlertmanagerServiceAccount cr))
          (GetPrometheusOperatorNamespace cr)]
       (mkRoleRef "rbac.authorization.k8s.io" "ClusterRole"
          (nameOf (GetAlertmanagerClusterRole cr)))))).

Definition reconcileAlertmanagerService (cr : Observability) : prog StageResult :=
  ensure (GetAlertmanagerService cr) (pureMutate (λ service : Service,
    withMeta (set_Annotations
      (mapOf [("service.alpha.openshift.io/serving-cert-secret-name", "alertmanager-k8s-tls")]))
    (withBody (k:=KService) (mkServiceBody
       [mkServicePort "web" "TCP" 9091 (FromString "proxy")]
       (mapOf [("alertmanager", nameOf (GetAlertmanagerCr cr))])
       (service_Conditions (body service))) service))).

(** The host of an existing route is kept; an AlreadyExists error is handed back
    next to the successful status. *)
Definition reconcileAlertmanagerRoute (cr : Observability) : prog StageResult :=
  '(_, e) ← CreateOrUpdate (GetAlertmanagerRoute cr) (pureMutate (λ route : Route,
    withBody (k:=KRoute) (mkRouteBody
      (mkRouteSpec (route_Host (route_Spec (body route)))
         (mkRouteTarget "Service" (nameOf (GetAlertmanagerService cr)))
         (Some (FromString "web")) (Some "reencrypt") "None")
      (route_Ingress (body route))) route));
  match e with
  | Some err => if IsAlreadyExists err then Ret (ResultSuccess, e) else Ret (ResultFailed, e)
  | None => Ret (ResultSuccess, e)
  end.

Definition reconcileAlertmanagerProxySecret (cr : Observability) : prog StageResult :=
  ensure (GetAlertmanagerProxySecret cr) (sessionSecretMutate 64 (Some "Opaque")).

Definition reconcile (cr : Observability) : prog StageResult :=
  reconcileAlertmanagerProxySecret cr ;;;
  reconcileAlertmanagerServiceAccount cr ;;;
  reconcileAlertmanagerClusterRole cr ;;;
  reconcileAlertmanagerClusterRoleBinding cr ;;;
  reconcileAlertmanagerService cr ;;;
  reconcileAlertmanagerRoute cr ;;;
  waitForRoute cr ;;;
  success.

Definition reconciler : ObservabilityReconciler := mkReconciler (stateless reconcile) cleanup.

#[export] Program Instance contract : StageContract reconciler := {|
  owned cr :=
    [keyOf (GetAlertmanagerCr cr); keyOf (GetAlertmanagerSecret cr);
     keyOf (GetAlertmanagerProxySecret cr); keyOf (GetAlertmanagerTLSSecret cr);
     keyOf (GetAlertmanagerRoute cr); keyOf (GetAlertmanagerService cr);
     keyOf (GetAlertmanagerServiceAccount cr); keyOf (GetAlertmanagerClusterRole cr);
     keyOf (GetAlertmanagerClusterRoleBinding cr)];
  unguaranteed cr key := False;
|}.
Next Obligation.
  intros cr s. apply allStepsOk_stateless, allSteps_ok. unfold reconcile. solve_creates.
Qed.
Next Obligation. intros cr. simpl. unfold cleanup. solve_deletes. Qed.
Next Obligation. apply stateless_preserves. Qed.
Next Obligation. intros cr. simpl. unfold cleanup. solve_creates. Qed.
Next Obligation. intros cr s. apply allSteps_stateless. unfold reconcile. solve_creates. Qed.
Next Obligation. intros cr. simpl. unfold cleanup. solve_creates. Qed.
End with_util.
End alertmanager_installation.
