(* ===== verification/CsvStage.v ===== *)
(** * The CSV stage (controllers/reconcilers/csv/csv_reconciler.go)

    Sets the priority class on the operator deployments of the Grafana and
    Prometheus cluster service versions, and removes those versions one at a time
    on cleanup. *)

From S2P Require Import Prelude GoLib ApiTypes K8s Prog Client Api ModelPrometheus ModelResources.
From S2P Require Import Utils.

Module csv.

Abbreviation CSV := (Object KClusterServiceVersion).

Definition isOperatorCsv (prefix : string) (cr : Observability) (c : CSV) : bool :=
  bool_decide (namespaceOf c = namespaceOf cr) && Strings.HasPrefix (nameOf c) prefix.

(** [csv...DeploymentSpecs[i].Spec.Template.Spec.PriorityClassName = class] *)
Definition setPriorityClass (i : nat) (c : CSV) : prog CSV :=
  match csv_DeploymentSpecs (body c) !! i with
  | None => Panic
  | Some d =>
      Ret (withBody (k:=KClusterServiceVersion) (mkCSVBody
             (<[i := mkStrategyDeploymentSpec (sds_Name d) ObservabilityPriorityClassName
                       (sds_Rest d)]> (csv_DeploymentSpecs (body c)))) c)
  end.

(** The loop over the deployments of one version: each match is written back, and
    the version continues as the server returned it. *)
Definition updateDeployments (deployment : string) (c : CSV) : prog (CSV * option StageResult) :=
  forEachS c (imap pair (csv_DeploymentSpecs (body c))) (λ c '(i, d),
    if decide (sds_Name d = deployment) then
      c' ← setPriorityClass i c;
      r ← Update c';
      match r with
      | inl c'' => Ret (c'', None)
      | inr e => Ret (c', Some (ResultFailed, Some e))
      end
    else Ret (c, None)).

Definition reconcileCsv (cr : Observability) (c : CSV) : prog (option StageResult) :=
  '(c1, r) ← (if isOperatorCsv "grafana-operator." cr c
              then updateDeployments "grafana-operator" c else Ret (c, None));
  match r with
  | Some _ => Ret r
  | None =>
      '(_, r) ← (if isOperatorCsv "prometheusoperator." cr c1
                 then updateDeployments "prometheus-operator" c1 else Ret (c1, None));
      Ret r
  end.

Definition listCsvs (cr : Observability) (f : list CSV → prog StageResult) : prog StageResult :=
  r ← List_ KClusterServiceVersion (namespaceOf cr) None;
  match r with
  | inl csvs => f csvs
  | inr e => if IsNotFound e then f [] else Ret (ResultFailed, Some e)
  end.

Definition reconcile (cr : Observability) : prog StageResult :=
  listCsvs cr (λ csvs,
    r ← forEach csvs (reconcileCsv cr);
    match r with Some r => Ret r | None => success end).

Definition isOurs (cr : Observability) (c : CSV) : bool :=
  isOperatorCsv "grafana-operator." cr c || isOperatorCsv "prometheusoperator." cr c.

(** The first matching version is deleted and the stage stays in progress. *)
Definition cleanup (cr : Observability) : prog StageResult :=
  listCsvs cr (λ csvs,
    match firstSuchThat (isOurs cr) csvs with
    | Some c =>
        e ← Delete c;
        match e with
        | Some e =>
            if IsNotFound e then Ret (ResultInProgress, None) else Ret (ResultFailed, Some e)
        | None => Ret (ResultInProgress, None)
        end
    | None => success
    end).

Definition reconciler : ObservabilityReconciler := mkReconciler (stateless reconcile) cleanup.

(** ** Properties *)

(** What an update of this stage writes: a version with the priority class on a
    deployment of the operator. *)
Definition setsPriority (s : step) : Prop :=
  match projT1 s with
  | @CUpdate k o =>
      ∃ c : CSV, existT k o = existT KClusterServiceVersion c ∧
      ∃ d, d ∈ csv_DeploymentSpecs (body c) ∧
        sds_PriorityClassName d = ObservabilityPriorityClassName
  | CCreate _ | CDelete _ | CStatusUpdate _ => False
  | _ => True
  end.

Lemma setPriorityClass_sets i c :
  wp (setPriorityClass i c) (λ tr o, tr = [] ∧ ∀ c', o = Done c' →
    keyOf c' = keyOf c ∧
    ∃ d, d ∈ csv_DeploymentSpecs (body c') ∧
      sds_PriorityClassName d = ObservabilityPriorityClassName).
Proof.
  unfold setPriorityClass. destruct (_ !! i) as [d|] eqn:Hd; simpl; [|naive_solver].
  split; [done|]. intros c' [= <-]. split; [done|].
  exists (mkStrategyDeploymentSpec (sds_Name d) ObservabilityPriorityClassName (sds_Rest d)).
  split; [|done]. simpl. apply (list_elem_of_lookup_2 _ i), list_lookup_insert_eq.
  by eapply lookup_lt_Some.
Qed.

Lemma updateDeployments_sets deployment c : allSteps setsPriority (updateDeployments deployment c).
Proof.
  apply allSteps_forEachS. intros c1 [i d] _. case_decide; [|apply allSteps_ret].
  apply (allSteps_bind_post _ _ (λ c' : CSV, ∃ d, d ∈ csv_DeploymentSpecs (body c') ∧
    sds_PriorityClassName d = ObservabilityPriorityClassName)).
  - eapply wp_mono; [|apply setPriorityClass_sets]. by intros ?? [-> _].
  - eapply wp_mono; [|apply setPriorityClass_sets]. intros ?? [_ Hc] a Ha. by apply Hc.
  - intros c' Hc'. apply allSteps_call.
    + intros x. by exists c'.
    + intros [c''|e]; apply allSteps_ret.
Qed.

Lemma reconcileCsv_sets cr c : allSteps setsPriority (reconcileCsv cr c).
Proof.
  apply allSteps_bind.
  { destruct (isOperatorCsv _ _ _); [apply updateDeployments_sets|apply allSteps_ret]. }
  intros [c1 [r|]]; [apply allSteps_ret|]. apply allSteps_bind; [|intros []; apply allSteps_ret].
  destruct (isOperatorCsv _ _ _); [apply updateDeployments_sets|apply allSteps_ret].
Qed.

(** The stage writes nothing but cluster service versions that carry the
    priority class. *)
Lemma reconcile_sets_priority cr : allSteps setsPriority (reconcile cr).
Proof.
  apply allSteps_bind; [by apply allSteps_request|].
  assert (∀ csvs, allSteps setsPriority (r ← forEach csvs (reconcileCsv cr);
    match r with Some r => Ret r | None => success end)) as Hloop.
  { intros csvs. apply allSteps_bind; [apply allSteps_forEach; intros; apply reconcileCsv_sets|].
    intros [r|]; apply allSteps_ret. }
  intros [csvs|e]; [apply Hloop|]. destruct (IsNotFound e); [apply (Hloop [])|apply allSteps_ret].
Qed.

(** The cleanup of the cluster service versions succeeds only when the server
    lists no version of the Grafana or Prometheus operator any more; otherwise it
    requests the deletion of exactly one of them and asks to be called again. *)
Lemma cleanup_progress cr :
  wp (cleanup cr) (λ tr o, match o with
    | Done (ResultSuccess, _) => ∃ r,
        tr = [CList KClusterServiceVersion (namespaceOf cr) None ⇝ r] ∧
        match r with
        | inl csvs => ∀ c, c ∈ csvs → isOurs cr c = false
        | inr e => IsNotFound e = true
        end
    | Done (ResultInProgress, None) => ∃ csvs c e, c ∈ csvs ∧ isOurs cr c = true ∧
        tr = [CList KClusterServiceVersion (namespaceOf cr) None ⇝ inl csvs; CDelete c ⇝ e]
    | Done (ResultFailed, Some _) => True
    | _ => False
    end).
Proof.
  intros [csvs|e]; simpl.
  - destruct (firstSuchThat _ _) as [c|] eqn:Hf; simpl.
    + apply firstSuchThat_Some in Hf as (pre & post & -> & Hc & _).
      assert (c ∈ pre ++ c :: post) as Hin by set_solver.
      intros [e|]; simpl; [destruct (IsNotFound e); [|done]|]; by eexists _, c, _.
    + eexists. split; [done|]. simpl. intros c Hc. apply firstSuchThat_None in Hf.
      by eapply Forall_forall in Hf.
  - destruct (IsNotFound e) eqn:He; simpl; [|done]. by eexists.
Qed.

#[export] Program Instance contract : StageContract reconciler := {|
  owned cr := [];
  unguaranteed cr key := False;
|}.
Next Obligation.
  intros cr s. apply allStepsOk_stateless, allSteps_ok.
  eapply wp_mono; [|apply (reconcile_sets_priority cr)]. intros tr ? Htr.
  eapply Forall_impl; [exact Htr|]. by intros [[] x].
Qed.
Next Obligation. intros. apply deletesOnSuccess_nil. Qed.
Next Obligation. apply stateless_preserves. Qed.
Next Obligation. intros cr. simpl. unfold cleanup. solve_creates. Qed.
Next Obligation. intros cr s. apply allSteps_stateless. unfold reconcile. solve_creates. Qed.
Next Obligation. intros cr. simpl. unfold cleanup. solve_creates. Qed.
End csv.
