(* ===== verification/MigrationStage.v ===== *)
(** * The migration stage (controllers/reconcilers/migration/resource_name_migration.go)

    Removes, once, the resources earlier versions of the operator created under
    other names; the flag that it happened is part of the status. *)

From S2P Require Import Prelude GoLib ApiTypes K8s Prog Client Api ModelPrometheus ModelResources.
From S2P Require Import Utils.

Module migration.

(** [o.Name = name] *)
Definition renamed {k} (name : string) (o : Object k) : Object k := withMeta (set_Name name) o.

Definition cleanup (cr : Observability) : prog StageResult := success.

(** The result of the wait is not looked at. *)
Definition migratePrometheus (cr : Observability) : prog StageResult :=
  if nonempty (spec_PrometheusDefaultName (specOf cr)) then success
  else
    let old {k} (o : Object k) := renamed PrometheusOldDefaultName o in
    deleteThen (old (GetPrometheus cr)) (
    _ ← WaitForPrometheusToBeRemoved cr;
    deleteThen (old (GetPrometheusRoute cr)) (
    deleteThen (old (GetPrometheusService cr)) (
    deleteThen (old (GetPrometheusServiceAccount cr)) (
    deleteThen (old (GetPrometheusClusterRole cr)) (
    deleteThen (old (GetPrometheusClusterRoleBinding cr)) success))))).

Definition oldAlertmanagerSecret (cr : Observability) : Secret :=
  renamed ("alertmanager-" +:+ AlertManagerOldDefaultName) (GetAlertmanagerSecret cr).

Definition ownsAlertmanagerSecret (cr : Observability) : bool :=
  negb (fst (HasAlertmanagerConfigSecret cr)) && negb (ExternalSyncDisabled cr).

Definition migrateAlertmanager (cr : Observability) : prog StageResult :=
  if nonempty (spec_AlertManagerDefaultName (specOf cr)) then success
  else
    let old {k} (o : Object k) := renamed AlertManagerOldDefaultName o in
    (if ownsAlertmanagerSecret cr then deleteThen (oldAlertmanagerSecret cr) success
     else success) ;;;
    deleteThen (old (GetAlertmanagerCr cr)) (
    _ ← WaitForAlertmanagerToBeRemoved cr;
    deleteThen (old (GetAlertmanagerServiceAccount cr)) (
    deleteThen (old (GetAlertmanagerRoute cr)) (
    deleteThen (old (GetAlertmanagerService cr)) (
    deleteThen (old (GetAlertmanagerClusterRole cr)) (
    deleteThen (old (GetAlertmanagerClusterRoleBinding cr)) success))))).

Definition migrateGrafana (cr : Observability) : prog StageResult :=
  if DescopedModeEnabled cr || nonempty (spec_GrafanaDefaultName (specOf cr)) then success
  else
    deleteThen (renamed GrafanaOldDefaultName (GetGrafanaCr cr)) (
    _ ← WaitForGrafanaToBeRemoved cr; success).

Definition migratesPromtail (cr : Observability) : bool :=
  negb (ExternalSyncDisabled cr) || negb (ObservatoriumDisabled cr).

Definition migratePromtail (cr : Observability) : prog StageResult :=
  if migratesPromtail cr then
    let old {k} (o : Object k) := renamed PromtailOldDefaultName o in
    deleteThen (old (GetPromtailServiceAccount cr)) (
    deleteThen (old (GetPromtailClusterRole cr)) (
    deleteThen (old (GetPromtailClusterRoleBinding cr)) success))
  else success.

Definition migrate (cr : Observability) : prog StageResult :=
  migratePrometheus cr ;;; migrateAlertmanager cr ;;; migrateGrafana cr ;;;
  migratePromtail cr ;;; success.

Definition reconcile (cr : Observability) (s : ObservabilityStatus)
  : prog (Observability * ObservabilityStatus * StageResult) :=
  if status_Migrated s then Ret (cr, s, (ResultSuccess, None))
  else
    r ← migrate cr;
    if decide (r.1 = ResultSuccess) then Ret (cr, set_Migrated true s, r)
    else Ret (cr, s, r).

Definition reconciler : ObservabilityReconciler := mkReconciler reconcile cleanup.

(** ** Properties *)





#[export] Program Instance contract : StageContract reconciler := {|
  owned cr := [];
  unguaranteed cr key := False;
|}.
Next Obligation.
  intros cr s. apply allSteps_ok. simpl. unfold reconcile. solve_creates.
  all: unfold migrate, migratePrometheus, migrateAlertmanager, migrateGrafana, migratePromtail;
    solve_creates.
Qed.
Next Obligation. intros. apply deletesOnSuccess_nil. Qed.
Next Obligation.
  intros cr s. simpl. unfold reconcile. destruct (status_Migrated s).
  { simpl. by intros cr' s' r [= <- <- <-]. }
  apply wp_bind, wp_true. intros tr [r|]; [|done].
  case_decide; simpl; by intros cr' s' r' [= <- <- <-].
Qed.
Next Obligation. intros cr. simpl. unfold cleanup. solve_creates. Qed.
Next Obligation. intros cr s. simpl. unfold reconcile. solve_creates. Qed.
Next Obligation. intros cr. simpl. unfold cleanup. solve_creates. Qed.
End migration.
