(* ===== verification/LoggingStage.v ===== *)
(** * The logging installation stage
    (controllers/reconcilers/logging_installation/logging_installation_reconciler.go)

    Subscribes to the cluster logging operator when the openshift-logging
    namespace exists and no such operator runs there, and sets up the cluster
    logging and log forwarder resources of an operator it installed itself. *)

From stdpp Require Import sorting.
From S2P Require Import Prelude GoLib ApiTypes K8s Prog Client Api ModelPrometheus ModelResources.
From S2P Require Import Utils.

Module logging_installation.
Section with_util.
Context `{ControllerUtil}.

Definition NoInitConfigMapName : string := "observability-operator-no-init".
Definition loggingNs : string := "openshift-logging".

Definition checkLoggingSubscriptionForLabel : prog (bool + error) :=
  r ← List_ KSubscription loggingNs loggingLabels;
  match r with
  | inr e => Ret (inr e)
  | inl [] => Ret (inl false)
  | inl _ => Ret (inl true)
  end.

(** [csv.Items[0]] panics on an empty list. *)
Definition getInstalledLoggingCSVName : prog (string + error) :=
  r ← List_ KSubscription loggingNs loggingLabels;
  match r with
  | inr e => Ret (inr e)
  | inl [] => Panic
  | inl (s :: _) => Ret (inl (subscription_InstalledCSV (body (s : Object KSubscription))))
  end.

Definition deleteManaged (cr : Observability) (installedCsv : string) : prog StageResult :=
  deleteThen (GetLoggingSubscription cr) (
  deleteThen (stub KClusterServiceVersion installedCsv loggingNs) (
  deleteThen GetClusterLoggingCR (
  deleteThen GetClusterLogForwarderCR success))).

Definition cleanup (cr : Observability) : prog StageResult :=
  if DescopedModeEnabled cr then success
  else
    managed ← checkLoggingSubscriptionForLabel;
    match managed with
    | inr e => Ret (ResultFailed, Some e)
    | inl false => success
    | inl true =>
        name ← getInstalledLoggingCSVName;
        match name with
        | inr e => Ret (ResultFailed, Some e)
        | inl n => if nonempty n then deleteManaged cr n else Ret (ResultFailed, None)
        end
    end.

Definition reconcileSubscription (cr : Observability) : prog StageResult :=
  ensure (GetLoggingSubscription cr) (pureMutate (λ s : Object KSubscription,
    withBody (k:=KSubscription) (mkSubscriptionBody
      (Some (mkSubscriptionSpec "redhat-operators" "openshift-marketplace" "cluster-logging"
         "stable" EmptyString "Automatic" None))
      (subscription_InstalledCSV (body s))) s)).

Definition isLoggingOperator (name : string) : bool :=
  Strings.HasPrefix name "cluster-logging-operator".

Definition waitForLoggingOperator (cr : Observability) : prog StageResult :=
  waitForReplicas loggingNs isLoggingOperator.

(** List all objects of a kind and the ones that carry the operator's label;
    continue when there are none at all or some of them are the operator's. *)
Definition whenManaged (k : Kind) (body : prog StageResult) : prog StageResult :=
  r ← List_ k loggingNs None;
  match r with
  | inr e => Ret (ResultFailed, Some e)
  | inl all =>
      r ← List_ k loggingNs loggingLabels;
      match r with
      | inr e => Ret (ResultFailed, Some e)
      | inl labelled =>
          match all, labelled with
          | [], _ | _, _ :: _ => body
          | _, _ => success
          end
      end
  end.

Definition createClusterLoggingCr (cr : Observability) : prog StageResult :=
  whenManaged KClusterLogging (ensure GetClusterLoggingCR (pureMutate (λ c, c))).

Definition operatorInput : InputSpec :=
  mkInputSpec "kafka-operator-application-logs"
    (Some ["redhat-kas-fleetshard-operator"; "redhat-managed-kafka-operator";
           "redhat-kas-fleetshard-operator-qe"; "redhat-managed-kafka-operator-qe";
           "openshift-logging"; "managed-application-services-observability"]).

Definition cloudwatchOutput : OutputSpec :=
  mkOutputSpec "cloudwatch" "cloudwatch" "eu-west-1" "logType" "clo-cloudwatchlogs-creds".

Definition appLogsPipeline : PipelineSpec :=
  mkPipelineSpec ["cloudwatch"] ["kafka-operator-application-logs"; "kafka-log-resources"]
    "observability-app-logs".

(** [findKafkaLogResourcesInput] and what is done with its result: the input is
    appended, or the namespaces of the found one are written through its
    Application pointer. *)
Fixpoint setKafkaNamespaces (namespaces : list string) (inputs : list InputSpec)
  : prog (list InputSpec) :=
  match inputs with
  | [] => Ret [mkInputSpec "kafka-log-resources" (Some namespaces)]
  | i :: rest =>
      if decide (input_Name i = "kafka-log-resources") then
        _ ← deref (input_Namespaces i);
        Ret (mkInputSpec (input_Name i) (Some namespaces) :: rest)
      else
        rest' ← setKafkaNamespaces namespaces rest; Ret (i :: rest')
  end.

Definition mutateLogForwarder (namespaces : list (Object KNamespace))
  : MutateFn KClusterLogForwarder :=
  λ c,
    inputs ← setKafkaNamespaces (Strings.sortStrings (map nameOf namespaces)) [operatorInput];
    Ret (withBody (k:=KClusterLogForwarder)
           (mkClusterLogForwarderBody inputs [cloudwatchOutput] [appLogsPipeline]) c, None).

Definition kafkaLabels : gomap string :=
  mapOf [("app.kubernetes.io/managed-by", "kas-fleetshard-operator")].

Definition createClusterLogForwarderCr (cr : Observability) : prog StageResult :=
  whenManaged KClusterLogForwarder (
    r ← List_ KNamespace EmptyString kafkaLabels;
    match r with
    | inr e => Ret (ResultFailed, Some e)
    | inl namespaces => ensure GetClusterLogForwarderCR (mutateLogForwarder namespaces)
    end).

(** The resources of a logging operator this operator subscribed to. *)
Definition reconcileManaged (cr : Observability) : prog StageResult :=
  managed ← checkLoggingSubscriptionForLabel;
  match managed with
  | inr e => Ret (ResultFailed, Some e)
  | inl false => success
  | inl true => createClusterLoggingCr cr ;;; createClusterLogForwarderCr cr ;;; success
  end.

(** From the check of the openshift-logging namespace on. *)
Definition install (cr : Observability) : prog StageResult :=
  r ← Get KNamespace EmptyString loggingNs;
  match r with
  | inr e => if IsNotFound e then success else Ret (ResultFailed, Some e)
  | inl _ =>
      r ← List_ KDeployment loggingNs None;
      match r with
      | inr e => Ret (ResultFailed, Some e)
      | inl deployments =>
          let found := existsIn (λ d : Object KDeployment, isLoggingOperator (nameOf d)) deployments in
          (if found then success
           else reconcileSubscription cr ;;; waitForLoggingOperator cr ;;; success) ;;;
          reconcileManaged cr
      end
  end.

(** [*cr.Spec.SelfContained.DisableLogging] dereferences the self-contained block
    unless the first test returned. *)
Definition reconcile (cr : Observability) : prog StageResult :=
  if DescopedModeEnabled cr then success
  else
    r ← Get KConfigMap (namespaceOf cr) NoInitConfigMapName;
    let skipOr (selfContainedMode : bool) :=
      match selfContainedMode, selfContained cr with
      | true, Some sc =>
          match sc_DisableLogging sc with
          | None => success
          | Some disable => if disable then success else install cr
          end
      | _, sc =>
          sc ← deref sc;
          match sc_DisableLogging sc with
          | Some true => success
          | _ => install cr
          end
      end in
    match r with
    | inl _ => skipOr true
    | inr e => if IsNotFound e then skipOr false else Ret (ResultFailed, Some e)
    end.

Definition reconciler : ObservabilityReconciler := mkReconciler (stateless reconcile) cleanup.

(** ** Properties *)

Lemma setKafkaNamespaces_fresh namespaces :
  setKafkaNamespaces namespaces [operatorInput] =
  Ret [operatorInput; mkInputSpec "kafka-log-resources" (Some namespaces)].
Proof. reflexivity. Qed.

(** Every input and output a pipeline of the log forwarder refers to is declared
    in the same resource. *)
Definition forwarderClosed (b : ClusterLogForwarderBody) : Prop :=
  ∀ p, p ∈ clf_Pipelines b →
    (∀ r, r ∈ pipeline_InputRefs p → ∃ i, i ∈ clf_Inputs b ∧ input_Name i = r) ∧
    (∀ r, r ∈ pipeline_OutputRefs p → ∃ o, o ∈ clf_Outputs b ∧ output_Name o = r).

Lemma mutateLogForwarder_spec namespaces c :
  ∃ b, mutateLogForwarder namespaces c = Ret (withBody (k:=KClusterLogForwarder) b c, None) ∧
    forwarderClosed b ∧
    ∃ i ns, i ∈ clf_Inputs b ∧ input_Name i = "kafka-log-resources" ∧
      input_Namespaces i = Some ns ∧ ns ≡ₚ map nameOf namespaces ∧ Sorted String.le ns.
Proof.
  unfold mutateLogForwarder. rewrite setKafkaNamespaces_fresh. simpl.
  eexists. split; [reflexivity|]. split.
  - intros p Hp. apply list_elem_of_singleton in Hp as ->. simpl. split.
    + intros r [->|[->|[]%elem_of_nil]%elem_of_cons]%elem_of_cons; set_solver.
    + intros r ->%list_elem_of_singleton. set_solver.
  - eexists _, _. split; [right; left|]. split; [done|]. split; [done|]. split.
    + apply Strings.sortStrings_Permutation.
    + apply Strings.sortStrings_Sorted.
Qed.

(** C37: The log forwarder the operator writes is closed: every input and output its
    pipelines refer to is declared, and the Kafka namespaces are the listed ones,
    each once for each time it was listed, in sorted order. *)
Theorem log_forwarder_closed namespaces c :
  wp (mutateLogForwarder namespaces c) (λ tr o, tr = [] ∧ ∃ c', o = Done (c', None) ∧
    keyOf c' = keyOf c ∧ forwarderClosed (body c') ∧
    ∃ i ns, i ∈ clf_Inputs (body c') ∧ input_Name i = "kafka-log-resources" ∧
      input_Namespaces i = Some ns ∧ ns ≡ₚ map nameOf namespaces ∧ Sorted String.le ns).
Proof.
  destruct (mutateLogForwarder_spec namespaces c) as (b & -> & Hc & Hi).
  split; [done|]. by eexists.
Qed.

(** The log forwarder is created without the label by which the operator later
    looks for the forwarders it manages: the object handed to the server has no
    labels, so the labelled list can never contain it and the namespaces of the
    forwarder are never updated. *)
Lemma GetClusterLogForwarderCR_unlabelled namespaces :
  ∃ o, mutateLogForwarder namespaces GetClusterLogForwarderCR = Ret (o, None) ∧
    Labels (meta o) = None.
Proof.
  destruct (mutateLogForwarder_spec namespaces GetClusterLogForwarderCR) as (b & -> & _).
  by eexists.
Qed.

(** A run that succeeded against a cluster with a labelled subscription deleted
    that subscription, its installed version and both custom resources. *)
Lemma deleteManaged_deletes cr n :
  deletesOnSuccess
    [mkKey KSubscription loggingNs "cluster-logging"; mkKey KClusterServiceVersion loggingNs n;
     mkKey KClusterLogging loggingNs "instance"; mkKey KClusterLogForwarder loggingNs "instance"]
    (deleteManaged cr n).
Proof. repeat (apply deletesOnSuccess_deleteKey; [done|]). apply deletesOnSuccess_nil. Qed.

#[export] Program Instance contract : StageContract reconciler := {|
  owned cr := [];
  unguaranteed cr key :=
    key ∈ [keyOf (GetLoggingSubscription cr); keyOf GetClusterLoggingCR;
           keyOf GetClusterLogForwarderCR];
|}.
Next Obligation.
  intros cr s. apply allStepsOk_stateless, allSteps_ok. simpl.
  set (P := createsIn _).
  assert (∀ k b, allSteps P b → allSteps P (whenManaged k b)) as Hm.
  { intros k b Hb. unfold whenManaged. subst P. repeat (solve_creates || done). }
  assert (∀ ns o, allSteps P (mutateLogForwarder ns o)) as Hf.
  { intros ns o. destruct (mutateLogForwarder_spec ns o) as (b & -> & _). apply allSteps_ret. }
  assert (allSteps P (reconcileManaged cr)) as Hr.
  { apply allSteps_bind; [subst P; solve_creates|]. intros [[]|]; try apply allSteps_ret.
    apply allSteps_andThen; [|apply allSteps_andThen; [|apply allSteps_ret]];
      apply Hm; [subst P; solve_creates|].
    apply allSteps_bind; [subst P; solve_creates|]. intros [namespaces|]; [|apply allSteps_ret].
    apply allSteps_ensure; [done|auto| |done]. intros o x Ho. subst P. solve_creates. }
  assert (allSteps P (install cr)) as Hi.
  { apply allSteps_bind; [subst P; solve_creates|]. intros [_|e]; [|subst P; solve_creates].
    apply allSteps_bind; [subst P; solve_creates|]. intros [ds|e]; [|apply allSteps_ret].
    apply allSteps_andThen; [subst P; solve_creates|done]. }
  unfold reconcile. destruct (DescopedModeEnabled cr); [apply allSteps_ret|].
  apply allSteps_bind; [subst P; solve_creates|]. intros r.
  unfold deref. repeat (case_match; simpl);
    first [done | apply allSteps_ret | apply allSteps_panic].
Qed.
Next Obligation. intros. apply deletesOnSuccess_nil. Qed.
Next Obligation. apply stateless_preserves. Qed.
Next Obligation. intros cr. simpl. unfold cleanup. solve_creates. Qed.
Next Obligation. intros cr s. simpl. unfold reconcile. solve_creates. Qed.
Next Obligation. intros cr. simpl. unfold cleanup. solve_creates. Qed.
End with_util.
End logging_installation.
