(* ===== verification/Token.v ===== *)
(** * Observatorium tokens (controllers/token/token_fetcher.go,
      controllers/reconcilers/token/token_manager.go)

    Fetching tokens from Dex, storing them with their expiry in secrets, reading
    them back, deciding when to renew, and the per-index loop that completes the
    Observatorium entries from secrets and renews their tokens.  [TokenCodec]
    stands for the JSON decoder of the token response. *)

From Stdlib Require Import ZArith Lia.
From S2P Require Import Prelude GoLib ApiTypes K8s Prog Client Api ModelResources.

(** [json.Unmarshal] into the response struct: the token and its lifetime in
    seconds, an int64. *)
Class TokenCodec := {
  decodeDexResponse : string → (string * Z) + error;
  decodeDexResponse_int64 : ∀ b t e, decodeDexResponse b = inl (t, e) → int64_ok e;
}.

(** An instance to evaluate examples with: the response is the token, valid for
    an hour. *)
Definition plainTokenCodec : TokenCodec.
Proof. refine {| decodeDexResponse b := inl (b, 3600%Z) |}. intros b t e [= <- <-]. done. Defined.

(** ** Fetching (token_fetcher.go) *)

Definition AuthTokenExpires (expires : Z) : prog bool :=
  if bool_decide (0 < expires)%Z then
    now ← Now;
    Ret (Time.After (Time.Add now Time.Hour) (Time.Unix expires))
  else Ret false.

Inductive AuthTokenFetcher := NilTokenFetcher | DexTokenFetcher.

Definition GetTokenFetcher (config : option ObservatoriumIndex) : AuthTokenFetcher :=
  match config with
  | None => NilTokenFetcher
  | Some c => if decide (oi_AuthType c = AuthTypeDex) then DexTokenFetcher else NilTokenFetcher
  end.

(** Token, expiry and error. *)
Abbreviation TokenResult := (string * Z * option error)%type.

Section fetcher.
Context `{TokenCodec}.

Definition dexRequest (config : ObservatoriumIndex) (dex : DexConfig) : Request :=
  mkRequest "POST" (dex_Url dex +:+ "/dex/token") []
    [("grant_type", "password"); ("username", dex_Username dex);
     ("password", dex_Password dex); ("client_id", oi_Tenant config);
     ("client_secret", dex_Secret dex); ("scope", "openid email")].

(** [time.Now().Add(time.Second * time.Duration(expiresIn)).Unix()] *)
Definition expiryOf (now : Time.t) (expiresIn : Z) : Z :=
  Time.toUnix (Time.Add now (wrap64 (Time.Second * expiresIn))).

Definition fetchDex (cr : Observability) (config : ObservatoriumIndex) (oldToken : string)
  : prog TokenResult :=
  let keep e : prog TokenResult :=
    Ret (oldToken, status_TokenExpires (statusOf cr), Some e) in
  match oi_DexConfig config with
  | None => Ret (oldToken, 0%Z, None)
  | Some dex =>
      r ← Http (dexRequest config dex);
      match r with
      | inr e => keep e
      | inl resp =>
          match resp_Body resp with
          | inr e => keep e
          | inl b =>
              if decide (resp_StatusCode resp = 200%Z) then
                match decodeDexResponse b with
                | inr e => keep e
                | inl (token, expiresIn) =>
                    now ← Now; Ret (token, expiryOf now expiresIn, None)
                end
              else keep (OtherError ("unexpected response from token endpoint: " +:+
                                     resp_Status resp))
          end
      end
  end.

Definition Fetch (f : AuthTokenFetcher) (cr : Observability) (config : ObservatoriumIndex)
    (oldToken : string) : prog TokenResult :=
  match f with
  | NilTokenFetcher => Ret (EmptyString, 0%Z, None)
  | DexTokenFetcher => fetchDex cr config oldToken
  end.

(** ** Names and lookup (token_manager.go) *)

Definition GetObservatoriumTokenSecretName (config : ObservatoriumIndex) : string :=
  "obs-token-" +:+ oi_Id config.

Definition GetObservatoriumConfig (index : RepositoryIndex) (id : string)
  : option ObservatoriumIndex :=
  match idx_Config index with
  | None => None
  | Some c => firstSuchThat (λ o, bool_decide (oi_Id o = id)) (rc_Observatoria c)
  end.

(** Both panic when the index has no such section or the id is not declared. *)
Definition GetObservatoriumPrometheusSecretName (index : RepositoryIndex) : prog string :=
  c ← deref (idx_Config index);
  p ← deref (rc_Prometheus c);
  config ← deref (GetObservatoriumConfig index (pi_Observatorium p));
  Ret (GetObservatoriumTokenSecretName config).

Definition GetObservatoriumPromtailSecretName (index : RepositoryIndex) : prog string :=
  c ← deref (idx_Config index);
  p ← deref (rc_Promtail c);
  config ← deref (GetObservatoriumConfig index (pti_Observatorium p));
  Ret (GetObservatoriumTokenSecretName config).

(** ** Reading, renewing and storing *)

Definition RemoteTokenValue : string := "token".
Definition RemoteTokenLifetime : string := "lifetime".

Definition parseError (s : string) (e : Strconv.NumErr) : error :=
  OtherError ("strconv.ParseInt: parsing " +:+ Strings.dq +:+ s +:+ Strings.dq +:+ ": " +:+
    match e with
    | Strconv.ErrSyntax => "invalid syntax"
    | Strconv.ErrRange => "value out of range"
    end).

(** What [findToken] does with the secret it got. *)
Definition readToken (secretName : string) (secret : Secret) : TokenResult :=
  match gomap_get (secret_Data (body secret)) RemoteTokenValue with
  | None => (EmptyString, 0%Z, Some (OtherError ("no token found in " +:+ secretName)))
  | Some token =>
      let lifetime := default "0" (gomap_get (secret_Data (body secret)) RemoteTokenLifetime) in
      let '(n, e) := Strconv.ParseInt lifetime in
      (token, n, parseError lifetime <$> e)
  end.

Definition findToken (cr : Observability) (config : ObservatoriumIndex) : prog TokenResult :=
  let secretName := GetObservatoriumTokenSecretName config in
  r ← Get KSecret (namespaceOf cr) secretName;
  match r with
  | inr e => Ret (EmptyString, 0%Z, if IsNotFound e then None else Some e)
  | inl secret => Ret (readToken secretName secret)
  end.

Definition refreshToken (config : ObservatoriumIndex) (cr : Observability) (oldToken : string)
  : prog TokenResult :=
  '(newToken, expires, e) ← Fetch (GetTokenFetcher (Some config)) cr config oldToken;
  match e with
  | Some e =>
      Ret (EmptyString, 0%Z, Some (WrapError ("error fetching token for " +:+ oi_Id config) e))
  | None => Ret (newToken, expires, None)
  end.

Definition tokenLabels : gomap string :=
  mapOf [("managed-by", "observability-operator"); ("purpose", "observatorium-token-secret")].

(** The callback of [saveToken]. *)
Definition tokenSecret (token : string) (lifetime : Z) (secret : Secret) : Secret :=
  withMeta (set_Labels tokenLabels)
    (withBody (k:=KSecret) (mkSecretBody (secret_Type (body secret)) (secret_Data (body secret))
       (mapOf [(RemoteTokenValue, token); (RemoteTokenLifetime, Strconv.FormatInt lifetime)]))
       secret).

Definition saveToken `{ControllerUtil} (config : ObservatoriumIndex) (cr : Observability)
    (token : string) (lifetime : Z) : prog (option error) :=
  let secretName := GetObservatoriumTokenSecretName config in
  '(_, e) ← CreateOrUpdate (stub KSecret secretName (namespaceOf cr))
              (pureMutate (tokenSecret token lifetime));
  match e with
  | Some e =>
      Ret (Some (WrapError ("error creating token secret for " +:+ oi_Id config) e))
  | None => Ret None
  end.

Definition TokensExpired (cr : Observability) : prog (bool * option error) :=
  r ← List_ KSecret (namespaceOf cr) tokenLabels;
  match r with
  | inr e => Ret (false, Some (WrapError "error checking token secrets for expiration" e))
  | inl secrets =>
      res ← forEach secrets (λ secret : Secret,
        match gomap_get (secret_Data (body secret)) RemoteTokenLifetime with
        | None => Ret (Some (true, None))
        | Some lifetime =>
            match Strconv.ParseInt lifetime with
            | (_, Some e) =>
                Ret (Some (false, Some (WrapError
                  ("error parsing token lifetime for secret " +:+ nameOf secret)
                  (parseError lifetime e))))
            | (expires, None) =>
                expired ← AuthTokenExpires expires;
                if (expired : bool) then Ret (Some (true, None)) else Ret None
            end
        end);
      Ret (default (false, None) res)
  end.

(** ** Completing an index entry from its secret *)

Definition orSecret (s : Secret) (current key : string) : string :=
  if nonempty current then current else gomap_str (secret_Data (body s)) key.

(** The fields that are only filled in when the repository left them empty. *)
Definition fillFromSecret (s : Secret) (o : ObservatoriumIndex) : ObservatoriumIndex :=
  mkObservatoriumIndex (oi_Id o) (oi_SecretName o)
    (orSecret s (oi_Gateway o) "gateway") (orSecret s (oi_Tenant o) "tenant")
    (orSecret s (oi_AuthType o) "authType") (oi_DexConfig o) (oi_RedhatSsoConfig o).

Definition set_DexConfig (d : option DexConfig) (o : ObservatoriumIndex) : ObservatoriumIndex :=
  mkObservatoriumIndex (oi_Id o) (oi_SecretName o) (oi_Gateway o) (oi_Tenant o)
    (oi_AuthType o) d (oi_RedhatSsoConfig o).
Definition set_RedhatSsoConfig (d : option RedhatSsoConfig) (o : ObservatoriumIndex)
  : ObservatoriumIndex :=
  mkObservatoriumIndex (oi_Id o) (oi_SecretName o) (oi_Gateway o) (oi_Tenant o)
    (oi_AuthType o) (oi_DexConfig o) d.

Definition dexFromSecret (s : Secret) : DexConfig :=
  let v := gomap_str (secret_Data (body s)) in
  mkDexConfig (v "dexUrl") (v "dexUsername") (v "dexPassword") (v "dexSecret")
    EmptyString EmptyString.

Definition ssoFromSecret (s : Secret) : RedhatSsoConfig :=
  let v := gomap_str (secret_Data (body s)) in
  mkRedhatSsoConfig (v "redHatSsoAuthServerUrl") (v "redHatSsoRealm") (v "metricsClientId")
    (v "metricsSecret") (v "logsClientId") (v "logsSecret").

(** [depth] is the number of stack frames left: when it is used up the process
    dies, as a panic. *)
Fixpoint assignFromSecret (depth : nat) (cr : Observability) (index : ObservatoriumIndex)
  : prog (ObservatoriumIndex * option error) :=
  match depth with
  | O => Panic
  | S depth =>
      r ← Get KSecret (namespaceOf cr) (oi_SecretName index);
      match r with
      | inr e => Ret (index, Some e)
      | inl s =>
          let o := fillFromSecret s index in
          if decide (oi_AuthType o = AuthTypeDex) then
            match oi_DexConfig o with
            | Some _ => assignFromSecret depth cr o
            | None => Ret (set_DexConfig (Some (dexFromSecret s)) o, None)
            end
          else if decide (oi_AuthType o = AuthTypeRedhat) then
            Ret (set_RedhatSsoConfig (Some (ssoFromSecret s)) o, None)
          else Ret (o, Some (OtherError ("unknown auth type " +:+ oi_AuthType o)))
      end
  end.

(** [secret.Data[k1]] when it is not nil, [secret.Data[k2]] otherwise. *)
Definition eitherKey (s : Secret) (k1 k2 : string) : string :=
  default (gomap_str (secret_Data (body s)) k2) (gomap_get (secret_Data (body s)) k1).

Definition withCredentials (s : Secret) (d : DexConfig) : DexConfig :=
  mkDexConfig (dex_Url d) (eitherKey s "username" "dexUsername")
    (eitherKey s "password" "dexPassword") (eitherKey s "secret" "dexSecret")
    (dex_CredentialSecretNamespace d) (dex_CredentialSecretName d).

(** The credential secret a Dex entry names. *)
Definition assignCredentials (cr : Observability) (o : ObservatoriumIndex)
  : prog (ObservatoriumIndex * option error) :=
  match oi_DexConfig o with
  | Some d =>
      if decide (oi_AuthType o = AuthTypeDex) then
        if nonempty (dex_CredentialSecretName d) then
          let namespace :=
            if nonempty (dex_CredentialSecretNamespace d)
            then dex_CredentialSecretNamespace d else namespaceOf cr in
          r ← Get KSecret namespace (dex_CredentialSecretName d);
          match r with
          | inr e => Ret (o, Some e)
          | inl s => Ret (set_DexConfig (Some (withCredentials s d)) o, None)
          end
        else Ret (o, None)
      else Ret (o, None)
  | None => Ret (o, None)
  end.

(** Everything of one entry before its token. *)
Definition completeEntry (depth : nat) (cr : Observability) (o : ObservatoriumIndex)
  : prog (ObservatoriumIndex * option error) :=
  '(o, e) ← (if nonempty (oi_SecretName o) then assignFromSecret depth cr o
             else Ret (o, None));
  match e with Some _ => Ret (o, e) | None => assignCredentials cr o end.

(** The token of one entry: errors while renewing are logged and skipped. *)
Definition reconcileToken `{ControllerUtil} (cr : Observability) (o : ObservatoriumIndex)
  : prog (option error) :=
  if decide (oi_AuthType o = AuthTypeRedhat) then Ret None
  else
    '(t, lifetime, e) ← findToken cr o;
    match e with
    | Some e =>
        Ret (Some (WrapError ("error checking existing observatorium token for " +:+ oi_Id o) e))
    | None =>
        expired ← (if nonempty t then AuthTokenExpires lifetime else Ret true);
        if (expired : bool) then
          '(t', lifetime', e) ← refreshToken o cr t;
          match e with
          | Some _ => Ret None
          | None => _ ← saveToken o cr t' lifetime'; Ret None
          end
        else Ret None
    end.

(** The loop: the entries done so far, and the next one. *)
Fixpoint reconcileEntries `{ControllerUtil} (depth : nat) (cr : Observability)
    (transformed todo : list ObservatoriumIndex)
  : prog (list ObservatoriumIndex * option error) :=
  match todo with
  | [] => Ret (transformed, None)
  | o :: todo' =>
      '(o', e) ← completeEntry depth cr o;
      match e with
      | Some _ => Ret (transformed, e)
      | None =>
          e ← reconcileToken cr o';
          match e with
          | Some _ => Ret (transformed ++ [o'], e)
          | None => reconcileEntries depth cr (transformed ++ [o']) todo'
          end
      end
  end.

(** A loop variable is a copy, but its Dex configuration is shared with the entry
    of the index: credentials written through the pointer stay in the index even
    when the loop stops with an error. *)
Definition shareDex (original done : ObservatoriumIndex) : ObservatoriumIndex :=
  match oi_DexConfig original with
  | Some _ => set_DexConfig (oi_DexConfig done) original
  | None => original
  end.

Fixpoint shareAll (originals transformed : list ObservatoriumIndex) : list ObservatoriumIndex :=
  match originals, transformed with
  | o :: originals', d :: transformed' => shareDex o d :: shareAll originals' transformed'
  | _, _ => originals
  end.

Definition set_Observatoria (os : list ObservatoriumIndex) (index : RepositoryIndex)
  : RepositoryIndex :=
  mkRepositoryIndex (idx_BaseUrl index) (idx_AccessToken index) (idx_Tag index)
    (idx_Source index) (idx_Id index)
    (match idx_Config index with
     | Some c => Some (mkRepositoryConfig (rc_Grafana c) (rc_Prometheus c) (rc_Alertmanager c)
                         (rc_Promtail c) os)
     | None => None
     end).

(** The index is a pointer of the caller: it is given back with what was written
    to it. *)
Definition ReconcileObservatoria `{ControllerUtil} (depth : nat) (cr : Observability)
    (index : RepositoryIndex) : prog (RepositoryIndex * option error) :=
  match idx_Config index with
  | None => Ret (index, None)
  | Some c =>
      if ObservatoriumDisabled cr then Ret (index, None)
      else
        '(transformed, e) ← reconcileEntries depth cr [] (rc_Observatoria c);
        match e with
        | Some _ => Ret (set_Observatoria (shareAll (rc_Observatoria c) transformed) index, e)
        | None => Ret (set_Observatoria transformed index, None)
        end
  end.
End fetcher.

(** ** Properties *)

(** The server stores the string data of a secret it is given in its data. *)
Definition storedAs (written stored : Secret) : Prop :=
  gomap_entries (secret_Data (body stored)) =
  gomap_entries (secret_StringData (body written)) ∪
  gomap_entries (secret_Data (body written)).

(** C22: A token and its expiry survive the round trip through the secret: whatever the
    secret held before, once the server has stored what [saveToken] writes,
    [findToken] reads the same token and the same 64-bit expiry back, without
    error. *)
Theorem token_roundtrip (token secretName : string) (lifetime : Z) (secret stored : Secret) :
  int64_ok lifetime →
  storedAs (tokenSecret token lifetime secret) stored →
  readToken secretName stored = (token, lifetime, None).
Proof.
  intros Hok Hst. unfold storedAs in Hst.
  assert (gomap_get (secret_Data (body stored)) RemoteTokenValue = Some token) as Ht.
  { unfold gomap_get. rewrite Hst. apply lookup_union_Some_l. reflexivity. }
  assert (gomap_get (secret_Data (body stored)) RemoteTokenLifetime =
          Some (Strconv.FormatInt lifetime)) as Hl.
  { unfold gomap_get. rewrite Hst. apply lookup_union_Some_l. reflexivity. }
  unfold readToken. rewrite Ht, Hl. simpl. by rewrite Strconv.ParseInt_FormatInt.
Qed.

Lemma token_roundtrip_witness :
  readToken "obs-token-a"
    (withBody (k:=KSecret)
       (mkSecretBody "Opaque" (mapOf [("token", "abc"); ("lifetime", "1700000000")]) None)
       (stub KSecret "obs-token-a" "ns")) = ("abc", 1700000000%Z, None).
Proof.
  apply (token_roundtrip _ _ _ (stub KSecret "obs-token-a" "ns"));
    [unfold int64_ok, minInt64, maxInt64; lia|reflexivity].
Defined.

(** The number of nanoseconds since January 1 of year 1. *)
Definition nanos (x : Time.t) : Z := (Time.sec x * 1000000000 + Time.nsec x)%Z.

(** Clock readings at which one hour can still be added. *)
Definition clockOk (now : Time.t) : Prop :=
  Time.ok now ∧ int64_ok (Time.sec now + 3600).

Lemma AuthTokenExpires_at expires now :
  clockOk now → int64_ok (expires + Time.unixToInternal) →
  Time.After (Time.Add now Time.Hour) (Time.Unix expires) = true ↔
  ((expires + Time.unixToInternal) * 1000000000 < nanos now + Time.Hour)%Z.
Proof.
  intros [Hok Hs] He. change Time.Hour with (3600 * Time.Second)%Z.
  rewrite Time.Add_seconds by done. unfold Time.After, Time.Unix, nanos, Time.Second. simpl.
  rewrite wrap64_id by done. destruct Hok as [_ Hn].
  rewrite orb_true_iff, andb_true_iff, !Z.ltb_lt, Z.eqb_eq. lia.
Qed.

(** C24: A token is due for renewal exactly when its expiry is less than one hour
    ahead of the clock, to the nanosecond; an expiry that is zero or negative
    never is, and the clock is not even read.  The exact bound is for clock readings
    and expiries that fit in 64 bits together with the hour and with the offset of
    1970. *)
Theorem AuthTokenExpires_spec (expires : Z) :
  wp (AuthTokenExpires expires) (λ tr o,
    ((expires ≤ 0)%Z → tr = [] ∧ o = Done false) ∧
    ((0 < expires)%Z → ∃ now b, tr = [CNow ⇝ now] ∧ o = Done b ∧
      (clockOk now → int64_ok (expires + Time.unixToInternal) →
       b = true ↔ ((expires + Time.unixToInternal) * 1000000000 < nanos now + Time.Hour)%Z))).
Proof.
  unfold AuthTokenExpires. case_bool_decide as H0.
  - intros now. simpl. split; [lia|]. intros _. eexists now, _. do 2 (split; [done|]).
    apply AuthTokenExpires_at.
  - simpl. split; [done|lia].
Qed.

(** The expiry that is stored, while nothing overflows. *)
Lemma expiryOf_exact now e :
  Time.ok now → int64_ok (Time.Second * e) → int64_ok (Time.sec now + e) →
  int64_ok (Time.sec now + e - Time.unixToInternal) →
  expiryOf now e = (Time.sec now - Time.unixToInternal + e)%Z.
Proof.
  intros Hn He Hs Hu. unfold expiryOf. rewrite wrap64_id by done.
  rewrite (Z.mul_comm Time.Second). rewrite Time.Add_seconds by done.
  unfold Time.toUnix. simpl. rewrite wrap64_id by done. lia.
Qed.

(** C25: A token fetched at [now] with a lifetime of [e] seconds is left alone until
    one hour before it runs out and is due for renewal after that: the renewal test
    on the expiry stored for it looks at the clock once, and its answer is no exactly
    when at least an hour of the lifetime (counted from the whole second of [now])
    remains.  An expiry at or before the start of 1970 is never due, and the clock
    is not read.  The instants involved are assumed to fit in 64 bits. *)
Theorem fetched_token_renewal (now : Time.t) (e : Z) :
  clockOk now → int64_ok (Time.Second * e) → int64_ok (Time.sec now + e) →
  int64_ok (Time.sec now + e - Time.unixToInternal) →
  wp (AuthTokenExpires (expiryOf now e)) (λ tr o,
    ((Time.sec now + e ≤ Time.unixToInternal)%Z → tr = [] ∧ o = Done false) ∧
    ((Time.unixToInternal < Time.sec now + e)%Z → ∃ later due, tr = [CNow ⇝ later] ∧ o = Done due ∧
      (clockOk later →
       due = false ↔ (nanos later + Time.Hour ≤ (Time.sec now + e) * 1000000000)%Z))).
Proof.
  intros Hn He Hs Hu. rewrite expiryOf_exact by (done || apply Hn). unfold AuthTokenExpires.
  case_bool_decide as Hpos.
  - intros later. simpl. split; [lia|]. intros _. eexists later, _. do 2 (split; [done|]).
    intros Hl. rewrite <-not_true_iff_false, AuthTokenExpires_at; [lia|done|].
    by replace (Time.sec now - Time.unixToInternal + e + Time.unixToInternal)%Z
      with (Time.sec now + e)%Z by lia.
  - simpl. split; [done|lia].
Qed.

(** A token with a lifetime of two hours, tested when it was fetched and one hour
    and a second later. *)
Lemma fetched_token_renewal_witness :
  let now := Time.mkTime 63800000000 500 in
  wp (AuthTokenExpires (expiryOf now 7200)) (λ tr o,
    (tr = [CNow ⇝ now] → o = Done false) ∧
    (tr = [CNow ⇝ Time.mkTime 63800003601 500] → o = Done true)).
Proof.
  intros now. eapply wp_mono; [|apply (fetched_token_renewal now 7200);
    unfold clockOk, Time.ok, int64_ok, minInt64, maxInt64, Time.Second, Time.unixToInternal, now;
    simpl; lia].
  intros tr o [_ H]. destruct H as (later & due & -> & -> & Hd); [reflexivity|].
  assert (∀ x : Time.t, [CNow ⇝ later] = [CNow ⇝ x] → later = x) as Hinj.
  { intros x Hx. apply (f_equal (λ tr : trace, match tr with existT CNow t :: _ => t | _ => later end)) in Hx.
    exact Hx. }
  split; intros ->%Hinj; f_equal.
  - apply Hd; unfold clockOk, Time.ok, int64_ok, minInt64, maxInt64, nanos, Time.Hour, now; simpl; lia.
  - destruct due; [reflexivity|]. exfalso. revert Hd.
    unfold clockOk, Time.ok, int64_ok, minInt64, maxInt64, nanos, Time.Hour, now. simpl. intros Hd.
    destruct Hd as [Hd _]; [lia|]. specialize (Hd eq_refl). lia.
Defined.

(** Every secret the run asked for was found. *)
Definition allFound (tr : trace) : Prop :=
  Forall (λ s, match s with existT (CGet _ _ _) r => succeeded r = true | _ => True end) tr.

(** C39: An entry of type Dex whose Dex configuration is given by the repository
    and that also names a secret is never completed: as long as the secret can be
    read the recursion does not end, and every stack depth is exhausted after that
    many reads of the same secret. *)
Theorem assignFromSecret_diverges (depth : nat) (cr : Observability)
    (index : ObservatoriumIndex) (dex : DexConfig) :
  oi_AuthType index = AuthTypeDex → oi_DexConfig index = Some dex →
  wp (assignFromSecret depth cr index) (λ tr o,
    allFound tr → o = Panicked ∧ length tr = depth).
Proof.
  revert index. induction depth as [|depth IH]; intros index Ha Hd; simpl; [done|].
  intros [s|e]; simpl.
  - assert (oi_AuthType (fillFromSecret s index) = AuthTypeDex) as Ha'.
    { simpl. unfold orSecret. by rewrite Ha. }
    rewrite decide_True, Hd by done.
    eapply wp_mono; [|apply (IH (fillFromSecret s index)); done].
    intros tr o Ho [_ Htr]%Forall_cons. destruct (Ho Htr) as [-> <-]. done.
  - by intros [? _]%Forall_cons.
Qed.

Lemma assignFromSecret_diverges_witness :
  let o := mkObservatoriumIndex "id" "secret" "gw" "tenant" AuthTypeDex
             (Some (mkDexConfig "url" "u" "p" "s" EmptyString EmptyString)) None in
  wp (assignFromSecret 3 (stub KObservability "obs" "ns") o) (λ tr r,
    allFound tr → r = Panicked ∧ length tr = 3).
Proof. eapply assignFromSecret_diverges; reflexivity. Defined.

(** Otherwise one read is enough and the function returns. *)
Lemma assignFromSecret_once depth cr index :
  oi_DexConfig index = None →
  wp (assignFromSecret (S depth) cr index) (λ tr o,
    o ≠ Panicked ∧ length tr = 1 ∧ ∀ o', o = Done (o', None) → oi_Id o' = oi_Id index).
Proof.
  intros Hd [s|e]; simpl; [|naive_solver]. rewrite Hd.
  repeat case_decide; simpl; naive_solver.
Qed.

Section manager.
Context `{TokenCodec} `{ControllerUtil}.

(** What a first answer says about the need for a new token: there is none, or
    the clock read next says that it is about to expire. *)
Definition needsRenewal (secretName : string) (r : Secret + error) (tr : trace) : Prop :=
  match r with
  | inr e => IsNotFound e = true
  | inl secret =>
      let '(t, n, e) := readToken secretName secret in
      e = None ∧
      (t = EmptyString ∨
       (0 < n)%Z ∧ ∃ now, (CNow ⇝ now) ∈ tr ∧
         Time.After (Time.Add now Time.Hour) (Time.Unix n) = true)
  end.

Definition isHttp (s : step) : bool :=
  match s with existT (CHttp _) _ => true | _ => false end.

Lemma nonempty_false s : nonempty s = false → s = EmptyString.
Proof. unfold nonempty. intros H'. by bool_props. Qed.

(** C10: A new token is requested only when the stored one is missing, empty, or
    expires within the hour: whenever a run contains an HTTP request, the secret
    that was read first and the clock that was read next justify it.  Entries of
    the Red Hat single sign-on type never cause a request. *)
Theorem token_requested_only_when_due (cr : Observability) (o : ObservatoriumIndex) :
  wp (reconcileToken cr o) (λ tr _, existsb isHttp tr = true →
    oi_AuthType o ≠ AuthTypeRedhat ∧
    ∃ r tr', tr = (CGet KSecret (namespaceOf cr) (GetObservatoriumTokenSecretName o) ⇝ r) :: tr' ∧
      needsRenewal (GetObservatoriumTokenSecretName o) r tr').
Proof.
  unfold reconcileToken. case_decide as Hr; [done|]. intros [secret|e]; simpl.
  - destruct (readToken _ secret) as [[t n] [e|]] eqn:Hrd; simpl; [done|].
    destruct (nonempty t) eqn:Ht; simpl.
    + unfold AuthTokenExpires. case_bool_decide as Hn; simpl; [|done]. intros now.
      destruct (Time.After _ _) eqn:Ha; simpl; [|done].
      apply wp_true. intros tr ? _. split; [done|]. eexists _, _. split; [done|].
      simpl. rewrite Hrd. split; [done|]. right. split; [done|].
      exists now. split; [left|done].
    + apply wp_true. intros tr ? _. split; [done|]. eexists _, _. split; [done|].
      simpl. rewrite Hrd. split; [done|]. left. by apply nonempty_false.
  - destruct (IsNotFound e) eqn:He; simpl; [|done].
    apply wp_true. intros tr ? _. split; [done|]. by eexists _, _.
Qed.

(** The writes of the loop. *)
Definition tokenKey (cr : Observability) (id : string) : ObjectKey :=
  mkKey KSecret (namespaceOf cr) ("obs-token-" +:+ id).

Lemma assignFromSecret_spec depth cr index S' :
  (∀ k ns n x, S' (CGet k ns n ⇝ x)) →
  wp (assignFromSecret depth cr index) (λ tr o,
    Forall S' tr ∧ ∀ o' e, o = Done (o', e) → oi_Id o' = oi_Id index).
Proof.
  intros HS. revert index; induction depth as [|depth IH]; intros index; simpl; [naive_solver|].
  intros [s|e]; simpl; [|split; [by repeat constructor|naive_solver]].
  case_decide; [destruct (oi_DexConfig index)|case_decide]; simpl;
    try (split; [by repeat constructor|naive_solver]).
  eapply wp_mono; [|apply (IH (fillFromSecret s index))].
  intros tr o [Htr Hid]. split; [by constructor|done].
Qed.

Lemma completeEntry_spec depth cr o S' :
  (∀ k ns n x, S' (CGet k ns n ⇝ x)) →
  wp (completeEntry depth cr o) (λ tr r,
    Forall S' tr ∧ ∀ o' e, r = Done (o', e) → oi_Id o' = oi_Id o).
Proof.
  intros HS. apply wp_bind.
  assert (∀ o1, wp (assignCredentials cr o1) (λ tr r,
    Forall S' tr ∧ ∀ o' e, r = Done (o', e) → oi_Id o' = oi_Id o1)) as Hc.
  { intros o1. unfold assignCredentials. destruct (oi_DexConfig o1); [|simpl; naive_solver].
    case_decide; [|simpl; naive_solver]. destruct (nonempty _); [|simpl; naive_solver].
    intros [s|e]; simpl; (split; [by repeat constructor|naive_solver]). }
  destruct (nonempty _).
  - eapply wp_mono; [|by apply (assignFromSecret_spec depth cr o S')].
    intros tr [[o1 [e|]]|] [Htr Hid]; [|simpl|naive_solver].
    + simpl. rewrite app_nil_r. split; [done|]. intros ?? [= <- <-]. by eapply Hid.
    + eapply wp_mono; [|apply Hc]. intros tr' o' [Htr' Hid']. split; [by apply Forall_app|].
      intros o2 e He. rewrite (Hid' _ _ He). by eapply Hid.
  - apply (Hc o).
Qed.

Lemma reconcileToken_writes cr o :
  allSteps (writesIn (λ key, key = tokenKey cr (oi_Id o))) (reconcileToken cr o).
Proof.
  unfold reconcileToken. case_decide; [apply allSteps_ret|].
  apply allSteps_bind; [apply allSteps_call; [done|intros []; apply allSteps_ret]|].
  intros [[t n] [e|]]; [apply allSteps_ret|]. apply allSteps_bind.
  { destruct (nonempty t); [|apply allSteps_ret]. unfold AuthTokenExpires.
    case_bool_decide; [|apply allSteps_ret].
    apply allSteps_call; [done|intros; apply allSteps_ret]. }
  intros []; [|apply allSteps_ret]. apply allSteps_bind.
  { apply allSteps_bind; [|intros [[??] []]; apply allSteps_ret].
    unfold Fetch, fetchDex. destruct (GetTokenFetcher _), (oi_DexConfig o); try apply allSteps_ret.
    apply allSteps_call; [done|]. intros [resp|]; [|apply allSteps_ret].
    destruct (resp_Body resp) as [b|]; [|apply allSteps_ret]. case_decide; [|apply allSteps_ret].
    destruct (decodeDexResponse b) as [[]|]; [|apply allSteps_ret].
    apply allSteps_call; [done|intros; apply allSteps_ret]. }
  intros [[t' n'] [e|]]; [apply allSteps_ret|]. apply allSteps_bind; [|intros; apply allSteps_ret].
  apply allSteps_bind; [|intros [? []]; apply allSteps_ret].
  apply allSteps_CreateOrUpdate; try done; [intros; apply allSteps_ret| |];
    intros s x Hs key; simpl; rewrite Hs; by intros [= <-].
Qed.

(** One pass over the entries: only token secrets of declared entries are
    written, and the entries that were done keep their ids. *)
Lemma reconcileEntries_spec depth cr transformed todo :
  wp (reconcileEntries depth cr transformed todo) (λ tr r,
    Forall (writesIn (λ key, ∃ o, o ∈ todo ∧ key = tokenKey cr (oi_Id o))) tr ∧
    ∀ os, r = Done (os, None) → map oi_Id os = map oi_Id transformed ++ map oi_Id todo).
Proof.
  revert transformed; induction todo as [|o todo IH]; intros transformed; simpl.
  { split; [constructor|]. intros os [= <-]. by rewrite app_nil_r. }
  apply wp_bind. eapply wp_mono; [|by apply (completeEntry_spec depth cr o
    (writesIn (λ key, ∃ x, x ∈ o :: todo ∧ key = tokenKey cr (oi_Id x))))].
  intros tr [[o' [e|]]|] [Htr Hid]; [simpl; rewrite app_nil_r; by split| |by split].
  specialize (Hid _ _ eq_refl). apply wp_bind.
  eapply wp_mono; [|apply (reconcileToken_writes cr o')].
  assert (∀ s, writesIn (λ key, key = tokenKey cr (oi_Id o')) s →
    writesIn (λ key, ∃ x, x ∈ o :: todo ∧ key = tokenKey cr (oi_Id x)) s) as Himp.
  { intros s Hs key Hk. exists o. split; [left|]. by rewrite (Hs key Hk), Hid. }
  intros tr' [[e|]|] Htr'; simpl;
    [rewrite app_nil_r; split; [|done]; apply Forall_app; eauto using Forall_impl| |
     split; [|done]; apply Forall_app; eauto using Forall_impl].
  eapply wp_mono; [|apply (IH (transformed ++ [o']))]. intros tr'' r [Htr'' Hos]. split.
  - repeat (apply Forall_app; split); [done|eauto using Forall_impl|].
    eapply Forall_impl; [exact Htr''|]. intros s Hs key Hk.
    destruct (Hs key Hk) as (x & Hx & ->). exists x. split; [by right|done].
  - intros os Hr. rewrite (Hos os Hr), map_app. simpl. by rewrite Hid, <-app_assoc.
Qed.

Definition observatoriaOf (index : RepositoryIndex) : list ObservatoriumIndex :=
  match idx_Config index with Some c => rc_Observatoria c | None => [] end.

(** C14: Reconciling the Observatorium entries of an index writes no object but the
    token secrets [obs-token-<id>] of the declared entries, in the namespace of
    the custom resource; when it succeeds the index has the same entries by id, in
    the same order; and with Observatorium disabled it makes no call at all. *)
Theorem ReconcileObservatoria_spec (depth : nat) (cr : Observability) (index : RepositoryIndex) :
  wp (ReconcileObservatoria depth cr index) (λ tr r,
    Forall (λ key, ∃ o, o ∈ observatoriaOf index ∧ key = tokenKey cr (oi_Id o)) (writeKeys tr) ∧
    (∀ index', r = Done (index', None) →
       map oi_Id (observatoriaOf index') = map oi_Id (observatoriaOf index)) ∧
    (ObservatoriumDisabled cr = true → tr = [])).
Proof.
  unfold ReconcileObservatoria, observatoriaOf. destruct (idx_Config index) as [c|] eqn:Hc;
    [|simpl; split; [constructor|split; [intros ? [= <-]; by rewrite Hc|done]]].
  destruct (ObservatoriumDisabled cr) eqn:Hd;
    [simpl; split; [constructor|split; [intros ? [= <-]; by rewrite Hc|done]]|].
  apply wp_bind. eapply wp_mono; [|apply (reconcileEntries_spec depth cr [])].
  intros tr r [Hw Hids]. apply Forall_writeKeys in Hw.
  destruct r as [[os [e|]]|]; simpl; rewrite ?app_nil_r; repeat split; try done.
  intros index' [= <-]. unfold set_Observatoria. simpl. rewrite Hc. simpl. by apply Hids.
Qed.
End manager.
