(* ===== verification/Controller.v ===== *)
(** * The controller (controllers/observability_controller.go)

    [Reconcile] fetches the custom resource, manages its finalizer, runs the
    stages in order until one is not successful, and writes the status;
    [InitializeOperand] creates or updates the default resource at start-up.  The
    stages are a parameter, [reconcilerFor], so that the theorems hold of any
    stages that satisfy the interface; [Operator] supplies the real ones. *)

From S2P Require Import Prelude GoLib ApiTypes K8s Prog Client Api ModelPrometheus ModelResources.
From S2P Require Import Utils.

(** ** State and constants *)

(** The fields of the reconciler that it writes. *)
Record ControllerState := mkControllerState {
  installComplete : bool;
  noInit : bool;
}.

Record Result := mkResult { Requeue : bool; RequeueAfter : Z }.

Definition RequeueDelaySuccess : Z := (10 * Time.Second)%Z.
Definition RequeueDelayError : Z := (5 * Time.Second)%Z.
Definition ObservabilityFinalizer : string := "observability-cleanup".
Definition NoInitConfigMapName : string := "observability-operator-no-init".

Definition noRequeue : Result := mkResult false 0.

Definition getInstallationStages : list ObservabilityStageName :=
  [TokenRequest; PrometheusInstallation; PrometheusConfiguration; GrafanaInstallation;
   GrafanaConfiguration; AlertmanagerInstallation; PromtailInstallation;
   LoggingInstallation; Csv; Migration; Configuration].

Definition getCleanupStages : list ObservabilityStageName :=
  [PrometheusConfiguration; GrafanaConfiguration; PrometheusInstallation;
   GrafanaInstallation; AlertmanagerInstallation; PromtailInstallation;
   LoggingInstallation; Configuration; TokenRequest; Csv].

(** ** The reconcile loop *)

Definition writeError {k} (r : Object k + error) : option error :=
  match r with inl _ => None | inr e => Some e end.

Definition withFinalizers (fs : list string) (o : Observability) : Observability :=
  withMeta (set_Finalizers fs) o.

Definition deleting (o : Observability) : bool :=
  match DeletionTimestamp (meta o) with Some _ => true | None => false end.

Definition updateStatus (cr : Observability) (nextStatus : ObservabilityStatus)
  : prog (Result * option error) :=
  if decide (statusOf cr = nextStatus) then Ret (mkResult true RequeueDelaySuccess, None)
  else
    r ← StatusUpdate (set_CrStatus nextStatus cr);
    match r with
    | inr e => Ret (mkResult true RequeueDelayError, Some e)
    | inl _ => Ret (mkResult true RequeueDelaySuccess, None)
    end.

Section controller.
Context (reconcilerFor : ObservabilityStageName → option ObservabilityReconciler).

(** The call of one stage. *)
Definition callStage (R : ObservabilityReconciler) (obs : Observability)
    (next : ObservabilityStatus) : prog (Observability * ObservabilityStatus * StageResult) :=
  if deleting obs then r ← Cleanup R obs; Ret (obs, next, r)
  else Reconcile R obs next.

(** The result of a stage in the next status, with the metric of failures. *)
Definition recordResult (stage : ObservabilityStageName) (obs : Observability)
    (next : ObservabilityStatus) (r : StageResult)
  : prog (Observability * ObservabilityStatus * ObservabilityStageStatus) :=
  let '(status, err) := r in
  match err with
  | Some e =>
      _ ← Inc (FailedReconciliations stage);
      Ret (obs, set_StageStatus status (set_LastMessage (Error e) next), status)
  | None => Ret (obs, set_StageStatus status (set_LastMessage EmptyString next), status)
  end.

(** One round of the loop for a stage that has a reconciler. *)
Definition runStage (stage : ObservabilityStageName) (R : ObservabilityReconciler)
    (obs : Observability) (next : ObservabilityStatus)
  : prog (Observability * ObservabilityStatus * ObservabilityStageStatus) :=
  _ ← Inc (TotalReconciliations stage);
  '(obs, next, r) ← callStage R obs next;
  recordResult stage obs next r.

(** The loop; the flag is [finished]. *)
Fixpoint runStages (stages : list ObservabilityStageName) (obs : Observability)
    (next : ObservabilityStatus) : prog (Observability * ObservabilityStatus * bool) :=
  match stages with
  | [] => Ret (obs, next, true)
  | stage :: stages' =>
      let next := set_Stage stage next in
      match reconcilerFor stage with
      | None => runStages stages' obs next
      | Some R =>
          '(obs, next, status) ← runStage stage R obs next;
          if decide (status = ResultSuccess) then runStages stages' obs next
          else Ret (obs, next, false)
      end
  end.

(** After the stages. *)
Definition finishReconcile (st : ControllerState) (obs : Observability)
    (next : ObservabilityStatus) (finished : bool)
  : prog (ControllerState * Result * option error) :=
  let st :=
    if negb (deleting obs) && finished then mkControllerState true (noInit st) else st in
  if deleting obs && finished then
    r ← Update (withFinalizers [] obs);
    Ret (mkControllerState false (noInit st), noRequeue, writeError r)
  else if negb (bool_decide (Finalizers (meta obs) = [])) && negb (noInit st) then
    r ← Update (withFinalizers [] obs);
    Ret (st, mkResult true RequeueDelaySuccess, writeError r)
  else
    '(res, e) ← updateStatus obs next; Ret (st, res, e).

Definition reconcileStages (st : ControllerState) (obs : Observability)
  : prog (ControllerState * Result * option error) :=
  let stages := if deleting obs then getCleanupStages else getInstallationStages in
  '(obs, next, finished) ← runStages stages obs (statusOf obs);
  finishReconcile st obs next finished.

Definition ReconcileRequest (st : ControllerState) (ns name : string)
  : prog (ControllerState * Result * option error) :=
  r ← Get KObservability ns name;
  match r with
  | inr e => Ret (st, noRequeue, if IsNotFound e then None else Some e)
  | inl obs =>
      if negb (deleting obs) && bool_decide (Finalizers (meta obs) = []) && noInit st then
        r ← Update (withFinalizers (Finalizers (meta obs) ++ [ObservabilityFinalizer]) obs);
        Ret (st, noRequeue, writeError r)
      else reconcileStages st obs
  end.
End controller.

(** ** The operand *)

Definition operandMeta (namespace : string) : ObjectMeta :=
  set_Labels managedBy (metaOf "observability-stack" (Strings.TrimSpace namespace)).

Definition configurationSelector : LabelSelector :=
  matchLabels (mapOf [("configures", "observability-operator")]).

Definition defaultStorage : Storage :=
  mkStorage (Some (mkStorageSpec "managed-services" EmptyString
    (Some {["storage" := mkQuantity PrometheusDefaultStorage]}) JNull)) None.

Definition disableBlackbox (smtp : option bool) : SelfContained :=
  let z := zeroSelfContained in
  mkSelfContained (sc_DisableRepoSync z) (sc_DisableObservatorium z) (sc_DisablePagerDuty z)
    (sc_DisableDeadmansSnitch z) smtp (Some true) (sc_SelfSignedCerts z)
    (sc_OverrideSelectors z) (sc_FederatedMetrics z) (sc_PodMonitorLabelSelector z)
    (sc_PodMonitorNamespaceSelector z) (sc_ServiceMonitorLabelSelector z)
    (sc_ServiceMonitorNamespaceSelector z) (sc_RuleLabelSelector z)
    (sc_RuleNamespaceSelector z) (sc_ProbeLabelSelector z) (sc_ProbeNamespaceSelector z)
    (sc_GrafanaDashboardLabelSelector z) (sc_AlertManagerConfigSecret z)
    (sc_AlertManagerVersion z) (sc_BlackboxBearerTokenSecret z) (sc_PrometheusVersion z)
    (sc_AlertManagerResourceRequirement z) (sc_PrometheusResourceRequirement z)
    (sc_PrometheusOperatorResourceRequirement z) (sc_GrafanaResourceRequirement z)
    (sc_GrafanaOperatorResourceRequirement z) (sc_GrafanaVersion z) (sc_GrafanaInitImage z)
    (sc_DisableLogging z) (sc_OriginOauthProxyImage z).

Definition operandSpec (storage : option Storage) (sc : SelfContained) : ObservabilitySpec :=
  mkObservabilitySpec EmptyString (Some configurationSelector) "1h" storage None None
    (Some sc) None "45d" EmptyString EmptyString EmptyString.

Definition observabilityInstanceWithStorage (namespace : string) : Observability :=
  mkObject (k:=KObservability) (operandMeta namespace)
    (mkObservabilityBody (operandSpec (Some defaultStorage) (disableBlackbox None)) zeroStatus).

Definition observabilityInstanceWithoutStorage (namespace : string) : Observability :=
  mkObject (k:=KObservability) (operandMeta namespace)
    (mkObservabilityBody (operandSpec None (disableBlackbox (Some true))) zeroStatus).

(** [UpdateOperand(from, to)]: everything but the name and the resource version
    comes from [to]. *)
Definition UpdateOperand (from to : Observability) : prog (option error) :=
  let from' :=
    withMeta (λ m, set_ResourceVersion (ResourceVersion (meta from))
                     (set_Name (nameOf from) m)) to in
  r ← Update from'; Ret (writeError r).

Section operand.
(** [k8sutil.IsResourceNotFoundError] of the Prometheus operator. *)
Context (IsResourceNotFoundError : error → bool).

Definition noInitConfigmapExists (namespace : string) : prog (bool + error) :=
  r ← Get KConfigMap (Strings.TrimSpace namespace) NoInitConfigMapName;
  match r with
  | inl _ => Ret (inl true)
  | inr e => if IsResourceNotFoundError e then Ret (inl false) else Ret (inr e)
  end.

Definition operatorNamespace : prog string :=
  r ← request (CReadFile "/var/run/secrets/kubernetes.io/serviceaccount/namespace");
  match (r : string + FileError) with
  | inl ns => Ret ns
  | inr _ => request (CGetenv "WATCH_NAMESPACE")
  end.

(** Whether storage is available: the platform is neither Libvirt nor None.  A
    nil platform status is dereferenced. *)
Definition detectCloud : prog bool :=
  r ← Get KInfrastructure EmptyString "cluster";
  match r with
  | inr _ => Ret false
  | inl infra =>
      type ← deref (infra_PlatformType (body (infra : Object KInfrastructure)));
      Ret (negb (bool_decide (type = "Libvirt")) && negb (bool_decide (type = "None")))
  end.

(** [instances.Items[0].Spec.Storage == nil || instances.Items[0].Spec.Retention
    == empty] *)
Definition firstLacksStorage (items : list Observability) : bool :=
  match items with
  | first :: _ =>
      match spec_Storage (specOf first) with
      | None => true
      | Some _ => negb (nonempty (spec_Retention (specOf first)))
      end
  | [] => false
  end.

(** One existing resource: update it when it is not labelled as managed, or when
    the first listed one lacks storage or retention on a cloud platform. *)
Definition adoptExisting (runningOnCloud : bool) (items : list Observability)
    (instance existing : Observability) : prog (option error) :=
  if negb (bool_decide (gomap_str (Labels (meta existing)) "managed-by" =
                        "observability-operator"))
  then UpdateOperand existing instance
  else if firstLacksStorage items && runningOnCloud then UpdateOperand existing instance
  else Ret None.

(** The listed resources: each is adopted; without any, the default is created. *)
Definition adoptOrCreate (runningOnCloud : bool) (instance : Observability)
    (items : list Observability) : prog (option error) :=
  res ← forEach items (adoptExisting runningOnCloud items instance);
  match res with
  | Some e => Ret (Some e)
  | None =>
      match items with
      | _ :: _ => Ret None
      | [] => r ← Create instance; Ret (writeError r)
      end
  end.

(** From the look at the infrastructure on. *)
Definition initializeInstance (namespace : string) : prog (option error) :=
  runningOnCloud ← detectCloud;
  let instance :=
    if (runningOnCloud : bool) then observabilityInstanceWithStorage namespace
    else observabilityInstanceWithoutStorage namespace in
  r ← List_ KObservability EmptyString None;
  match r with
  | inr e => Ret (Some e)
  | inl items => adoptOrCreate runningOnCloud instance items
  end.

Definition InitializeOperand (st : ControllerState)
  : prog (ControllerState * option error) :=
  namespace ← operatorNamespace;
  if nonempty namespace then
    exists_ ← noInitConfigmapExists namespace;
    match exists_ with
    | inr e => Ret (st, Some e)
    | inl noInitExists =>
        let st := mkControllerState (installComplete st) noInitExists in
        if (noInitExists : bool) then Ret (st, None)
        else e ← initializeInstance namespace; Ret (st, e)
    end
  else Ret (st, Some (OtherError "unable to create operand: cannot detect operator namespace")).
End operand.
