(* ===== verification/Main.v ===== *)
(** * The main program (main.go, runners/generic_runner.go, the scheme of api/v1)

    Start-up: the types are added to the scheme, the flags are parsed, the manager
    is built, the controller, the webhook, the operand initializer and the probes
    are registered, and the manager runs.  The manager is a library: every call
    into it is a [setupCall] that answers with an error or with none, and nothing is
    assumed of the answers.  [boot] is a program that makes such calls, exits with a
    code or panics. *)

From S2P Require Import Prelude GoLib ApiTypes K8s Prog Client Api ModelPrometheus ModelResources.
From S2P Require Import Utils Controller.

Module runners.

(** ** The runner *)

(** The callback works on the reconciler, whose fields it may set. *)
Record OperandInitializer := mkOperandInitializer {
  cb : ControllerState → prog (ControllerState * option error);
}.

Definition NewOperandInitializer (cb : ControllerState → prog (ControllerState * option error))
  : OperandInitializer := mkOperandInitializer cb.

Definition Start (r : OperandInitializer) (st : ControllerState)
  : prog (ControllerState * option error) := cb r st.
End runners.

Module main.
Import runners.

(** ** Calls into the manager *)

Record Options := mkOptions {
  MetricsBindAddress : string;
  HealthProbeBindAddress : string;
  Port : Z;
  LeaderElection : bool;
  LeaderElectionID : string;
}.

Inductive setupCall :=
| AddToScheme (package : string)
| GetConfigOrDie
| NewManager (o : Options)
| CompleteController (k : Kind)
| CompleteWebhook (k : Kind)
| AddRunnable (r : OperandInitializer)
| AddHealthzCheck (name : string)
| AddReadyzCheck (name : string)
| StartManager
| DeleteResource (o : Observability).

Inductive boot (A : Type) :=
| BRet (a : A)
| BExit (code : Z)
| BPanic
| BCall (c : setupCall) (k : option error → boot A).
Arguments BRet {A} a.
Arguments BExit {A} code.
Arguments BPanic {A}.
Arguments BCall {A} c k.

(** How a program of this kind ends. *)
Inductive ending (A : Type) := Returned (a : A) | Exited (code : Z) | Crashed.
Arguments Returned {A} a.
Arguments Exited {A} code.
Arguments Crashed {A}.

Abbreviation setupTrace := (list (setupCall * option error)).

Fixpoint boots {A} (p : boot A) (tr : setupTrace) (o : ending A) : Prop :=
  match p with
  | BRet a => tr = [] ∧ o = Returned a
  | BExit code => tr = [] ∧ o = Exited code
  | BPanic => tr = [] ∧ o = Crashed
  | BCall c k => ∃ e tr', tr = (c, e) :: tr' ∧ boots (k e) tr' o
  end.

(** [if err := c; err != nil { os.Exit(1) }; rest] *)
Definition orExit {A} (c : setupCall) (rest : boot A) : boot A :=
  BCall c (λ e, match e with Some _ => BExit 1 | None => rest end).

(** [utilruntime.Must(c); rest] *)
Definition must {A} (c : setupCall) (rest : boot A) : boot A :=
  BCall c (λ e, match e with Some _ => BPanic | None => rest end).

(** ** The scheme *)

Record GroupVersion := mkGroupVersion { gv_Group : string; gv_Version : string }.

(** [GroupVersion] of groupversion_info.go. *)
Definition apiGroupVersion : GroupVersion := mkGroupVersion "observability.redhat.com" "v1".

(** [SchemeBuilder.Register] of observability_types.go. *)
Definition registeredTypes : list string := ["Observability"; "ObservabilityList"].

(** The packages whose types the scheme gets, in the order of [init]. *)
Definition schemePackages : list string :=
  ["k8s.io/client-go/kubernetes/scheme";
   "github.com/redhat-developer/observability-operator/v4/api/v1";
   "github.com/openshift/api/project/v1";
   "github.com/openshift/api/route/v1";
   "github.com/prometheus-operator/prometheus-operator/pkg/apis/monitoring/v1";
   "github.com/operator-framework/api/pkg/operators/v1alpha1";
   "github.com/operator-framework/api/pkg/operators/v1";
   "github.com/grafana-operator/grafana-operator/v4/api/integreatly/v1alpha1";
   "github.com/openshift/api/config/v1";
   "github.com/openshift/cluster-logging-operator/apis/logging/v1"].

Fixpoint addAll {A} (packages : list string) (rest : boot A) : boot A :=
  match packages with
  | [] => rest
  | p :: ps => must (AddToScheme p) (addAll ps rest)
  end.

Definition init : boot unit := addAll schemePackages (BRet tt).

(** ** Flags *)

Record Flags := mkFlags {
  metricsAddr : string;
  probeAddr : string;
  enableLeaderElection : bool;
  disableWebhooks : bool;
}.

Definition defaultFlags : Flags := mkFlags ":8080" ":8081" false false.

(** One assignment of the parser. *)
Definition setFlag (f : Flags) (a : string * string) : Flags :=
  let '(name, v) := a in
  let b := default false (Flag.ParseBool v) in
  if decide (name = "metrics-addr") then
    mkFlags v (probeAddr f) (enableLeaderElection f) (disableWebhooks f)
  else if decide (name = "health-probe-bind-address") then
    mkFlags (metricsAddr f) v (enableLeaderElection f) (disableWebhooks f)
  else if decide (name = "enable-leader-election") then
    mkFlags (metricsAddr f) (probeAddr f) b (disableWebhooks f)
  else if decide (name = "disable-webhooks") then
    mkFlags (metricsAddr f) (probeAddr f) (enableLeaderElection f) b
  else f.

Section main.
(** The flags that imported packages define on the same command line. *)
Context (foreign : string → option Flag.FlagDef).

Definition formal (name : string) : option Flag.FlagDef :=
  if decide (name = "metrics-addr" ∨ name = "health-probe-bind-address") then
    Some Flag.stringFlag
  else if decide (name = "enable-leader-election" ∨ name = "disable-webhooks") then
    Some Flag.boolFlag
  else foreign name.

Definition parseFlags (args : list string) : Flags + Flag.ParseError :=
  match Flag.Parse formal args with
  | inl assignments => inl (foldl setFlag defaultFlags assignments)
  | inr e => inr e
  end.

(** ** main *)

Definition managerOptions (f : Flags) : Options :=
  mkOptions (metricsAddr f) (probeAddr f) 9443 (enableLeaderElection f) "04220e3f.redhat.com".

(** [ctrl.NewControllerManagedBy(mgr).For(&Observability{}).Complete(r)] *)
Definition SetupWithManager : setupCall := CompleteController KObservability.

(** [ctrl.NewWebhookManagedBy(mgr).For(in).Complete()] *)
Definition SetupWebhookWithManager : setupCall := CompleteWebhook KObservability.

(** [k8sutil.IsResourceNotFoundError] of the Prometheus operator. *)
Context (IsResourceNotFoundError : error → bool).

(** The closure given to the runner: the error is logged and returned. *)
Definition operandCallback (st : ControllerState) : prog (ControllerState * option error) :=
  '(st', e) ← InitializeOperand IsResourceNotFoundError st; Ret (st', e).

(** From the operand initializer on; the error of [mgr.Add] is dropped. *)
Definition startManager : boot unit :=
  BCall (AddRunnable (NewOperandInitializer operandCallback)) (λ _,
  orExit (AddHealthzCheck "healthz") (
  orExit (AddReadyzCheck "readyz") (
  orExit StartManager (BRet tt)))).

Definition runManager (f : Flags) : boot unit :=
  orExit GetConfigOrDie (
  orExit (NewManager (managerOptions f)) (
  orExit SetupWithManager (
  if disableWebhooks f then startManager
  else orExit SetupWebhookWithManager startManager))).

Definition main (args : list string) : boot unit :=
  match parseFlags args with
  | inr e => BExit (Flag.exitCode e)
  | inl f => runManager f
  end.

(** Kept for local development, not called: the deferred deletion of the resource
    runs after the manager, and its error is dropped. *)
Definition injectStopHandler (o : Observability) : boot (option error) :=
  BCall StartManager (λ err, BCall (DeleteResource o) (λ _, BRet err)).

(** The process: the package is initialised, then [main] runs. *)
Fixpoint andMain (p : boot unit) (rest : boot unit) : boot unit :=
  match p with
  | BRet _ => rest
  | BExit code => BExit code
  | BPanic => BPanic
  | BCall c k => BCall c (λ e, andMain (k e) rest)
  end.

Definition process (args : list string) : boot unit := andMain init (main args).

(** ** Order of the start-up *)

(** What has to be in place before the manager starts, in order. *)
Definition registrations (f : Flags) : list setupCall :=
  map AddToScheme schemePackages ++
  [GetConfigOrDie; NewManager (managerOptions f); SetupWithManager] ++
  (if disableWebhooks f then [] else [SetupWebhookWithManager]) ++
  [AddRunnable (NewOperandInitializer operandCallback); AddHealthzCheck "healthz";
   AddReadyzCheck "readyz"].

(** The calls of a start-up without errors. *)
Definition startupCalls (f : Flags) : list setupCall := registrations f ++ [StartManager].

(** The reaction to an error of a call. *)
Definition onError (c : setupCall) : option (ending unit) :=
  match c with
  | AddToScheme _ => Some Crashed
  | AddRunnable _ => None
  | _ => Some (Exited 1)
  end.

(** A run of a list of calls: up to the first error that is not ignored. *)
Fixpoint runs (cs : list setupCall) (tr : setupTrace) (o : ending unit) : Prop :=
  match cs with
  | [] => tr = [] ∧ o = Returned tt
  | c :: cs' => ∃ e tr', tr = (c, e) :: tr' ∧
      match e, onError c with
      | Some _, Some end_ => tr' = [] ∧ o = end_
      | _, _ => runs cs' tr' o
      end
  end.

Lemma boots_step c (k : option error → boot unit) cs :
  (∀ e tr o, boots (k e) tr o ↔
     match e, onError c with
     | Some _, Some end_ => tr = [] ∧ o = end_
     | _, _ => runs cs tr o
     end) →
  ∀ tr o, boots (BCall c k) tr o ↔ runs (c :: cs) tr o.
Proof.
  intros Hk tr o. simpl. split; intros (e & tr' & -> & Hb); exists e, tr'; (split; [done|]);
    by apply Hk.
Qed.

Lemma boots_orExit c rest cs :
  onError c = Some (Exited 1) → (∀ tr o, boots rest tr o ↔ runs cs tr o) →
  ∀ tr o, boots (orExit c rest) tr o ↔ runs (c :: cs) tr o.
Proof. intros Hc Hr. apply boots_step. rewrite Hc. by intros [e|]. Qed.

Lemma boots_addAll packages rest cs :
  (∀ tr o, boots rest tr o ↔ runs cs tr o) →
  ∀ tr o, boots (addAll packages rest) tr o ↔ runs (map AddToScheme packages ++ cs) tr o.
Proof.
  intros Hr. induction packages as [|p ps IH]; [done|]. cbn [addAll map app].
  apply boots_step. by intros [e|].
Qed.

Lemma boots_startManager tr o :
  boots startManager tr o ↔
  runs [AddRunnable (NewOperandInitializer operandCallback); AddHealthzCheck "healthz";
        AddReadyzCheck "readyz"; StartManager] tr o.
Proof.
  revert tr o. apply boots_step. intros e tr o.
  assert (boots (orExit (AddHealthzCheck "healthz") (orExit (AddReadyzCheck "readyz")
            (orExit StartManager (BRet tt)))) tr o ↔
          runs [AddHealthzCheck "healthz"; AddReadyzCheck "readyz"; StartManager] tr o).
  { revert tr o. by repeat apply boots_orExit. }
  by destruct e.
Qed.

Lemma andMain_addAll packages rest :
  ∀ tr o, boots (andMain (addAll packages (BRet tt)) rest) tr o ↔ boots (addAll packages rest) tr o.
Proof.
  induction packages as [|p ps IH]; intros tr o; simpl; [done|].
  split; intros (e & tr' & -> & Hb); exists e, tr'; (split; [done|]); destruct e; try done;
    by apply IH.
Qed.

(** The start-up performs its calls in order. *)
Lemma process_runs args f :
  parseFlags args = inl f →
  ∀ tr o, boots (process args) tr o ↔ runs (startupCalls f) tr o.
Proof.
  intros Hf tr o. unfold process, init. rewrite andMain_addAll. revert tr o.
  unfold startupCalls, registrations. rewrite <-app_assoc. apply boots_addAll.
  unfold main. rewrite Hf. cbn [app]. do 3 (apply boots_orExit; [done|]).
  destruct (disableWebhooks f); cbn [app]; [|apply boots_orExit; [done|]];
    apply boots_startManager.
Qed.

(** Errors that the start-up survives. *)
Definition harmless (a : setupCall * option error) : Prop := a.2 = None ∨ onError a.1 = None.

Lemma runs_stop cs tr o :
  runs cs tr o →
  map fst tr `prefix_of` cs ∧
  (map fst tr = cs ∧ Forall harmless tr ∧ o = Returned tt ∨
   ∃ pre c e end_, tr = pre ++ [(c, Some e)] ∧ Forall harmless pre ∧
     onError c = Some end_ ∧ o = end_).
Proof.
  revert tr. induction cs as [|c cs IH]; intros tr; simpl.
  { intros [-> ->]. split; [done|]. by left. }
  intros (e & tr' & -> & Hr). destruct (decide (harmless (c, e))) as [Hh|Hh].
  - assert (runs cs tr' o) as Hr'.
    { destruct Hh as [Hh|Hh]; simpl in Hh; [by subst e|]. rewrite Hh in Hr. by destruct e. }
    destruct (IH _ Hr') as [Hp [(Hm & Ha & ->)|(pre & c' & e' & end_ & -> & Ha & ? & ->)]];
      (split; [by apply prefix_cons|]).
    + left. simpl. rewrite Hm. split_and!; [done|by constructor|done].
    + right. exists ((c, e) :: pre), c', e', end_. split_and!; [done|by constructor|done..].
  - unfold harmless in Hh; simpl in Hh. destruct e as [e|]; [|tauto].
    destruct (onError c) as [end_|] eqn:Hc; [|tauto]. destruct Hr as [-> ->].
    split; [by apply prefix_cons, prefix_nil|]. right. by exists [], c, e, end_.
Qed.

Lemma prefix_with_last {A} (pre l : list A) x :
  pre `prefix_of` l ++ [x] → x ∈ pre → x ∉ l → pre = l ++ [x].
Proof.
  intros [k Hk] Hx Hl. destruct k as [|y k _] using rev_ind; [by rewrite app_nil_r in Hk|].
  rewrite app_assoc in Hk. apply app_inj_2 in Hk as [Hk _]; [|done]. subst l.
  exfalso. apply Hl, elem_of_app. by left.
Qed.

Lemma registrations_no_start f : StartManager ∉ registrations f.
Proof.
  unfold registrations. destruct (disableWebhooks f); simpl;
    rewrite !not_elem_of_cons; split_and!; (done || apply not_elem_of_nil).
Qed.

(** C16: The manager starts only when everything is registered: with flags that
    parse, the process performs the calls of the start-up in order (scheme,
    configuration, manager, controller, webhook unless disabled, operand
    initializer, probes, start) and stops at the first error that is not ignored,
    with a panic for the scheme and exit code 1 otherwise; the only error it
    survives is that of adding the initializer.  In particular nothing is started
    after an error, and when the manager was started, all calls had been made. *)
Theorem startup_in_order args f tr o :
  parseFlags args = inl f → boots (process args) tr o →
  map fst tr `prefix_of` startupCalls f ∧
  (StartManager ∈ map fst tr → map fst tr = startupCalls f) ∧
  (map fst tr = startupCalls f ∧ Forall harmless tr ∧ o = Returned tt ∨
   ∃ pre c e end_, tr = pre ++ [(c, Some e)] ∧ Forall harmless pre ∧
     onError c = Some end_ ∧ o = end_).
Proof.
  intros Hf [Hp Hend]%(process_runs args f Hf)%runs_stop. split; [done|]. split; [|done].
  intros Hs. by apply prefix_with_last; [..|apply registrations_no_start].
Qed.

(** ** Command lines *)

(** What a user may ask for. *)
Inductive Setting :=
| MetricsAddr (v : string)
| ProbeAddr (v : string)
| LeaderElect (b : bool)
| NoWebhooks (b : bool).

Definition settingName (s : Setting) : string :=
  match s with
  | MetricsAddr _ => "metrics-addr"
  | ProbeAddr _ => "health-probe-bind-address"
  | LeaderElect _ => "enable-leader-election"
  | NoWebhooks _ => "disable-webhooks"
  end.

Definition applySetting (f : Flags) (s : Setting) : Flags :=
  match s with
  | MetricsAddr v => mkFlags v (probeAddr f) (enableLeaderElection f) (disableWebhooks f)
  | ProbeAddr v => mkFlags (metricsAddr f) v (enableLeaderElection f) (disableWebhooks f)
  | LeaderElect b => mkFlags (metricsAddr f) (probeAddr f) b (disableWebhooks f)
  | NoWebhooks b => mkFlags (metricsAddr f) (probeAddr f) (enableLeaderElection f) b
  end.

(** The ways to write the value of a setting. *)
Definition boolWords (b : bool) : list string :=
  if b then ["1"; "t"; "T"; "true"; "TRUE"; "True"] else ["0"; "f"; "F"; "false"; "FALSE"; "False"].

Definition written (s : Setting) (v : string) : Prop :=
  match s with
  | MetricsAddr a | ProbeAddr a => v = a
  | LeaderElect b | NoWebhooks b => v ∈ boolWords b
  end.

(** The ways to write a setting on the command line: one dash or two; the value
    after an equals sign, for an address also as the next argument, and a bare
    boolean flag for true. *)
Inductive prints (dash : string) : Setting → list string → Prop :=
| prints_equals s v : written s v → prints dash s [dash +:+ settingName s +:+ "=" +:+ v]
| prints_metrics v : prints dash (MetricsAddr v) [dash +:+ "metrics-addr"; v]
| prints_probe v : prints dash (ProbeAddr v) [dash +:+ "health-probe-bind-address"; v]
| prints_leader : prints dash (LeaderElect true) [dash +:+ "enable-leader-election"]
| prints_webhooks : prints dash (NoWebhooks true) [dash +:+ "disable-webhooks"].

(** A setting in front of a command line becomes one assignment. *)
Lemma Parse_setting dash s args rest :
  dash ∈ ["-"; "--"] → prints dash s args →
  ∃ v, (∀ f, setFlag f (settingName s, v) = applySetting f s) ∧
    Flag.Parse formal (args ++ rest) =
    match Flag.Parse formal rest with
    | inl l => inl ((settingName s, v) :: l)
    | inr e => inr e
    end.
Proof.
  intros Hd Hp. repeat (apply elem_of_cons in Hd as [->|Hd]); [..|by apply elem_of_nil in Hd];
    destruct Hp as [s v Hv|v|v| |];
    try (eexists; split; [|reflexivity]; reflexivity);
    destruct s as [a|a|b|b]; simpl in Hv; try (subst v; eexists; split; [|reflexivity]; reflexivity);
    destruct b; repeat (apply elem_of_cons in Hv as [->|Hv]); try (by apply elem_of_nil in Hv);
    eexists; (split; [|reflexivity]); reflexivity.
Qed.

Lemma Parse_settings (settings : list Setting) argss :
  Forall2 (λ s args, ∃ dash, dash ∈ ["-"; "--"] ∧ prints dash s args) settings argss →
  ∃ assignments, Flag.Parse formal (concat argss) = inl assignments ∧
    ∀ f, foldl setFlag f assignments = foldl applySetting f settings.
Proof.
  induction 1 as [|s args settings argss (dash & Hd & Hp) _ (l & Hl & Hf)].
  - by exists [].
  - destruct (Parse_setting dash s args (concat argss) Hd Hp) as (v & Hv & Hparse).
    exists ((settingName s, v) :: l). cbn [concat]. rewrite Hparse, Hl. split; [done|].
    intros f. cbn [foldl]. by rewrite Hv.
Qed.

(** C36: The flags say what was asked for, whatever flags other packages define: for
    any list of settings, each written with one dash or two, as name=value, with the
    address as the next argument, or as a bare boolean flag, the command line
    parses, and the result is the documented defaults (metrics on :8080, probes on
    :8081, no leader election, webhooks enabled) with the settings applied from left
    to right, so that the last one of a name counts. *)
Theorem flags_roundtrip (settings : list Setting) (argss : list (list string)) :
  Forall2 (λ s args, ∃ dash, dash ∈ ["-"; "--"] ∧ prints dash s args) settings argss →
  parseFlags (concat argss) =
  inl (foldl applySetting
    {| metricsAddr := ":8080"; probeAddr := ":8081";
       enableLeaderElection := false; disableWebhooks := false |} settings).
Proof.
  intros (l & Hl & Hf)%Parse_settings. unfold parseFlags. rewrite Hl. by rewrite Hf.
Qed.
End main.

Lemma flags_roundtrip_witness :
  parseFlags (λ _, None)
    (concat [["-metrics-addr"; ":9090"]; ["--disable-webhooks"]; ["--metrics-addr=:9091"];
             ["-enable-leader-election=F"]]) =
  inl (mkFlags ":9091" ":8081" false true).
Proof.
  apply (flags_roundtrip (λ _, None)
    [MetricsAddr ":9090"; NoWebhooks true; MetricsAddr ":9091"; LeaderElect false]).
  constructor; [exists "-"; split; [left|apply prints_metrics]|].
  constructor; [exists "--"; split; [right; left|apply prints_webhooks]|].
  constructor; [exists "--"; split; [right; left|apply (prints_equals "--" (MetricsAddr ":9091"));
                                                 reflexivity]|].
  constructor; [exists "-"; split; [left|apply (prints_equals "-" (LeaderElect false) "F")]|constructor].
  right; right; left.
Defined.

(** A start-up whose only error is that of adding the initializer. *)
Definition survived (isNF : error → bool) : setupTrace :=
  map (λ c, (c, match c with AddRunnable _ => Some (OtherError "refused") | _ => None end))
    (startupCalls isNF defaultFlags).

(** The manager starts although the operand initializer was not added. *)
Lemma initializer_error_ignored :
  boots (process (λ _, None) IsNotFound []) (survived IsNotFound) (Returned tt).
Proof. simpl. repeat (eexists _, _; split; [reflexivity|]). by split. Qed.

Lemma startup_in_order_witness :
  parseFlags (λ _, None) [] = inl defaultFlags ∧
  map fst (survived IsNotFound) `prefix_of` startupCalls IsNotFound defaultFlags.
Proof.
  split; [reflexivity|].
  apply (startup_in_order (λ _, None) IsNotFound [] defaultFlags _ _ eq_refl
           initializer_error_ignored).
Defined.
End main.
