(* ===== verification/ControllerProofs.v ===== *)
(** * Theorems about the controller

    Proved against the stage interface: [reconcilerFor] is arbitrary, and what is
    known of its stages are hypotheses that the fields of [StageContract] discharge
    ([preservesResource], what a cleanup deletes, that it writes nothing).  The
    stage loop is refined to [pipeline], an inductive specification of the order
    of the stages; [closing] lists the ways a reconcile ends. *)

From S2P Require Import Prelude GoLib ApiTypes K8s Prog Client Api ModelPrometheus ModelResources.
From S2P Require Import Utils Controller.

Section generic.
Context (reconcilerFor : ObservabilityStageName → option ObservabilityReconciler).

(** ** The stage loop *)

Definition hasReconciler (stage : ObservabilityStageName) : bool :=
  match reconcilerFor stage with Some _ => true | None => false end.

(** One stage as it was run: its part of the trace and its status. *)
Record stageRun := mkStageRun {
  run_Stage : ObservabilityStageName;
  run_Trace : trace;
  run_Status : ObservabilityStageStatus;
}.

(** The part of the trace is a behaviour of that stage. *)
Definition validRun (r : stageRun) : Prop :=
  ∃ R obs next obs' next', reconcilerFor (run_Stage r) = Some R ∧
    beh (runStage (run_Stage r) R obs next) (run_Trace r) (Done (obs', next', run_Status r)).

(** The abstract pipeline: every stage in order while all succeed ([true]), or up
    to and including the first that does not ([false]). *)
Inductive pipeline : list ObservabilityStageName → list stageRun → bool → Prop :=
| pipeline_done : pipeline [] [] true
| pipeline_skip stage stages runs b :
    hasReconciler stage = false → pipeline stages runs b → pipeline (stage :: stages) runs b
| pipeline_next r stages runs b :
    validRun r → run_Status r = ResultSuccess → pipeline stages runs b →
    pipeline (run_Stage r :: stages) (r :: runs) b
| pipeline_stop r stages :
    validRun r → run_Status r ≠ ResultSuccess → pipeline (run_Stage r :: stages) [r] false.

Lemma runStages_pipeline stages obs next :
  wp (runStages reconcilerFor stages obs next) (λ tr o, ∀ obs' next' fin,
    o = Done (obs', next', fin) →
    ∃ runs, pipeline stages runs fin ∧ tr = mjoin (map run_Trace runs)).
Proof.
  revert obs next; induction stages as [|stage stages IH]; intros obs next; cbn [runStages].
  { intros ??? [= <- <- <-]. exists []. split; [constructor|done]. }
  destruct (reconcilerFor stage) as [R|] eqn:HR.
  - apply wp_bind. apply wp_beh. intros tr [[[obs1 next1] status]|] Hb; [|done].
    assert (validRun (mkStageRun stage tr status)) as Hv by (by eexists R, _, _, _, _).
    case_decide as Hs.
    + eapply wp_mono; [|apply IH]. intros tr' o Ho obs' next' fin Hd.
      destruct (Ho _ _ _ Hd) as (runs & Hp & ->). exists (mkStageRun stage tr status :: runs).
      split; [|done]. by apply (pipeline_next (mkStageRun stage tr status)).
    + simpl. intros ??? [= <- <- <-]. exists [mkStageRun stage tr status].
      split; [by apply (pipeline_stop (mkStageRun stage tr status))|done].
  - eapply wp_mono; [|apply IH]. intros tr o Ho obs' next' fin Hd.
    destruct (Ho _ _ _ Hd) as (runs & Hp & ->). exists runs. split; [|done].
    apply pipeline_skip; [|done]. unfold hasReconciler. by rewrite HR.
Qed.

(** What the pipeline says of the order: the stages that ran are a prefix of the
    ones that have a reconciler, all of them when it finished. *)
Lemma pipeline_prefix stages runs fin :
  pipeline stages runs fin →
  map run_Stage runs `prefix_of` List.filter hasReconciler stages ∧
  (fin = true → map run_Stage runs = List.filter hasReconciler stages ∧
     Forall (λ r, run_Status r = ResultSuccess) runs) ∧
  (fin = false → ∃ before r, runs = before ++ [r] ∧ run_Status r ≠ ResultSuccess ∧
     Forall (λ r, run_Status r = ResultSuccess) before).
Proof.
  assert (∀ r, validRun r → hasReconciler (run_Stage r) = true) as Hhas.
  { intros r (R & ? & ? & ? & ? & HR & _). unfold hasReconciler. by rewrite HR. }
  induction 1 as [|stage stages runs b Hn Hp IH|r stages runs b Hv Hs Hp IH|r stages Hv Hs]; simpl.
  - split; [done|]. split; [by repeat split|done].
  - by rewrite Hn.
  - rewrite Hhas by done. destruct IH as (Hpre & Ht & Hf). split; [by apply prefix_cons|].
    split.
    + intros Hb. destruct (Ht Hb) as [-> Hall]. split; [done|by constructor].
    + intros Hb. destruct (Hf Hb) as (before & r' & -> & Hr' & Hall).
      exists (r :: before), r'. split; [done|]. split; [done|by constructor].
  - rewrite Hhas by done. split; [by apply prefix_cons, prefix_nil|]. split; [done|].
    intros _. exists [], r. by repeat split.
Qed.

(** ** What the stages leave alone *)

Definition stagesPreserve : Prop :=
  ∀ stage R, reconcilerFor stage = Some R → preservesResource R.

Lemma sameResource_refl cr : sameResource cr cr.
Proof. done. Qed.
Lemma sameResource_trans cr1 cr2 cr3 :
  sameResource cr1 cr2 → sameResource cr2 cr3 → sameResource cr1 cr3.
Proof. unfold sameResource. intros [-> ->] [-> ->]. done. Qed.

(** After one stage the status names the stage, carries its result and the text
    of its error. *)
Lemma recordResult_status stage obs next status err :
  wp (recordResult stage obs next (status, err)) (λ _ o, o = Done (obs,
    set_StageStatus status (set_LastMessage (default EmptyString (Error <$> err)) next),
    status)).
Proof. by destruct err. Qed.

Lemma callStage_preserves R obs next :
  preservesResource R →
  wp (callStage R obs next) (λ _ o, ∀ obs' next' r, o = Done (obs', next', r) →
    sameResource obs obs' ∧ status_Stage next' = status_Stage next).
Proof.
  intros HR. unfold callStage. destruct (deleting obs); [|apply HR].
  apply wp_bind, wp_true. intros tr [r|]; [|done]. simpl. by intros ??? [= <- <- <-].
Qed.

Lemma runStage_status stage R obs next :
  preservesResource R →
  wp (runStage stage R obs next) (λ _ o, ∀ obs' next' status,
    o = Done (obs', next', status) →
    sameResource obs obs' ∧ status_Stage next' = status_Stage next ∧
    status_StageStatus next' = status).
Proof.
  intros HR. apply wp_request. intros x. apply wp_bind. eapply wp_mono; [|by apply callStage_preserves].
  intros tr [[[obs1 next1] [status err]]|] H1; [|done].
  destruct (H1 _ _ _ eq_refl) as [Hsame Hst].
  eapply wp_mono; [|apply recordResult_status]. intros ? o -> obs' next' s' [= <- <- <-].
  by destruct err.
Qed.

(** The failure of a stage is counted when it returned an error. *)
Definition failureCounted (stage : ObservabilityStageName) (err : option error) (tr : trace) : Prop :=
  match err with
  | None => tr = []
  | Some _ => ∃ x, tr = [CInc (FailedReconciliations stage) ⇝ x]
  end.

Lemma recordResult_counts stage obs next status err :
  wp (recordResult stage obs next (status, err)) (λ tr o, failureCounted stage err tr ∧
    o = Done (obs,
      set_StageStatus status (set_LastMessage (default EmptyString (Error <$> err)) next), status)).
Proof. destruct err; simpl; [|done]. intros x. split; [by exists x|done]. Qed.

(** The loop stopped at [stage]: the stages before it ran and succeeded, its call
    ended with [status] and [err], and the status to be written is the one it
    returned with the name of the stage, [status] and the text of [err]. *)
Definition stoppedAt (stages : list ObservabilityStageName) (obs : Observability) (tr : trace)
    (obs' : Observability) (next' : ObservabilityStatus) : Prop :=
  ∃ before stage after runs R obs1 next1 next2 x calls counted status err,
    stages = before ++ stage :: after ∧
    Forall validRun runs ∧ Forall (λ r, run_Status r = ResultSuccess) runs ∧
    map run_Stage runs = List.filter hasReconciler before ∧
    reconcilerFor stage = Some R ∧ sameResource obs obs1 ∧
    beh (callStage R obs1 next1) calls (Done (obs', next2, (status, err))) ∧
    status ≠ ResultSuccess ∧ failureCounted stage err counted ∧
    tr = mjoin (map run_Trace runs) ++ (CInc (TotalReconciliations stage) ⇝ x) :: calls ++ counted ∧
    next' = set_StageStatus status (set_LastMessage (default EmptyString (Error <$> err)) next2) ∧
    status_Stage next' = stage.

Lemma runStage_stopped stage R stages obs next :
  reconcilerFor stage = Some R → preservesResource R → status_Stage next = stage →
  wp (runStage stage R obs next) (λ tr o, ∀ obs' next' status,
    o = Done (obs', next', status) → status ≠ ResultSuccess →
    stoppedAt (stage :: stages) obs tr obs' next').
Proof.
  intros HR HP Hst. apply wp_request. intros x. apply wp_bind. apply wp_beh.
  intros calls [[[obs1 next1] [status err]]|] Hb; [|done].
  pose proof (proj1 (wp_beh _ _) (callStage_preserves R obs next HP) _ _ Hb) as Hk.
  destruct (Hk _ _ _ eq_refl) as [Hsame Hst1].
  eapply wp_mono; [|apply recordResult_counts]. intros counted o [Hc ->] obs' next' s [= <- <- <-] Hs.
  exists [], stage, stages, [], R, obs, next, next1, x, calls, counted, status, err.
  split_and!; try done; [by constructor..|]. simpl. by rewrite Hst1.
Qed.

Lemma stoppedAt_next stage stages r obs obs1 tr obs' next' :
  validRun r → run_Status r = ResultSuccess → run_Stage r = stage → sameResource obs obs1 →
  stoppedAt stages obs1 tr obs' next' →
  stoppedAt (stage :: stages) obs (run_Trace r ++ tr) obs' next'.
Proof.
  intros Hv Hs <- Hsame (before & stage' & after & runs & R & obs2 & next1 & next2 & x & calls
    & counted & status & err & -> & Hvs & Hss & Hf & HR & Hsame2 & Hb & Hn & Hc & -> & Hnext & Hst).
  exists (run_Stage r :: before), stage', after, (r :: runs), R, obs2, next1, next2, x, calls, counted,
    status, err.
  split_and!; try done; [by constructor..| |by eapply sameResource_trans|].
  - simpl. rewrite Hf. destruct Hv as (R0 & ? & ? & ? & ? & HR0 & _).
    unfold hasReconciler at 2. by rewrite HR0.
  - simpl. by rewrite <-app_assoc.
Qed.

Lemma stoppedAt_skip stage stages obs tr obs' next' :
  hasReconciler stage = false →
  stoppedAt stages obs tr obs' next' → stoppedAt (stage :: stages) obs tr obs' next'.
Proof.
  intros Hh (before & stage' & after & runs & R & obs2 & next1 & next2 & x & calls & counted
    & status & err & -> & Hvs & Hss & Hf & H).
  exists (stage :: before), stage', after, runs, R, obs2, next1, next2, x, calls, counted, status, err.
  do 3 (split; [done|]). split; [simpl; by rewrite Hh|exact H].
Qed.

(** The loop: the resource is kept, and when it stopped the status names the stage
    it stopped at and that stage's result. *)
Lemma runStages_status stages obs next :
  stagesPreserve →
  wp (runStages reconcilerFor stages obs next) (λ tr o, ∀ obs' next' fin,
    o = Done (obs', next', fin) → sameResource obs obs' ∧
    (fin = false → stoppedAt stages obs tr obs' next')).
Proof.
  intros Hall. revert obs next; induction stages as [|stage stages IH]; intros obs next;
    cbn [runStages]; [by intros ??? [= <- <- <-]|].
  destruct (reconcilerFor stage) as [R|] eqn:HR.
  - apply wp_bind. eapply wp_mono; [|apply wp_and; [|apply wp_and];
      [by eapply runStage_status, Hall|by apply (runStage_stopped stage R stages); eauto
      |apply wp_beh; intros tr o Hb; exact Hb]].
    intros tr [[[obs1 next1] status]|] [H1 [H2 Hb]]; [|done].
    destruct (H1 _ _ _ eq_refl) as (Hsame & _ & _). case_decide as Hs.
    + eapply wp_mono; [|apply IH]. intros tr' o Ho obs' next' fin Hd.
      destruct (Ho _ _ _ Hd) as [Hsame' Hf]. split; [by eapply sameResource_trans|].
      intros Hfin. apply (stoppedAt_next stage stages (mkStageRun stage tr status) obs obs1); auto.
      by eexists R, _, _, _, _.
    + simpl. rewrite app_nil_r. intros ??? [= <- <- <-]. split; [done|]. intros _. by eapply H2.
  - eapply wp_mono; [|apply IH]. intros tr' o Ho obs' next' fin Hd.
    destruct (Ho _ _ _ Hd) as [Hsame' Hf]. split; [done|].
    intros Hfin. apply stoppedAt_skip; [|auto]. unfold hasReconciler. by rewrite HR.
Qed.

(** ** Cleaning up *)

(** The objects each stage is known to remove. *)
Context (ownedBy : ObservabilityStageName → Observability → list ObjectKey).
Hypothesis cleanups : ∀ stage R, reconcilerFor stage = Some R →
  ∀ cr, deletesOnSuccess (ownedBy stage cr) (Cleanup R cr).

Lemma runStage_cleanup stage R obs next :
  reconcilerFor stage = Some R → deleting obs = true →
  wp (runStage stage R obs next) (λ tr o, ∀ obs' next' status,
    o = Done (obs', next', status) → obs' = obs ∧
    (status = ResultSuccess → ownedBy stage obs ⊆ deletedKeys tr)).
Proof.
  intros HR Hd. apply wp_request. intros x. apply wp_bind. unfold callStage. rewrite Hd. apply wp_bind.
  eapply wp_mono; [|apply (cleanups stage R HR obs)]. intros tr [[status err]|] HK; [|done].
  simpl. rewrite app_nil_r. eapply wp_mono; [|apply recordResult_status].
  intros tr' o -> obs' next' s' [= <- <- <-]. split; [done|]. intros ->.
  specialize (HK err eq_refl). rewrite deletedKeys_cons, deletedKeys_app. set_solver.
Qed.

(** A cleanup that went through all stages removed what every stage owns. *)
Lemma runStages_cleanup stages obs next :
  deleting obs = true →
  wp (runStages reconcilerFor stages obs next) (λ tr o, ∀ obs' next' fin,
    o = Done (obs', next', fin) → obs' = obs ∧
    (fin = true → ∀ stage, stage ∈ stages → hasReconciler stage = true →
       ownedBy stage obs ⊆ deletedKeys tr)).
Proof.
  intros Hd. revert next; induction stages as [|stage stages IH]; intros next; cbn [runStages].
  { intros ??? [= <- <- <-]. split; [done|]. by intros _ stage ?%elem_of_nil. }
  destruct (reconcilerFor stage) as [R|] eqn:HR.
  - apply wp_bind. eapply wp_mono; [|by apply (runStage_cleanup stage R obs)].
    intros tr [[[obs1 next1] status]|] H1; [|done]. destruct (H1 _ _ _ eq_refl) as [-> Hk].
    case_decide as Hs; [|simpl; by intros ??? [= <- <- <-]].
    eapply wp_mono; [|apply IH]. intros tr' o Ho obs' next' fin Ho'.
    destruct (Ho _ _ _ Ho') as [-> Hall]. split; [done|].
    intros Hfin s [->|Hin]%elem_of_cons Hh; rewrite deletedKeys_app;
      [specialize (Hk Hs)|specialize (Hall Hfin s Hin Hh)]; set_solver.
  - eapply wp_mono; [|apply IH]. intros tr o Ho obs' next' fin Ho'.
    destruct (Ho _ _ _ Ho') as [-> Hall]. split; [done|].
    intros Hfin s [->|Hin]%elem_of_cons Hh; [|by apply Hall].
    unfold hasReconciler in Hh. by rewrite HR in Hh.
Qed.

(** The part of a trace in which the cleanup of a stage succeeded. *)
Definition cleanupRun (obs : Observability) (stage : ObservabilityStageName) (work : trace) : Prop :=
  ∃ R x calls err counted, reconcilerFor stage = Some R ∧
    beh (Cleanup R obs) calls (Done (ResultSuccess, err)) ∧ failureCounted stage err counted ∧
    work = (CInc (TotalReconciliations stage) ⇝ x) :: calls ++ counted.

(** A cleanup that went through all stages consists of their successful cleanups,
    in order. *)
Lemma runStages_cleanup_runs stages obs next :
  deleting obs = true →
  wp (runStages reconcilerFor stages obs next) (λ tr o, ∀ obs' next' fin,
    o = Done (obs', next', fin) → fin = true →
    ∃ works, tr = mjoin works ∧
      Forall2 (cleanupRun obs) (List.filter hasReconciler stages) works).
Proof.
  intros Hd. revert next; induction stages as [|stage stages IH]; intros next; cbn [runStages].
  { intros ??? _ _. by exists []. }
  cbn [List.filter]. unfold hasReconciler at 1.
  destruct (reconcilerFor stage) as [R|] eqn:HR; [|apply IH]. apply wp_bind. apply wp_request. intros x. apply wp_bind. unfold callStage. rewrite Hd.
  apply wp_bind. apply wp_beh. intros calls [[status err]|] Hb; [|done].
  simpl. rewrite app_nil_r. eapply wp_mono; [|apply recordResult_counts].
  intros counted o [Hc ->]. case_decide as Hs; [|by intros ??? [= <- <- <-]].
  eapply wp_mono; [|apply IH]. intros tr' o Ho obs' next' fin Ho' Hfin.
  destruct (Ho _ _ _ Ho' Hfin) as (works & -> & Hall).
  exists (((CInc (TotalReconciliations stage) ⇝ x) :: calls ++ counted) :: works).
  split; [done|]. constructor; [|done]. subst status. by exists R, x, calls, err, counted.
Qed.

(** A run of the stages for a deleted resource reads and deletes, and writes
    nothing. *)
Hypothesis cleanupsRead : ∀ stage R, reconcilerFor stage = Some R →
  ∀ cr, allSteps readsOrDeletes (Cleanup R cr).

Lemma runStages_reads stages obs next :
  deleting obs = true → allSteps readsOrDeletes (runStages reconcilerFor stages obs next).
Proof.
  intros Hd. enough (wp (runStages reconcilerFor stages obs next) (λ tr o,
    Forall readsOrDeletes tr ∧ ∀ r, o = Done r → r.1.1 = obs)) as Hw.
  { eapply wp_mono; [|exact Hw]. by intros tr o [? _]. }
  revert next; induction stages as [|stage stages IH]; intros next; cbn [runStages].
  { split; [done|]. by intros r [= <-]. }
  destruct (reconcilerFor stage) as [R|] eqn:HR; [|apply IH].
  apply wp_bind. eapply wp_mono with (Φ := λ tr o,
    Forall readsOrDeletes tr ∧ ∀ r, o = Done r → r.1.1 = obs).
  - intros tr [[[obs1 next1] status]|] [Htr Ho]; [|done].
    specialize (Ho _ eq_refl) as Hobs. simpl in Hobs. subst obs1.
    case_decide; [|simpl; rewrite app_nil_r; split; [done|]; by intros r [= <-]].
    eapply wp_mono; [|apply IH]. intros tr' o [Htr' Ho']. split; [by apply Forall_app|done].
  - apply wp_request. intros x. apply wp_bind. unfold callStage. rewrite Hd. apply wp_bind.
    eapply wp_mono; [|apply (cleanupsRead stage R HR obs)]. intros tr [[status err]|] Htr.
    + simpl. rewrite app_nil_r. destruct err; simpl; intros;
        (split; [constructor; [done|]; apply Forall_app; split; [done|by repeat constructor]|]);
        by intros r [= <-].
    + split; [by constructor|done].
Qed.
End generic.

(** ** The stage loop, as a property *)

(** C3: Stages run strictly in order and stop at the first that is not successful:
    the calls of a reconcile are the concatenation of runs of stages, these stages
    are a prefix of the ones that have a reconciler, every one before the last
    ended with success, and the loop reports that it finished exactly when all of
    them ran and all succeeded. *)
Theorem stages_run_in_order (reconcilerFor : ObservabilityStageName → option ObservabilityReconciler)
    (stages : list ObservabilityStageName) (obs : Observability) (next : ObservabilityStatus) :
  wp (runStages reconcilerFor stages obs next) (λ tr o, ∀ obs' next' fin,
    o = Done (obs', next', fin) → ∃ runs,
      tr = mjoin (map run_Trace runs) ∧ Forall (validRun reconcilerFor) runs ∧
      map run_Stage runs `prefix_of` List.filter (hasReconciler reconcilerFor) stages ∧
      (fin = true → map run_Stage runs = List.filter (hasReconciler reconcilerFor) stages ∧
         Forall (λ r, run_Status r = ResultSuccess) runs) ∧
      (fin = false → ∃ before r, runs = before ++ [r] ∧ run_Status r ≠ ResultSuccess ∧
         Forall (λ r, run_Status r = ResultSuccess) before)).
Proof.
  eapply wp_mono; [|apply runStages_pipeline]. intros tr o Ho obs' next' fin Hd.
  destruct (Ho _ _ _ Hd) as (runs & Hp & ->). exists runs. split; [done|].
  split; [|by apply pipeline_prefix]. clear -Hp.
  induction Hp; [constructor|done|by constructor|by repeat constructor].
Qed.

(** ** The rest of a reconcile *)

(** How a reconcile ends after the stages: the finalizer of a deleted resource is
    dropped, finalizers are stripped when the operator created the resource
    itself, or the status is written when it changed. *)
Inductive closing (st : ControllerState) (obs : Observability) (next : ObservabilityStatus)
    (fin : bool) : trace → ControllerState → Result → option error → Prop :=
| close_deleted r :
    deleting obs = true → fin = true →
    closing st obs next fin [CUpdate (withFinalizers [] obs) ⇝ r]
      (mkControllerState false (noInit st)) noRequeue (writeError r)
| close_strip st' r :
    deleting obs && fin = false → Finalizers (meta obs) ≠ [] → noInit st = false →
    noInit st' = noInit st →
    closing st obs next fin [CUpdate (withFinalizers [] obs) ⇝ r]
      st' (mkResult true RequeueDelaySuccess) (writeError r)
| close_unchanged st' :
    deleting obs && fin = false → (Finalizers (meta obs) = [] ∨ noInit st = true) →
    statusOf obs = next → noInit st' = noInit st →
    closing st obs next fin [] st' (mkResult true RequeueDelaySuccess) None
| close_written st' o :
    deleting obs && fin = false → (Finalizers (meta obs) = [] ∨ noInit st = true) →
    statusOf obs ≠ next → noInit st' = noInit st →
    closing st obs next fin [CStatusUpdate (set_CrStatus next obs) ⇝ inl o]
      st' (mkResult true RequeueDelaySuccess) None
| close_write_failed st' e :
    deleting obs && fin = false → (Finalizers (meta obs) = [] ∨ noInit st = true) →
    statusOf obs ≠ next → noInit st' = noInit st →
    closing st obs next fin [CStatusUpdate (set_CrStatus next obs) ⇝ inr e]
      st' (mkResult true RequeueDelayError) (Some e).

Definition stagesFor (obs : Observability) : list ObservabilityStageName :=
  if deleting obs then getCleanupStages else getInstallationStages.

Lemma finishReconcile_closing st obs next fin :
  wp (finishReconcile st obs next fin) (λ tr o, ∀ st' res e,
    o = Done (st', res, e) → closing st obs next fin tr st' res e).
Proof.
  unfold finishReconcile. set (st1 := if _ && _ then _ else st).
  assert (noInit st1 = noInit st) as Hst1 by (subst st1; by destruct (_ && _)).
  destruct (deleting obs && fin) eqn:Hdel.
  { apply wp_request. intros r st' res e [= <- <- <-]. apply andb_true_iff in Hdel as [??].
    rewrite Hst1. by constructor. }
  destruct (negb (bool_decide (Finalizers (meta obs) = [])) && negb (noInit st1)) eqn:Hf.
  { apply wp_request. intros r st' res e [= <- <- <-].
    apply andb_true_iff in Hf as [Hf1 Hf2]. bool_props. apply close_strip; congruence. }
  assert (Finalizers (meta obs) = [] ∨ noInit st = true) as Hk.
  { apply andb_false_iff in Hf as [Hf|Hf]; bool_props; [left|right]; congruence. }
  apply wp_bind. unfold updateStatus. case_decide as Hs.
  { simpl. intros st' res e [= <- <- <-]. by apply close_unchanged. }
  apply wp_request. intros [o|err]; simpl; intros st' res e [= <- <- <-];
    [by apply close_written|by apply close_write_failed].
Qed.

Lemma finishReconcile_done st obs next fin :
  wp (finishReconcile st obs next fin) (λ _ o, ∃ st' res e, o = Done (st', res, e)).
Proof.
  unfold finishReconcile, updateStatus. set (st1 := if _ && _ then _ else st).
  destruct (deleting obs && fin); [apply wp_request; intros; simpl; eauto|].
  destruct (negb (bool_decide (Finalizers (meta obs) = [])) && negb (noInit st1));
    [apply wp_request; intros; simpl; eauto|].
  case_decide; simpl; [eauto|]. intros [o|e]; simpl; eauto.
Qed.

Lemma reconcileStages_closing reconcilerFor st obs :
  wp (reconcileStages reconcilerFor st obs) (λ tr o, ∀ st' res e, o = Done (st', res, e) →
    ∃ tr1 tr2 obs' next fin, tr = tr1 ++ tr2 ∧
      beh (runStages reconcilerFor (stagesFor obs) obs (statusOf obs)) tr1 (Done (obs', next, fin)) ∧
      closing st obs' next fin tr2 st' res e).
Proof.
  apply wp_bind, wp_beh. intros tr1 [[[obs' next] fin]|] Hb; [|done].
  eapply wp_mono; [|apply finishReconcile_closing]. intros tr2 o Ho st' res e Hd.
  exists tr1, tr2, obs', next, fin. auto.
Qed.

(** C19: No stage runs before the resource exists and carries its finalizer: a
    request for a missing resource ends after the read without requeue or error,
    any other read error is returned, and a resource created by a user (no-init
    mode) that has no finalizer yet gets exactly one update, which adds the
    cleanup finalizer to the object that was read and changes nothing else. *)
Theorem request_early_exits (reconcilerFor : ObservabilityStageName → option ObservabilityReconciler)
    (st : ControllerState) (ns name : string) :
  wp (ReconcileRequest reconcilerFor st ns name) (λ tr o, ∃ r rest,
    tr = (CGet KObservability ns name ⇝ r) :: rest ∧
    match r with
    | inr e =>
        rest = [] ∧ o = Done (st, noRequeue, if IsNotFound e then None else Some e)
    | inl obs =>
        deleting obs = false → Finalizers (meta obs) = [] → noInit st = true →
        ∃ x, rest = [CUpdate (withFinalizers [ObservabilityFinalizer] obs) ⇝ x] ∧
          o = Done (st, noRequeue, writeError x)
    end).
Proof.
  apply wp_request. intros [obs|e]; [|by eexists _, _].
  destruct (negb (deleting obs) && bool_decide (Finalizers (meta obs) = []) && noInit st) eqn:Hc.
  - apply wp_request. intros x. eexists _, _. split; [done|]. intros Hd Hf Hn.
    exists x. by rewrite Hf.
  - apply wp_true. intros tr o. eexists _, _. split; [done|]. intros Hd Hf Hn.
    by rewrite Hd, Hf, Hn in Hc.
Qed.

(** ** The operand *)

Definition createsNothing : step → Prop := createsIn (λ _, False).

Lemma createKeys_none tr : Forall createsNothing tr → createKeys tr = [].
Proof.
  induction 1 as [|[c x] tr Hs _ IH]; [done|]. unfold createKeys; simpl.
  by destruct c; try done.
Qed.

Lemma detectCloud_creates_nothing : allSteps createsNothing detectCloud.
Proof. unfold createsNothing, detectCloud, deref. solve_creates. Qed.

Lemma adoptLoop_creates_nothing cloud items instance xs :
  allSteps createsNothing (forEach xs (adoptExisting cloud items instance)).
Proof.
  apply allSteps_forEach. intros x _. unfold createsNothing, adoptExisting, UpdateOperand.
  solve_creates.
Qed.

(** What the start-up may have created, and the answer that allowed it. *)
Definition createdAtMostOne (namespace : string) (tr : trace) : Prop :=
  createKeys tr = [] ∨
  createKeys tr = [mkKey KObservability (Strings.TrimSpace namespace) "observability-stack"] ∧
  (CList KObservability EmptyString None ⇝ inl []) ∈ tr.

(** The resource exists: it was listed, or created. *)
Definition operandExists (tr : trace) : Prop :=
  ∃ items, (CList KObservability EmptyString None ⇝ inl items) ∈ tr ∧
    (items = [] → ∃ o o', (CCreate (k:=KObservability) o ⇝ inl o') ∈ tr).

Lemma createdAtMostOne_app ns tr1 tr2 :
  createKeys tr1 = [] → createdAtMostOne ns tr2 → createdAtMostOne ns (tr1 ++ tr2).
Proof.
  unfold createdAtMostOne. intros H1. rewrite createKeys_app, H1. cbn [app].
  intros [?|[? ?]]; [by left|]. right. split; [done|]. apply elem_of_app. by right.
Qed.

Lemma operandExists_app tr1 tr2 : operandExists tr2 → operandExists (tr1 ++ tr2).
Proof.
  intros (items & Hin & Hc). exists items. rewrite elem_of_app. split; [by right|].
  intros (o & o' & Ho)%Hc. exists o, o'. rewrite elem_of_app. by right.
Qed.

Lemma initializeInstance_spec namespace :
  wp (initializeInstance namespace) (λ tr o,
    createdAtMostOne namespace tr ∧ (o = Done None → operandExists tr)).
Proof.
  apply wp_bind. eapply wp_mono; [|apply detectCloud_creates_nothing].
  intros tr0 [cloud|] Htr0%createKeys_none; [|split; [by left|done]].
  set (instance := if (cloud : bool) then _ else _).
  assert (keyOf instance = mkKey KObservability (Strings.TrimSpace namespace) "observability-stack")
    as Hkey by (subst instance; by destruct cloud).
  clearbody instance.
  assert (wp (r ← List_ KObservability EmptyString None;
    match r with
    | inr e => Ret (Some e)
    | inl items => adoptOrCreate cloud instance items
    end) (λ tr o, createdAtMostOne namespace tr ∧ (o = Done None → operandExists tr))) as Hlist.
  2: { eapply wp_mono; [|exact Hlist]. intros tr o [H1 H2].
       split; [by apply createdAtMostOne_app|]. intros Ho. by apply operandExists_app, H2. }
  apply wp_request. intros [items|e]; [|split; [by left|done]].
  apply wp_bind. eapply wp_mono; [|apply adoptLoop_creates_nothing].
  intros tr1 [[e|]|] Htr1%createKeys_none; [split; [left|done]| |split; [left|done]];
    [unfold createKeys in *; simpl; rewrite ?app_nil_r; done| |done].
  destruct items as [|existing items].
  - apply wp_request. intros r. simpl. split.
    + right. split; [|left]. unfold createKeys in *. simpl.
      rewrite omap_app, Htr1. simpl. by rewrite Hkey.
    + intros Hd. exists []. split; [left|]. intros _. destruct r as [o'|]; [|done].
      eexists instance, o'. right. apply elem_of_app. right. left.
  - simpl. rewrite app_nil_r. split; [by left|]. intros _. eexists. split; [left|done].
Qed.

(** C15: At start-up the operator looks for the no-init config map once, in its own
    namespace, and does what the answer says.  The map exists: no-init mode is
    set, nothing else is called and no error is returned.  The answer is an error
    other than not found: that error is returned, the mode stays as it was and
    nothing else is called.  The map is not found: the mode is cleared, at most one
    object is created, which is the default resource in the operator's namespace,
    and only after the server listed no resource in any namespace; and when no
    error is returned a resource was listed or the creation was answered with the
    created object.  Without a namespace nothing is asked of the server. *)
Theorem InitializeOperand_creates_at_most_one (IsResourceNotFoundError : error → bool)
    (st : ControllerState) :
  wp (InitializeOperand IsResourceNotFoundError st) (λ tr o, ∃ looks namespace,
    beh operatorNamespace looks (Done namespace) ∧
    ((namespace = EmptyString ∧ tr = looks ∧ ∃ e, o = Done (st, Some e)) ∨
     namespace ≠ EmptyString ∧ ∃ answer rest,
       tr = looks ++
         (CGet KConfigMap (Strings.TrimSpace namespace) "observability-operator-no-init" ⇝ answer)
         :: rest ∧
       match answer with
       | inl _ => rest = [] ∧ o = Done (mkControllerState (installComplete st) true, None)
       | inr e =>
           if IsResourceNotFoundError e then
             createdAtMostOne namespace rest ∧
             ∀ st' e', o = Done (st', e') →
               st' = mkControllerState (installComplete st) false ∧
               (e' = None → operandExists rest)
           else rest = [] ∧ o = Done (st, Some e)
       end)).
Proof.
  apply wp_bind, wp_beh. intros looks [ns|] Hlooks; [|by destruct Hlooks as ([|] & ? & ? & Hb);
    [destruct Hb|destruct Hb as (? & ? & ? & ? & ?)]].
  unfold nonempty. case_bool_decide as Hns; cbn [negb].
  - simpl. exists looks, ns. rewrite app_nil_r. split; [done|]. left. eauto.
  - apply wp_bind. apply wp_request. intros [cm|e].
    + exists looks, ns. split; [done|]. right. split; [done|]. by eexists _, _.
    + destruct (IsResourceNotFoundError e) eqn:He; cbn [wp].
      * apply wp_bind. eapply wp_mono; [|apply initializeInstance_spec].
        intros tr o [H1 H2]. destruct o as [e'|]; simpl; exists looks, ns; (split; [done|]); right;
          (split; [done|]); eexists (inr e), _; (split; [reflexivity|]); rewrite He, ?app_nil_r;
          (split; [done|]); [|done].
        intros st' e'' [= <- <-]. split; [done|]. intros ->. by apply H2.
      * exists looks, ns. split; [done|]. right. split; [done|]. eexists (inr e), []. split; [done|].
        by rewrite He.
Qed.
