(* ===== verification/Metrics.v ===== *)
(** * The metrics of the operator (controllers/metrics/metrics.go)

    The four collectors with their options, their registration at start-up and the
    functions that count.  The Prometheus client library is an interface,
    [PrometheusClient]: counters that are found by collector and label values, and
    a registry that refuses two collectors of one name.  A call [CInc m] of a
    program is the function of this file for [m]; [metricsAfter] runs the counting
    calls of a trace.  The theorems relate the counters to what the controller did,
    at every moment of every history of reconciles. *)

From S2P Require Import Prelude GoLib ApiTypes K8s Prog Client Api ModelPrometheus ModelResources.
From S2P Require Import Utils Controller ControllerProofs.

Module metrics.

(** ** Collectors *)

Definition LabelStage : string := "stage".
Definition LabelConfigurationSync : string := "configuration_sync".

Definition reconciliationsLabels : list string := [LabelStage].

Record CounterOpts := mkCounterOpts {
  opts_Name : string;
  opts_Subsystem : string;
  opts_Help : string;
}.

(** A counter, or a vector of counters with one per value of the labels. *)
Record Collector := mkCollector {
  col_Opts : CounterOpts;
  col_Labels : list string;
}.

#[export] Instance CounterOpts_eq_dec : EqDecision CounterOpts.
Proof. solve_decision. Defined.
#[export] Instance Collector_eq_dec : EqDecision Collector.
Proof. solve_decision. Defined.

Definition totalReconciliationsMetric : Collector :=
  mkCollector (mkCounterOpts "reconciler_total_count" "observability_operator"
                 "Total number of reconciliations performed") reconciliationsLabels.

Definition failedReconciliationsMetric : Collector :=
  mkCollector (mkCounterOpts "reconciler_failure_count" "observability_operator"
                 "Number of failed reconciliations") reconciliationsLabels.

Definition successfulConfigurationSyncsMetric : Collector :=
  mkCollector (mkCounterOpts "configuration_syncs_total_count" "observability_operator"
                 "Total number of configuration syncs performed") [].

Definition failedConfigurationSyncsMetric : Collector :=
  mkCollector (mkCounterOpts "configuration_sync_failure_count" "observability_operator"
                 "Number of failed configuration syncs") [].

(** ** The client library *)

Abbreviation LabelValues := (list (string * string)).

(** One counter: a collector and values for its labels. *)
Abbreviation Series := (Collector * LabelValues)%type.

Class PrometheusClient := {
  Registry : Type;
  newRegistry : Registry;
  (** The name under which a collector is exposed. *)
  fqName : CounterOpts → string;
  registered : Registry → list Collector;
  value : Registry → Series → nat;
  (** [None] is a panic. *)
  MustRegister : Collector → Registry → option Registry;
  IncWith : Series → Registry → option Registry;
  fqName_join : ∀ o, opts_Subsystem o ≠ EmptyString → opts_Name o ≠ EmptyString →
    fqName o = opts_Subsystem o +:+ "_" +:+ opts_Name o;
  newRegistry_empty : registered newRegistry = [] ∧ ∀ c, value newRegistry c = 0%nat;
  MustRegister_fresh : ∀ c r,
    fqName (col_Opts c) ∉ map (λ c, fqName (col_Opts c)) (registered r) →
    ∃ r', MustRegister c r = Some r' ∧ registered r' = registered r ++ [c] ∧
      ∀ s, value r' s = value r s;
  MustRegister_taken : ∀ c r,
    fqName (col_Opts c) ∈ map (λ c, fqName (col_Opts c)) (registered r) →
    MustRegister c r = None;
  IncWith_counts : ∀ c ls r, map fst ls = col_Labels c →
    ∃ r', IncWith (c, ls) r = Some r' ∧ registered r' = registered r ∧
      ∀ s, value r' s = ((if decide (s = (c, ls)) then 1 else 0) + value r s)%nat;
}.

(** A client that lists the collectors and the increments. *)
Definition plainName (o : CounterOpts) : string :=
  opts_Subsystem o +:+ "_" +:+ opts_Name o.

#[export] Program Instance plainClient : PrometheusClient := {|
  Registry := (list Collector * list Series)%type;
  newRegistry := ([], []);
  fqName := plainName;
  registered := fst;
  value r s := length (List.filter (λ s', bool_decide (s = s')) r.2);
  MustRegister c r :=
    if decide (plainName (col_Opts c) ∈ map (λ c, plainName (col_Opts c)) r.1) then None
    else Some (r.1 ++ [c], r.2);
  IncWith s r :=
    if decide (map fst s.2 = col_Labels s.1) then Some (r.1, s :: r.2) else None;
|}.
Next Obligation. done. Qed.
Next Obligation. done. Qed.
Next Obligation. intros c r Hc. simpl in *. rewrite decide_False by done. by eexists. Qed.
Next Obligation. intros c r Hc. simpl in *. by rewrite decide_True. Qed.
Next Obligation.
  intros c ls r Hl. simpl. rewrite decide_True by done. eexists. split; [done|]. split; [done|].
  intros s. simpl. by case_bool_decide; case_decide.
Qed.

Section with_client.
Context `{PrometheusClient}.

(** ** Counting *)

(** [string(stage)] *)
Definition stageString (stage : ObservabilityStageName) : string :=
  match stage with
  | GrafanaInstallation => "Grafana"
  | GrafanaConfiguration => "GrafanaConfiguration"
  | PrometheusInstallation => "Prometheus"
  | PrometheusConfiguration => "PrometheusConfiguration"
  | Csv => "Csv"
  | TokenRequest => "TokenRequest"
  | PromtailInstallation => "PromtailInstallation"
  | AlertmanagerInstallation => "AlertmanagerInstallation"
  | Configuration => "configuration"
  | LoggingInstallation => "Logging"
  | Migration => "resource name migration"
  | OtherStage s => s
  end.

Definition IncreaseTotalReconciliationsMetric (stage : ObservabilityStageName)
  : Registry → option Registry :=
  IncWith (totalReconciliationsMetric, [(LabelStage, stageString stage)]).

Definition IncreaseFailedReconciliationsMetric (stage : ObservabilityStageName)
  : Registry → option Registry :=
  IncWith (failedReconciliationsMetric, [(LabelStage, stageString stage)]).

Definition IncreaseSuccessfulConfigurationSyncsMetric : Registry → option Registry :=
  IncWith (successfulConfigurationSyncsMetric, []).

Definition IncreaseFailedConfigurationSyncsMetric : Registry → option Registry :=
  IncWith (failedConfigurationSyncsMetric, []).

(** [init()] of the package. *)
Definition init (r : Registry) : option Registry :=
  MustRegister totalReconciliationsMetric r
    ?> MustRegister failedReconciliationsMetric
    ?> MustRegister successfulConfigurationSyncsMetric
    ?> MustRegister failedConfigurationSyncsMetric.

(** What a call [CInc m] runs. *)
Definition increase (m : Metric) : Registry → option Registry :=
  match m with
  | TotalReconciliations stage => IncreaseTotalReconciliationsMetric stage
  | FailedReconciliations stage => IncreaseFailedReconciliationsMetric stage
  | SuccessfulConfigurationSyncs => IncreaseSuccessfulConfigurationSyncsMetric
  | FailedConfigurationSyncs => IncreaseFailedConfigurationSyncsMetric
  end.

(** The registry after the calls of a trace. *)
Fixpoint metricsAfter (r : Registry) (tr : trace) : option Registry :=
  match tr with
  | [] => Some r
  | s :: tr' =>
      match counts (projT1 s) with
      | Some m => increase m r ?> (λ r', metricsAfter r' tr')
      | None => metricsAfter r tr'
      end
  end.

(** ** Registration *)

Definition ours : list Collector :=
  [totalReconciliationsMetric; failedReconciliationsMetric;
   successfulConfigurationSyncsMetric; failedConfigurationSyncsMetric].

Definition exposed (r : Registry) : list string := map (λ c, fqName (col_Opts c)) (registered r).

Lemma exposed_register r r' c :
  registered r' = registered r ++ [c] → exposed r' = exposed r ++ [fqName (col_Opts c)].
Proof. unfold exposed. intros ->. by rewrite map_app. Qed.

(** Registering a list of collectors whose names are new and distinct. *)
Lemma register_all cs r :
  NoDup (map (λ c, fqName (col_Opts c)) cs) →
  (∀ c, c ∈ cs → fqName (col_Opts c) ∉ exposed r) →
  ∃ r', foldl (λ m c, m ?> MustRegister c) (Some r) cs = Some r' ∧
    registered r' = registered r ++ cs ∧ ∀ s, value r' s = value r s.
Proof.
  revert r. induction cs as [|c cs IH]; intros r Hnd Hnew; simpl.
  { exists r. by rewrite app_nil_r. }
  apply NoDup_cons in Hnd as [Hc Hnd].
  destruct (MustRegister_fresh c r) as (r1 & -> & Hr1 & Hv1); [apply Hnew; left|].
  destruct (IH r1 Hnd) as (r' & -> & Hr' & Hv').
  - intros c' Hc'. rewrite (exposed_register _ _ _ Hr1), not_elem_of_app. split.
    + apply Hnew. by right.
    + rewrite list_elem_of_singleton. intros Heq. apply Hc. rewrite <-Heq. apply list_elem_of_fmap.
      by exists c'.
  - exists r'. split; [done|]. split; [by rewrite Hr', Hr1, <-app_assoc|].
    intros s. by rewrite Hv', Hv1.
Qed.

Lemma ours_named c : c ∈ ours →
  fqName (col_Opts c) = "observability_operator_" +:+ opts_Name (col_Opts c).
Proof.
  revert c. apply Forall_forall. unfold ours.
  repeat constructor; by rewrite fqName_join.
Qed.

Lemma ours_distinct : NoDup (map (λ c, fqName (col_Opts c)) ours).
Proof.
  assert (map (λ c, fqName (col_Opts c)) ours =
          map (λ c, "observability_operator_" +:+ opts_Name (col_Opts c)) ours) as ->.
  { apply map_ext_in. intros c Hc. by apply ours_named, list_elem_of_In. }
  apply (bool_decide_unpack _). by vm_compute.
Qed.

(** Start-up does not panic on the metrics: the four collectors have names of
    their own, so that registering them in a registry that exposes none of these
    names succeeds, and afterwards all four are exposed and nothing was counted. *)
Lemma init_registers r :
  (∀ c, c ∈ ours → "observability_operator_" +:+ opts_Name (col_Opts c) ∉ exposed r) →
  ∃ r', init r = Some r' ∧ registered r' = registered r ++ ours ∧
    ∀ s, value r' s = value r s.
Proof.
  intros Hnew. apply (register_all ours r ours_distinct).
  intros c Hc. rewrite ours_named by done. by apply Hnew.
Qed.

Lemma init_newRegistry : ∃ r, init newRegistry = Some r ∧ ∀ s, value r s = 0%nat.
Proof.
  destruct newRegistry_empty as [Hr Hv].
  destruct (register_all ours newRegistry ours_distinct) as (r & ? & _ & Hv').
  - unfold exposed. rewrite Hr. intros ??. apply not_elem_of_nil.
  - exists r. split; [done|]. intros s. by rewrite Hv'.
Qed.

(** ** Counters and calls *)

(** The counter a metric stands for. *)
Definition series (m : Metric) : Series :=
  match m with
  | TotalReconciliations stage =>
      (totalReconciliationsMetric, [(LabelStage, stageString stage)])
  | FailedReconciliations stage =>
      (failedReconciliationsMetric, [(LabelStage, stageString stage)])
  | SuccessfulConfigurationSyncs => (successfulConfigurationSyncsMetric, [])
  | FailedConfigurationSyncs => (failedConfigurationSyncsMetric, [])
  end.

(** How often a trace counts up a counter. *)
Definition hits (c : Series) (tr : trace) : nat :=
  length (List.filter (λ s,
    match counts (projT1 s) with Some m => bool_decide (c = series m) | None => false end) tr).

Lemma hits_app c tr1 tr2 : hits c (tr1 ++ tr2) = (hits c tr1 + hits c tr2)%nat.
Proof. unfold hits. by rewrite List.filter_app, length_app. Qed.

Lemma increase_counts m r :
  ∃ r', increase m r = Some r' ∧
    ∀ c, value r' c = ((if decide (c = series m) then 1 else 0) + value r c)%nat.
Proof.
  destruct m; match goal with |- context [series ?m] =>
    destruct (IncWith_counts (series m).1 (series m).2 r eq_refl) as (r' & ? & _ & ?)
  end; by exists r'.
Qed.

(** Counting never panics, and every counter goes up by the number of calls that
    count it. *)
Lemma metricsAfter_value r tr :
  ∃ r', metricsAfter r tr = Some r' ∧ ∀ c, value r' c = (hits c tr + value r c)%nat.
Proof.
  revert r. induction tr as [|s tr IH]; intros r; simpl; [by exists r|].
  unfold hits in *; simpl. destruct (counts (projT1 s)) as [m|]; [|apply IH].
  destruct (increase_counts m r) as (r1 & -> & Hv1). simpl.
  destruct (IH r1) as (r' & -> & Hv'). exists r'. split; [done|]. intros c.
  rewrite Hv', Hv1. case_bool_decide; case_decide; simpl; try done; lia.
Qed.
End with_client.

(** ** Histories of reconciles *)

Section histories.
Context (reconcilerFor : ObservabilityStageName → option ObservabilityReconciler).

(** The calls of a process: one reconcile after the other, each for any resource
    and in any state of the controller. *)
Inductive history : trace → Prop :=
| history_start : history []
| history_reconcile h st ns name tr o :
    history h → beh (ReconcileRequest reconcilerFor st ns name) tr o → history (h ++ tr).

(** At every moment of the trace at most as many failures as reconciliations were
    counted for a stage. *)
Definition failed (l : string) : Series := (failedReconciliationsMetric, [(LabelStage, l)]).
Definition total (l : string) : Series := (totalReconciliationsMetric, [(LabelStage, l)]).

Definition balanced (tr : trace) : Prop :=
  ∀ l pre, pre `prefix_of` tr → (hits (failed l) pre ≤ hits (total l) pre)%nat.

Lemma prefix_app_inv {A} (pre l1 l2 : list A) :
  pre `prefix_of` l1 ++ l2 → pre `prefix_of` l1 ∨ ∃ pre', pre = l1 ++ pre' ∧ pre' `prefix_of` l2.
Proof.
  revert pre. induction l1 as [|x l1 IH]; intros pre Hp; simpl in *; [right; by exists pre|].
  destruct pre as [|y pre]; [left; apply prefix_nil|].
  pose proof (prefix_cons_inv_1 _ _ _ _ Hp) as ->. apply prefix_cons_inv_2, IH in Hp.
  destruct Hp as [Hp|(pre' & -> & Hp)]; [left; by apply prefix_cons|right; by exists pre'].
Qed.

Lemma balanced_app tr1 tr2 : balanced tr1 → balanced tr2 → balanced (tr1 ++ tr2).
Proof.
  intros H1 H2 l pre [Hp|(pre' & -> & Hp)]%prefix_app_inv; [by apply H1|].
  rewrite !hits_app. specialize (H1 l tr1 (reflexivity _)). specialize (H2 l pre' Hp). lia.
Qed.

Lemma hits_silent c tr : c.1 = failedReconciliationsMetric ∨ c.1 = totalReconciliationsMetric →
  Forall stageSilent tr → hits c tr = 0%nat.
Proof.
  intros Hc. induction 1 as [|s tr Hs _ IH]; [done|]. unfold hits in *; simpl.
  unfold stageSilent in Hs. destruct (counts (projT1 s)) as [m|]; [|done].
  rewrite bool_decide_false; [done|]. intros ->. destruct m; simpl in *; naive_solver.
Qed.

Lemma balanced_silent tr : Forall stageSilent tr → balanced tr.
Proof.
  intros Hs l pre Hp. assert (Forall stageSilent pre) as Hs'.
  { destruct Hp as [k ->]. by apply Forall_app in Hs as [? _]. }
  rewrite (hits_silent (failed l)) by (done || by left). lia.
Qed.

(** A stage counted once, then its own calls, then perhaps its failure. *)
Lemma balanced_stage stage tr last :
  Forall stageSilent tr → last = [] ∨ last = [CInc (FailedReconciliations stage) ⇝ tt] →
  balanced ((CInc (TotalReconciliations stage) ⇝ tt) :: tr ++ last).
Proof.
  intros Hs Hl l [|x pre] Hp; [done|].
  pose proof (prefix_cons_inv_1 _ _ _ _ Hp) as ->. apply prefix_cons_inv_2 in Hp.
  assert (∀ pre', Forall stageSilent pre' →
    hits (failed l) pre' = 0%nat ∧ hits (total l) pre' = 0%nat) as Hz
    by (split; apply hits_silent; auto).
  change (?s :: pre) with ([s] ++ pre). rewrite !hits_app.
  assert (hits (failed l) [CInc (FailedReconciliations stage) ⇝ tt] =
          hits (total l) [CInc (TotalReconciliations stage) ⇝ tt]) as Heq.
  { unfold hits, failed, total; simpl. do 2 case_bool_decide; simpl; congruence || done. }
  assert (hits (failed l) [CInc (TotalReconciliations stage) ⇝ tt] = 0%nat) as -> by done.
  apply prefix_app_inv in Hp as [Hp|(pre' & -> & Hp)].
  - destruct (Hz pre) as [-> _]; [|lia]. destruct Hp as [k ->]. by apply Forall_app in Hs as [? _].
  - rewrite hits_app. destruct (Hz tr Hs) as [-> _]. rewrite <-Heq.
    enough (hits (failed l) pre' ≤ hits (failed l) [CInc (FailedReconciliations stage) ⇝ tt])%nat by lia.
    destruct Hp as [k Hk]. destruct Hl as [->| ->].
    + destruct pre'; [apply Nat.le_0_l|done].
    + rewrite Hk, hits_app. lia.
Qed.

Context (stagesSilent : ∀ stage R, reconcilerFor stage = Some R →
  (∀ cr s, allSteps stageSilent (Reconcile R cr s)) ∧ ∀ cr, allSteps stageSilent (Cleanup R cr)).

Lemma runStage_balanced stage R obs next :
  reconcilerFor stage = Some R → wp (runStage stage R obs next) (λ tr _, balanced tr).
Proof.
  intros [Hr Hc]%stagesSilent. apply wp_request. intros []. apply wp_bind.
  assert (allSteps stageSilent (callStage R obs next)) as Hs.
  { unfold callStage. destruct (deleting obs); [|apply Hr].
    apply allSteps_bind; [apply Hc|intros; apply allSteps_ret]. }
  eapply wp_mono; [|exact Hs]. intros tr [[[obs' next'] [status err]]|] Htr.
  - destruct err; simpl; [intros []|]; by apply balanced_stage; auto.
  - rewrite <-(app_nil_r tr). apply balanced_stage; auto.
Qed.

Lemma runStages_balanced stages obs next :
  wp (runStages reconcilerFor stages obs next) (λ tr _, balanced tr).
Proof.
  revert obs next. induction stages as [|stage stages IH]; intros obs next; cbn [runStages];
    [by apply balanced_silent|].
  destruct (reconcilerFor stage) as [R|] eqn:HR; [|apply IH].
  apply wp_bind. eapply wp_mono; [|by apply runStage_balanced].
  intros tr [[[obs' next'] status]|] Htr; [|done].
  case_decide; [|simpl; by rewrite app_nil_r].
  eapply wp_mono; [|apply IH]. intros tr' ? Htr'. by apply balanced_app.
Qed.

Lemma finishReconcile_silent st obs next fin :
  allSteps stageSilent (finishReconcile st obs next fin).
Proof. unfold finishReconcile. solve_creates. Qed.

Lemma ReconcileRequest_balanced st ns name :
  wp (ReconcileRequest reconcilerFor st ns name) (λ tr _, balanced tr).
Proof.
  apply (wp_bind (request _)). intros r. simpl.
  assert (∀ tr, balanced tr → balanced ((CGet KObservability ns name ⇝ r) :: tr)) as Hcons.
  { intros tr Htr. apply (balanced_app [_]); [|done]. apply balanced_silent. by repeat constructor. }
  destruct r as [obs|e]; [|by apply Hcons, balanced_silent].
  destruct (_ && _).
  { intros x. apply Hcons, balanced_silent. by repeat constructor. }
  apply (wp_mono _ (λ tr _, balanced tr)); [auto|].
  apply wp_bind. eapply wp_mono; [|apply runStages_balanced].
  intros tr [[[obs' next] fin]|] Htr; [|done].
  eapply wp_mono; [|apply finishReconcile_silent]. intros tr' ? Htr'.
  apply balanced_app; [done|by apply balanced_silent].
Qed.

Lemma history_balanced h : history h → balanced h.
Proof.
  induction 1 as [|h st ns name tr o _ IH Hb]; [by apply balanced_silent|].
  apply balanced_app; [done|].
  exact (proj1 (wp_beh _ _) (ReconcileRequest_balanced st ns name) tr o Hb).
Qed.
End histories.

Lemma init_registers_witness :
  ∃ r', init newRegistry = Some r' ∧ registered r' = registered newRegistry ++ ours ∧
    ∀ s, value r' s = value newRegistry s.
Proof. apply (@init_registers plainClient). intros c _. simpl. apply not_elem_of_nil. Defined.
End metrics.
