(* ===== verification/External.v ===== *)
(** * Code of other packages the operator calls

    URL handling of net/url and net/http, and the decoders and encoders for the
    files of a configuration repository.  They are parameters: nothing is assumed
    of them here, and a theorem that relies on a documented property of one of
    them states it. *)

From S2P Require Import Prelude ApiTypes K8s Api.

Class Net := {
  URL : Type;
  (** [url.Parse], [url.ParseRequestURI] *)
  Parse : string → URL + error;
  ParseRequestURI : string → URL + error;
  (** [u.String()], [u.Path], [u.Host], [u.Path = p] *)
  URL_String : URL → string;
  URL_Path : URL → string;
  URL_Host : URL → string;
  URL_setPath : string → URL → URL;
  (** [http.NewRequest(GET, url, nil)]: the URL of the request *)
  NewRequest : string → string + error;
  (** the URL of a request after [ref=tag] was added to its query *)
  withRef : string → string → string;
  (** [url.JoinPath], [path.Join] *)
  JoinPath : string → string → string + error;
  path_Join : list string → string;
}.

(** An instance in which a URL is its own path, to evaluate examples with. *)
Definition plainNet : Net := {|
  URL := string;
  Parse := inl;
  ParseRequestURI := inl;
  URL_String := λ u, u;
  URL_Path := λ u, u;
  URL_Host := λ u, u;
  URL_setPath := λ p _, p;
  NewRequest := inl;
  withRef := λ u tag, u +:+ "?ref=" +:+ tag;
  JoinPath := λ u p, inl (u +:+ p);
  path_Join := λ ps, String.concat "/" ps;
|}.

(** The Alertmanager configuration (api/v1/alertmanager_config.go). *)
Record AlertmanagerConfigGlobal := mkGlobal {
  g_ResolveTimeout : string;
  g_SmtpSmartHost : string;
  g_SmtpFrom : string;
  g_SmtpAuthUserName : string;
  g_SmtpAuthPassword : string;
  g_SmtpRequireTls : bool;
}.

Inductive AlertmanagerConfigRoute := mkAmRoute
  (r_Receiver r_RepeatInterval : string) (r_Match : gomap string)
  (r_Routes : list AlertmanagerConfigRoute).

Definition r_Receiver (r : AlertmanagerConfigRoute) : string :=
  let '(mkAmRoute x _ _ _) := r in x.
Definition r_Match (r : AlertmanagerConfigRoute) : gomap string :=
  let '(mkAmRoute _ _ x _) := r in x.
Definition r_Routes (r : AlertmanagerConfigRoute) : list AlertmanagerConfigRoute :=
  let '(mkAmRoute _ _ _ x) := r in x.

Record EmailConfig := mkEmailConfig { email_SendResolved : bool; email_To : string }.
Record PagerDutyConfig := mkPagerDutyConfig { pd_ServiceKey : string }.
Record WebhookConfig := mkWebhookConfig { wh_Url : string }.

Record AlertmanagerConfigReceiver := mkReceiver {
  rcv_Name : string;
  rcv_PagerDutyConfigs : list PagerDutyConfig;
  rcv_WebhookConfigs : list WebhookConfig;
  rcv_EmailConfig : list EmailConfig;
}.

Record AlertmanagerConfigRoot := mkAmRoot {
  am_Global : AlertmanagerConfigGlobal;
  am_Route : AlertmanagerConfigRoute;
  am_Receivers : list AlertmanagerConfigReceiver;
}.

Class Codec := {
  (** [json.Unmarshal] of index.json; the fields that are not in the file are
      left at their zero values *)
  decodeIndex : string → RepositoryIndex + error;
  (** [yaml.Unmarshal] into the types of the repository files *)
  decodeDashboard : string → Object KGrafanaDashboard + error;
  decodePodMonitor : string → Object KPodMonitor + error;
  decodeRule : string → Object KPrometheusRule + error;
  decodeFederation : string → list string + error;
  decodeRemoteWrite : string → RemoteWriteIndex + error;
  (** [goyaml.Marshal] of the Alertmanager configuration *)
  marshalAlertmanager : AlertmanagerConfigRoot → string + error;
  (** [resource.ParseQuantity] *)
  ParseQuantity : string → Quantity + error;
  (** [semver.ParseTolerant]: the version as text, and the error *)
  ParseTolerant : string → string * option error;
}.

(** An instance that decodes every file to the zero value, to evaluate examples
    with. *)
Definition plainCodec : Codec := {|
  decodeIndex := λ _, inl (mkRepositoryIndex EmptyString EmptyString EmptyString None
                             EmptyString None);
  decodeDashboard := λ _, inl (stub KGrafanaDashboard EmptyString EmptyString);
  decodePodMonitor := λ _, inl (stub KPodMonitor EmptyString EmptyString);
  decodeRule := λ _, inl (stub KPrometheusRule EmptyString EmptyString);
  decodeFederation := λ _, inl [];
  decodeRemoteWrite := λ _, inl (mkRemoteWriteIndex None EmptyString EmptyString []);
  marshalAlertmanager := λ _, inl EmptyString;
  ParseQuantity := λ s, inl (mkQuantity s);
  ParseTolerant := λ s, (s, None);
|}.
