(* ===== verification/Sync.v ===== *)
(** * Repository resources: dashboards, rules and pod monitors
    (controllers/reconcilers/configuration/grafana_dashboards.go,
    prometheus_rules.go, pod_monitors.go and fetchResource of
    configuration_reconciler.go)

    The files the indexes list are fetched, decoded, and synced to the cluster;
    what exists but is not listed is deleted. *)

From Stdlib Require Import Ascii.
From S2P Require Import Prelude GoLib ApiTypes K8s Prog Client Api ModelPrometheus ModelResources.
From S2P Require Import External.

Module configuration.

Definition PrometheusRuleIdentifierKey : string := "observability".

(** ** Names and types *)

Inductive SourceType := SourceTypeJson | SourceTypeJsonnet | SourceTypeYaml | SourceTypeUnknown.

#[export] Instance SourceType_eq_dec : EqDecision SourceType.
Proof. solve_decision. Defined.

Record DashboardInfo := mkDashboardInfo {
  di_Name : string;
  di_Url : string;
  di_AccessToken : string;
  di_Tag : string;
}.

Record ResourceInfo := mkResourceInfo {
  res_Id : string;
  res_Name : string;
  res_Url : string;
  res_AccessToken : string;
  res_Tag : string;
}.

(** The last path segment up to its first dot. *)
Definition getNameFromUrl (path : string) : string :=
  let parts := Strings.Split path "/"%char in
  let part := List.last parts EmptyString in
  hd EmptyString (Strings.Split part "."%char).

Definition getFileType (path : string) : SourceType :=
  let fragments := Strings.Split path "."%char in
  let extension := Strings.ToLower (Strings.TrimSpace (List.last fragments EmptyString)) in
  if decide (extension = "json") then SourceTypeJson
  else if decide (extension = "grafonnet") then SourceTypeJsonnet
  else if decide (extension = "jsonnet") then SourceTypeJsonnet
  else if decide (extension = "yaml") then SourceTypeYaml
  else SourceTypeUnknown.

(** ** Collecting what is requested *)

Section unique.
Context {A : Type} (nameOf : A → string).

(** [continue seek] of the outer loop: the first name that is taken already ends
    the index. *)
Fixpoint addUntilDuplicate (result items : list A) : list A :=
  match items with
  | [] => result
  | x :: items' =>
      if existsIn (λ e, bool_decide (nameOf e = nameOf x)) result then result
      else addUntilDuplicate (result ++ [x]) items'
  end.

(** [continue seek] of the inner loop: only that item is skipped. *)
Fixpoint addUnlessDuplicate (result items : list A) : list A :=
  match items with
  | [] => result
  | x :: items' =>
      if existsIn (λ e, bool_decide (nameOf e = nameOf x)) result
      then addUnlessDuplicate result items'
      else addUnlessDuplicate (result ++ [x]) items'
  end.
End unique.

Definition dashboardInfo (index : RepositoryIndex) (dashboard : string) : DashboardInfo :=
  mkDashboardInfo (getNameFromUrl dashboard) (idx_BaseUrl index +:+ "/" +:+ dashboard)
    (idx_AccessToken index) (idx_Tag index).

Definition resourceInfo (index : RepositoryIndex) (path : string) : ResourceInfo :=
  mkResourceInfo (idx_Id index) (getNameFromUrl path) (idx_BaseUrl index +:+ "/" +:+ path)
    (idx_AccessToken index) (idx_Tag index).

Definition dashboardsOf (index : RepositoryIndex) : list DashboardInfo :=
  match idx_Config index ?> rc_Grafana with
  | Some g => map (dashboardInfo index) (gi_Dashboards g)
  | None => []
  end.

Definition rulesOf (index : RepositoryIndex) : list ResourceInfo :=
  match idx_Config index ?> rc_Prometheus with
  | Some p => map (resourceInfo index) (pi_Rules p)
  | None => []
  end.

Definition podMonitorsOf (index : RepositoryIndex) : list ResourceInfo :=
  match idx_Config index ?> rc_Prometheus with
  | Some p => map (resourceInfo index) (pi_PodMonitors p)
  | None => []
  end.

Definition getUniqueDashboards (indexes : list RepositoryIndex) : list DashboardInfo :=
  fold_left (λ result index, addUntilDuplicate di_Name result (dashboardsOf index)) indexes [].

Definition getUniqueRules (indexes : list RepositoryIndex) : list ResourceInfo :=
  fold_left (λ result index, addUntilDuplicate res_Name result (rulesOf index)) indexes [].

Definition getUniquePodMonitors (indexes : list RepositoryIndex) : list ResourceInfo :=
  fold_left (λ result index, addUnlessDuplicate res_Name result (podMonitorsOf index)) indexes [].

(** ** Labels *)

Definition MergeLabels (requested existing : gomap string) : gomap string :=
  match existing with
  | None => requested
  | Some m => Some (gomap_entries requested ∪ m)
  end.

Definition injectIdRule (id : string) (r : Rule) : Rule :=
  mkRule (rule_Alert r) (rule_Expr r)
    (Some (<[PrometheusRuleIdentifierKey := id]> (gomap_entries (rule_Labels r)))) (rule_Rest r).

Definition injectIdGroup (id : string) (g : RuleGroup) : RuleGroup :=
  mkRuleGroup (group_Name g) (map (injectIdRule id) (group_Rules g)) (group_Rest g).

Definition injectIdLabel (id : string) (b : PrometheusRuleBody) : PrometheusRuleBody :=
  mkPrometheusRuleBody (map (injectIdGroup id) (rule_Groups b)).

(** The labels and the spec of a requested resource, written over whatever the
    callback is given. *)
Definition applyRequested {k} (labels : gomap string) (b : bodyOf k) : MutateFn k :=
  pureMutate (λ o, withMeta (set_Labels (MergeLabels managedBy labels)) (withBody b o)).

(** ** Fetching *)

Definition githubHeaders (token : string) : list (string * string) :=
  [("Authorization", "token " +:+ token); ("Accept", "application/vnd.github.v3.raw")].

Section fetch.
Context `{Net} `{Codec}.

Definition statusError (what url : string) (code : Z) : error :=
  OtherError (what +:+ url +:+ ": " +:+ Strconv.FormatInt code).

(** Send the request and read the body of a response with status 200. *)
Definition getUrl (url : string) (headers : list (string * string))
    (failed read : error → error) (status : Z → error) : prog (string + error) :=
  r ← Http (mkRequest "GET" url headers []);
  match r with
  | inr e => Ret (inr (failed e))
  | inl resp =>
      if decide (resp_StatusCode resp = 200%Z) then
        match resp_Body resp with
        | inr e => Ret (inr (read e))
        | inl b => Ret (inl b)
        end
      else Ret (inr (status (resp_StatusCode resp)))
  end.

Definition fetchResource (path tag token : string) : prog (string + error) :=
  match ParseRequestURI path with
  | inr e => Ret (inr (WrapError ("error parsing resource url: " +:+ path) e))
  | inl u =>
      match NewRequest (URL_String u) with
      | inr e => Ret (inr (WrapError "error creating http request" e))
      | inl reqUrl =>
          let auth := nonempty token && Strings.Contains path "github.com" in
          let url := if auth && nonempty tag then withRef reqUrl tag else reqUrl in
          getUrl url (if auth then githubHeaders token else [])
            (WrapError ("error fetching resource from " +:+ path))
            (WrapError "error reading response")
            (statusError "unexpected status code when resource from " url)
      end
  end.

(** The dashboard's type comes from the extension of the URL path. *)
Definition fetchDashboard (path tag token : string) : prog ((SourceType * string) + error) :=
  match ParseRequestURI path with
  | inr e => Ret (inr e)
  | inl u =>
      match NewRequest (URL_String u) with
      | inr e => Ret (inr e)
      | inl reqUrl =>
          let auth := nonempty token in
          let url := if auth && nonempty tag then withRef reqUrl tag else reqUrl in
          r ← getUrl url (if auth then githubHeaders token else []) (λ e, e) (λ e, e)
                (λ code, OtherError ("unexpected status code: " +:+ Strconv.FormatInt code));
          match r with
          | inr e => Ret (inr e)
          | inl b => Ret (inl (getFileType (URL_Path u), b))
          end
      end
  end.

(** ** Deleting what is not requested *)

Definition deleteUnrequested (k : Kind) (ns : string) (requested : string → bool)
  : prog (option error) :=
  r ← List_ k ns None;
  match r with
  | inr e => Ret (Some e)
  | inl existing => deleteWhere (λ o, negb (requested (nameOf o))) existing
  end.

Definition deleteUnrequestedDashboards (cr : Observability) (dashboards : list DashboardInfo)
  : prog (option error) :=
  deleteUnrequested KGrafanaDashboard (namespaceOf cr)
    (λ name, existsIn (λ d, bool_decide (name = di_Name d)) dashboards).

Definition deleteUnrequestedRules (cr : Observability) (rules : list ResourceInfo)
  : prog (option error) :=
  deleteUnrequested KPrometheusRule (GetPrometheusOperatorNamespace cr)
    (λ name, existsIn (λ r, bool_decide (name = res_Name r)) rules).

Definition deleteUnrequestedPodMonitors (cr : Observability) (monitors : list ResourceInfo)
  : prog (option error) :=
  deleteUnrequested KPodMonitor (GetPrometheusOperatorNamespace cr)
    (λ name, existsIn (λ r, bool_decide (name = res_Name r)) monitors).

(** ** Creating what is requested *)

Definition placed {k} (ns name : string) (o : Object k) : Object k :=
  withMeta (λ m, set_Name name (set_Namespace ns m)) o.

Definition parseDashboardFromYaml (cr : Observability) (name source : string)
  : Object KGrafanaDashboard + error :=
  match decodeDashboard source with
  | inr e => inr e
  | inl d => inl (placed (namespaceOf cr) name d)
  end.

Definition createDashboardFromSource (cr : Observability) (name : string) (t : SourceType)
    (source : string) : Object KGrafanaDashboard + error :=
  let dashboard b := withBody (k:=KGrafanaDashboard) b
                       (stub KGrafanaDashboard name (namespaceOf cr)) in
  match t with
  | SourceTypeJson => inl (dashboard (mkGrafanaDashboardBody source EmptyString JNull))
  | SourceTypeJsonnet => inl (dashboard (mkGrafanaDashboardBody EmptyString source JNull))
  | _ => inr (OtherError ("unknown dashboard type: " +:+ name))
  end.

Definition parsePodMonitorFromYaml (cr : Observability) (name source : string)
  : Object KPodMonitor + error :=
  match decodePodMonitor source with
  | inr e => inr e
  | inl m => inl (placed (GetPrometheusOperatorNamespace cr) name m)
  end.

Definition parseRuleFromYaml (cr : Observability) (name source : string)
  : Object KPrometheusRule + error :=
  match decodeRule source with
  | inr e => inr e
  | inl r => inl (placed (GetPrometheusOperatorNamespace cr) name r)
  end.

Context `{ControllerUtil}.

(** The dashboard of one entry, [None] when its type is not handled.  The case of
    a Jsonnet source is empty, so such a dashboard is not created. *)
Definition requestedDashboard (cr : Observability) (d : DashboardInfo)
  : prog (option (Object KGrafanaDashboard) + error) :=
  r ← fetchDashboard (di_Url d) (di_Tag d) (di_AccessToken d);
  match r with
  | inr e => Ret (inr e)
  | inl (t, source) =>
      match t with
      | SourceTypeYaml =>
          match parseDashboardFromYaml cr (di_Name d) source with
          | inr e => Ret (inr e)
          | inl o => Ret (inl (Some o))
          end
      | SourceTypeJson =>
          match createDashboardFromSource cr (di_Name d) t source with
          | inr e => Ret (inr e)
          | inl o => Ret (inl (Some o))
          end
      | SourceTypeJsonnet | SourceTypeUnknown => Ret (inl None)
      end
  end.

Definition syncDashboard (d : Object KGrafanaDashboard) : prog (option error) :=
  '(_, e) ← CreateOrUpdate d (applyRequested (Labels (meta d)) (body d)); Ret e.

(** All dashboards are fetched before the first is synced. *)
Definition createRequestedDashboards (cr : Observability) (dashboards : list DashboardInfo)
  : prog (option error) :=
  '(requested, res) ← forEachS [] dashboards (λ acc d,
    r ← requestedDashboard cr d;
    match r with
    | inr e => Ret (acc, Some e)
    | inl (Some o) => Ret (acc ++ [o], None)
    | inl None => Ret (acc, None)
    end);
  match res with
  | Some e => Ret (Some e)
  | None => forEach requested syncDashboard
  end.

Definition createRequestedPodMonitors (cr : Observability) (monitors : list ResourceInfo)
  : prog (option error) :=
  forEach monitors (λ resource,
    r ← fetchResource (res_Url resource) (res_Tag resource) (res_AccessToken resource);
    match r with
    | inr e => Ret (Some e)
    | inl bytes =>
        match parsePodMonitorFromYaml cr (res_Name resource) bytes with
        | inr e => Ret (Some e)
        | inl monitor =>
            '(_, e) ← CreateOrUpdate monitor
                        (applyRequested (Labels (meta monitor)) (body monitor));
            Ret e
        end
    end).

Definition createRequestedRules (cr : Observability) (rules : list ResourceInfo)
  : prog (option error) :=
  forEach rules (λ rule,
    r ← fetchResource (res_Url rule) (res_Tag rule) (res_AccessToken rule);
    match r with
    | inr e => Ret (Some e)
    | inl bytes =>
        match parseRuleFromYaml cr (res_Name rule) bytes with
        | inr e => Ret (Some e)
        | inl parsed =>
            '(_, e) ← CreateOrUpdate parsed
                        (applyRequested (k:=KPrometheusRule) (Labels (meta parsed))
                           (injectIdLabel (res_Id rule) (body parsed)));
            Ret e
        end
    end).

Definition dmsGroups : list RuleGroup :=
  [mkRuleGroup "deadmansswitch"
     [mkRule "DeadMansSwitch" (FromString "vector(1)")
        (mapOf [("name", "DeadMansSwitchAlert")]) JNull] JNull].

(** The labels of the rule selector are added to the ones of the object. *)
Definition dmsLabels (cr : Observability) (labels : gomap string) : gomap string :=
  match selfContained cr ?> sc_RuleLabelSelector with
  | Some sel => Some (gomap_entries (ls_MatchLabels sel) ∪ gomap_entries labels)
  | None => labels
  end.

Definition createDMSAlert (cr : Observability) : prog (option error) :=
  sc ← deref (selfContained cr);
  match sc_DisableRepoSync sc with
  | Some true =>
      '(_, e) ← CreateOrUpdate (GetDeadmansSwitch cr) (pureMutate (λ dms : Object KPrometheusRule,
         withMeta (set_Labels (dmsLabels cr (Labels (meta dms))))
           (withBody (k:=KPrometheusRule) (mkPrometheusRuleBody dmsGroups) dms)));
      Ret e
  | _ => Ret None
  end.
End fetch.

(** ** What is collected *)

Section unique_spec.
Context {A : Type} (name : A → string).
Implicit Types (result items : list A).

Lemma taken_spec result x :
  existsIn (λ e, bool_decide (name e = name x)) result = true ↔ name x ∈ map name result.
Proof.
  rewrite existsIn_spec, list_elem_of_fmap. split; intros (y & Hy & Hn).
  - bool_props. by exists y.
  - exists y. split; [by apply Hn|]. by apply bool_decide_eq_true.
Qed.

Lemma taken_false result x :
  existsIn (λ e, bool_decide (name e = name x)) result = false ↔ name x ∉ map name result.
Proof. rewrite <-taken_spec. symmetry; apply not_true_iff_false. Qed.

(** An item taken unless its name is taken: the items that are the first of their
    name. *)
Lemma addUnlessDuplicate_spec result items x :
  x ∈ addUnlessDuplicate name result items ↔
  x ∈ result ∨ ∃ pre post, items = pre ++ x :: post ∧ name x ∉ map name (result ++ pre).
Proof.
  revert result; induction items as [|y items IH]; intros result; simpl.
  { split; [by left|]. intros [?|([]&?&?&?)]; done. }
  destruct (existsIn _ result) eqn:E; [apply taken_spec in E|apply taken_false in E];
    rewrite IH; [split|split].
  - intros [?|(pre & post & -> & Hn)]; [by left|right]. exists (y :: pre), post.
    split; [done|]. rewrite map_app, not_elem_of_app in *. simpl.
    rewrite not_elem_of_cons. destruct Hn. split_and!; [done| |done].
    intros Heq. rewrite Heq in *. done.
  - intros [?|([|z pre] & post & Hi & Hn)]; [by left| |]; simplify_eq/=;
      rewrite ?app_nil_r in *; [done|].
    right. exists pre, post. split; [done|]. rewrite map_app, not_elem_of_app in *.
    simpl in Hn. rewrite not_elem_of_cons in Hn. naive_solver.
  - intros [[?|Hx%list_elem_of_singleton]%elem_of_app|(pre & post & -> & Hn)]; [by left| |]; subst.
    + right. exists [], items. by rewrite app_nil_r.
    + right. exists (y :: pre), post. by rewrite <-app_assoc in Hn.
  - intros [?|([|z pre] & post & Hi & Hn)]; simplify_eq/=.
    { left. set_solver. }
    { left. set_solver. }
    right. exists pre, post. by rewrite <-app_assoc.
Qed.

Lemma NoDup_snoc_name result x :
  name x ∉ map name result → NoDup (map name result) → NoDup (map name (result ++ [x])).
Proof.
  intros Hx Hd. rewrite map_app. apply NoDup_app. split_and!; [done| |apply NoDup_singleton].
  intros z Hz ->%list_elem_of_singleton. done.
Qed.

Lemma addUnlessDuplicate_NoDup result items :
  NoDup (map name result) → NoDup (map name (addUnlessDuplicate name result items)).
Proof.
  revert result; induction items as [|y items IH]; intros result Hd; simpl; [done|].
  destruct (existsIn _ result) eqn:E; apply IH; [done|].
  by apply NoDup_snoc_name; [apply taken_false|].
Qed.

Lemma addUnlessDuplicate_app result xs ys :
  addUnlessDuplicate name result (xs ++ ys) =
  addUnlessDuplicate name (addUnlessDuplicate name result xs) ys.
Proof. revert result; induction xs as [|x xs IH]; intros; simpl; [done|]. by case_match. Qed.

(** An item taken until a name is taken: a prefix of the items, which ends at the
    first name that is taken. *)
Lemma addUntilDuplicate_spec result items :
  ∃ taken rest, items = taken ++ rest ∧
    addUntilDuplicate name result items = result ++ taken ∧
    ∀ x, head rest = Some x → name x ∈ map name (result ++ taken).
Proof.
  revert result; induction items as [|y items IH]; intros result; simpl.
  { exists [], []. rewrite (app_nil_r result). split_and!; [done..|]. intros x [=]. }
  destruct (existsIn _ result) eqn:E.
  - exists [], (y :: items). rewrite (app_nil_r result). split; [done|]. split; [done|].
    intros x [= <-]. by apply taken_spec.
  - destruct (IH (result ++ [y])) as (taken & rest & -> & -> & Hh).
    exists (y :: taken), rest. rewrite <-!app_assoc in *. split_and!; done.
Qed.

Lemma addUntilDuplicate_NoDup result items :
  NoDup (map name result) → NoDup (map name (addUntilDuplicate name result items)).
Proof.
  revert result; induction items as [|y items IH]; intros result Hd; simpl; [done|].
  destruct (existsIn _ result) eqn:E; [done|]. apply IH.
  by apply NoDup_snoc_name; [apply taken_false|].
Qed.
End unique_spec.

Lemma fold_left_preserves {A B} (P : A → Prop) (f : A → B → A) bs a :
  (∀ a b, P a → P (f a b)) → P a → P (fold_left f bs a).
Proof. intros Hf. revert a. induction bs; simpl; auto. Qed.

(** C28: The pod monitors of all repositories: every name once, and for each name
    the first entry that has it, in the order of the indexes; nothing else. *)
Theorem getUniquePodMonitors_spec indexes :
  NoDup (map res_Name (getUniquePodMonitors indexes)) ∧
  ∀ m, m ∈ getUniquePodMonitors indexes ↔
    ∃ pre post, concat (map podMonitorsOf indexes) = pre ++ m :: post ∧
      res_Name m ∉ map res_Name pre.
Proof.
  assert (∀ result, fold_left
      (λ r i, addUnlessDuplicate res_Name r (podMonitorsOf i)) indexes result =
    addUnlessDuplicate res_Name result (concat (map podMonitorsOf indexes))) as Hall.
  { induction indexes as [|i rest IH]; intros result; simpl; [done|].
    by rewrite IH, addUnlessDuplicate_app. }
  unfold getUniquePodMonitors. rewrite Hall. split.
  - apply addUnlessDuplicate_NoDup. constructor.
  - intros m. rewrite addUnlessDuplicate_spec. simpl. set_solver.
Qed.

Lemma getUniqueRules_collects indexes index :
  NoDup (map res_Name (getUniqueRules indexes)) ∧
  ∃ taken rest, rulesOf index = taken ++ rest ∧
    getUniqueRules (indexes ++ [index]) = getUniqueRules indexes ++ taken ∧
    ∀ r, head rest = Some r → res_Name r ∈ map res_Name (getUniqueRules indexes ++ taken).
Proof.
  unfold getUniqueRules. rewrite fold_left_app. split; [|apply addUntilDuplicate_spec].
  apply (fold_left_preserves (λ r, NoDup (map res_Name r))); [|constructor].
  intros. by apply addUntilDuplicate_NoDup.
Qed.

Lemma getUniqueDashboards_collects indexes index :
  NoDup (map di_Name (getUniqueDashboards indexes)) ∧
  ∃ taken rest, dashboardsOf index = taken ++ rest ∧
    getUniqueDashboards (indexes ++ [index]) = getUniqueDashboards indexes ++ taken ∧
    ∀ d, head rest = Some d → di_Name d ∈ map di_Name (getUniqueDashboards indexes ++ taken).
Proof.
  unfold getUniqueDashboards. rewrite fold_left_app. split; [|apply addUntilDuplicate_spec].
  apply (fold_left_preserves (λ r, NoDup (map di_Name r))); [|constructor].
  intros. by apply addUntilDuplicate_NoDup.
Qed.

(** C29: Rules and dashboards are collected index by index: every name once, and
    of each index the entries up to the first whose name is taken already.  What
    follows that entry in the index is left out, whether its name is taken or
    not. *)
Theorem unique_until_duplicate indexes index :
  (NoDup (map res_Name (getUniqueRules indexes)) ∧
   ∃ taken rest, rulesOf index = taken ++ rest ∧
     getUniqueRules (indexes ++ [index]) = getUniqueRules indexes ++ taken ∧
     ∀ r, head rest = Some r → res_Name r ∈ map res_Name (getUniqueRules indexes ++ taken)) ∧
  (NoDup (map di_Name (getUniqueDashboards indexes)) ∧
   ∃ taken rest, dashboardsOf index = taken ++ rest ∧
     getUniqueDashboards (indexes ++ [index]) = getUniqueDashboards indexes ++ taken ∧
     ∀ d, head rest = Some d → di_Name d ∈ map di_Name (getUniqueDashboards indexes ++ taken)).
Proof. split; [apply getUniqueRules_collects|apply getUniqueDashboards_collects]. Qed.

Definition rulesIndex (id : string) (rules : list string) : RepositoryIndex :=
  mkRepositoryIndex "https://example.org" EmptyString EmptyString None id
    (Some (mkRepositoryConfig None
      (Some (mkPrometheusIndex rules [] EmptyString EmptyString EmptyString EmptyString
               None None None None None None None None None))
      None None [])).

(** A rule whose name no other entry has is not collected when an earlier
    entry of its index repeats a name. *)
Lemma getUniqueRules_drops_unique :
  map res_Name (getUniqueRules
    [rulesIndex "a" ["rules/kafka.yaml"]; rulesIndex "b" ["rules/kafka.yaml"; "rules/dns.yaml"]])
  = ["kafka"].
Proof. vm_compute. reflexivity. Qed.

(** ** What is deleted *)

(** Everything that is listed and not requested is deleted, in list order, and
    nothing else; an error of the list call or of a delete request ends it. *)
Lemma deleteUnrequested_wp k ns requested :
  wp (deleteUnrequested k ns requested) (λ tr o,
    ∃ (r : list (Object k) + error) tr', tr = (CList k ns None ⇝ r) :: tr' ∧
    match r, o with
    | inr e, Done (Some e') => e = e' ∧ tr' = []
    | inl os, Done None =>
        tr' = deletedAll (List.filter (λ o, negb (requested (nameOf o))) os)
    | inl os, Done (Some e) => ∃ pre x post,
        List.filter (λ o, negb (requested (nameOf o))) os = pre ++ x :: post ∧
        tr' = deletedAll pre ++ [CDelete x ⇝ Some e]
    | _, _ => False
    end).
Proof.
  apply wp_request. intros [os|e]; simpl; [|by eexists _, []].
  eapply wp_mono; [|apply deleteWhere_wp]. intros tr [[e|]|] H; [..|done];
    by eexists _, tr.
Qed.

(** C20: When the cleanup of rules succeeds, exactly the listed rules whose name is
    not requested were deleted, in the namespace of the Prometheus operator. *)
Theorem deleteUnrequestedRules_exact cr rules :
  wp (deleteUnrequestedRules cr rules) (λ tr o, o = Done None →
    ∃ os : list (Object KPrometheusRule),
      tr = (CList KPrometheusRule (GetPrometheusOperatorNamespace cr) None ⇝ inl os) ::
           deletedAll (List.filter (λ o, bool_decide (nameOf o ∉ map res_Name rules)) os)).
Proof.
  eapply wp_mono; [|apply deleteUnrequested_wp].
  intros tr o ([os|e] & tr' & -> & H) ->; [|done]. exists os. subst. do 2 f_equal.
  apply List.filter_ext. intros a. case_bool_decide as Hn.
  - apply negb_true_iff, existsIn_false. intros x Hx. apply bool_decide_eq_false.
    intros E. apply Hn, list_elem_of_fmap. eauto.
  - apply negb_false_iff, existsIn_spec. apply list_elem_of_fmap in Hn.
    destruct Hn as (x & E & Hx). exists x. split; [done|]. by apply bool_decide_eq_true.
Qed.

(** ** What is fetched and written *)

Section fetch_spec.
Context `{Net} `{Codec}.

Lemma getUrl_wp url headers failed read status :
  wp (getUrl url headers failed read status) (λ tr o,
    ∃ r, tr = [CHttp (mkRequest "GET" url headers []) ⇝ r] ∧
    match o with
    | Done (inl b) => ∃ resp, r = inl resp ∧ resp_StatusCode resp = 200%Z ∧ resp_Body resp = inl b
    | Done (inr _) => ∀ resp b, r = inl resp → resp_Body resp = inl b → resp_StatusCode resp ≠ 200%Z
    | Panicked => False
    end).
Proof.
  apply wp_request. intros [resp|e]; simpl.
  - case_decide; [destruct (resp_Body resp) eqn:E|]; simpl; eexists; (split; [done|]).
    + by exists resp.
    + intros ?? [= <-]. by rewrite E.
    + by intros ?? [= <-].
  - eexists. split; [done|]. by intros ?? [=].
Qed.

(** C30: A resource is fetched with at most one request.  The access token is in
    its headers only when the URL contains github.com; the contents are the body
    of a response with status 200. *)
Theorem fetchResource_spec path tag token :
  wp (fetchResource path tag token) (λ tr o,
    o ≠ Panicked ∧
    (tr = [] ∨ ∃ req r, tr = [CHttp req ⇝ r] ∧
       (req_Header req ≠ [] → token ≠ EmptyString ∧ Strings.Contains path "github.com" = true)) ∧
    ∀ b, o = Done (inl b) → ∃ req resp, tr = [CHttp req ⇝ inl resp] ∧
      resp_StatusCode resp = 200%Z ∧ resp_Body resp = inl b).
Proof.
  unfold fetchResource. destruct (ParseRequestURI path); [|naive_solver].
  destruct (NewRequest _); [|naive_solver].
  eapply wp_mono; [|apply getUrl_wp]. intros tr o (r & -> & Ho). split_and!.
  - by intros ->.
  - right. eexists _, r. split; [done|]. cbn [req_Header].
    destruct (nonempty token && _) eqn:E; [|done]. intros _. unfold nonempty in E.
    bool_props. split; [|done]. by intros ->.
  - intros b ->. destruct Ho as (resp & -> & ? & ?). by eexists _, resp.
Qed.

Context `{ControllerUtil}.

(** What the sync of a rule file may write: the object named after the file, with
    the label of the operator, every rule labelled with the id of its
    repository. *)
Definition syncedRule (cr : Observability) (rule : ResourceInfo) (o : Object KPrometheusRule)
  : Prop :=
  keyOf o = mkKey KPrometheusRule (GetPrometheusOperatorNamespace cr) (res_Name rule) ∧
  gomap_get (Labels (meta o)) "managed-by" = Some "observability-operator" ∧
  ∀ g r, g ∈ rule_Groups (body o) → r ∈ group_Rules g →
    gomap_get (rule_Labels r) PrometheusRuleIdentifierKey = Some (res_Id rule).

Lemma MergeLabels_requested requested existing k v :
  gomap_get requested k = Some v → gomap_get (MergeLabels requested existing) k = Some v.
Proof.
  destruct existing as [m|]; simpl; [|done]. intros Hk.
  unfold gomap_get in *; simpl. by rewrite lookup_union, Hk, union_Some_l.
Qed.

Lemma injectIdLabel_labels id b g r :
  g ∈ rule_Groups (injectIdLabel id b) → r ∈ group_Rules g →
  gomap_get (rule_Labels r) PrometheusRuleIdentifierKey = Some id.
Proof.
  simpl. intros (g' & -> & _)%list_elem_of_fmap (r' & -> & _)%list_elem_of_fmap.
  apply lookup_insert_eq.
Qed.

(** C13: Every object a sync of the rules writes is named after a requested rule
    file, lives in the namespace of the Prometheus operator, carries the label
    managed-by, and labels each of its rules with the id of the repository. *)
Theorem createRequestedRules_writes cr rules :
  allSteps (λ s, match callWrites (projT1 s) with
    | None => True
    | Some _ => ∃ rule (o : Object KPrometheusRule), rule ∈ rules ∧ syncedRule cr rule o ∧
        (projT1 s = CCreate o ∨ projT1 s = CUpdate o)
    end) (createRequestedRules cr rules).
Proof.
  apply allSteps_forEach. intros rule Hr. apply allSteps_bind.
  { unfold fetchResource. destruct (ParseRequestURI _); [|apply allSteps_ret].
    destruct (NewRequest _); [|apply allSteps_ret]. eapply wp_mono; [|apply getUrl_wp].
    intros tr o (r & -> & _). repeat constructor. }
  intros [bytes|e]; [|apply allSteps_ret]. unfold parseRuleFromYaml.
  destruct (decodeRule bytes) as [parsed|e]; [|apply allSteps_ret].
  apply allSteps_bind; [|intros []; apply allSteps_ret].
  assert (∀ o : Object KPrometheusRule,
    let o' := withMeta (set_Labels (MergeLabels managedBy (Labels (meta parsed))))
      (withBody (k:=KPrometheusRule) (injectIdLabel (res_Id rule) (body parsed)) o) in
    keyOf o' = mkKey KPrometheusRule (GetPrometheusOperatorNamespace cr) (res_Name rule) →
    syncedRule cr rule o') as Hs.
  { intros o o' Hk. split_and!; [done|by apply MergeLabels_requested|].
    apply injectIdLabel_labels. }
  apply allSteps_CreateOrUpdate_pure; [done|..]; intros o x Hk; simpl;
    eexists rule, _; (split_and!; [done|by apply Hs|]); auto.
Qed.
End fetch_spec.
End configuration.

(** ** The copies in the Grafana configuration stage

    grafana_configuration_reconciler.go has helpers of its own for dashboards,
    which nothing calls. *)
Module grafana_configuration_source.
Import configuration.
Section with_codec.
Context `{Net} `{Codec}.

Definition getFileType (path : string) : SourceType :=
  match Strings.Split path "."%char with
  | [] => SourceTypeUnknown
  | fragments =>
      let extension := Strings.TrimSpace (List.last fragments EmptyString) in
      let lower := Strings.ToLower extension in
      if decide (lower = "json") then SourceTypeJson
      else if decide (lower = "grafonnet") then SourceTypeJsonnet
      else if decide (lower = "jsonnet") then SourceTypeJsonnet
      else if decide (lower = "yaml") then SourceTypeYaml
      else SourceTypeUnknown
  end.

Definition parseDashboardFromYaml (cr : Observability) (name source : string)
  : Object KGrafanaDashboard + error :=
  match decodeDashboard source with
  | inr e => inr e
  | inl dashboard =>
      inl (withMeta (set_Name name) (withMeta (set_Namespace (namespaceOf cr)) dashboard))
  end.

Definition createDashbaordFromSource (cr : Observability) (name : string) (t : SourceType)
    (source : string) : Object KGrafanaDashboard + error :=
  let dashboard := stub KGrafanaDashboard name (namespaceOf cr) in
  match t with
  | SourceTypeJson =>
      inl (withBody (k:=KGrafanaDashboard) (mkGrafanaDashboardBody source EmptyString JNull) dashboard)
  | SourceTypeJsonnet =>
      inl (withBody (k:=KGrafanaDashboard) (mkGrafanaDashboardBody EmptyString source JNull) dashboard)
  | _ => inr (OtherError ("unknown dashboard type: " +:+ name))
  end.

(** The copies agree with the helpers of the configuration stage. *)
Lemma copies_agree cr name t source path :
  getFileType path = configuration.getFileType path ∧
  parseDashboardFromYaml cr name source = configuration.parseDashboardFromYaml cr name source ∧
  createDashbaordFromSource cr name t source = configuration.createDashboardFromSource cr name t source.
Proof.
  split; [|by destruct t; split]. unfold getFileType, configuration.getFileType.
  destruct (Strings.Split path "."%char) eqn:Hs; [|done]. exfalso. revert Hs. clear.
  destruct path as [|a path]; simpl; [done|]. destruct (Ascii.eqb a "."%char); [done|].
  by destruct (Strings.Split path "."%char).
Qed.
End with_codec.
End grafana_configuration_source.
