(* ===== verification/AlertmanagerConfig.v ===== *)
(** * Alertmanager (controllers/reconcilers/configuration/alertmanager.go and
    origin_proxy.go)

    The Alertmanager resource, and its configuration file: one route and receiver
    per repository index and notification channel. *)

From Stdlib Require Import Ascii.
From S2P Require Import Prelude GoLib ApiTypes K8s Prog Client Api ModelPrometheus ModelResources.
From S2P Require Import Utils External Sync.
Import configuration.

Module alertmanager.

(** ** Shared with the Prometheus resource *)

Definition DefaultOriginOauthProxyImage : string :=
  "registry.redhat.io/openshift4/ose-oauth-proxy:v4.12".

Definition GetOriginOauthProxyImage (cr : Observability) : string :=
  scStringOr sc_OriginOauthProxyImage DefaultOriginOauthProxyImage cr.

(** The host of a route that is ready; a route that is not found keeps the zero
    value of the local object, which counts as ready and has no host. *)
Definition readyHost (route : Route) : prog (string + error) :=
  let host (r : Route) : string :=
    if IsRouteReady (Some r) then route_Host (route_Spec (body r)) else EmptyString in
  r ← Get KRoute (namespaceOf route) (nameOf route);
  match r with
  | inl route' => Ret (inl (host route'))
  | inr e => if IsNotFound e then Ret (inl (host route)) else Ret (inr e)
  end.

(** The JSON text [{"resource": "namespaces", "verb": "get"}]. *)
Definition namespacesGet : string :=
  "{" +:+ quoted "resource" +:+ ": " +:+ quoted "namespaces" +:+ ", " +:+
  quoted "verb" +:+ ": " +:+ quoted "get" +:+ "}".

Definition openshiftSar : string := "-openshift-sar=" +:+ namespacesGet.
Definition openshiftDelegateUrls : string :=
  "-openshift-delegate-urls={" +:+ quoted "/" +:+ ": " +:+ namespacesGet +:+ "}".

Definition safeToEvict : gomap string :=
  mapOf [("cluster-autoscaler.kubernetes.io/safe-to-evict", "true")].

Definition proxyEnv : list EnvVar :=
  [EnvValue "HTTP_PROXY" EmptyString; EnvValue "HTTPS_PROXY" EmptyString;
   EnvValue "NO_PROXY" EmptyString].

(** A container; the fields that are not given are zero. *)
Definition containerOf (name image : string) (args : list string) (ports : list ContainerPort)
    (env : list EnvVar) (mounts : list VolumeMount) : Container :=
  mkContainer name image [] args ports env mounts EmptyString None EmptyString EmptyString.

Section with_util.
Context `{Net} `{Codec} `{ControllerUtil}.

(** ** The Alertmanager resource *)

(** The repository's size is parsed, but the storage of the custom resource is
    used in any case. *)
Definition getAlertManagerStorageSpecHelper (cr : Observability)
    (indexes : list RepositoryIndex) (own : StorageSpec) : StorageSpec + error :=
  let size := GetAlertmanagerStorageSize cr indexes in
  if nonempty size then
    match ParseQuantity size with
    | inl _ => inl own
    | inr e => inr e
    end
  else inl own.

Definition alertmanagerProxy (cr : Observability) : Container :=
  containerOf "oauth-proxy" (GetOriginOauthProxyImage cr)
    ["-provider=openshift"; "-https-address=:9091"; "-http-address="; "-email-domain=*";
     "-upstream=http://localhost:9093"; openshiftSar; openshiftDelegateUrls;
     "-tls-cert=/etc/tls/private/tls.crt"; "-tls-key=/etc/tls/private/tls.key";
     "-client-secret-file=/var/run/secrets/kubernetes.io/serviceaccount/token";
     "-cookie-secret-file=/etc/proxy/secrets/session_secret";
     "-openshift-service-account=" +:+ nameOf (GetAlertmanagerServiceAccount cr);
     "-openshift-ca=/etc/pki/tls/cert.pem";
     "-openshift-ca=/var/run/secrets/kubernetes.io/serviceaccount/ca.crt";
     "-skip-auth-regex=^/metrics"]
    [mkContainerPort "proxy" 9091 EmptyString] proxyEnv
    [mkVolumeMount "secret-alertmanager-k8s-tls" "/etc/tls/private";
     mkVolumeMount ("secret-" +:+ nameOf (GetAlertmanagerProxySecret cr)) "/etc/proxy/secrets"].

Definition alertmanagerSpec (cr : Observability) (host : string) (storage : option StorageSpec)
  : AlertmanagerBody :=
  mkAlertmanagerBody safeToEvict (GetAlertmanagerSecretName cr) true ("https://" +:+ host)
    (nameOf (GetAlertmanagerServiceAccount cr))
    [nameOf (GetAlertmanagerProxySecret cr); "alertmanager-k8s-tls"]
    ObservabilityPriorityClassName [alertmanagerProxy cr] (GetAlertmanagerVersion cr)
    (GetAlertmanagerResourceRequirement cr) storage.

Definition mutateAlertmanager (cr : Observability) (indexes : list RepositoryIndex)
    (host : string) : MutateFn KAlertmanager := λ am,
  let write storage := withBody (k:=KAlertmanager) (alertmanagerSpec cr host storage) am in
  match spec_Storage (specOf cr) ?> st_AlertManagerStorageSpec with
  | Some own =>
      match getAlertManagerStorageSpecHelper cr indexes own with
      | inl s => Ret (write (Some s), None)
      | inr e => Ret (write None, Some e)
      end
  | None => Ret (write None, None)
  end.

Definition reconcileAlertmanager (cr : Observability) (indexes : list RepositoryIndex)
  : prog (option error) :=
  h ← readyHost (GetAlertmanagerRoute cr);
  match h with
  | inr e => Ret (Some e)
  | inl host =>
      '(_, e) ← CreateOrUpdate (GetAlertmanagerCr cr) (mutateAlertmanager cr indexes host);
      Ret e
  end.

(** ** Credentials of the notification channels *)

(** The first of two keys with a value; the empty string when neither has one. *)
Definition firstKey (data : gomap string) (k1 k2 : string) : string :=
  if nonempty (gomap_str data k1) then gomap_str data k1 else gomap_str data k2.

(** Read a secret by name, in its own namespace or the one of the resource. *)
Definition getSecretData (cr : Observability) (ns name : string) : prog (gomap string + error) :=
  r ← Get KSecret (if nonempty ns then ns else namespaceOf cr) name;
  match r with
  | inl s => Ret (inl (secret_Data (body s)))
  | inr e => Ret (inr e)
  end.

Definition getPagerDutySecret (cr : Observability) (config : option AlertmanagerIndex)
  : prog (string + error) :=
  match config with
  | None => Ret (inl "dummy")
  | Some c =>
      if nonempty (ai_PagerDutySecretName c) then
        d ← getSecretData cr (ai_PagerDutySecretNamespace c) (ai_PagerDutySecretName c);
        match d with
        | inl data => Ret (inl (firstKey data "PAGERDUTY_KEY" "serviceKey"))
        | inr e => Ret (inr e)
        end
      else Ret (inl "dummy")
  end.

Definition getDeadMansSnitchUrl (cr : Observability) (config : option AlertmanagerIndex)
  : prog (string + error) :=
  match config with
  | None => Ret (inl "http://dummy")
  | Some c =>
      if nonempty (ai_DeadmansSnitchSecretName c) then
        d ← getSecretData cr (ai_DeadmansSnitchSecretNamespace c) (ai_DeadmansSnitchSecretName c);
        match d with
        | inl data => Ret (inl (firstKey data "SNITCH_URL" "url"))
        | inr e => Ret (inr e)
        end
      else Ret (inl "http://dummy")
  end.

(** The entries of the secret that have a value. *)
Definition smtpEntries (data : gomap string) : gmap string string :=
  foldr (λ key m, if nonempty (gomap_str data key)
                  then <[key := gomap_str data key]> m else m) ∅
    ["password"; "username"; "host"; "port"].

Definition getSmtpSecret (cr : Observability) (config : option AlertmanagerIndex)
  : prog (gmap string string + error) :=
  match config with
  | None => Ret (inl ∅)
  | Some c =>
      if nonempty (ai_SmtpSecretName c) then
        d ← getSecretData cr (ai_SmtpSecretNamespace c) (ai_SmtpSecretName c);
        match d with
        | inl data => Ret (inl (smtpEntries data))
        | inr e => Ret (inr e)
        end
      else Ret (inl ∅)
  end.

Definition dummySmtp : gmap string string :=
  list_to_map [("password", "dummy"); ("username", "dummy"); ("host", "dummy");
               ("port", "dummy")].

Definition plainGlobal : AlertmanagerConfigGlobal :=
  mkGlobal "5m" EmptyString EmptyString EmptyString EmptyString false.

Definition smtpGlobal (secret : gmap string string) (from : string) : AlertmanagerConfigGlobal :=
  let s := if decide (secret = ∅) then dummySmtp else secret in
  let get key := gomap_str (Some s) key in
  mkGlobal "5m" (get "host" +:+ ":" +:+ get "port") from (get "username") (get "password") false.

Definition hasSmtpAddresses (c : AlertmanagerIndex) : bool :=
  match ai_SmtpToEmailAddress c with
  | [] => false
  | _ :: _ => nonempty (ai_SmtpFromEmailAddress c)
  end.

(** The global section.  With SMTP enabled the first index is read without a
    check: no index, or one without an Alertmanager configuration, panics. *)
Definition createGlobalConfig (cr : Observability) (indexes : list RepositoryIndex)
  : prog (AlertmanagerConfigGlobal + error) :=
  if SmtpDisabled cr then Ret (inl plainGlobal)
  else
    am ← deref (head indexes ?> idx_Config ?> rc_Alertmanager);
    if hasSmtpAddresses am then
      r ← getSmtpSecret cr (Some am);
      match r with
      | inr e => Ret (inr e)
      | inl secret => Ret (inl (smtpGlobal secret (ai_SmtpFromEmailAddress am)))
      end
    else Ret (inl plainGlobal).

(** ** Routes and receivers *)

(** The receivers and the routes collected so far. *)
Definition Collected : Type := list AlertmanagerConfigReceiver * list AlertmanagerConfigRoute.

Definition collect (c : Collected) (receiver : AlertmanagerConfigReceiver)
    (repeat : string) (labels : list (string * string)) : Collected :=
  (c.1 ++ [receiver], c.2 ++ [mkAmRoute (rcv_Name receiver) repeat (mapOf labels) []]).

Definition pagerDutyReceiver (id key : string) : AlertmanagerConfigReceiver :=
  mkReceiver (id +:+ "-pagerduty") [mkPagerDutyConfig key] [] [].
Definition snitchReceiver (id url : string) : AlertmanagerConfigReceiver :=
  mkReceiver (id +:+ "-deadmanssnitch") [] [mkWebhookConfig url] [].
Definition smtpReceiver (id to : string) : AlertmanagerConfigReceiver :=
  mkReceiver (id +:+ "-smtp") [] [] [mkEmailConfig true to].

(** One channel; [false] is the [continue] of the loop after an error. *)
Definition collectPagerDuty (cr : Observability) (id : string) (am : AlertmanagerIndex)
    (c : Collected) : prog (Collected * bool) :=
  if PagerDutyDisabled cr then Ret (c, true)
  else
    r ← getPagerDutySecret cr (Some am);
    match r with
    | inr _ => Ret (c, false)
    | inl key =>
        Ret (collect c (pagerDutyReceiver id key) EmptyString
               [("severity", "critical"); (PrometheusRuleIdentifierKey, id)], true)
    end.

Definition collectSnitch (cr : Observability) (id : string) (am : AlertmanagerIndex)
    (c : Collected) : prog (Collected * bool) :=
  if DeadMansSnitchDisabled cr then Ret (c, true)
  else
    r ← getDeadMansSnitchUrl cr (Some am);
    match r with
    | inr _ => Ret (c, false)
    | inl url =>
        Ret (collect c (snitchReceiver id url) "5m"
               [("alertname", "DeadMansSwitch"); (PrometheusRuleIdentifierKey, id)], true)
    end.

Definition collectSmtp (cr : Observability) (id : string) (am : AlertmanagerIndex)
    (c : Collected) : Collected :=
  if negb (SmtpDisabled cr) && hasSmtpAddresses am then
    collect c (smtpReceiver id (Strings.Join (ai_SmtpToEmailAddress am) ",")) EmptyString
      [("severity", "warning"); (PrometheusRuleIdentifierKey, id)]
  else c.

(** One index: a channel that fails skips the rest of the index and keeps what
    was collected before. *)
Definition collectIndex (cr : Observability) (c : Collected) (index : RepositoryIndex)
  : prog Collected :=
  match idx_Config index ?> rc_Alertmanager with
  | None => Ret c
  | Some am =>
      '(c1, goOn) ← collectPagerDuty cr (idx_Id index) am c;
      if (goOn : bool) then
        '(c2, goOn) ← collectSnitch cr (idx_Id index) am c1;
        if (goOn : bool) then Ret (collectSmtp cr (idx_Id index) am c2) else Ret c2
      else Ret c1
  end.

Fixpoint collectIndexes (cr : Observability) (c : Collected) (indexes : list RepositoryIndex)
  : prog Collected :=
  match indexes with
  | [] => Ret c
  | index :: rest => c' ← collectIndex cr c index; collectIndexes cr c' rest
  end.

Definition defaultReceiver : AlertmanagerConfigReceiver := mkReceiver "default-receiver" [] [] [].

Definition alertmanagerConfig (cr : Observability) (indexes : list RepositoryIndex)
  : prog (AlertmanagerConfigRoot + error) :=
  g ← createGlobalConfig cr indexes;
  match g with
  | inr e => Ret (inr e)
  | inl global =>
      c ← collectIndexes cr ([defaultReceiver], []) indexes;
      Ret (inl (mkAmRoot global (mkAmRoute "default-receiver" "12h" None c.2) c.1))
  end.

Definition reconcileAlertmanagerSecret (cr : Observability) (indexes : list RepositoryIndex)
  : prog (option error) :=
  c ← alertmanagerConfig cr indexes;
  match c with
  | inr e => Ret (Some e)
  | inl config =>
      match marshalAlertmanager config with
      | inr e => Ret (Some e)
      | inl text =>
          '(_, e) ← CreateOrUpdate (GetAlertmanagerSecret cr) (pureMutate (λ s : Secret,
             withBody (k:=KSecret) (mkSecretBody "Opaque" (secret_Data (body s))
                                      (mapOf [("alertmanager.yaml", text)])) s));
          Ret e
      end
  end.
End with_util.

(** ** The configuration is well formed *)

Definition channels : list string := ["-pagerduty"; "-deadmanssnitch"; "-smtp"].

Fixpoint lastChar (s : string) : ascii :=
  match s with
  | EmptyString => zero
  | String a EmptyString => a
  | String _ s' => lastChar s'
  end.

Lemma lastChar_app s a t : lastChar (s +:+ String a t) = lastChar (String a t).
Proof.
  induction s as [|b s IH]; [done|]. rewrite <-IH. by destruct s.
Qed.

Lemma string_app_inj_r s1 s2 t : s1 +:+ t = s2 +:+ t → s1 = s2.
Proof.
  revert s2. induction s1 as [|a s1 IH]; intros [|b s2] Heq; [done| | |];
    [apply (f_equal String.length) in Heq; rewrite !Html.app_length_string in Heq;
     cbn in Heq; lia..|].
  injection Heq as -> Heq. f_equal. eauto.
Qed.

(** A receiver name tells the index and the channel. *)
Lemma receiverName_inj id1 id2 s1 s2 :
  s1 ∈ channels → s2 ∈ channels → id1 +:+ s1 = id2 +:+ s2 → id1 = id2 ∧ s1 = s2.
Proof.
  intros H1 H2 Heq. assert (s1 = s2) as ->.
  { apply (f_equal lastChar) in Heq. unfold channels in *.
    repeat (apply elem_of_cons in H1 as [->|H1]); [..|by apply elem_of_nil in H1];
    (repeat (apply elem_of_cons in H2 as [->|H2]); [..|by apply elem_of_nil in H2]);
      rewrite !lastChar_app in Heq; done. }
  split; [|done]. by eapply string_app_inj_r.
Qed.

Lemma receiverName_not_default id s : s ∈ channels → id +:+ s ≠ "default-receiver".
Proof.
  intros Hs Heq. apply (f_equal lastChar) in Heq. unfold channels in Hs.
  repeat (apply elem_of_cons in Hs as [->|Hs]); [..|by apply elem_of_nil in Hs];
    rewrite lastChar_app in Heq; done.
Qed.

(** What has been collected, with the pairs of index and channel that were
    added. *)
Definition routeOk (used : list (string * string)) (r : AlertmanagerConfigRoute) : Prop :=
  ∃ id s, (id, s) ∈ used ∧ r_Receiver r = id +:+ s ∧
    gomap_get (r_Match r) PrometheusRuleIdentifierKey = Some id.

Record collectedOk (used : list (string * string)) (c : Collected) : Prop := {
  col_channels : ∀ id s, (id, s) ∈ used → s ∈ channels;
  col_names : map rcv_Name c.1 ≡ₚ "default-receiver" :: map (λ p, p.1 +:+ p.2) used;
  col_nodup : NoDup used;
  col_routes : Forall (routeOk used) c.2;
}.

Lemma collectedOk_collect used c id s receiver repeat labels :
  collectedOk used c → s ∈ channels → (id, s) ∉ used → rcv_Name receiver = id +:+ s →
  gomap_get (mapOf labels) PrometheusRuleIdentifierKey = Some id →
  collectedOk ((id, s) :: used) (collect c receiver repeat labels).
Proof.
  intros [Hc Hn Hd Hr] Hs Hnew Hname Hl. split.
  - intros id' s'. rewrite elem_of_cons. naive_solver.
  - simpl. rewrite map_app, Hn. simpl. rewrite Hname. solve_Permutation.
  - by constructor.
  - simpl. apply Forall_app. split.
    + eapply Forall_impl; [exact Hr|]. intros r (id' & s' & ? & ? & ?).
      exists id', s'. split_and!; [by constructor|done..].
    + constructor; [|done]. exists id, s. split_and!; [constructor|done..].
Qed.

Lemma collectedOk_names used c : collectedOk used c → NoDup (map rcv_Name c.1).
Proof.
  intros [Hc Hn Hd Hr]. rewrite Hn. apply NoDup_cons. split.
  - intros ([id s] & Heq & Hin)%list_elem_of_fmap. symmetry in Heq.
    by apply receiverName_not_default in Heq; [|eauto].
  - clear Hn Hr. induction Hd as [|[id s] used Hx Hd IH]; [constructor|]. simpl.
    constructor.
    + intros ([id' s'] & Heq & Hin)%list_elem_of_fmap. simpl in Heq.
      apply receiverName_inj in Heq as [-> ->]; [done|..]; eapply Hc; [left|by right].
    + apply IH. intros id' s' ?. eapply Hc. by right.
Qed.

(** What a channel may add. *)
Definition grown (id s : string) (used : list (string * string)) (c' : Collected) : Prop :=
  collectedOk used c' ∨ collectedOk ((id, s) :: used) c'.

Lemma grown_collect used c id s receiver repeat labels :
  collectedOk used c → s ∈ channels → (id, s) ∉ used → rcv_Name receiver = id +:+ s →
  gomap_get (mapOf labels) PrometheusRuleIdentifierKey = Some id →
  grown id s used (collect c receiver repeat labels).
Proof. right. by apply collectedOk_collect. Qed.

Lemma collectPagerDuty_ok cr id am used c :
  collectedOk used c → (id, "-pagerduty") ∉ used →
  wp (collectPagerDuty cr id am c) (λ _ o, ∀ c' b, o = Done (c', b) →
    grown id "-pagerduty" used c').
Proof.
  intros Hc Hn. unfold collectPagerDuty. case_match; [intros ?? [= <- _]; by left|].
  apply wp_bind, wp_true. intros tr [[key|e]|] c' b; [..|done]; intros [= <- _]; [|by left].
  apply grown_collect; [done|set_solver|done..].
Qed.

Lemma collectSnitch_ok cr id am used c :
  collectedOk used c → (id, "-deadmanssnitch") ∉ used →
  wp (collectSnitch cr id am c) (λ _ o, ∀ c' b, o = Done (c', b) →
    grown id "-deadmanssnitch" used c').
Proof.
  intros Hc Hn. unfold collectSnitch. case_match; [intros ?? [= <- _]; by left|].
  apply wp_bind, wp_true. intros tr [[url|e]|] c' b; [..|done]; intros [= <- _]; [|by left].
  apply grown_collect; [done|set_solver|done..].
Qed.

Lemma collectSmtp_ok cr id am used c :
  collectedOk used c → (id, "-smtp") ∉ used → grown id "-smtp" used (collectSmtp cr id am c).
Proof.
  intros Hc Hn. unfold collectSmtp. case_match; [|by left].
  apply grown_collect; [done|set_solver|done..].
Qed.

(** What one index adds. *)
Lemma collectIndex_ok cr used c index :
  collectedOk used c → idx_Id index ∉ map fst used →
  wp (collectIndex cr c index) (λ _ o, ∀ c', o = Done c' → ∃ used', collectedOk used' c' ∧
    map fst used' ⊆ idx_Id index :: map fst used).
Proof.
  intros Hc Hid. set (id := idx_Id index) in *.
  assert (∀ s, (id, s) ∉ used) as Hnew.
  { intros s Hs. apply Hid, list_elem_of_fmap. by exists (id, s). }
  unfold collectIndex. destruct (idx_Config index ?> rc_Alertmanager) as [am|];
    [|intros c' [= <-]; exists used; set_solver].
  apply wp_bind. eapply wp_mono; [|by apply (collectPagerDuty_ok cr id am used)].
  intros _ [[c1 []]|] H1; [|intros c' [= <-]; destruct (H1 c1 false eq_refl); eexists; (split; [done|set_solver])|done].
  assert (∃ used1, collectedOk used1 c1 ∧ (used1 = used ∨ used1 = (id, "-pagerduty") :: used))
    as (used1 & Hc1 & Hu1) by (destruct (H1 c1 true eq_refl); eauto).
  apply wp_bind. eapply wp_mono; [|apply (collectSnitch_ok cr id am used1); [done|]].
  2: { destruct Hu1; subst used1; rewrite ?not_elem_of_cons; naive_solver. }
  intros _ [[c2 goOn]|] H2; [|done].
  assert (∃ used2, collectedOk used2 c2 ∧
    (used2 = used1 ∨ used2 = (id, "-deadmanssnitch") :: used1))
    as (used2 & Hc2 & Hu2) by (destruct (H2 c2 goOn eq_refl); eauto).
  assert (map fst used2 ⊆ id :: map fst used) as Hs2
    by (destruct Hu1, Hu2; subst; simpl; set_solver).
  destruct goOn; intros c' [= <-]; [|eauto].
  destruct (collectSmtp_ok cr id am used2 c2 Hc2) as [H3|H3]; [|eauto|].
  - destruct Hu1, Hu2; subst; rewrite ?not_elem_of_cons; naive_solver.
  - eexists. split; [exact H3|]. simpl. set_solver.
Qed.

Lemma collectIndexes_ok cr indexes used c :
  collectedOk used c → NoDup (map idx_Id indexes) →
  (∀ i, i ∈ indexes → idx_Id i ∉ map fst used) →
  wp (collectIndexes cr c indexes) (λ _ o, ∀ c', o = Done c' → ∃ used', collectedOk used' c' ∧
    map fst used' ⊆ map idx_Id indexes ++ map fst used).
Proof.
  revert used c. induction indexes as [|index rest IH]; intros used c Hc Hd Hnew.
  { intros c' [= <-]. exists used. set_solver. }
  apply NoDup_cons in Hd as [Hi Hd]. simpl.
  apply wp_bind. eapply wp_mono; [|apply (collectIndex_ok cr used); [done|apply Hnew; left]].
  intros _ [c1|] H1; [|done]. destruct (H1 c1 eq_refl) as (used1 & Hc1 & Hs1).
  eapply wp_mono; [|apply (IH used1 c1 Hc1 Hd)].
  - intros _ o H2 c' ->. destruct (H2 c' eq_refl) as (used' & Hc' & Hs').
    exists used'. split; [done|]. simpl. set_solver.
  - intros i Hin Hx. apply Hs1, elem_of_cons in Hx as [Heq|Hx].
    + apply Hi. rewrite <-Heq. apply list_elem_of_fmap. eauto.
    + eapply Hnew; [by right|done].
Qed.

(** C11: With distinct index ids, the generated Alertmanager configuration is well
    formed: no two receivers share a name, every route sends to a declared
    receiver, and each sub-route matches the repository id that its receiver is
    named after, the label the rules of that repository carry. *)
Theorem alertmanagerConfig_wellformed cr indexes :
  NoDup (map idx_Id indexes) →
  wp (alertmanagerConfig cr indexes) (λ _ o, ∀ root, o = Done (inl root) →
    let names := map rcv_Name (am_Receivers root) in
    NoDup names ∧ r_Receiver (am_Route root) ∈ names ∧
    ∀ r, r ∈ r_Routes (am_Route root) → r_Receiver r ∈ names ∧
      ∃ index channel, index ∈ indexes ∧ channel ∈ channels ∧
        r_Receiver r = idx_Id index +:+ channel ∧
        gomap_get (r_Match r) PrometheusRuleIdentifierKey = Some (idx_Id index)).
Proof.
  intros Hd. apply wp_bind, wp_true. intros _ [[global|e]|]; [|done|done].
  assert (collectedOk [] ([defaultReceiver], [])) as H0.
  { split; [set_solver|done|constructor|constructor]. }
  apply wp_bind. eapply wp_mono; [|apply (collectIndexes_ok cr indexes [] _ H0 Hd); by intros ?? ?%elem_of_nil].
  intros _ [c|] Hc; [|done]. destruct (Hc c eq_refl) as (used & Hok & Hs).
  intros root [= <-]. cbn -[channels]. pose proof (collectedOk_names _ _ Hok) as Hnd.
  destruct Hok as [Hch Hn _ Hr]. split_and!; [done|rewrite Hn; left|].
  intros r Hin. rewrite Forall_forall in Hr. destruct (Hr r Hin) as (id & s & Hu & Hrec & Hm).
  split.
  - rewrite Hn, Hrec. right. apply list_elem_of_fmap. by exists (id, s).
  - assert (id ∈ map idx_Id indexes) as (index & -> & Hindex)%list_elem_of_fmap.
    { rewrite app_nil_r in Hs. apply Hs, list_elem_of_fmap. by exists (id, s). }
    exists index, s. split_and!; eauto.
Qed.

Definition alertIndex (id : string) : RepositoryIndex :=
  mkRepositoryIndex "https://example.org" EmptyString EmptyString None id
    (Some (mkRepositoryConfig None None (Some zeroAlertmanagerIndex) None [])).

Lemma alertmanagerConfig_wellformed_witness :
  wp (alertmanagerConfig (stub KObservability "obs" "ns") [alertIndex "a"; alertIndex "b"])
    (λ _ o, ∀ root, o = Done (inl root) →
    let names := map rcv_Name (am_Receivers root) in
    NoDup names ∧ r_Receiver (am_Route root) ∈ names ∧
    ∀ r, r ∈ r_Routes (am_Route root) → r_Receiver r ∈ names ∧
      ∃ index channel, index ∈ [alertIndex "a"; alertIndex "b"] ∧ channel ∈ channels ∧
        r_Receiver r = idx_Id index +:+ channel ∧
        gomap_get (r_Match r) PrometheusRuleIdentifierKey = Some (idx_Id index)).
Proof.
  apply alertmanagerConfig_wellformed. simpl. repeat constructor; set_solver.
Defined.

(** Building the configuration panics exactly when SMTP is enabled and there is
    no index, or the first one has no Alertmanager section. *)
Lemma createGlobalConfig_panics cr indexes :
  wp (createGlobalConfig cr indexes) (λ _ o, o = Panicked ↔
    SmtpDisabled cr = false ∧ (head indexes ?> idx_Config ?> rc_Alertmanager) = None).
Proof.
  unfold createGlobalConfig. destruct (SmtpDisabled cr); [by split; [intros [=]|intros [[=]]]|].
  destruct (_ ?> rc_Alertmanager) as [am|]; simpl; [|done].
  destruct (hasSmtpAddresses am); [|by split; [intros [=]|intros [_ [=]]]].
  unfold getSmtpSecret. destruct (nonempty _); [|by split; [intros [=]|intros [_ [=]]]].
  intros [s|e]; simpl; by split; [intros [=]|intros [_ [=]]].
Qed.
End alertmanager.
