(* ===== verification/PrometheusCr.v ===== *)
(** * Prometheus (controllers/reconcilers/configuration/prometheus.go)

    The Prometheus resource with its remote-write targets, storage and selectors,
    the federation scrape configuration and the black-box exporter
    configuration. *)

From S2P Require Import Prelude GoLib ApiTypes K8s Prog Client Api ModelPrometheus ModelResources.
From S2P Require Import Utils Token External Sync AlertmanagerConfig.
Import configuration alertmanager.

Module prometheus.

Definition PrometheusBaseImage : string := "quay.io/prometheus/prometheus".
Definition PrometheusRetention : string := "45d".
Definition RemoteWriteOIDCSecretName : string := "observability-proxy-credentials".

(** ** Federation *)

Definition quotePattern (p : string) : string := "'" +:+ p +:+ "'".

(** [if !hasPattern(p) { result = append(result, quoted p) }] for each pattern. *)
Definition addPatterns (result patterns : list string) : list string :=
  fold_left (λ acc p,
    if existsIn (λ x, bool_decide (p = x)) acc then acc else acc ++ [quotePattern p])
    patterns result.

Definition getRetentionHelper (cr : Observability) : string :=
  if Retention.matches (spec_Retention (specOf cr)) then spec_Retention (specOf cr)
  else PrometheusRetention.

Section with_util.
Context `{Net} `{Codec} `{ControllerUtil}.

Definition fetchFederationConfigs (cr : Observability) (indexes : list RepositoryIndex)
  : prog (list string + error) :=
  if ExternalSyncDisabled cr then
    sc ← deref (selfContained cr); Ret (inl (sc_FederatedMetrics sc))
  else
    '(result, res) ← forEachS [] indexes (λ result index,
      match idx_Config index ?> rc_Prometheus with
      | None => Ret (result, None)
      | Some p =>
          if nonempty (pi_Federation p) then
            r ← fetchResource (idx_BaseUrl index +:+ "/" +:+ pi_Federation p)
                  (idx_Tag index) (idx_AccessToken index);
            match r with
            | inr e => Ret (result, Some e)
            | inl bytes =>
                match decodeFederation bytes with
                | inr e => Ret (result, Some e)
                | inl patterns => Ret (addPatterns result patterns, None)
                end
            end
          else Ret (result, None)
      end);
    match res with
    | Some e => Ret (inr e)
    | None => Ret (inl result)
    end.

Definition createAdditionalScrapeConfigSecret (cr : Observability) (patterns : list string)
  : prog (option error) :=
  '(_, e) ← CreateOrUpdate (GetPrometheusAdditionalScrapeConfig cr) (pureMutate (λ s : Secret,
     withBody (k:=KSecret) (mkSecretBody "Opaque" (secret_Data (body s))
       (mapOf [("additional-scrape-config.yaml", GetFederationConfigBearerToken patterns)])) s));
  Ret e.

(** The hash of the configuration, which the exporter's container carries. *)
Definition createBlackBoxConfig (cr : Observability) : prog (string * option error) :=
  '(cfg, hash) ← GetDefaultBlackBoxConfig cr;
  '(_, e) ← CreateOrUpdate (GetPrometheusBlackBoxConfig cr) (pureMutate (λ c : ConfigMap,
     withBody (k:=KConfigMap) (mkConfigMapBody (mapOf [("black-box-config.yaml", cfg)])) c));
  Ret (hash, e).

(** ** Remote write *)

Definition getRemoteWriteIndex (index : RepositoryIndex) : prog (RemoteWriteIndex + error) :=
  p ← deref (idx_Config index ?> rc_Prometheus);
  r ← fetchResource (idx_BaseUrl index +:+ "/" +:+ pi_RemoteWrite p)
        (idx_Tag index) (idx_AccessToken index);
  match r with
  | inr e => Ret (inr e)
  | inl bytes =>
      match decodeRemoteWrite bytes with
      | inr e => Ret (inr (WrapError "error parsing remote write index" e))
      | inl rw => Ret (inl rw)
      end
  end.

(** The secret, [None] when it is not there. *)
Definition GetOauth2ConfigSecret (cr : Observability) : prog (option Secret + error) :=
  r ← Get KSecret (namespaceOf cr) RemoteWriteOIDCSecretName;
  match r with
  | inl s => Ret (inl (Some s))
  | inr e => if IsNotFound e then Ret (inl None) else Ret (inr e)
  end.

Definition GetRemoteWriteOauth2Config (cr : Observability) : prog (option OAuth2 + error) :=
  r ← GetOauth2ConfigSecret cr;
  match r with
  | inr e => Ret (inr e)
  | inl None => Ret (inl None)
  | inl (Some secret) =>
      match JoinPath (gomap_str (secret_Data (body secret)) "issuer_url")
              "/protocol/openid-connect/token" with
      | inr e => Ret (inr e)
      | inl tokenUrl =>
          Ret (inl (Some (mkOAuth2 (RemoteWriteOIDCSecretName, "client_id")
                            (RemoteWriteOIDCSecretName, "client_secret") tokenUrl)))
      end
  end.

(** A target and the name of the token secret to mount, the empty string for
    none. *)
Definition getRemoteWriteSpecForDex (index : RepositoryIndex) (o : ObservatoriumIndex)
    (rw : RemoteWriteIndex) : prog ((RemoteWriteSpec * string) + error) :=
  tokenSecret ← GetObservatoriumPrometheusSecretName index;
  Ret (inl (mkRemoteWriteSpec
    (oi_Gateway o +:+ "/api/metrics/v1/" +:+ oi_Tenant o +:+ "/api/v1/receive")
    (idx_Id index) (rwi_RemoteTimeout rw) (rwi_WriteRelabelConfigs rw)
    ("/etc/prometheus/secrets/" +:+ tokenSecret +:+ "/token") true
    (rwi_ProxyUrl rw) (rwi_QueueConfig rw) None, tokenSecret)).

Definition getRemoteWriteSpecForRedHat (cr : Observability) (index : RepositoryIndex)
    (o : ObservatoriumIndex) (rw : RemoteWriteIndex)
  : prog ((RemoteWriteSpec * string) + error) :=
  r ← GetRemoteWriteOauth2Config cr;
  match r with
  | inr e => Ret (inr e)
  | inl oauth2 =>
      let target :=
        match oauth2 with
        | Some _ => oi_Gateway o
        | None =>
            "http://" +:+ GetTokenRefresherName (oi_Id o) MetricsTokenRefresher +:+ "." +:+
            GetPrometheusOperatorNamespace cr +:+ ".svc.cluster.local"
        end in
      Ret (inl (mkRemoteWriteSpec target (idx_Id index) (rwi_RemoteTimeout rw)
        (rwi_WriteRelabelConfigs rw) EmptyString true (rwi_ProxyUrl rw) (rwi_QueueConfig rw)
        oauth2, EmptyString))
  end.

Definition getRemoteWriteSpec (cr : Observability) (index : RepositoryIndex)
    (rw : RemoteWriteIndex) : prog ((RemoteWriteSpec * string) + error) :=
  let missing := OtherError ("no observatorium config found for " +:+ idx_Id index +:+
                             " / prometheus") in
  match idx_Config index ?> rc_Prometheus with
  | None => Ret (inr missing)
  | Some p =>
      if nonempty (pi_Observatorium p) then
        match GetObservatoriumConfig index (pi_Observatorium p) with
        | None =>
            Ret (inr (OtherError ("no observatorium config found for " +:+ pi_Observatorium p)))
        | Some o =>
            if decide (oi_AuthType o = AuthTypeDex) then getRemoteWriteSpecForDex index o rw
            else if decide (oi_AuthType o = AuthTypeRedhat)
            then getRemoteWriteSpecForRedHat cr index o rw
            else Ret (inr (OtherError ("unknown auth type " +:+ oi_AuthType o)))
        end
      else Ret (inr missing)
  end.

(** The targets and the secrets of all indexes; a target that cannot be built is
    left out, an index file that cannot be fetched is an error. *)
Definition collectRemoteWrites (cr : Observability) (indexes : list RepositoryIndex)
    (secrets : list string) : prog (list RemoteWriteSpec * list string * option error) :=
  if ObservatoriumDisabled cr then Ret ([], secrets, None)
  else forEachS ([], secrets) indexes (λ '(rws, secrets) index,
    r ← getRemoteWriteIndex index;
    match r with
    | inr e => Ret ((rws, secrets), Some e)
    | inl rw =>
        r' ← getRemoteWriteSpec cr index rw;
        match r' with
        | inr _ => Ret ((rws, secrets), None)
        | inl (spec, tokenSecret) =>
            Ret ((rws ++ [spec],
                  if nonempty tokenSecret then secrets ++ [tokenSecret] else secrets), None)
        end
    end).

(** ** Storage *)

Definition oldClaimName : string := "managed-services-prometheus-kafka-prometheus-0".

(** The claim [pvc] the loop assigns is declared outside of it, so the volume is
    the one of the last claim of the list. *)
Definition existingPVC (cr : Observability) : prog ((bool * string) + error) :=
  r ← List_ KPersistentVolumeClaim (GetPrometheusOperatorNamespace cr) None;
  match r with
  | inr e => Ret (inr (WrapError "error listing existing volume claims" e))
  | inl items =>
      let exists_ :=
        existsIn (λ c : Object KPersistentVolumeClaim, bool_decide (nameOf c = oldClaimName))
          items in
      let pvc := List.last items (stub KPersistentVolumeClaim EmptyString EmptyString) in
      Ret (inl (exists_, pvc_VolumeName (body pvc)))
  end.

Definition useExistingPVForVolumeClaim (volumeName : string) (cr : Observability)
  : prog (StorageSpec + error) :=
  r ← Get KPersistentVolume EmptyString volumeName;
  match r with
  | inr e => Ret (inr e)
  | inl pv =>
      let claim := ("managed-services-prometheus-obs-prometheus-0",
                    GetPrometheusOperatorNamespace cr) in
      r' ← Update (withBody (k:=KPersistentVolume)
                     (mkPVBody (Some claim) (pv_Capacity (body pv))) pv);
      match r' with
      | inr e => Ret (inr e)
      | inl stored =>
          Ret (inl (mkStorageSpec "managed-services" volumeName
                      (pv_Capacity (body (k:=KPersistentVolume) stored)) JNull))
      end
  end.

Definition getPrometheusStorageSpecHelper (cr : Observability) (indexes : list RepositoryIndex)
    (own : StorageSpec) : StorageSpec + error :=
  if ExternalSyncDisabled cr then inl own
  else
    let size := GetPrometheusStorageSize cr indexes in
    if nonempty size then
      match ParseQuantity size with
      | inl q => inl (mkStorageSpec "managed-services" EmptyString (mapOf [("storage", q)]) JNull)
      | inr e => inr e
      end
    else inl own.

Definition prometheusStorage (cr : Observability) (indexes : list RepositoryIndex)
    (own : StorageSpec) : prog (StorageSpec + error) :=
  r ← existingPVC cr;
  match r with
  | inr e => Ret (inr e)
  | inl (existingPV, pvName) =>
      if (existingPV : bool) then useExistingPVForVolumeClaim pvName cr
      else Ret (getPrometheusStorageSpecHelper cr indexes own)
  end.

Definition removePVCPostMigration (cr : Observability) : prog (option error) :=
  e ← Delete (stub KPersistentVolumeClaim oldClaimName (GetPrometheusOperatorNamespace cr));
  match e with
  | Some e => if IsNotFound e then Ret None else Ret (Some e)
  | None => Ret None
  end.

(** ** The Prometheus resource *)

Definition getAlerting (cr : Observability) : list AlertmanagerEndpoints :=
  [mkAlertmanagerEndpoints (GetPrometheusOperatorNamespace cr) (nameOf (GetAlertmanagerCr cr))
     (FromString "web") "https"
     "/var/run/secrets/kubernetes.io/serviceaccount/service-ca.crt"
     (nameOf (GetAlertmanagerService cr) +:+ "." +:+ GetPrometheusOperatorNamespace cr +:+ ".svc")
     "/var/run/secrets/kubernetes.io/serviceaccount/token"].

Definition prometheusProxy (cr : Observability) : Container :=
  containerOf "oauth-proxy" (GetOriginOauthProxyImage cr)
    ["-provider=openshift"; "-https-address=:9091"; "-http-address="; "-email-domain=*";
     "-upstream=http://localhost:9090";
     "-openshift-service-account=" +:+ nameOf (GetPrometheusServiceAccount cr);
     openshiftSar; openshiftDelegateUrls;
     "-tls-cert=/etc/tls/private/tls.crt"; "-tls-key=/etc/tls/private/tls.key";
     "-client-secret-file=/var/run/secrets/kubernetes.io/serviceaccount/token";
     "-cookie-secret-file=/etc/proxy/secrets/session_secret";
     "-openshift-ca=/etc/pki/tls/cert.pem";
     "-openshift-ca=/var/run/secrets/kubernetes.io/serviceaccount/ca.crt";
     "-skip-auth-regex=^/metrics"]
    [mkContainerPort "proxy" 9091 EmptyString] proxyEnv
    [mkVolumeMount "secret-prometheus-k8s-tls" "/etc/tls/private";
     mkVolumeMount ("secret-" +:+ nameOf (GetPrometheusProxySecret cr)) "/etc/proxy/secrets"].

Definition blackboxExporter (configHash : string) : Container :=
  containerOf "blackbox-exporter" "quay.io/prometheus/blackbox-exporter:v0.19.0"
    ["--config.file=/opt/config/black-box-config.yaml"]
    [mkContainerPort "http" 9115 EmptyString] [EnvValue "CONFIG_HASH" configHash]
    [mkVolumeMount "black-box-config" "/opt/config/";
     mkVolumeMount "secret-prometheus-k8s-tls" "/etc/tls/private"].

Definition sidecars (cr : Observability) (configHash : string) : list Container :=
  prometheusProxy cr ::
  (if BlackboxExporterDisabled cr then [] else [blackboxExporter configHash]).

Definition prometheusSpec (cr : Observability) (indexes : list RepositoryIndex)
    (configHash host : string) (remoteWrites : list RemoteWriteSpec) (secrets : list string)
    (storage : option StorageSpec) : PrometheusBody :=
  mkPrometheusBody safeToEvict
    (Some (PrometheusBaseImage +:+ ":" +:+ GetPrometheusVersion cr)) (GetPrometheusVersion cr)
    ObservabilityPriorityClassName (nameOf (GetPrometheusServiceAccount cr))
    ("https://" +:+ host)
    (Some ("additional-scrape-configs", "additional-scrape-config.yaml"))
    (mapOf [("cluster_id", status_ClusterID (statusOf cr))])
    [mkVolume "black-box-config" (ConfigMapVolume "black-box-config")]
    (GetPrometheusPodMonitorLabelSelectors cr indexes)
    (GetPrometheusPodMonitorNamespaceSelectors cr indexes)
    (GetPrometheusServiceMonitorLabelSelectors cr indexes)
    (GetPrometheusServiceMonitorNamespaceSelectors cr indexes)
    (GetProbeLabelSelectors cr indexes) (GetProbeNamespaceSelectors cr indexes)
    remoteWrites secrets (sidecars cr configHash) (GetPrometheusResourceRequirement cr)
    (getRetentionHelper cr)
    (GetPrometheusRuleLabelSelectors cr indexes) (GetPrometheusRuleNamespaceSelectors cr indexes)
    (getAlerting cr) storage (spec_Tolerations (specOf cr)) (spec_Affinity (specOf cr)).

(** [cr.Labels = map[string]string{"app": "prometheus"}] *)
Definition relabel (cr : Observability) : Observability :=
  withMeta (set_Labels (mapOf [("app", "prometheus")])) cr.

(** The callback assigns the labels of the custom resource, so that is its
    state; it then writes the spec of the Prometheus object. *)
Definition mutatePrometheus (indexes : list RepositoryIndex) (configHash host : string)
    (remoteWrites : list RemoteWriteSpec) (secrets : list string)
  : MutateFnWith Observability KPrometheus := λ cr0 prom,
  let cr := relabel cr0 in
  let write storage :=
    withBody (k:=KPrometheus)
      (prometheusSpec cr indexes configHash host remoteWrites secrets storage) prom in
  match spec_Storage (specOf cr) ?> st_PrometheusStorageSpec with
  | None => Ret (cr, write None, None)
  | Some own =>
      r ← prometheusStorage cr indexes own;
      match r with
      | inl s => Ret (cr, write (Some s), None)
      | inr e => Ret (cr, write None, Some e)
      end
  end.

(** What follows once the targets are known. *)
Definition writePrometheus (cr : Observability) (indexes : list RepositoryIndex)
    (configHash host : string) (remoteWrites : list RemoteWriteSpec) (secrets : list string)
  : prog (Observability * option error) :=
  '(cr', _, e) ← CreateOrUpdateWith cr (GetPrometheus cr)
                   (mutatePrometheus indexes configHash host remoteWrites secrets);
  match e with
  | Some e => Ret (cr', Some e)
  | None => e ← removePVCPostMigration cr'; Ret (cr', e)
  end.

Definition reconcilePrometheus (cr : Observability) (indexes : list RepositoryIndex)
    (configHash : string) : prog (Observability * option error) :=
  h ← readyHost (GetPrometheusRoute cr);
  match h with
  | inr e => Ret (cr, Some e)
  | inl host =>
      '((remoteWrites, secrets), e) ← collectRemoteWrites cr indexes
        [nameOf (GetPrometheusProxySecret cr); "prometheus-k8s-tls"];
      match e with
      | Some e => Ret (cr, Some e)
      | None => writePrometheus cr indexes configHash host remoteWrites secrets
      end
  end.
End with_util.

(** ** Retention and federation *)

(** A duration as Prometheus reads it: one digit or more, then a unit. *)
Definition isDuration (s : string) : Prop :=
  ∃ digits unit, s = digits +:+ unit ∧ digits ≠ EmptyString ∧
    Forall (λ c, 48 ≤ Ascii.nat_of_ascii c ≤ 57)%nat (String.list_ascii_of_string digits) ∧
    unit ∈ ["ms"; "s"; "m"; "h"; "d"; "w"; "y"].

Lemma allDigits_spec s :
  Retention.allDigits s = true ↔
  Forall (λ c, 48 ≤ Ascii.nat_of_ascii c ≤ 57)%nat (String.list_ascii_of_string s).
Proof.
  induction s as [|a s IH]; cbn [Retention.allDigits String.list_ascii_of_string].
  - split; [constructor|done].
  - rewrite andb_true_iff, IH, Forall_cons. unfold Duration.isDigit.
    rewrite andb_true_iff, !Nat.leb_le. done.
Qed.

Lemma matches_isDuration s : Retention.matches s = true ↔ isDuration s.
Proof.
  rewrite Retention.matches_spec. unfold isDuration. setoid_rewrite allDigits_spec.
  assert (∀ u, u ∈ Retention.units ↔ u ∈ ["ms"; "s"; "m"; "h"; "d"; "w"; "y"]) as Hu.
  { intros u. unfold Retention.units. rewrite !elem_of_cons. tauto. }
  by setoid_rewrite Hu.
Qed.

(** C35: The retention in the Prometheus object the operator writes is always one or
    more digits followed by one of the units ms, s, m, h, d, w and y: it is the one
    of the custom resource exactly when that has this form, and otherwise 45d.  The
    other arguments of the spec do not matter. *)
Theorem getRetentionHelper_valid cr indexes hash host remoteWrites secrets storage :
  let retention :=
    prom_Retention (prometheusSpec cr indexes hash host remoteWrites secrets storage) in
  isDuration retention ∧
  (isDuration (spec_Retention (specOf cr)) → retention = spec_Retention (specOf cr)) ∧
  (¬ isDuration (spec_Retention (specOf cr)) → retention = "45d").
Proof.
  cbn [prom_Retention prometheusSpec]. unfold getRetentionHelper.
  destruct (Retention.matches (spec_Retention (specOf cr))) eqn:E.
  - apply matches_isDuration in E. done.
  - split; [by apply matches_isDuration|]. rewrite <-matches_isDuration, E. done.
Qed.

Definition unquoted (p : string) : Prop := Strings.HasPrefix p "'" = false.

Lemma addPatterns_spec result ps :
  Forall (λ x, Strings.HasPrefix x "'" = true) result → Forall unquoted ps →
  addPatterns result ps = result ++ map quotePattern ps.
Proof.
  intros Hr Hps. revert result Hr.
  induction Hps as [|p ps Hp _ IH]; intros result Hr; simpl; [by rewrite app_nil_r|].
  assert (existsIn (λ x, bool_decide (p = x)) result = false) as Hf.
  { apply existsIn_false. intros x Hx. apply bool_decide_eq_false. intros ->.
    rewrite Forall_forall in Hr. unfold unquoted in Hp. by rewrite Hr in Hp. }
  unfold addPatterns in *. simpl. rewrite Hf, IH.
  - by rewrite <-app_assoc.
  - apply Forall_app. by repeat constructor.
Qed.

(** Federation patterns are collected in order and quoted, and repeated
    patterns are kept: the check for a repetition compares the plain pattern with
    the quoted ones, so it never finds a pattern that does not itself start with a
    quote. *)
Lemma addPatterns_keeps_all (ps : list string) :
  Forall unquoted ps → addPatterns [] ps = map quotePattern ps.
Proof. intros Hps. by apply addPatterns_spec. Qed.

Lemma addPatterns_keeps_all_witness :
  addPatterns [] ["up"; "up"] = ["'up'"; "'up'"].
Proof. apply (addPatterns_keeps_all ["up"; "up"]). repeat constructor. Defined.

(** ** Storage *)

Definition claimOf (name volume : string) : Object KPersistentVolumeClaim :=
  withBody (k:=KPersistentVolumeClaim) (mkPVCBody volume) (stub _ name "ns").

(** The volume that is reused is the one of the last claim in the namespace,
    which need not be the claim of the old Prometheus. *)
Lemma existingPVC_last_claim cr :
  beh (existingPVC cr)
    [CList KPersistentVolumeClaim (GetPrometheusOperatorNamespace cr) None ⇝
     inl [claimOf oldClaimName "old-data"; claimOf "another-claim" "unrelated"]]
    (Done (inl (true, "unrelated"))).
Proof. eexists _, []. by split_and!. Qed.

Lemma prometheusStorage_writes `{Codec} cr indexes own :
  wp (prometheusStorage cr indexes own) (writesThen (λ r, succeeded r = true)).
Proof.
  intros [items|e]; simpl; [|by split; [repeat constructor|intros ? [= <-]]].
  case_match; [|by split; [repeat constructor|intros ? _ _; repeat constructor]].
  intros [pv|e]; simpl; [|by split; [repeat constructor|intros ? [= <-]]].
  intros [stored|e]; simpl; (split; [repeat constructor|]); intros a [= <-]; [|done].
  intros _. repeat constructor.
Qed.

Section order.
Context `{Net} `{Codec} `{ControllerUtil}.

Lemma mutatePrometheus_writes indexes configHash host rws secrets cr prom :
  wp (mutatePrometheus indexes configHash host rws secrets cr prom) (λ tr o,
    writesThen (λ r, r.2 = None) tr o ∧ ∀ r, o = Done r → r.1.1 = relabel cr).
Proof.
  unfold mutatePrometheus. destruct (_ ?> st_PrometheusStorageSpec) as [own|].
  - apply wp_bind. eapply wp_mono; [|apply prometheusStorage_writes].
    intros tr [[s|e]|] [Hd Hw]; simpl; rewrite ?app_nil_r.
    + split; [split; [done|]|by intros ? [= <-]]. intros ? _ _. by eapply Hw.
    + split; [split; [done|]|by intros ? [= <-]]. by intros ? [= <-].
    + by split; [split|].
  - split; [|by intros ? [= <-]]. split; [constructor|]. intros. constructor.
Qed.

(** The custom resource after the Prometheus object was written. *)
Lemma writePrometheus_relabels cr indexes configHash host rws secrets :
  wp (writePrometheus cr indexes configHash host rws secrets) (λ _ o,
    ∀ cr' e, o = Done (cr', e) →
      cr' = relabel cr ∨ cr' = cr ∧ e ≠ None).
Proof.
  apply wp_bind. eapply wp_mono; [|apply (CreateOrUpdateWith_state (λ x, x = relabel cr))].
  - intros _ [[[cr' prom] [e|]]|] Hr; [| |done].
    + intros ?? [= <- <-]. destruct (Hr _ eq_refl) as [[? _]|?]; simpl in *; auto.
    + destruct (Hr _ eq_refl) as [[_ []]|Hs]; [done|]. simpl in Hs.
      apply wp_bind, wp_true. intros _ [e|] ??; [|done]. intros [= <- <-]. auto.
  - intros prom. eapply wp_mono; [|apply mutatePrometheus_writes]. naive_solver.
Qed.

(** A successful reconciliation of Prometheus leaves the custom resource, and
    not the Prometheus object, labelled app=prometheus: every label the resource
    had is gone from the object the operator holds. *)
Lemma reconcilePrometheus_relabels_cr cr indexes configHash :
  wp (reconcilePrometheus cr indexes configHash) (λ _ o, ∀ cr',
    o = Done (cr', None) → cr' = relabel cr ∧
      ∀ k, k ≠ "app" → gomap_get (Labels (meta cr')) k = None).
Proof.
  apply wp_bind, wp_true. intros _ [[host|e]|]; [|by intros ? [=]|done].
  apply wp_bind, wp_true. intros _ [[[rws secrets] [e|]]|]; [by intros ? [=]| |done].
  eapply wp_mono; [|apply writePrometheus_relabels]. intros _ o Hr cr' ->.
  destruct (Hr cr' None eq_refl) as [->|[_ []]]; [|done]. split; [done|]. intros k Hk.
  unfold gomap_get; simpl. by rewrite lookup_insert_ne, lookup_empty by done.
Qed.


(** ** Remote write *)

(** A target without a token file, or with the file of a mounted secret. *)
Definition tokenMounted (secrets : list string) (rw : RemoteWriteSpec) : Prop :=
  rw_BearerTokenFile rw = EmptyString ∨
  ∃ s, s ∈ secrets ∧ rw_BearerTokenFile rw = "/etc/prometheus/secrets/" +:+ s +:+ "/token".

Lemma getRemoteWriteSpec_token cr index rw :
  wp (getRemoteWriteSpec cr index rw) (λ _ o, ∀ spec tokenSecret,
    o = Done (inl (spec, tokenSecret)) →
    rw_BearerTokenFile spec = EmptyString ∨
    nonempty tokenSecret = true ∧
      rw_BearerTokenFile spec = "/etc/prometheus/secrets/" +:+ tokenSecret +:+ "/token").
Proof.
  unfold getRemoteWriteSpec. destruct (_ ?> rc_Prometheus) as [p|]; [|by intros ?? [=]].
  destruct (nonempty (pi_Observatorium p)); [|by intros ?? [=]].
  destruct (GetObservatoriumConfig index _) as [o|]; [|by intros ?? [=]].
  case_decide; [|case_decide; [|by intros ?? [=]]].
  - unfold getRemoteWriteSpecForDex, GetObservatoriumPrometheusSecretName.
    destruct (idx_Config index) as [c|]; [|done]. simpl.
    destruct (rc_Prometheus c) as [p'|]; [|done]. simpl.
    destruct (GetObservatoriumConfig index _) as [o'|]; [|done].
    intros ?? [= <- <-]. by right.
  - apply wp_bind, wp_true. intros _ [[oauth2|e]|] spec tok; [|by intros [=]|done].
    intros [= <- <-]. by left.
Qed.

(** C21: Every remote-write target that authenticates with a token file names the
    file of a secret that is mounted into the Prometheus pods; the secrets that
    were mounted before still are. *)
Theorem remote_write_tokens_mounted cr indexes secrets :
  wp (collectRemoteWrites cr indexes secrets) (λ _ o, ∀ rws secrets' e,
    o = Done ((rws, secrets'), e) → secrets ⊆ secrets' ∧ Forall (tokenMounted secrets') rws).
Proof.
  unfold collectRemoteWrites. destruct (ObservatoriumDisabled cr).
  { intros ??? [= <- <- <-]. split; [done|constructor]. }
  set (I := λ (_ : list RepositoryIndex) (st : list RemoteWriteSpec * list string) (_ : trace),
    secrets ⊆ st.2 ∧ Forall (tokenMounted st.2) st.1).
  apply (wp_forEachS _ _ _ I).
  - split; [done|constructor].
  - intros pre index post [rws secs] tr _ [Hs Hm]. simpl in *.
    apply wp_bind, wp_true. intros tr1 [[rw|e]|]; [|by intros ??? [= <- <- <-]|done].
    apply wp_bind. eapply wp_mono; [|apply getRemoteWriteSpec_token].
    intros tr2 [[[spec tok]|e]|] Ht; [|done|done]. specialize (Ht _ _ eq_refl).
    assert (∀ rw s, tokenMounted secs rw → tokenMounted (secs ++ [s]) rw) as Hmono.
    { intros rw' s [?|(x & ? & ?)]; [by left|right]. exists x. set_solver. }
    destruct (nonempty tok) eqn:En; (split; simpl; [set_solver|apply Forall_app; split]).
    + eapply Forall_impl; [exact Hm|]. intros. by apply Hmono.
    + constructor; [|done]. destruct Ht as [?|[_ ?]]; [by left|right].
      exists tok. split; [set_solver|done].
    + done.
    + constructor; [|done]. destruct Ht as [?|[[=] _]]. by left.
  - intros [rws secs] tr HI ??? [= <- <- <-]. exact HI.
Qed.
End order.
End prometheus.
