(* ===== verification/TokenRefresher.v ===== *)
(** * Token refreshers (controllers/reconcilers/configuration/token_refresher.go)

    A token refresher is a proxy (service, deployment, network policy) that adds
    an sso.redhat.com token to the requests of Prometheus or Promtail; one per
    Observatorium entry and signal. *)

From S2P Require Import Prelude GoLib ApiTypes K8s Prog Client Api ModelPrometheus ModelResources.
From S2P Require Import Utils Token External Sync AlertmanagerConfig PrometheusCr.
Import configuration alertmanager prometheus.

Module token_refresher.

Definition TokenRefresherImageTag : string := "e96a181".

Definition authProxy : string * string :=
  ("app.kubernetes.io/component", "authentication-proxy").
Definition proxyLabels (name : string) : gomap string :=
  mapOf [authProxy; ("app.kubernetes.io/name", name)].

Definition promtailDisabled (c : RepositoryConfig) : bool :=
  match rc_Promtail c with Some p => negb (pti_Enabled p) | None => true end.

Section with_util.
Context `{Net} `{ControllerUtil}.

(** ** Configuration *)

(** Credentials and URLs for logs or for metrics; [None] when the entry does not
    provide them. *)
Definition getTokenRefresherConfigSetFor (t : TokenRefresherType) (o : ObservatoriumIndex)
  : option TokenRefresherConfigSet + error :=
  match oi_RedhatSsoConfig o with
  | None => inl None
  | Some sso =>
      match Parse (sso_Url sso) with
      | inr e => inr e
      | inl u =>
          let authUrl :=
            URL_String (URL_setPath (path_Join [URL_Path u; "realms"; sso_Realm sso]) u) in
          let set url client secret :=
            mkTokenRefresherConfigSet url authUrl (GetTokenRefresherName (oi_Id o) t)
              (sso_Realm sso) client (oi_Tenant o) secret t in
          match t with
          | MetricsTokenRefresher =>
              if HasMetrics sso then
                inl (Some (set (oi_Gateway o +:+ "/api/metrics/v1/" +:+ oi_Tenant o +:+
                                "/api/v1/receive") (sso_MetricsClient sso)
                             (sso_MetricsSecret sso)))
              else inl None
          | LogsTokenRefresher =>
              if HasLogs sso then
                inl (Some (set (oi_Gateway o +:+ "/api/logs/v1/" +:+ oi_Tenant o +:+
                                "/loki/api/v1/push") (sso_LogsClient sso) (sso_LogsSecret sso)))
              else inl None
          end
      end
  end.

(** ** Objects *)

Definition createServiceFor (cr : Observability) (config : TokenRefresherConfigSet)
  : prog (option error) :=
  '(_, e) ← CreateOrUpdate (GetTokenRefresherService cr (trc_Name config))
     (pureMutate (λ s : Service, withBody (k:=KService)
        (mkServiceBody [mkServicePort "http" EmptyString 80 (FromInt 8080)]
           (proxyLabels (trc_Name config)) (service_Conditions (body s))) s));
  Ret e.

Definition allowedPods (t : TokenRefresherType) : gomap string :=
  match t with
  | LogsTokenRefresher => mapOf [("app", "promtail")]
  | MetricsTokenRefresher => mapOf [("app.kubernetes.io/name", "prometheus")]
  end.

Definition createNetworkPolicyFor (cr : Observability) (config : TokenRefresherConfigSet)
  : prog (option error) :=
  '(_, e) ← CreateOrUpdate (GetTokenRefresherNetworkPolicy cr (trc_Name config))
     (pureMutate (λ p : Object KNetworkPolicy,
        withMeta (set_Labels (mapOf [authProxy])) (withBody (k:=KNetworkPolicy)
          (mkNetworkPolicyBody (matchLabels (proxyLabels (trc_Name config)))
             [[matchLabels (allowedPods (trc_Type config))]] ["Ingress"]) p)));
  Ret e.

Definition refresherContainer (config : TokenRefresherConfigSet) : Container :=
  mkContainer (trc_Name config)
    ("quay.io/rhoas/mk-token-refresher:" +:+ TokenRefresherImageTag) []
    ["--oidc.audience=observatorium-telemeter";
     "--oidc.client-id=" +:+ trc_Client config;
     "--oidc.client-secret=" +:+ trc_Secret config;
     "--oidc.issuer-url=" +:+ trc_AuthUrl config;
     "--url=" +:+ trc_ObservatoriumUrl config]
    [mkContainerPort "http" 8080 EmptyString] [] [] "Always" None EmptyString EmptyString.

Definition refresherTemplate (config : TokenRefresherConfigSet) : PodTemplateSpec :=
  mkPodTemplate
    (mapOf [authProxy; ("app.kubernetes.io/name", trc_Name config);
            ("app.kubernetes.io/version", TokenRefresherImageTag)])
    (mkPodSpec ObservabilityPriorityClassName EmptyString [refresherContainer config] [] [] None).

Definition createDeploymentFor (cr : Observability) (config : TokenRefresherConfigSet)
  : prog (option error) :=
  e ← createNetworkPolicyFor cr config;
  match e with
  | Some _ => Ret e
  | None =>
      '(_, e) ← CreateOrUpdate (GetTokenRefresherDeployment cr (trc_Name config))
         (pureMutate (λ d : Object KDeployment,
            withMeta (set_Labels (proxyLabels (trc_Name config))) (withBody (k:=KDeployment)
              (mkDeploymentBody (Some (matchLabels (proxyLabels (trc_Name config))))
                 (refresherTemplate config) (deployment_ReadyReplicas (body d))) d)));
      Ret e
  end.

(** ** Reconciliation *)

Definition refresherTypes : list TokenRefresherType :=
  [MetricsTokenRefresher; LogsTokenRefresher].

Definition skippedType (t : TokenRefresherType) (logsDisabled : bool) : bool :=
  bool_decide (t = LogsTokenRefresher) && logsDisabled.

Definition createRefresher (cr : Observability) (o : ObservatoriumIndex)
    (t : TokenRefresherType) : prog (option error) :=
  match getTokenRefresherConfigSetFor t o with
  | inr e => Ret (Some e)
  | inl None => Ret None
  | inl (Some config) =>
      e ← createServiceFor cr config;
      match e with
      | Some _ => Ret e
      | None => createDeploymentFor cr config
      end
  end.

Definition reconcileTokenRefresherFor (cr : Observability) (o : ObservatoriumIndex)
    (logsDisabled : bool) : prog (option error) :=
  if IsValid o then
    s ← GetOauth2ConfigSecret cr;
    match s with
    | inr e => Ret (Some e)
    | inl (Some _) => Ret None
    | inl None =>
        forEach refresherTypes (λ t,
          if skippedType t logsDisabled then Ret None else createRefresher cr o t)
    end
  else Ret (Some (OtherError
         ("incomplete observatorium config, tenant or gateway missing for " +:+ oi_Id o))).

Definition reconcileTokenRefresher (cr : Observability) (indexes : list RepositoryIndex)
  : prog (option error) :=
  forEach indexes (λ index,
    match idx_Config index with
    | None => Ret None
    | Some c =>
        forEach (rc_Observatoria c) (λ o,
          if decide (oi_AuthType o = AuthTypeRedhat)
          then reconcileTokenRefresherFor cr o (promtailDisabled c) else Ret None)
    end).

(** ** Removal *)

(** The verdict on one type of one entry: [Some b] returns [b] from the test, and
    a configuration set that is nil is dereferenced. *)
Definition judgeType (objectName : string → string) (c : RepositoryConfig)
    (o : ObservatoriumIndex) (name : string) (t : TokenRefresherType) : prog (option bool) :=
  if skippedType t (promtailDisabled c) then Ret (Some false)
  else
    match getTokenRefresherConfigSetFor t o with
    | inr _ => Ret (Some false)
    | inl set =>
        config ← deref set;
        Ret (if decide (name = objectName (trc_Name config)) then Some true else None)
    end.

Definition judgeEntry (objectName : string → string) (c : RepositoryConfig) (name : string)
    (o : ObservatoriumIndex) : prog (option bool) :=
  match oi_RedhatSsoConfig o with
  | None => Ret (Some false)
  | Some _ =>
      if IsValid o then forEach refresherTypes (judgeType objectName c o name)
      else Ret (Some false)
  end.

(** [shouldExist]: whether an object of this name is requested. *)
Definition shouldExist (objectName : string → string) (cr : Observability)
    (oauth2Secret : option Secret) (indexes : list RepositoryIndex) (name : string)
  : prog bool :=
  if ExternalSyncDisabled cr || ObservatoriumDisabled cr then Ret false
  else
    match oauth2Secret with
    | Some _ => Ret false
    | None =>
        r ← forEach indexes (λ index,
          match idx_Config index with
          | None => Ret (Some false)
          | Some c => forEach (rc_Observatoria c) (judgeEntry objectName c name)
          end);
        Ret (default false r)
    end.

Definition deleteUnrequestedProxies (k : Kind) (objectName : string → string)
    (cr : Observability) (indexes : list RepositoryIndex) : prog (option error) :=
  r ← List_ k (GetPrometheusOperatorNamespace cr) (mapOf [authProxy]);
  match r with
  | inr e => Ret (Some e)
  | inl items =>
      s ← GetOauth2ConfigSecret cr;
      match s with
      | inr e => Ret (Some e)
      | inl oauth2Secret =>
          forEach items (λ o : Object k,
            keep ← shouldExist objectName cr oauth2Secret indexes (nameOf o);
            if (keep : bool) then Ret None else Delete o)
      end
  end.

Definition deleteUnrequestedNetworkPolicies : Observability → list RepositoryIndex →
    prog (option error) :=
  deleteUnrequestedProxies KNetworkPolicy (λ n, n +:+ "-network-policy").

Definition deleteUnrequestedTokenRefreshers : Observability → list RepositoryIndex →
    prog (option error) :=
  deleteUnrequestedProxies KDeployment (λ n, n).

(** ** What is kept *)

(** An entry for sso.redhat.com with a gateway and complete credentials for both
    signals. *)
Definition fullEntry (o : ObservatoriumIndex) : Prop :=
  oi_AuthType o = AuthTypeRedhat ∧ IsValid o = true ∧ ∃ sso, oi_RedhatSsoConfig o = Some sso ∧
    HasMetrics sso = true ∧ HasLogs sso = true ∧ succeeded (Parse (sso_Url sso)) = true.

(** An index all of whose entries are complete, with Promtail enabled. *)
Definition fullIndex (index : RepositoryIndex) : Prop :=
  ∃ c, idx_Config index = Some c ∧ promtailDisabled c = false ∧
    Forall fullEntry (rc_Observatoria c).

Definition entriesOf (index : RepositoryIndex) : list ObservatoriumIndex :=
  match idx_Config index with Some c => rc_Observatoria c | None => [] end.

Definition entryNames (objectName : string → string) (o : ObservatoriumIndex) : list string :=
  map (λ t, objectName (GetTokenRefresherName (oi_Id o) t)) refresherTypes.

(** The objects of the refreshers the indexes ask for: one per signal for every
    entry for sso.redhat.com. *)
Definition requestedBy (objectName : string → string) (indexes : list RepositoryIndex)
    (name : string) : Prop :=
  ∃ index o, index ∈ indexes ∧ o ∈ entriesOf index ∧ oi_AuthType o = AuthTypeRedhat ∧
    name ∈ entryNames objectName o.

Lemma fullEntry_configSet o t :
  fullEntry o → ∃ config, getTokenRefresherConfigSetFor t o = inl (Some config) ∧
    trc_Name config = GetTokenRefresherName (oi_Id o) t.
Proof.
  intros (_ & _ & sso & Hs & Hm & Hl & Hp). unfold getTokenRefresherConfigSetFor. rewrite Hs.
  destruct (Parse (sso_Url sso)); [|done]. destruct t; rewrite ?Hm, ?Hl; by eexists.
Qed.

Lemma judgeEntry_full objectName c name o :
  fullEntry o → promtailDisabled c = false →
  judgeEntry objectName c name o =
  Ret (if bool_decide (name ∈ entryNames objectName o) then Some true else None).
Proof.
  intros Ho Hp. pose proof Ho as (_ & Hv & sso & Hs & _). unfold judgeEntry. rewrite Hs, Hv.
  rewrite (forEach_pure (λ t, bool_decide (name = objectName (GetTokenRefresherName (oi_Id o) t)))
             true).
  - match goal with |- Ret (if ?a then _ else _) = Ret (if ?b then _ else _) =>
      assert (a = b) as ->; [|done] end.
    apply eq_true_iff_eq. rewrite existsIn_spec, bool_decide_eq_true.
    unfold entryNames. rewrite list_elem_of_fmap. setoid_rewrite bool_decide_eq_true.
    naive_solver.
  - intros t _. unfold judgeType, skippedType. rewrite Hp, andb_false_r.
    destruct (fullEntry_configSet o t Ho) as (config & -> & Hn). simpl. rewrite Hn.
    by case_decide; [rewrite bool_decide_true|rewrite bool_decide_false].
Qed.

(** For complete entries the test is whether the name is requested. *)
Lemma shouldExist_full objectName cr indexes name :
  ExternalSyncDisabled cr = false → ObservatoriumDisabled cr = false →
  Forall fullIndex indexes →
  ∃ b, shouldExist objectName cr None indexes name = Ret b ∧
    (b = true ↔ requestedBy objectName indexes name).
Proof.
  intros He Ho Hi. unfold shouldExist. rewrite He, Ho. simpl.
  rewrite (forEach_pure (λ index, existsIn (λ o, bool_decide (name ∈ entryNames objectName o))
                                    (entriesOf index)) true).
  - simpl. eexists. split; [reflexivity|].
    transitivity (existsIn (λ index, existsIn (λ o, bool_decide (name ∈ entryNames objectName o))
                              (entriesOf index)) indexes = true); [by destruct (existsIn _ indexes)|].
    rewrite existsIn_spec. setoid_rewrite existsIn_spec. setoid_rewrite bool_decide_eq_true.
    split; [|intros (index & o & ? & ? & _ & ?); eauto].
    intros (index & Hindex & o & Hio & Hn). exists index, o. split_and!; try done.
    rewrite Forall_forall in Hi. destruct (Hi index Hindex) as (c & Hc & _ & Hall).
    unfold entriesOf in Hio. rewrite Hc in Hio. rewrite Forall_forall in Hall. by apply Hall.
  - intros index Hindex. rewrite Forall_forall in Hi.
    destruct (Hi index Hindex) as (c & Hc & Hp & Hall). unfold entriesOf. rewrite Hc.
    apply forEach_pure. intros o Hio. apply judgeEntry_full; [|done].
    by rewrite Forall_forall in Hall; apply Hall.
Qed.

(** Reconciliation writes deployments and network policies of requested
    refreshers. *)
Definition requestedKey (indexes : list RepositoryIndex) (key : ObjectKey) : Prop :=
  (key_Kind key = KDeployment → requestedBy (λ n, n) indexes (key_Name key)) ∧
  (key_Kind key = KNetworkPolicy → requestedBy (λ n, n +:+ "-network-policy") indexes (key_Name key)).

Lemma configSet_name t o config :
  getTokenRefresherConfigSetFor t o = inl (Some config) → trc_Name config = GetTokenRefresherName (oi_Id o) t.
Proof.
  unfold getTokenRefresherConfigSetFor. intros Hc. repeat case_match; simplify_eq; done.
Qed.

Lemma createRefresher_requested cr indexes index o t :
  index ∈ indexes → o ∈ entriesOf index → oi_AuthType o = AuthTypeRedhat →
  allSteps (writesIn (requestedKey indexes)) (createRefresher cr o t).
Proof.
  intros Hi Ho Ha. unfold createRefresher.
  destruct (getTokenRefresherConfigSetFor t o) as [[config|]|e] eqn:Hc; [|apply allSteps_ret..].
  pose proof (configSet_name _ _ _ Hc) as Hn.
  assert (∀ f, requestedBy f indexes (f (trc_Name config))) as Hreq.
  { intros f. exists index, o. split_and!; try done. rewrite Hn. unfold entryNames.
    destruct t; [left|right; left]. }
  assert (∀ (k : Kind) (obj : Object k) g, requestedKey indexes (keyOf obj) →
    allSteps (writesIn (requestedKey indexes)) (CreateOrUpdate obj (pureMutate g))) as Hcou.
  { intros k obj g Hk. apply allSteps_CreateOrUpdate_pure; [by intros ? ?|..];
      intros x r Hx key Hkey; cbn [projT1 callWrites] in Hkey; rewrite Hx in Hkey;
      by injection Hkey as <-. }
  apply allSteps_bind; [apply allSteps_bind; [by apply Hcou|intros [? ?]; apply allSteps_ret]|].
  intros [e|]; [apply allSteps_ret|].
  apply allSteps_bind; [apply allSteps_bind; [|intros [? ?]; apply allSteps_ret]|].
  { apply Hcou. split; [done|]. intros _. apply (Hreq (λ n, n +:+ "-network-policy")). }
  intros [e|]; [apply allSteps_ret|]. apply allSteps_bind; [|intros [? ?]; apply allSteps_ret].
  apply Hcou. split; [|done]. intros _. apply (Hreq (λ n, n)).
Qed.

Lemma reconcileTokenRefresher_requested cr indexes :
  allSteps (writesIn (requestedKey indexes)) (reconcileTokenRefresher cr indexes).
Proof.
  apply allSteps_forEach. intros index Hi. destruct (idx_Config index) as [c|] eqn:Hc;
    [|apply allSteps_ret]. apply allSteps_forEach. intros o Ho. case_decide; [|apply allSteps_ret].
  unfold reconcileTokenRefresherFor. destruct (IsValid o); [|apply allSteps_ret].
  apply allSteps_bind; [solve_creates; by intros ? ?|].
  intros [[s|]|e]; [apply allSteps_ret| |apply allSteps_ret].
  apply allSteps_forEach. intros t _. destruct (skippedType _ _); [apply allSteps_ret|].
  eapply createRefresher_requested; [done| |done]. unfold entriesOf. by rewrite Hc.
Qed.

(** C33: With external sync and Observatorium enabled, no oauth2 secret, Promtail
    enabled in every index, and every Observatorium entry one for sso.redhat.com
    with a gateway and complete credentials for both signals, the removal of token
    refreshers agrees with their creation: an object is kept exactly when it is the
    one of a signal of such an entry, and every deployment and every network policy
    that a reconciliation of the token refreshers writes, in whatever run, is
    kept. *)
Theorem shouldExist_complete cr indexes :
  ExternalSyncDisabled cr = false → ObservatoriumDisabled cr = false →
  Forall fullIndex indexes →
  (∀ objectName name, ∃ b, shouldExist objectName cr None indexes name = Ret b ∧
     (b = true ↔ ∃ index o t, index ∈ indexes ∧ o ∈ entriesOf index ∧
        oi_AuthType o = AuthTypeRedhat ∧ name = objectName (GetTokenRefresherName (oi_Id o) t))) ∧
  wp (reconcileTokenRefresher cr indexes) (λ tr _, ∀ key, key ∈ writeKeys tr →
    (key_Kind key = KDeployment →
       shouldExist (λ n, n) cr None indexes (key_Name key) = Ret true) ∧
    (key_Kind key = KNetworkPolicy →
       shouldExist (λ n, n +:+ "-network-policy") cr None indexes (key_Name key) = Ret true)).
Proof.
  intros He Ho Hi. split.
  - intros objectName name. destruct (shouldExist_full objectName cr indexes name He Ho Hi) as (b & -> & Hb).
    exists b. split; [done|]. rewrite Hb. unfold requestedBy, entryNames, refresherTypes.
    setoid_rewrite list_elem_of_fmap. split.
    + intros (index & o & ? & ? & ? & t & -> & _). by exists index, o, t.
    + intros (index & o & t & ? & ? & ? & ->). exists index, o. split_and!; try done.
      exists t. split; [done|]. destruct t; [left|right; left].
  - eapply wp_mono; [|apply allSteps_writeKeys, reconcileTokenRefresher_requested].
    intros tr o Hw key Hkey. simpl in Hw. rewrite Forall_forall in Hw.
    destruct (Hw key Hkey) as [Hd Hn].
    split; intros Hk; [specialize (Hd Hk)|specialize (Hn Hk)];
      match goal with H : requestedBy ?f _ ?n |- _ =>
        destruct (shouldExist_full f cr indexes n He Ho Hi) as (b & -> & Hb) end;
      f_equal; by apply Hb.
Qed.

(** The cleanup of token refreshers panics on an entry whose credentials for
    metrics are missing: its configuration set is nil and is dereferenced. *)
Lemma shouldExist_panics objectName cr index c o sso rest indexes name :
  ExternalSyncDisabled cr = false → ObservatoriumDisabled cr = false →
  idx_Config index = Some c → rc_Observatoria c = o :: rest →
  IsValid o = true → oi_RedhatSsoConfig o = Some sso → HasMetrics sso = false →
  succeeded (Parse (sso_Url sso)) = true →
  shouldExist objectName cr None (index :: indexes) name = Panic.
Proof.
  intros He Ho Hc Hr Hv Hs Hm Hp. unfold shouldExist. rewrite He, Ho. simpl.
  rewrite Hc, Hr. simpl. unfold judgeEntry. rewrite Hs, Hv. simpl. unfold judgeType.
  change (skippedType MetricsTokenRefresher (promtailDisabled c)) with false.
  unfold getTokenRefresherConfigSetFor. rewrite Hs.
  destruct (Parse (sso_Url sso)); [|done]. by rewrite Hm.
Qed.
End with_util.

(** Instances. *)
Definition ssoConfig (client : string) : RedhatSsoConfig :=
  mkRedhatSsoConfig "https://sso" "realm" client "secret" "logs" "secret".

Definition ssoEntry (id client : string) : ObservatoriumIndex :=
  mkObservatoriumIndex id EmptyString "https://gateway" "tenant" AuthTypeRedhat None
    (Some (ssoConfig client)).

Definition dexEntry (id : string) : ObservatoriumIndex :=
  mkObservatoriumIndex id EmptyString "https://gateway" "tenant" AuthTypeDex None None.

Definition entriesIndex (os : list ObservatoriumIndex) : RepositoryIndex :=
  mkRepositoryIndex "https://example.org" EmptyString EmptyString None "id"
    (Some (mkRepositoryConfig None None None
       (Some (mkPromtailIndex true None EmptyString None)) os)).

Definition plainCr : Observability := stub KObservability "obs" "ns".

Lemma shouldExist_complete_witness :
  ∃ b, @shouldExist plainNet (λ n, n) plainCr None [entriesIndex [ssoEntry "a" "client"]]
    "token-refresher-logs-a" = Ret b ∧ b = true.
Proof.
  destruct (@shouldExist_complete plainNet referenceUtil plainCr
    [entriesIndex [ssoEntry "a" "client"]] eq_refl eq_refl) as [Hs _].
  - constructor; [|constructor]. eexists. split; [reflexivity|]. split; [reflexivity|].
    constructor; [|constructor]. split; [reflexivity|]. split; [reflexivity|]. eexists.
    split; [reflexivity|]. split; [reflexivity|]. split; reflexivity.
  - destruct (Hs (λ n, n) "token-refresher-logs-a") as (b & Hb & Hiff). exists b. split; [exact Hb|].
    apply Hiff. exists (entriesIndex [ssoEntry "a" "client"]), (ssoEntry "a" "client"),
      LogsTokenRefresher. split; [left|]. split; [left|]. split; reflexivity.
Defined.

Lemma shouldExist_panics_witness :
  @shouldExist plainNet (λ n, n) plainCr None [entriesIndex [ssoEntry "a" EmptyString]]
    "token-refresher-logs-a" = Panic.
Proof. by eapply (@shouldExist_panics plainNet). Defined.

(** A refresher that reconciliation creates is removed by the cleanup when an
    entry before its own has no sso configuration: the search ends there. *)
Lemma shouldExist_stops_early :
  let index := entriesIndex [dexEntry "dex"; ssoEntry "a" "client"] in
  @shouldExist plainNet (λ n, n) plainCr None [index] "token-refresher-metrics-a" = Ret false ∧
  @getTokenRefresherConfigSetFor plainNet MetricsTokenRefresher (ssoEntry "a" "client") ≠ inl None.
Proof. split; [vm_compute; reflexivity|]. vm_compute. by intros [=]. Qed.
End token_refresher.
