(* ===== verification/PromtailCr.v ===== *)
(** * Promtail (controllers/reconcilers/configuration/promtail.go)

    One Promtail daemon set per index that enables it, with a configuration that
    names the namespaces to scrape. *)

From S2P Require Import Prelude GoLib ApiTypes K8s Prog Client Api ModelPrometheus ModelResources.
From S2P Require Import Utils Token External Sync.
Import configuration.

Module promtail.

(** [index.Config.Promtail] when it is there and enabled. *)
Definition enabledPromtail (index : RepositoryIndex) : option PromtailIndex :=
  match idx_Config index ?> rc_Promtail with
  | Some p => if pti_Enabled p then Some p else None
  | None => None
  end.

Definition getScrapeNamespacesFor (index : RepositoryIndex) : prog (list string + error) :=
  match enabledPromtail index with
  | None => Ret (inl [])
  | Some p =>
      r ← List_ KNamespace EmptyString (pti_NamespaceLabelSelector p);
      match r with
      | inr e => Ret (inr e)
      | inl items => Ret (inl (map (λ n : Object KNamespace, nameOf n) items))
      end
  end.

(** The text of the configuration; an error of the generator is dropped and
    leaves the empty string. *)
Definition promtailConfig (cr : Observability) (o : ObservatoriumIndex)
    (index : RepositoryIndex) (namespaces : list string) : string :=
  match (GetPromtailConfig cr (Some o) (idx_Id index) namespaces).1 with
  | inl config => config
  | inr _ => EmptyString
  end.

Section with_util.
Context `{ControllerUtil}.

Definition mutatePromtailConfig (config : string) : MutateFn KConfigMap :=
  pureMutate (λ c : ConfigMap,
    withMeta (set_Labels managedBy) (withBody (k:=KConfigMap)
      (mkConfigMapBody
         (Some (<["promtail.yaml" := config]> (gomap_entries (configmap_Data (body c)))))) c)).

(** The name of the config map and the hash of the configuration in hex. *)
Definition createPromtailConfigFor (cr : Observability) (index : RepositoryIndex)
    (o : ObservatoriumIndex) : prog ((string * string) + error) :=
  r ← getScrapeNamespacesFor index;
  match r with
  | inr e => Ret (inr e)
  | inl namespaces =>
      let config := promtailConfig cr o index namespaces in
      '(c, e) ← CreateOrUpdate (GetPromtailConfigmap cr (idx_Id index))
                  (mutatePromtailConfig config);
      match e with
      | Some e => Ret (inr e)
      | None => Ret (inl (nameOf c, Sha256.hexSum256 config))
      end
  end.

(** ** Removal *)

Definition daemonsetName (id : string) : string := "promtail-" +:+ id.

Definition shouldExist (cr : Observability) (indexes : list RepositoryIndex) (name : string)
  : bool :=
  if ExternalSyncDisabled cr || ObservatoriumDisabled cr then false
  else
    match firstSuchThat (λ i, bool_decide (name = daemonsetName (idx_Id i))) indexes with
    | None => false
    | Some index =>
        match enabledPromtail index with
        | Some p => nonempty (pti_Observatorium p)
        | None => false
        end
    end.

Definition deleteUnrequestedDaemonsets (cr : Observability) (indexes : list RepositoryIndex)
  : prog (option error) :=
  deleteUnrequested KDaemonSet (namespaceOf cr) (shouldExist cr indexes).

(** ** The daemon set *)

Definition noInfraNodes : Affinity :=
  JObj [("nodeAffinity", JObj [("requiredDuringSchedulingIgnoredDuringExecution",
    JObj [("nodeSelectorTerms", JArr [JObj [("matchExpressions",
      JArr [JObj [("key", JStr "node-role.kubernetes.io/infra");
                  ("operator", JStr "DoesNotExist")]])]])])])].

Definition promtailContainer (hash : string) (extra : list VolumeMount) : Container :=
  mkContainer "promtail" "quay.io/integreatly/promtail:latest" []
    ["-config.file=/opt/config/promtail.yaml"]
    [mkContainerPort EmptyString 3100 "TCP"]
    [EnvFieldRef "HOSTNAME" "spec.nodeName"; EnvValue "CONFIG_HASH" hash]
    ([mkVolumeMount "config" "/opt/config"; mkVolumeMount "logs" "/var/log/pods"] ++ extra)
    "Always" (Some true) "/dev/termination-log" "File".

(** The token of a Dex tenant is mounted from its secret. *)
Definition promtailDaemonset (cr : Observability) (index : RepositoryIndex)
    (configName hash : string) (token : option string) : DaemonSetBody :=
  mkDaemonSetBody (Some (GetPromtailDaemonSetLabels index))
    (mkPodTemplate (ls_MatchLabels (GetPromtailDaemonSetLabels index))
       (mkPodSpec ObservabilityPriorityClassName (nameOf (GetPromtailServiceAccount cr))
          [promtailContainer hash
             (match token with Some _ => [mkVolumeMount "token" "/opt/secrets"] | None => [] end)]
          ([mkVolume "config" (ConfigMapVolume configName);
            mkVolume "logs" (HostPathVolume "/var/log/pods")] ++
           match token with Some s => [mkVolume "token" (SecretVolume s)] | None => [] end)
          [] (Some noInfraNodes))).

Definition mutateDaemonset (cr : Observability) (index : RepositoryIndex)
    (o : ObservatoriumIndex) (configName hash : string) : MutateFn KDaemonSet := λ d,
  secretName ← GetObservatoriumPromtailSecretName index;
  let token := if decide (oi_AuthType o = AuthTypeDex) then Some secretName else None in
  Ret (withMeta (set_Labels managedBy) (withBody (k:=KDaemonSet)
         (promtailDaemonset cr index configName hash token) d), None).

Definition createPromtailDaemonsetFor (cr : Observability) (index : RepositoryIndex)
  : prog (option error) :=
  match enabledPromtail index with
  | None => Ret None
  | Some p =>
      if ObservatoriumDisabled cr || ExternalSyncDisabled cr then Ret None
      else if nonempty (pti_Observatorium p) then
        match GetObservatoriumConfig index (pti_Observatorium p) with
        | None => Ret None
        | Some o =>
            r ← createPromtailConfigFor cr index o;
            match r with
            | inr e => Ret (Some e)
            | inl (configName, hash) =>
                '(_, e) ← CreateOrUpdate (GetPromtailDaemonSet cr (idx_Id index))
                            (mutateDaemonset cr index o configName hash);
                Ret e
            end
        end
      else Ret None
  end.

(** ** Creation and removal agree *)

Lemma shouldExist_index cr indexes index p :
  NoDup (map idx_Id indexes) → index ∈ indexes →
  ExternalSyncDisabled cr = false → ObservatoriumDisabled cr = false →
  enabledPromtail index = Some p → nonempty (pti_Observatorium p) = true →
  shouldExist cr indexes (daemonsetName (idx_Id index)) = true.
Proof.
  intros Hd Hi He Ho Hp Hn. unfold shouldExist. rewrite He, Ho. simpl.
  assert (firstSuchThat (λ i, bool_decide (daemonsetName (idx_Id index) =
            daemonsetName (idx_Id i))) indexes = Some index) as ->; [|by rewrite Hp].
  apply list_elem_of_split in Hi as (pre & post & ->).
  apply firstSuchThat_Some. exists pre, post. split_and!; [done|by apply bool_decide_eq_true|].
  apply Forall_forall. intros i Hin. apply bool_decide_eq_false. intros Heq.
  assert (idx_Id index = idx_Id i) as Hid by (unfold daemonsetName in Heq; by simplify_eq).
  rewrite map_app in Hd. apply NoDup_app in Hd as (_ & Hdis & _).
  apply (Hdis (idx_Id i)); [apply list_elem_of_fmap; eauto|]. rewrite <-Hid. left.
Qed.

Lemma createPromtailConfigFor_writes cr index o :
  allSteps (writesIn (λ key, key_Kind key = KConfigMap)) (createPromtailConfigFor cr index o).
Proof.
  apply allSteps_bind.
  { unfold getScrapeNamespacesFor. destruct (enabledPromtail index); [|apply allSteps_ret].
    apply allSteps_bind; [by apply allSteps_request|intros []; apply allSteps_ret]. }
  intros [ns|e]; [|apply allSteps_ret].
  apply allSteps_bind; [|intros [? []]; apply allSteps_ret].
  apply allSteps_CreateOrUpdate_pure; [done|..]; intros c x _ key Hk; by injection Hk as <-.
Qed.

(** C34: With distinct index ids, a daemon set that is created or updated for an
    index is one the cleanup keeps: creation and removal do not fight over it. *)
Theorem promtail_created_is_kept cr indexes index :
  NoDup (map idx_Id indexes) → index ∈ indexes →
  allSteps (writesIn (λ key, key_Kind key = KDaemonSet →
              shouldExist cr indexes (key_Name key) = true))
    (createPromtailDaemonsetFor cr index).
Proof.
  intros Hd Hi. unfold createPromtailDaemonsetFor.
  destruct (enabledPromtail index) as [p|] eqn:Hp; [|apply allSteps_ret].
  destruct (ObservatoriumDisabled cr) eqn:Ho; [apply allSteps_ret|].
  destruct (ExternalSyncDisabled cr) eqn:He; [apply allSteps_ret|]. simpl.
  destruct (nonempty (pti_Observatorium p)) eqn:Hn; [|apply allSteps_ret].
  destruct (GetObservatoriumConfig index _) as [o|]; [|apply allSteps_ret].
  apply allSteps_bind.
  { eapply allSteps_impl; [|apply createPromtailConfigFor_writes].
    intros s Hs key Hk Hkind. specialize (Hs key Hk). simpl in Hs. congruence. }
  intros [[configName hash]|e]; [|apply allSteps_ret].
  apply allSteps_bind; [|intros []; apply allSteps_ret].
  pose proof (shouldExist_index cr indexes index p Hd Hi He Ho Hp Hn) as Hkeep.
  apply allSteps_CreateOrUpdate; [done| |by intros ? x Hk key Hw; injection Hw as <-; rewrite Hk..].
  intros d. apply allSteps_bind; [|intros; apply allSteps_ret].
  unfold GetObservatoriumPromtailSecretName.
  destruct (idx_Config index); [|apply allSteps_panic]. simpl.
  destruct (rc_Promtail _); [|apply allSteps_panic]. simpl.
  destruct (GetObservatoriumConfig _ _); [apply allSteps_ret|apply allSteps_panic].
Qed.

(** The Promtail configuration depends on the set of namespaces and not on the
    order in which they were listed, so neither does the hash that restarts the
    daemon set. *)
Lemma promtailConfig_order cr o index ns1 ns2 :
  ns1 ≡ₚ ns2 → promtailConfig cr o index ns1 = promtailConfig cr o index ns2.
Proof. intros Hp. unfold promtailConfig. by rewrite (GetPromtailConfig_order _ _ _ _ _ Hp). Qed.

(** An Observatorium entry the generator refuses leaves an empty configuration. *)
Lemma promtailConfig_error_dropped cr o index ns e :
  promtailTarget cr o = inr e → promtailConfig cr o index ns = EmptyString.
Proof. intros He. unfold promtailConfig, GetPromtailConfig. by rewrite He. Qed.
End with_util.

Definition dexTenant : ObservatoriumIndex :=
  mkObservatoriumIndex "obs" EmptyString "https://gateway" "tenant" AuthTypeDex None None.

Definition promtailIndexOf (id : string) : RepositoryIndex :=
  mkRepositoryIndex "https://example.org" EmptyString EmptyString None id
    (Some (mkRepositoryConfig None None None
       (Some (mkPromtailIndex true None "obs" None)) [dexTenant])).

Lemma promtail_created_is_kept_witness :
  let cr := stub KObservability "obs" "ns" in
  let indexes := [promtailIndexOf "a"; promtailIndexOf "b"] in
  allSteps (writesIn (λ key, key_Kind key = KDaemonSet →
              shouldExist cr indexes (key_Name key) = true))
    (createPromtailDaemonsetFor cr (promtailIndexOf "b")).
Proof.
  intros cr indexes. apply promtail_created_is_kept.
  - simpl. repeat constructor; set_solver.
  - right. left.
Defined.

Lemma promtailConfig_order_witness :
  promtailConfig (stub KObservability "obs" "ns") dexTenant (promtailIndexOf "a") ["x"; "y"] =
  promtailConfig (stub KObservability "obs" "ns") dexTenant (promtailIndexOf "a") ["y"; "x"].
Proof. apply promtailConfig_order. apply perm_swap. Defined.
End promtail.
