(* ===== verification/GrafanaCr.v ===== *)
(** * Grafana (controllers/reconcilers/configuration/grafana.go) *)

From S2P Require Import Prelude GoLib ApiTypes K8s Prog Client Api ModelPrometheus ModelResources.
From S2P Require Import Utils External Sync AlertmanagerConfig.
Import configuration alertmanager.

Module grafana.

Definition GrafanaBaseImage : string := "docker.io/grafana/grafana:".

Definition grafanaProxy (cr : Observability) : Container :=
  containerOf "grafana-proxy" (GetOriginOauthProxyImage cr)
    ["-provider=openshift"; "-pass-basic-auth=false"; "-https-address=:9091";
     "-http-address="; "-email-domain=*"; "-upstream=http://localhost:3000";
     openshiftSar; openshiftDelegateUrls;
     "-tls-cert=/etc/tls/private/tls.crt"; "-tls-key=/etc/tls/private/tls.key";
     "-client-secret-file=/var/run/secrets/kubernetes.io/serviceaccount/token";
     "-cookie-secret-file=/etc/proxy/secrets/session_secret";
     "-openshift-service-account=grafana-serviceaccount";
     "-openshift-ca=/etc/pki/tls/cert.pem";
     "-openshift-ca=/var/run/secrets/kubernetes.io/serviceaccount/ca.crt";
     "-skip-auth-regex=^/metrics"]
    [mkContainerPort "grafana-proxy" 9091 EmptyString] []
    [mkVolumeMount "secret-grafana-k8s-tls" "/etc/tls/private";
     mkVolumeMount "secret-grafana-k8s-proxy" "/etc/proxy/secrets"].

Definition grafanaSpec (cr : Observability) (indexes : list RepositoryIndex) (image : string)
  : GrafanaBody :=
  mkGrafanaBody "console" "warn" (Some false) (Some true) (Some true) (Some true)
    [grafanaProxy cr] image [GetGrafanaDashboardLabelSelectors cr indexes]
    true "grafana-proxy" "reencrypt" (GetGrafanaInitImage cr)
    ["grafana-k8s-tls"; "grafana-k8s-proxy"]
    (mapOf [("service.alpha.openshift.io/serving-cert-secret-name", "grafana-k8s-tls")])
    [mkServicePort "grafana-proxy" "TCP" 9091 (FromString "grafana-proxy")]
    (oauthAnnotations "grafana-route") (Some true) (Some 1%Z)
    ObservabilityPriorityClassName safeToEvict
    (spec_Tolerations (specOf cr)) (spec_Affinity (specOf cr))
    (Some (GetGrafanaResourceRequirement cr)).

Section with_util.
Context `{Codec} `{ControllerUtil}.

(** The image is pinned when the version parses and is not 0.0.0. *)
Definition grafanaImage (version : string) : string :=
  let '(v, e) := ParseTolerant version in
  match e with
  | Some _ => EmptyString
  | None => if decide (v = "0.0.0") then EmptyString else GrafanaBaseImage +:+ v
  end.

Definition reconcileGrafanaCr (cr : Observability) (indexes : list RepositoryIndex)
  : prog (option error) :=
  version ← GetGrafanaVersion indexes cr;
  '(_, e) ← CreateOrUpdate (GetGrafanaCr cr) (pureMutate (λ g : Object KGrafana,
     withBody (k:=KGrafana) (grafanaSpec cr indexes (grafanaImage version)) g));
  Ret e.
End with_util.
End grafana.
