(* ===== verification/ConfigurationStage.v ===== *)
(** * The configuration stage
    (controllers/reconcilers/configuration/configuration_reconciler.go and
    observability_resources.go)

    Decides whether a sync is due, reads the configuration secrets and the index
    file of every repository, and brings tokens, token refreshers, Alertmanager,
    Prometheus, Grafana, dashboards, rules, pod monitors and Promtail in line with
    them.  [depth] bounds the recursion of [assignFromSecret] (the stack). *)

From S2P Require Import Prelude GoLib ApiTypes K8s Prog Client Api ModelPrometheus ModelResources.
From S2P Require Import Utils Token External Sync AlertmanagerConfig PrometheusCr TokenRefresher.
From S2P Require Import PromtailCr GrafanaCr.
Import configuration alertmanager prometheus token_refresher.

Module configuration_reconciler.

Definition RemoteRepository : string := "repository".
Definition RemoteAccessToken : string := "access_token".
Definition RemoteChannel : string := "channel".
Definition RemoteTag : string := "tag".

Definition isGithub (repository : string) : bool :=
  Strings.HasPrefix repository "https://api.github.com".

(** The result of the stage: the resource and the next status as the stage left
    them, and its verdict. *)
Abbreviation Outcome := (Observability * ObservabilityStatus * StageResult)%type.

Section stage.
Context `{Net} `{Codec} `{TokenCodec} `{ControllerUtil} (depth : nat).

(** ** The container with the resources (observability_resources.go) *)

Definition resourcesTemplate (cr : Observability) (image : string) : PodTemplateSpec :=
  mkPodTemplate managedBy
    (mkPodSpec ObservabilityPriorityClassName EmptyString
       [mkContainer (GetResourcesDefaultName cr) image ["python3"; "server.py"] []
          [mkContainerPort "http" 8080 EmptyString] [] [] "Always" None EmptyString EmptyString]
       [] ["rhoas-image-pull-secret"] None).

Definition ReconcileResourcesDeployment (cr : Observability) (image : string)
  : prog (option error) :=
  '(_, e) ← CreateOrUpdate (GetResourcesDeployment cr) (pureMutate (λ d : Object KDeployment,
     withMeta (set_Labels managedBy) (withBody (k:=KDeployment)
       (mkDeploymentBody (Some (matchLabels managedBy)) (resourcesTemplate cr image)
          (deployment_ReadyReplicas (body d))) d)));
  Ret e.

Definition ReconcileResourcesService (cr : Observability) : prog (option error) :=
  '(_, e) ← CreateOrUpdate (GetResourcesService cr) (pureMutate (λ s : Service,
     withMeta (set_Name (GetResourcesDefaultName cr)) (withBody (k:=KService)
       (mkServiceBody [mkServicePort "web" "TCP" 8080 (FromInt 8080)] managedBy
          (service_Conditions (body s))) s)));
  Ret e.

(** The host of the route, once it is ready, goes into the next status. *)
Definition ReconcileResourcesRoute (cr : Observability) (s : ObservabilityStatus)
  : prog (ObservabilityStatus * option error) :=
  '(route, e) ← CreateOrUpdate (GetResourcesRoute cr) (pureMutate (λ r : Route,
     withBody (k:=KRoute) (mkRouteBody
       (mkRouteSpec EmptyString (mkRouteTarget "Service" (nameOf (GetResourcesService cr)))
          (Some (FromString "web")) None EmptyString) (route_Ingress (body r))) r));
  let failure := match e with Some e => negb (IsAlreadyExists e) | None => false end in
  if failure then Ret (s, e)
  else
    Ret (if IsRouteReady (Some route)
         then set_ResourcesRoute (route_Host (route_Spec (body (k:=KRoute) route))) s
         else s, None).

Definition waitForResourcesDeployment (cr : Observability) : prog StageResult :=
  waitForReplicas (namespaceOf cr) (λ n, Strings.HasPrefix n (GetResourcesDefaultName cr)).

(** Not called. *)
Definition waitForResourcesService (cr : Observability) : prog StageResult :=
  r ← Get KService (namespaceOf cr) (GetResourcesDefaultName cr);
  match r with
  | inr e =>
      if IsNotFound e then Ret (ResultInProgress, None) else Ret (ResultFailed, Some e)
  | inl service =>
      if IsServiceReady (Some service) then success else Ret (ResultInProgress, None)
  end.

(** ** When to sync *)

(** A missing object: any error but Gone; Gone is returned. *)
Definition missing {k} (o : Object k) : prog (bool + error) :=
  r ← Get k (namespaceOf o) (nameOf o);
  match r with
  | inl _ => Ret (inl false)
  | inr e => if IsGone e then Ret (inr e) else Ret (inl true)
  end.

Definition checkForMissingCR (cr : Observability) : prog (bool + error) :=
  a ← missing (GetAlertmanagerCr cr);
  match a with
  | inr e => Ret (inr e)
  | inl a =>
      p ← missing (GetPrometheus cr);
      match p with
      | inr e => Ret (inr e)
      | inl p =>
          if DescopedModeEnabled cr then Ret (inl (a || p))
          else
            g ← missing (GetGrafanaCr cr);
            match g with
            | inr e => Ret (inr e)
            | inl g => Ret (inl (a || p || g))
            end
      end
  end.

(** Whether the resync period since the last sync is over. *)
Definition resyncDue (cr : Observability) : prog (bool + error) :=
  match Duration.ParseDuration (spec_ResyncPeriod (specOf cr)) with
  | None => Ret (inr (WrapError "error parsing operator resync period"
                        (OtherError ("time: invalid duration " +:+
                                     quoted (spec_ResyncPeriod (specOf cr))))))
  | Some period =>
      now ← Now;
      let nextSync := Time.Add (Time.Unix (status_LastSynced (statusOf cr))) period in
      Ret (inl (negb (Time.Before now nextSync)))
  end.

(** ** Repositories *)

(** Every [Source] points to the variable of the loop over the secrets, which
    holds the last one when the loop is over. *)
Definition repositoryInfo (source secret : Secret) : RepositoryInfo :=
  let v key := gomap_str (secret_Data (body secret)) key in
  mkRepositoryInfo (v RemoteRepository) (v RemoteChannel) (v RemoteTag) (v RemoteAccessToken)
    (Some source).

(** What the loop over the secrets collects. *)
Record Repos := mkRepos {
  repos : gmap string RepositoryInfo;
  containerResources : bool;
  reposStatus : ObservabilityStatus;
}.

Definition failedSync (e : error) : prog (option StageResult) :=
  _ ← Inc FailedConfigurationSyncs; Ret (Some (ResultFailed, Some e)).

(** The container of a repository that is not on GitHub. *)
Definition serveResources (cr : Observability) (s : ObservabilityStatus) (info : RepositoryInfo)
  : prog (ObservabilityStatus * option StageResult) :=
  e ← ReconcileResourcesDeployment cr (ri_Repository info +:+ ":" +:+ ri_Tag info);
  match e with
  | Some e => f ← failedSync e; Ret (s, f)
  | None =>
      e ← ReconcileResourcesService cr;
      match e with
      | Some e => f ← failedSync e; Ret (s, f)
      | None =>
          local ← RunningLocally;
          if (local : bool) then
            '(s', e) ← ReconcileResourcesRoute cr s;
            match e with
            | Some e => Ret (s', Some (ResultFailed, Some e))
            | None => Ret (s', None)
            end
          else Ret (s, None)
      end
  end.

(** One secret; a name that was seen already is skipped. *)
Definition addRepository (cr : Observability) (source : Secret) (acc : Repos) (secret : Secret)
  : prog (Repos * option StageResult) :=
  match repos acc !! nameOf secret with
  | Some _ => Ret (acc, None)
  | None =>
      let info := repositoryInfo source secret in
      let all := <[nameOf secret := info]> (repos acc) in
      if negb (isGithub (ri_Repository info)) && negb (ExternalSyncDisabled cr) then
        '(s, r) ← serveResources cr (reposStatus acc) info;
        Ret (mkRepos all true s, r)
      else Ret (mkRepos all (containerResources acc) (reposStatus acc), None)
  end.

Definition collectRepositories (cr : Observability) (s : ObservabilityStatus)
    (secrets : list Secret) : prog (Repos * option StageResult) :=
  let source := List.last secrets (stub KSecret EmptyString EmptyString) in
  forEachS (mkRepos ∅ false s) secrets (addRepository cr source).

(** ** Index files *)

Definition getResourcesUrl (repo : RepositoryInfo) (cr : Observability) : prog (URL + error) :=
  if isGithub (ri_Repository repo) then
    Ret (ParseRequestURI (ri_Repository repo +:+ "/" +:+ ri_Channel repo))
  else
    local ← RunningLocally;
    if (local : bool) then
      let route := status_ResourcesRoute (statusOf cr) in
      if nonempty route then
        Ret (ParseRequestURI ("http://" +:+ route +:+ "/" +:+ ri_Channel repo))
      else Ret (inr (StatusError ReasonBadRequest "resources route not ready yet"))
    else
      Ret (ParseRequestURI ("http://" +:+ GetResourcesDefaultName cr +:+ "." +:+
             GetPrometheusOperatorNamespace cr +:+ ":8080" +:+ "/" +:+ ri_Channel repo)).

Definition readIndexFile (repo : RepositoryInfo) (cr : Observability) : prog (string + error) :=
  u ← getResourcesUrl repo cr;
  match u with
  | inr e => Ret (inr e)
  | inl u =>
      let u := URL_setPath (URL_Path u +:+ "/" +:+ "index.json") u in
      match NewRequest (URL_String u) with
      | inr e => Ret (inr e)
      | inl reqUrl =>
          let auth := Strings.Contains (URL_Host u) "github.com" in
          let url := if auth && nonempty (ri_Tag repo) then withRef reqUrl (ri_Tag repo)
                     else reqUrl in
          getUrl url (if auth then githubHeaders (ri_AccessToken repo) else [])
            (λ e, e) (λ e, e)
            (statusError "unexpected status code when reading index file from " url)
      end
  end.

Definition finishIndex (repo : RepositoryInfo) (baseUrl : string) (index : RepositoryIndex)
  : RepositoryIndex :=
  mkRepositoryIndex baseUrl (ri_AccessToken repo) (ri_Tag repo) (ri_Source repo)
    (idx_Id index) (idx_Config index).

Definition readIndex (cr : Observability) (repo : RepositoryInfo)
  : prog (RepositoryIndex + StageResult) :=
  b ← readIndexFile repo cr;
  match b with
  | inr e => _ ← Inc FailedConfigurationSyncs; Ret (inr (ResultFailed, Some e))
  | inl bytes =>
      match decodeIndex bytes with
      | inr e => _ ← Inc FailedConfigurationSyncs; Ret (inr (ResultFailed, Some e))
      | inl index =>
          u ← getResourcesUrl repo cr;
          match u with
          | inr e => Ret (inr (ResultFailed, Some e))
          | inl u => Ret (inl (finishIndex repo (URL_String u) index))
          end
      end
  end.

(** [for _, repoInfo := range repos]: the order is the runtime's. *)
Definition readIndexes (cr : Observability) (all : gmap string RepositoryInfo)
  : prog (list RepositoryIndex * option StageResult) :=
  keys ← RangeOver (map fst (map_to_list all));
  forEachS [] keys (λ indexes key,
    match all !! key with
    | None => Ret (indexes, None)
    | Some repo =>
        r ← readIndex cr repo;
        match r with
        | inr res => Ret (indexes, Some res)
        | inl index => Ret (indexes ++ [index], None)
        end
    end).

(** ** Tokens *)

Definition expectedSecrets (indexes : list RepositoryIndex) : list string :=
  concat (map (λ index, map GetObservatoriumTokenSecretName (entriesOf index)) indexes).

(** An error of the list call is ignored and leaves the list empty. *)
Definition deleteUnrequestedCredentialSecrets (cr : Observability)
    (indexes : list RepositoryIndex) : prog (option error) :=
  r ← List_ KSecret (namespaceOf cr) tokenLabels;
  let secrets := match r with inl l => l | inr _ => [] end in
  forEach secrets (λ secret : Secret,
    if existsIn (λ n, bool_decide (nameOf secret = n)) (expectedSecrets indexes) then Ret None
    else
      e ← Delete secret;
      match e with
      | Some e =>
          Ret (Some (WrapError ("error deleting unrequested token secret " +:+ nameOf secret) e))
      | None => Ret None
      end).

(** The secret is shared by all indexes, so it is passed on: after an update it is
    what the server stored, after a failed one it keeps the annotation. *)
Definition stampConfigSource (source : option Secret) : prog (option Secret * option error) :=
  match source with
  | None => Ret (None, None)
  | Some secret =>
      let stamped := withMeta (λ m, set_Annotations
        (Some (<["observability-operator/status" := "accepted"]>
                 (gomap_entries (Annotations m)))) m) secret in
      r ← Update stamped;
      match r with
      | inl stored => Ret (Some stored, None)
      | inr e => Ret (Some stamped, Some e)
      end
  end.

(** Errors are logged, and the index is not stamped; its configuration is shared
    with the list, so what the reconciliation wrote to it stays. *)
Fixpoint reconcileTokens (cr : Observability) (source : option Secret)
    (indexes : list RepositoryIndex) : prog (list RepositoryIndex) :=
  match indexes with
  | [] => Ret []
  | index :: rest =>
      '(index', e) ← ReconcileObservatoria depth cr index;
      match e with
      | Some _ => rest' ← reconcileTokens cr source rest; Ret (index' :: rest')
      | None =>
          '(source', _) ← stampConfigSource source;
          rest' ← reconcileTokens cr source' rest; Ret (index' :: rest')
      end
  end.

(** ** The sync *)

(** [if err := p; err != nil { metric; return ResultFailed, wrap(err) }; rest] *)
Definition syncStep (cr : Observability) (s : ObservabilityStatus) (wrap : error → error)
    (p : prog (option error)) (rest : prog Outcome) : prog Outcome :=
  e ← p;
  match e with
  | Some e => _ ← Inc FailedConfigurationSyncs; Ret (cr, s, (ResultFailed, Some (wrap e)))
  | None => rest
  end.

Definition when (b : bool) (p : prog (option error)) : prog (option error) :=
  if b then p else Ret None.

Definition finishSync (cr : Observability) (s : ObservabilityStatus) : prog Outcome :=
  s ← (if ExternalSyncDisabled cr then Ret (set_LastSynced 0 s)
       else now ← Now; Ret (set_LastSynced (Time.toUnix now) s));
  _ ← Inc SuccessfulConfigurationSyncs;
  Ret (cr, s, (ResultSuccess, None)).

Definition syncPromtail (cr : Observability) (s : ObservabilityStatus)
    (indexes : list RepositoryIndex) : prog Outcome :=
  syncStep cr s (WrapError "error deleting unrequested promtail daemon sets")
    (promtail.deleteUnrequestedDaemonsets cr indexes) (
  r ← forEach indexes (λ index,
    e ← promtail.createPromtailDaemonsetFor cr index;
    match e with
    | Some e =>
        Ret (Some (WrapError ("error creating promtail daemon set for " +:+ idx_Id index) e))
    | None => Ret None
    end);
  match r with
  | Some e => Ret (cr, s, (ResultFailed, Some e))
  | None => finishSync cr s
  end).

(** Dashboards, rules and pod monitors, or the dead man's switch without a
    repository. *)
Definition syncMonitoring (cr : Observability) (s : ObservabilityStatus)
    (indexes : list RepositoryIndex) (rest : prog Outcome) : prog Outcome :=
  if ExternalSyncDisabled cr then
    syncStep cr s (WrapError "error creating deadmansswitch alert") (createDMSAlert cr) rest
  else
    let dashboards := getUniqueDashboards indexes in
    let rules := getUniqueRules indexes in
    let monitors := getUniquePodMonitors indexes in
    syncStep cr s (WrapError "error deleting unrequested dashboards")
      (when (negb (DescopedModeEnabled cr)) (deleteUnrequestedDashboards cr dashboards)) (
    syncStep cr s (WrapError "error creating requested dashboards")
      (when (negb (DescopedModeEnabled cr)) (createRequestedDashboards cr dashboards)) (
    syncStep cr s (WrapError "error deleting unrequested prometheus rules")
      (deleteUnrequestedRules cr rules) (
    syncStep cr s (WrapError "error creating requested prometheus rules")
      (createRequestedRules cr rules) (
    syncStep cr s (WrapError "error deleting unrequested pod monitors")
      (deleteUnrequestedPodMonitors cr monitors) (
    syncStep cr s (WrapError "error creating requested pod monitors")
      (createRequestedPodMonitors cr monitors) rest))))).

(** Alertmanager, Prometheus and Grafana; Prometheus relabels the resource. *)
Definition syncInstances (cr : Observability) (s : ObservabilityStatus)
    (indexes : list RepositoryIndex) (rest : Observability → prog Outcome) : prog Outcome :=
  syncStep cr s (WrapError "error reconciling alertmanager secret")
    (when (negb (ExternalSyncDisabled cr) && negb (HasAlertmanagerConfigSecret cr).1)
       (reconcileAlertmanagerSecret cr indexes)) (
  f ← fetchFederationConfigs cr indexes;
  match f with
  | inr e =>
      _ ← Inc FailedConfigurationSyncs;
      Ret (cr, s, (ResultFailed, Some (WrapError "error fetching federation config" e)))
  | inl patterns =>
      syncStep cr s (λ e, e) (createAdditionalScrapeConfigSecret cr patterns) (
      '(hash, e) ← createBlackBoxConfig cr;
      syncStep cr s (λ e, e) (Ret e) (
      syncStep cr s (WrapError "error reconciling alertmanager") (reconcileAlertmanager cr indexes) (
      '(cr, e) ← reconcilePrometheus cr indexes hash;
      syncStep cr s (WrapError "error reconciling prometheus") (Ret e) (
      syncStep cr s (WrapError "error reconciling grafana")
        (when (negb (DescopedModeEnabled cr)) (grafana.reconcileGrafanaCr cr indexes))
        (rest cr)))))
  end).

(** From the indexes on. *)
Definition syncIndexes (cr : Observability) (s : ObservabilityStatus) (source : option Secret)
    (indexes : list RepositoryIndex) : prog Outcome :=
  syncStep cr s (λ e, e) (deleteUnrequestedCredentialSecrets cr indexes) (
  indexes ← reconcileTokens cr source indexes;
  syncStep cr s (WrapError "error deleting unrequested token refreshers")
    (deleteUnrequestedTokenRefreshers cr indexes) (
  syncStep cr s (WrapError "error deleting unrequested network policies")
    (deleteUnrequestedNetworkPolicies cr indexes) (
  syncStep cr s (WrapError "error reconciling token refresher")
    (when (negb (ObservatoriumDisabled cr)) (reconcileTokenRefresher cr indexes)) (
  syncInstances cr s indexes (λ cr,
  syncMonitoring cr s indexes (syncPromtail cr s indexes)))))).

(** From the configuration secrets on; without external sync there are none. *)
Definition syncSecrets (cr : Observability) (s : ObservabilityStatus) (secrets : list Secret)
  : prog Outcome :=
  '(acc, r) ← collectRepositories cr s secrets;
  let s := reposStatus acc in
  match r with
  | Some res => Ret (cr, s, res)
  | None =>
      w ← (if containerResources acc then waitForResourcesDeployment cr else success);
      if decide (w.1 = ResultSuccess) then
        '(indexes, r) ← readIndexes cr (repos acc);
        match r with
        | Some res => Ret (cr, s, res)
        | None => syncIndexes cr s (last secrets) indexes
        end
      else Ret (cr, s, w)
  end.

Definition sync (cr : Observability) (s : ObservabilityStatus) : prog Outcome :=
  selector ← deref (spec_ConfigurationSelector (specOf cr));
  if ExternalSyncDisabled cr then syncSecrets cr s []
  else
    r ← List_ KSecret EmptyString (ls_MatchLabels selector);
    match r with
    | inr e => _ ← Inc FailedConfigurationSyncs; Ret (cr, s, (ResultFailed, Some e))
    | inl [] => Ret (cr, set_LastSynced 0 s, (ResultInProgress, None))
    | inl secrets => syncSecrets cr s secrets
    end.

(** The sync is skipped while the resync period runs, unless it is forced. *)
Definition syncWhenDue (cr : Observability) (s : ObservabilityStatus) (override : bool)
  : prog Outcome :=
  if negb (bool_decide (status_LastSynced (statusOf cr) = 0%Z)) && negb override then
    d ← resyncDue cr;
    match d with
    | inr e => _ ← Inc FailedConfigurationSyncs; Ret (cr, s, (ResultFailed, Some e))
    | inl due => if (due : bool) then sync cr s else Ret (cr, s, (ResultSuccess, None))
    end
  else sync cr s.

Definition reconcile (cr : Observability) (s : ObservabilityStatus) : prog Outcome :=
  match spec_ConfigurationSelector (specOf cr), ExternalSyncDisabled cr with
  | None, false => Ret (cr, s, (ResultSuccess, None))
  | _, _ =>
      '(expired, e) ← TokensExpired cr;
      match e with
      | Some e =>
          _ ← Inc FailedConfigurationSyncs;
          Ret (cr, s, (ResultFailed,
                       Some (WrapError "error checking observatorium token lifetimes" e)))
      | None =>
          let override := expired || ExternalSyncDisabled cr in
          if status_Migrated s then
            m ← checkForMissingCR cr;
            match m with
            | inr e => Ret (cr, s, (ResultFailed, Some (WrapError "error checking for migrated CR" e)))
            | inl missingCR => syncWhenDue cr s (override || missingCR)
            end
          else syncWhenDue cr s override
      end
  end.

(** ** Cleanup *)

(** List with labels in the namespace of the resource and delete everything. *)
Definition deleteListed (k : Kind) (cr : Observability) (labels : gomap string)
    (rest : prog StageResult) : prog StageResult :=
  r ← List_ k (namespaceOf cr) labels;
  match r with
  | inr e => Ret (ResultFailed, Some e)
  | inl items =>
      e ← deleteWhere (λ _, true) items;
      match e with
      | Some e => Ret (ResultFailed, Some e)
      | None => rest
      end
  end.

Definition cleanupMonitoring (cr : Observability) (rest : prog StageResult) : prog StageResult :=
  if ExternalSyncDisabled cr then rest
  else
    let rules :=
      deleteListed KPrometheusRule cr managedBy (deleteListed KPodMonitor cr managedBy rest) in
    if DescopedModeEnabled cr then rules else deleteListed KGrafanaDashboard cr managedBy rules.

Definition cleanup (cr : Observability) : prog StageResult :=
  deleteListed KSecret cr managedBy (
  deleteListed KConfigMap cr managedBy (
  cleanupMonitoring cr (
  deleteListed KDaemonSet cr managedBy (
  deleteListed KDeployment cr (mapOf [authProxy]) (
  deleteThen (GetResourcesDeployment cr) (
  deleteThen (GetResourcesService cr) (
  deleteThen (GetResourcesRoute cr) (
  deleteListed KNetworkPolicy cr (mapOf [authProxy]) success)))))))).

Definition reconciler : ObservabilityReconciler := mkReconciler reconcile cleanup.

(** ** The interface of a stage *)

(** The kinds of the objects a sync manages. *)
Definition managedKinds : list Kind :=
  [KSecret; KConfigMap; KService; KRoute; KDeployment; KDaemonSet; KNetworkPolicy;
   KPrometheus; KAlertmanager; KPrometheusRule; KPodMonitor; KGrafana; KGrafanaDashboard].

(** An object of such a kind, in the namespace of the resource or the one of the
    Prometheus operator. *)
Definition footprint (cr : Observability) (key : ObjectKey) : Prop :=
  key_Kind key ∈ managedKinds ∧
  (key_Namespace key = namespaceOf cr ∨ key_Namespace key = GetPrometheusOperatorNamespace cr).

(** *** The calls of the helpers *)

(** What the helpers of a sync call: they create objects of the footprint only,
    and leave the counters to the reconciler. *)
Definition quiet (cr : Observability) (s : step) : Prop :=
  createsIn (footprint cr) s ∧ silent s.

Lemma footprint_key cr k ns name :
  k ∈ managedKinds → ns = namespaceOf cr ∨ ns = GetPrometheusOperatorNamespace cr →
  footprint cr (mkKey k ns name).
Proof. by split. Qed.

Lemma allSteps_noCreate {A} cr (p : prog A) :
  allSteps (λ s, match projT1 s with CCreate _ | CInc _ => False | _ => True end) p →
  allSteps (quiet cr) p.
Proof. apply allSteps_impl. by intros [[] x]. Qed.

(** Closes the goals of programs that create objects of the footprint. *)
Ltac footprint_step :=
  match goal with
  | |- quiet _ _ => split
  | H : keyOf _ = _ |- createsIn _ _ =>
      unfold createsIn; simpl; rewrite H; apply footprint_key; [set_solver|auto]
  | |- createsIn _ _ => exact I
  | _ => solve_creates_step
  end.
Ltac solve_footprint := repeat footprint_step.

Section quiet_helpers.
Implicit Types (cr : Observability) (indexes : list RepositoryIndex).

Lemma alertmanagerConfig_quiet cr indexes : allSteps (quiet cr) (alertmanagerConfig cr indexes).
Proof.
  apply allSteps_bind; [solve_footprint|]. intros [g|e]; [|apply allSteps_ret].
  apply allSteps_bind; [|intros; apply allSteps_ret].
  generalize ([defaultReceiver], [] : list AlertmanagerConfigRoute).
  induction indexes as [|index rest IH]; intros c; simpl; [apply allSteps_ret|].
  apply allSteps_bind; [solve_footprint|done].
Qed.

Lemma reconcileEntries_silent cr transformed todo :
  allSteps silent (reconcileEntries depth cr transformed todo).
Proof.
  revert transformed; induction todo as [|o todo IH]; intros transformed; simpl; [constructor|].
  apply allSteps_bind.
  { eapply wp_mono; [|by apply (completeEntry_spec depth cr o silent)]. by intros ?? [? _]. }
  intros [o' [e|]]; [apply allSteps_ret|]. apply allSteps_bind; [solve_creates|].
  intros [e|]; [apply allSteps_ret|apply IH].
Qed.

Lemma reconcileEntries_quiet cr todo : allSteps (quiet cr) (reconcileEntries depth cr [] todo).
Proof.
  eapply wp_mono; [|apply wp_and; [apply (reconcileEntries_spec depth cr [])
                                  |apply (reconcileEntries_silent cr [])]].
  intros tr out [[Hw _] Hs]. simpl in Hs. rewrite Forall_forall in Hw, Hs |- *.
  intros s Hin. split; [|by apply Hs]. specialize (Hw s Hin). destruct s as [[] x]; try done.
  destruct (Hw _ eq_refl) as (entry & _ & Hk). unfold createsIn; simpl. rewrite Hk.
  apply footprint_key; [set_solver|by left].
Qed.

Lemma reconcileTokens_quiet cr source indexes :
  allSteps (quiet cr) (reconcileTokens cr source indexes).
Proof.
  revert source. induction indexes as [|index rest IH]; intros source; simpl; [apply allSteps_ret|].
  apply allSteps_bind.
  - unfold ReconcileObservatoria. destruct (idx_Config index) as [c|]; [|apply allSteps_ret].
    destruct (ObservatoriumDisabled cr); [apply allSteps_ret|].
    apply allSteps_bind; [apply reconcileEntries_quiet|intros [? []]; apply allSteps_ret].
  - intros [index' [e|]].
    + apply allSteps_bind; [done|intros; apply allSteps_ret].
    + apply allSteps_bind; [solve_footprint|]. intros [source' e].
      apply allSteps_bind; [done|intros; apply allSteps_ret].
Qed.

Lemma fetchResource_quiet cr path tag token : allSteps (quiet cr) (fetchResource path tag token).
Proof. solve_footprint. Qed.

Lemma fetchDashboard_quiet cr path tag token :
  allSteps (quiet cr) (fetchDashboard path tag token).
Proof. solve_footprint. Qed.

Lemma deleteProxies_quiet cr k f indexes :
  allSteps (quiet cr) (deleteUnrequestedProxies k f cr indexes).
Proof.
  apply allSteps_noCreate. unfold deleteUnrequestedProxies. apply allSteps_bind; [by apply allSteps_request|].
  intros [items|e]; [|apply allSteps_ret]. apply allSteps_bind; [solve_creates; done|].
  intros [o|e]; [|apply allSteps_ret]. apply allSteps_forEach. intros x _.
  apply allSteps_bind; [|intros []; [apply allSteps_ret|by apply allSteps_request]].
  unfold shouldExist. destruct (_ || _); [apply allSteps_ret|]. destruct o; [apply allSteps_ret|].
  apply allSteps_bind; [|intros; apply allSteps_ret]. apply allSteps_forEach. intros i _.
  destruct (idx_Config i); [|apply allSteps_ret]. apply allSteps_forEach. intros y _.
  unfold judgeEntry. destruct (oi_RedhatSsoConfig y); [|apply allSteps_ret].
  destruct (IsValid y); [|apply allSteps_ret]. apply allSteps_forEach. intros t _.
  unfold judgeType. destruct (skippedType _ _); [apply allSteps_ret|].
  destruct (getTokenRefresherConfigSetFor t y) as [[]|]; apply allSteps_ret || apply allSteps_panic.
Qed.

Lemma reconcileTokenRefresher_quiet cr indexes :
  allSteps (quiet cr) (reconcileTokenRefresher cr indexes).
Proof. unfold reconcileTokenRefresher. solve_footprint. Qed.

Lemma collectRemoteWrites_quiet cr indexes secrets :
  allSteps (quiet cr) (collectRemoteWrites cr indexes secrets).
Proof.
  unfold collectRemoteWrites. destruct (ObservatoriumDisabled cr); [apply allSteps_ret|].
  apply allSteps_forEachS. intros [rws secs] index _. solve_footprint.
Qed.

Lemma reconcilePrometheus_quiet cr indexes hash :
  allSteps (quiet cr) (reconcilePrometheus cr indexes hash).
Proof.
  apply allSteps_bind; [solve_footprint|]. intros [host|e]; [|apply allSteps_ret].
  apply allSteps_bind; [apply collectRemoteWrites_quiet|].
  intros [[rws secrets] [e|]]; [apply allSteps_ret|]. solve_footprint.
Qed.

(** The resource after Prometheus was reconciled. *)
Lemma reconcilePrometheus_cr cr indexes hash :
  wp (reconcilePrometheus cr indexes hash) (λ _ o, ∀ r, o = Done r →
    r.1 = cr ∨ r.1 = relabel cr).
Proof.
  apply wp_bind, wp_true. intros _ [[host|e]|]; [|by intros ? [= <-]; left|done].
  apply wp_bind, wp_true. intros _ [[[rws secrets] [e|]]|]; [by intros ? [= <-]; left| |done].
  eapply wp_mono; [|apply writePrometheus_relabels]. intros _ o Hr [cr' e] ->.
  destruct (Hr cr' e eq_refl) as [->|[-> _]]; auto.
Qed.

Lemma requestedDashboard_namespace cr d :
  wp (requestedDashboard cr d) (λ _ o, ∀ x, o = Done (inl (Some x)) →
    namespaceOf x = namespaceOf cr).
Proof.
  apply wp_bind, wp_true. intros _ [[[t source]|e]|]; [|done|done].
  destruct t; simpl; try done.
  - by intros x [= <-].
  - unfold parseDashboardFromYaml. destruct (decodeDashboard source); [|done].
    by intros x [= <-].
Qed.

Lemma createRequestedDashboards_quiet cr dashboards :
  allSteps (quiet cr) (createRequestedDashboards cr dashboards).
Proof.
  set (ok := λ os : list (Object KGrafanaDashboard),
    Forall (λ o, namespaceOf o = namespaceOf cr) os).
  eapply (allSteps_bind_post _ _ (λ r, ok r.1)).
  - solve_footprint.
  - apply (wp_forEachS _ _ _ (λ _ os _, ok os)).
    + constructor.
    + intros pre d post os tr _ Hos. apply wp_bind.
      eapply wp_mono; [|apply requestedDashboard_namespace].
      intros tr' [[[o|]|e]|] Ho; simpl; [|done|by intros ? [= <-]|done].
      apply Forall_app. split; [done|]. constructor; [by apply Ho|done].
    + by intros os tr Hos ? [= <-].
  - intros [os [e|]] Hos; [apply allSteps_ret|]. apply allSteps_forEach. intros o Ho.
    unfold ok in Hos; simpl in Hos. rewrite Forall_forall in Hos. specialize (Hos o Ho).
    apply allSteps_bind; [|intros []; apply allSteps_ret].
    apply allSteps_CreateOrUpdate; [done|intros; apply allSteps_ret| |done].
    intros o' x Hk. split; [|done]. unfold createsIn; simpl. rewrite Hk.
    apply footprint_key; [set_solver|auto].
Qed.

Lemma createRequestedRules_quiet cr rules : allSteps (quiet cr) (createRequestedRules cr rules).
Proof.
  apply allSteps_forEach. intros rule _. apply allSteps_bind; [apply fetchResource_quiet|].
  intros [bytes|e]; [|apply allSteps_ret]. unfold parseRuleFromYaml.
  destruct (decodeRule bytes); solve_footprint.
Qed.

Lemma createRequestedPodMonitors_quiet cr monitors :
  allSteps (quiet cr) (createRequestedPodMonitors cr monitors).
Proof.
  apply allSteps_forEach. intros monitor _. apply allSteps_bind; [apply fetchResource_quiet|].
  intros [bytes|e]; [|apply allSteps_ret]. unfold parsePodMonitorFromYaml.
  destruct (decodePodMonitor bytes); solve_footprint.
Qed.
End quiet_helpers.

(** *** What a sync counts and hands back *)

(** How often a trace counted a finished sync and a failed one. *)
Definition tally (tr : trace) : nat * nat :=
  (countOf SuccessfulConfigurationSyncs tr, countOf FailedConfigurationSyncs tr).

Lemma tally_silent tr : Forall silent tr → tally tr = (0, 0)%nat.
Proof.
  intros Hs. unfold tally. by rewrite !countOf_none
    by (eapply Forall_impl; [exact Hs|by intros ? ->]).
Qed.

Lemma tally_app_silent tr1 tr2 : Forall silent tr1 → tally (tr1 ++ tr2) = tally tr2.
Proof.
  unfold tally. rewrite !countOf_app. by intros [= -> ->]%tally_silent.
Qed.

(** The footprint, and counters of syncs only. *)
Definition syncCall (cr : Observability) (s : step) : Prop :=
  createsIn (footprint cr) s ∧ stageSilent s.

Lemma quiet_syncCall cr s : quiet cr s → syncCall cr s.
Proof. intros [??]. split; [done|by apply silent_stageSilent]. Qed.

(** The time of a finished sync: the clock, or zero without external sync, so
    that the next round syncs again. *)
Definition syncTime (cr : Observability) (tr : trace) (t : Z) : Prop :=
  if ExternalSyncDisabled cr then t = 0%Z
  else ∃ now, (CNow ⇝ now) ∈ tr ∧ t = Time.toUnix now.

(** The counters and the recorded time agree with the verdict: a run counts one
    finished sync and records its time, or counts one failure and is reported as
    failed, or counts nothing. *)
Inductive accounted (cr : Observability) (s : ObservabilityStatus) (tr : trace)
  : ObservabilityStatus → StageResult → Prop :=
| acc_success s' :
    tally tr = (1, 0)%nat → syncTime cr tr (status_LastSynced s') →
    accounted cr s tr s' (ResultSuccess, None)
| acc_failure s' e :
    tally tr = (0, 1)%nat → status_LastSynced s' = status_LastSynced s →
    accounted cr s tr s' (ResultFailed, Some e)
| acc_uncounted s' st e :
    tally tr = (0, 0)%nat →
    status_LastSynced s' = status_LastSynced s ∨
      st = ResultInProgress ∧ status_LastSynced s' = 0%Z →
    accounted cr s tr s' (st, e).

(** Nothing of the status changes but the time of the last sync and the host of the
    resources route. *)
Definition keepsStatus (s s' : ObservabilityStatus) : Prop :=
  s' = set_LastSynced (status_LastSynced s') (set_ResourcesRoute (status_ResourcesRoute s') s).

Lemma keepsStatus_trans s1 s2 s3 : keepsStatus s1 s2 → keepsStatus s2 s3 → keepsStatus s1 s3.
Proof. unfold keepsStatus. intros -> H23. by rewrite H23. Qed.

(** The resource is the given one, possibly relabelled, and the status is kept. *)
Definition handsBack (cr : Observability) (s : ObservabilityStatus) (tr : trace)
    (r : Outcome) : Prop :=
  let '(cr', s', res) := r in
  (cr' = cr ∨ cr' = relabel cr) ∧ keepsStatus s s' ∧ accounted cr s tr s' res.

Definition syncs (cr : Observability) (s : ObservabilityStatus) (p : prog Outcome) : Prop :=
  wp p (λ tr o, Forall (syncCall cr) tr ∧ ∀ r, o = Done r → handsBack cr s tr r).

(** The status a step continues with. *)
Definition sameSync (s s' : ObservabilityStatus) : Prop :=
  keepsStatus s s' ∧ status_LastSynced s' = status_LastSynced s.

Lemma sameSync_refl s : sameSync s s.
Proof. split; [|done]. by destruct s. Qed.
#[local] Hint Resolve sameSync_refl : core.

Lemma accounted_app cr s tr1 tr2 s' r :
  Forall silent tr1 → accounted cr s tr2 s' r → accounted cr s (tr1 ++ tr2) s' r.
Proof.
  intros Hs Ha. destruct Ha as [s' Ht Hn|s' e Ht Hn|s' st e Ht Hn].
  - apply acc_success; [by rewrite tally_app_silent|]. unfold syncTime in *.
    destruct (ExternalSyncDisabled cr); [done|]. destruct Hn as (now & Hin & ->).
    exists now. split; [|done]. apply elem_of_app. by right.
  - apply acc_failure; [by rewrite tally_app_silent|done].
  - apply acc_uncounted; [by rewrite tally_app_silent|done].
Qed.

Section syncs_rules.
Context (cr : Observability) (s : ObservabilityStatus).

Lemma syncs_ret cr' s' st e :
  cr' = cr ∨ cr' = relabel cr → sameSync s s' → syncs cr s (Ret (cr', s', (st, e))).
Proof.
  intros Hc (? & ?). split; [constructor|]. intros r [= <-].
  split_and!; try done. apply acc_uncounted; auto.
Qed.

Lemma syncs_bind_post {A} (p : prog A) f (Q : A → Prop) :
  allSteps (quiet cr) p → wp p (λ _ o, ∀ a, o = Done a → Q a) →
  (∀ a, Q a → syncs cr s (f a)) → syncs cr s (pbind p f).
Proof.
  intros Hp HQ Hf. apply wp_bind. eapply wp_mono; [|exact (wp_and _ _ _ Hp HQ)].
  intros tr o [Hq Ha]. simpl in Hq. assert (Forall (syncCall cr) tr) as Hc
    by (eapply Forall_impl; [exact Hq|apply quiet_syncCall]).
  destruct o as [a|]; [|done]. eapply wp_mono; [|apply (Hf a), Ha; done].
  intros tr' o [Hc' Hr]. split; [by apply Forall_app|]. intros [[cr' s'] r] Hd.
  destruct (Hr _ Hd) as (? & ? & ?). split_and!; try done. apply accounted_app; [|done].
  eapply Forall_impl; [exact Hq|]. by intros ? [_ ?].
Qed.

Lemma syncs_bind {A} (p : prog A) f :
  allSteps (quiet cr) p → (∀ a, syncs cr s (f a)) → syncs cr s (pbind p f).
Proof. intros Hp Hf. apply (syncs_bind_post _ _ (λ _, True)); [done|by apply wp_true|auto]. Qed.

(** [metrics.IncreaseFailedConfigurationSyncsMetric(); return ResultFailed, err] *)
Lemma syncs_fail cr' s' e :
  cr' = cr ∨ cr' = relabel cr → sameSync s s' →
  syncs cr s (_ ← Inc FailedConfigurationSyncs; Ret (cr', s', (ResultFailed, Some e))).
Proof.
  intros Hc (? & ?) []. split; [by repeat constructor|]. intros r [= <-].
  split_and!; try done. by apply acc_failure.
Qed.

Lemma syncs_syncStep cr' s' wrap p rest :
  cr' = cr ∨ cr' = relabel cr → sameSync s s' → allSteps (quiet cr) p → syncs cr s rest →
  syncs cr s (syncStep cr' s' wrap p rest).
Proof.
  intros. apply syncs_bind; [done|]. intros [e|]; [by apply syncs_fail|done].
Qed.
End syncs_rules.

(** The relabelled resource has the same footprint. *)
Lemma quiet_relabel {A} cr cr' (p : prog A) :
  cr' = cr ∨ cr' = relabel cr → allSteps (quiet cr') p → allSteps (quiet cr) p.
Proof. by intros [->| ->]. Qed.

Lemma when_quiet cr b p : allSteps (quiet cr) p → allSteps (quiet cr) (when b p).
Proof. by destruct b; [|intros; apply allSteps_ret]. Qed.

Lemma syncMonitoring_syncs cr s cr' s' indexes rest :
  cr' = cr ∨ cr' = relabel cr → sameSync s s' → syncs cr s rest →
  syncs cr s (syncMonitoring cr' s' indexes rest).
Proof.
  intros Hc Hs Hr. unfold syncMonitoring.
  destruct (ExternalSyncDisabled cr'); repeat (apply syncs_syncStep; [done..| |]); try done;
    apply (quiet_relabel cr cr'); try done; try apply when_quiet;
    auto using createRequestedRules_quiet, createRequestedPodMonitors_quiet,
      createRequestedDashboards_quiet; solve_footprint.
Qed.

Lemma finishSync_syncs cr s cr' s' :
  cr' = cr ∨ cr' = relabel cr → sameSync s s' → syncs cr s (finishSync cr' s').
Proof.
  intros Hc [Hk ?].
  assert (∀ z, keepsStatus s (set_LastSynced z s')) as Hkz by (intros z; by rewrite Hk).
  assert (ExternalSyncDisabled cr' = ExternalSyncDisabled cr) as He by (by destruct Hc as [->| ->]).
  unfold finishSync. rewrite He. destruct (ExternalSyncDisabled cr) eqn:Hd.
  - intros []. split; [by repeat constructor|]. intros r [= <-]. split_and!; try done.
    apply acc_success; [done|]. unfold syncTime. by rewrite Hd.
  - intros now []. split; [by repeat constructor|]. intros r [= <-]. split_and!; try done.
    apply acc_success; [done|]. unfold syncTime. rewrite Hd. exists now. split; [left|done].
Qed.

Lemma syncPromtail_syncs cr s cr' s' indexes :
  cr' = cr ∨ cr' = relabel cr → sameSync s s' → syncs cr s (syncPromtail cr' s' indexes).
Proof.
  intros Hc Hs. apply syncs_syncStep; [done..| |].
  { apply (quiet_relabel cr cr'); [done|]. solve_footprint. }
  apply syncs_bind; [apply (quiet_relabel cr cr'); [done|solve_footprint]|].
  intros [e|]; [by apply syncs_ret|by apply finishSync_syncs].
Qed.

Lemma syncInstances_syncs cr s s' indexes rest :
  sameSync s s' → (∀ cr', cr' = cr ∨ cr' = relabel cr → syncs cr s (rest cr')) →
  syncs cr s (syncInstances cr s' indexes rest).
Proof.
  intros Hs Hr. apply syncs_syncStep; [auto..| |].
  { apply when_quiet, allSteps_bind; [apply alertmanagerConfig_quiet|]. solve_footprint. }
  apply syncs_bind; [solve_footprint|].
  intros [patterns|e]; [|apply syncs_fail; auto].
  apply syncs_syncStep; [auto..|solve_footprint|].
  apply syncs_bind; [solve_footprint|]. intros [hash e].
  apply syncs_syncStep; [auto..|apply allSteps_ret|].
  apply syncs_syncStep; [auto..|solve_footprint|].
  eapply syncs_bind_post; [apply reconcilePrometheus_quiet|apply reconcilePrometheus_cr|].
  intros [cr' e'] Hc. apply syncs_syncStep; [auto..|apply allSteps_ret|].
  apply syncs_syncStep; [auto..| |auto].
  apply (quiet_relabel cr cr'); [done|]. apply when_quiet. solve_footprint.
Qed.

Lemma syncIndexes_syncs cr s s' source indexes :
  sameSync s s' → syncs cr s (syncIndexes cr s' source indexes).
Proof.
  intros Hs. apply syncs_syncStep; [auto..|solve_footprint|].
  apply syncs_bind; [apply reconcileTokens_quiet|]. intros indexes'.
  apply syncs_syncStep; [auto..|apply deleteProxies_quiet|].
  apply syncs_syncStep; [auto..|apply deleteProxies_quiet|].
  apply syncs_syncStep; [auto..|apply when_quiet, reconcileTokenRefresher_quiet|].
  apply syncInstances_syncs; [done|].
  intros cr' Hc. apply syncMonitoring_syncs; [done..|]. by apply syncPromtail_syncs.
Qed.

(** *** Steps that may end the sync with a verdict of their own *)

(** The counters when a step returned: untouched when the sync goes on; at most
    one failure when it ends, which is then reported. *)
Definition stopped (tr : trace) (r : option StageResult) : Prop :=
  match r with
  | None => Forall silent tr
  | Some (st, e) =>
      st = ResultFailed ∧ is_Some e ∧ (tally tr = (0, 0)%nat ∨ tally tr = (0, 1)%nat)
  end.

Definition settles {X} (cr : Observability) (P : X → Prop)
    (p : prog (X * option StageResult)) : Prop :=
  wp p (λ tr o, Forall (syncCall cr) tr ∧ ∀ x r, o = Done (x, r) → P x ∧ stopped tr r).

Lemma stopped_app tr1 tr2 r : Forall silent tr1 → stopped tr2 r → stopped (tr1 ++ tr2) r.
Proof.
  intros Hs. destruct r as [[st e]|]; simpl; [|by rewrite Forall_app].
  by rewrite tally_app_silent.
Qed.

Section settles_rules.
Context {X : Type} (cr : Observability) (P : X → Prop).

Lemma settles_ret x : P x → settles cr P (Ret (x, None)).
Proof. intros HP. split; [constructor|]. intros ?? [= <- <-]. split; [done|constructor]. Qed.

Lemma settles_stop x e : P x → settles cr P (Ret (x, Some (ResultFailed, Some e))).
Proof. intros HP. split; [constructor|]. intros ?? [= <- <-]. split; [done|]. split; [done|]. split; [eauto|by left]. Qed.

Lemma settles_fail x e : P x → settles cr P (f ← failedSync e; Ret (x, f)).
Proof.
  intros HP []. split; [by repeat constructor|]. intros ?? [= <- <-]. split; [done|].
  split; [done|]. split; [eauto|by right].
Qed.

Lemma settles_bind {A} (p : prog A) f (Q : A → Prop) :
  allSteps (quiet cr) p → wp p (λ _ o, ∀ a, o = Done a → Q a) →
  (∀ a, Q a → settles cr P (f a)) → settles cr P (pbind p f).
Proof.
  intros Hp HQ Hf. apply wp_bind. eapply wp_mono; [|exact (wp_and _ _ _ Hp HQ)].
  intros tr o [Hq Ha]. simpl in Hq. assert (Forall (syncCall cr) tr) as Hc
    by (eapply Forall_impl; [exact Hq|apply quiet_syncCall]).
  destruct o as [a|]; [|done]. eapply wp_mono; [|apply (Hf a), Ha; done].
  intros tr' o [Hc' Hr]. split; [by apply Forall_app|]. intros x r Hd.
  destruct (Hr _ _ Hd) as (? & ?). split; [done|]. apply stopped_app; [|done].
  eapply Forall_impl; [exact Hq|]. by intros ? [_ ?].
Qed.

Lemma settles_forEachS {A} x (xs : list A) b :
  P x → (∀ x a, a ∈ xs → P x → settles cr P (b x a)) → settles cr P (forEachS x xs b).
Proof.
  intros HP Hb. apply (wp_forEachS _ _ _ (λ _ x tr,
    P x ∧ Forall (syncCall cr) tr ∧ Forall silent tr)).
  - by split_and!.
  - intros pre a post x' tr -> (HP' & Hc & Hs).
    eapply wp_mono; [|apply (Hb x' a); [set_solver|done]].
    intros tr' o [Hc' Hr]. assert (Forall (syncCall cr) (tr ++ tr')) by (by apply Forall_app).
    destruct o as [[x'' [r|]]|]; [..|done]; destruct (Hr _ _ eq_refl) as [HP'' Ht].
    + split; [done|]. intros ?? [= <- <-]. split; [done|by apply stopped_app].
    + split_and!; [done..|by apply Forall_app].
  - intros x' tr (HP' & Hc & Hs). split; [done|]. by intros ?? [= <- <-].
Qed.

(** A step that stops the sync, or lets it go on. *)
Lemma syncs_settle s (p : prog (X * option StageResult)) g f :
  settles cr P p → (∀ x, P x → sameSync s (g x)) → (∀ x, P x → syncs cr s (f x)) →
  syncs cr s ('(x, r) ← p;
    match r with Some res => Ret (cr, g x, res) | None => f x end).
Proof.
  intros Hp Hg Hf. apply wp_bind. eapply wp_mono; [|exact Hp]. intros tr o [Hc Hr].
  destruct o as [[x r]|]; [|done]. destruct (Hr _ _ eq_refl) as [HP Ht].
  destruct r as [[st e]|]; simpl.
  - rewrite app_nil_r. split; [done|]. intros ? [= <-]. destruct (Hg x HP) as (? & ?).
    split_and!; auto. destruct Ht as (-> & [e' ->] & [Ht|Ht]);
      [apply acc_uncounted|apply acc_failure]; auto.
  - eapply wp_mono; [|apply (Hf x HP)]. intros tr' o [Hc' Hr']. split; [by apply Forall_app|].
    intros [[cr' s'] r] Hd. destruct (Hr' _ Hd) as (? & ? & ?).
    split_and!; try done. by apply accounted_app.
Qed.
End settles_rules.

Lemma ReconcileResourcesRoute_status cr s :
  wp (ReconcileResourcesRoute cr s) (λ _ o, ∀ r, o = Done r → sameSync s r.1).
Proof.
  apply wp_bind, wp_true. intros tr [[route e]|]; [|done].
  simpl. case_match; [by intros r [= <-]|]. intros r [= <-]. simpl.
  by destruct (negb (existsIn _ _)).
Qed.

Lemma serveResources_settles cr s s' info :
  sameSync s s' → settles cr (sameSync s) (serveResources cr s' info).
Proof.
  intros Hs.
  apply (settles_bind _ _ _ _ (λ _, True)); [solve_footprint|by apply wp_true|].
  intros [e|] _; [by apply settles_fail|].
  apply (settles_bind _ _ _ _ (λ _, True)); [solve_footprint|by apply wp_true|].
  intros [e|] _; [by apply settles_fail|].
  apply (settles_bind _ _ _ _ (λ _, True)); [solve_footprint|by apply wp_true|].
  intros [] _; [|by apply settles_ret].
  eapply settles_bind; [solve_footprint|apply ReconcileResourcesRoute_status|].
  intros [s1 [e|]] [E1 E2]; destruct Hs as [F1 F2]; simpl in *;
    [apply settles_stop|apply settles_ret];
    (split; [by eapply keepsStatus_trans|congruence]).
Qed.

Lemma addRepository_settles cr s source acc secret :
  sameSync s (reposStatus acc) →
  settles cr (λ acc', sameSync s (reposStatus acc')) (addRepository cr source acc secret).
Proof.
  intros Hs. unfold addRepository.
  destruct (repos acc !! nameOf secret); [by apply settles_ret|].
  destruct (_ && _); [|by apply settles_ret]. apply wp_bind.
  eapply wp_mono; [|by apply (serveResources_settles cr s)].
  intros tr o [Hc Hr]. destruct o as [[s' r]|]; [|done]. destruct (Hr _ _ eq_refl).
  simpl. rewrite app_nil_r. split; [done|]. by intros ?? [= <- <-].
Qed.

Lemma collectRepositories_settles cr s secrets :
  settles cr (λ acc, sameSync s (reposStatus acc)) (collectRepositories cr s secrets).
Proof. apply settles_forEachS; [done|]. intros acc secret _. apply addRepository_settles. Qed.

(** A quiet prefix in front of a verdict. *)
Lemma stopped_bind {A B} cr (p : prog A) (f : A → prog (B + StageResult)) :
  let verdict (tr : trace) (o : outcome (B + StageResult)) :=
    Forall (syncCall cr) tr ∧ ∀ r, o = Done r →
      stopped tr (match r with inl _ => None | inr res => Some res end) in
  allSteps (quiet cr) p → (∀ a, wp (f a) verdict) → wp (pbind p f) verdict.
Proof.
  intros verdict Hp Hf. apply wp_bind. eapply wp_mono; [|exact Hp]. intros tr o Hq.
  assert (Forall (syncCall cr) tr) as Hc
    by (eapply Forall_impl; [exact Hq|apply quiet_syncCall]).
  destruct o as [a|]; [|done]. eapply wp_mono; [|apply Hf]. intros tr' o [Hc' Hr].
  split; [by apply Forall_app|]. intros r Hd. apply stopped_app; [|by apply Hr].
  eapply Forall_impl; [exact Hq|]. by intros ? [_ ?].
Qed.

Lemma readIndex_stops cr repo :
  wp (readIndex cr repo) (λ tr o, Forall (syncCall cr) tr ∧ ∀ r, o = Done r →
    stopped tr (match r with inl _ => None | inr res => Some res end)).
Proof.
  apply stopped_bind; [solve_footprint|]. intros [bytes|e].
  2: { intros []. split; [by repeat constructor|]. intros r [= <-]. split; [done|]. split; [eauto|by right]. }
  destruct (decodeIndex bytes) as [index|e].
  2: { intros []. split; [by repeat constructor|]. intros r [= <-]. split; [done|]. split; [eauto|by right]. }
  apply stopped_bind; [solve_footprint|].
  intros [u|e]; (split; [constructor|]); intros r [= <-]; [constructor|split; [done|]; split; [eauto|by left]].
Qed.

Lemma readIndexes_settles cr all : settles cr (λ _, True) (readIndexes cr all).
Proof.
  apply (settles_bind _ _ _ _ (λ _, True)); [solve_footprint|by apply wp_true|].
  intros keys _. apply settles_forEachS; [done|]. intros indexes key _ _.
  destruct (all !! key) as [repo|]; [|by apply settles_ret].
  apply wp_bind. eapply wp_mono; [|apply readIndex_stops]. intros tr o [Hc Hr].
  destruct o as [[index|res]|]; [..|done]; specialize (Hr _ eq_refl); simpl;
    rewrite app_nil_r; (split; [done|]); by intros ?? [= <- <-].
Qed.

Lemma syncSecrets_syncs cr s secrets : syncs cr s (syncSecrets cr s secrets).
Proof.
  apply (syncs_settle cr (λ acc, sameSync s (reposStatus acc)) s _ reposStatus);
    [apply collectRepositories_settles|done|]. intros acc Hs.
  apply syncs_bind; [solve_footprint|]. intros [st e]. case_decide; [|apply syncs_ret; auto].
  apply (syncs_settle cr (λ _, True) s _ (λ _, reposStatus acc)); [apply readIndexes_settles|done|].
  intros indexes _. by apply syncIndexes_syncs.
Qed.

Lemma sync_syncs cr s : syncs cr s (sync cr s).
Proof.
  apply syncs_bind; [solve_footprint|]. intros sel.
  destruct (ExternalSyncDisabled cr); [apply syncSecrets_syncs|].
  apply syncs_bind; [solve_footprint|]. intros [[|x l]|e].
  - split; [constructor|]. intros r [= <-]. split_and!; [auto|by destruct s|apply acc_uncounted; auto].
  - apply syncSecrets_syncs.
  - by apply syncs_fail; auto.
Qed.

Lemma syncWhenDue_syncs cr s override : syncs cr s (syncWhenDue cr s override).
Proof.
  unfold syncWhenDue. destruct (_ && _); [|apply sync_syncs].
  apply syncs_bind; [solve_footprint|].
  intros [[]|e]; [apply sync_syncs|by apply syncs_ret; auto|by apply syncs_fail; auto].
Qed.

Lemma reconcile_syncs cr s : syncs cr s (reconcile cr s).
Proof.
  assert (∀ st e, syncs cr s (Ret (cr, s, (st, e)))) as Hret
    by (intros; by apply syncs_ret; auto).
  unfold reconcile. destruct (spec_ConfigurationSelector _), (ExternalSyncDisabled cr);
    try apply Hret;
    (apply syncs_bind; [solve_footprint|]; intros [expired [e|]]; [by apply syncs_fail; auto|];
     destruct (status_Migrated s); [|apply syncWhenDue_syncs];
     apply syncs_bind; [solve_footprint|]; intros [m|e]; [apply syncWhenDue_syncs|apply Hret]).
Qed.

Lemma reconcile_calls cr s : allSteps (syncCall cr) (reconcile cr s).
Proof. eapply wp_mono; [|apply reconcile_syncs]. by intros ?? [? _]. Qed.

Lemma reconcile_hands_back cr s :
  wp (reconcile cr s) (λ tr o, ∀ r, o = Done r → handsBack cr s tr r).
Proof. eapply wp_mono; [|apply reconcile_syncs]. by intros ?? [_ ?]. Qed.

(** *** Cleanup *)

Lemma deletesOnSuccess_deleteListed K k cr labels rest :
  deletesOnSuccess K rest → deletesOnSuccess K (deleteListed k cr labels rest).
Proof.
  intros Hr. apply deletesOnSuccess_bind. intros [items|e]; [|by apply deletesOnSuccess_fail].
  apply deletesOnSuccess_bind. intros [e|]; [by apply deletesOnSuccess_fail|done].
Qed.

Lemma deletesOnSuccess_cleanupMonitoring K cr rest :
  deletesOnSuccess K rest → deletesOnSuccess K (cleanupMonitoring cr rest).
Proof.
  intros Hr. unfold cleanupMonitoring.
  destruct (ExternalSyncDisabled cr), (DescopedModeEnabled cr);
    repeat apply deletesOnSuccess_deleteListed; done.
Qed.

#[export] Program Instance contract : StageContract reconciler := {|
  owned cr :=
    [keyOf (GetResourcesDeployment cr); keyOf (GetResourcesService cr);
     keyOf (GetResourcesRoute cr)];
  unguaranteed := footprint;
|}.
Next Obligation.
  intros cr s. apply allSteps_ok. eapply allSteps_impl; [|apply reconcile_calls].
  intros [[] x] [? _]; unfold createsIn; simpl; auto.
Qed.
Next Obligation.
  intros cr. simpl. unfold cleanup.
  repeat first [apply deletesOnSuccess_deleteListed|apply deletesOnSuccess_cleanupMonitoring
               |apply deletesOnSuccess_deleteThen|apply deletesOnSuccess_nil].
Qed.
Next Obligation.
  intros cr s. eapply wp_mono; [|apply reconcile_hands_back].
  intros tr o Hr cr' s' r ->. destruct (Hr _ eq_refl) as ([->| ->] & Hs & _); (split; [done|]); by rewrite Hs.
Qed.
Next Obligation. intros cr. simpl. unfold cleanup. solve_creates. Qed.
Next Obligation.
  intros cr s. eapply allSteps_impl; [|apply reconcile_calls]. by intros s' [_ ?].
Qed.
Next Obligation. intros cr. simpl. unfold cleanup. solve_creates. Qed.

(** The deletions and the lists of the cleanup stay in one namespace. *)
Definition within (ns : string) (s : step) : Prop :=
  match projT1 s with
  | CDelete o => namespaceOf o = ns
  | CList _ ns' _ => ns' = ns
  | _ => False
  end.

Lemma deleteListed_within k cr labels rest :
  namespaceOf cr ≠ EmptyString → allStepsOk (within (namespaceOf cr)) rest →
  allStepsOk (within (namespaceOf cr)) (deleteListed k cr labels rest).
Proof.
  intros Hns Hr. apply allStepsOk_call; [done|]. intros [items|e] Hok;
    [|apply allSteps_ok, allSteps_ret].
  specialize (Hok items eq_refl Hns). rewrite Forall_forall in Hok.
  apply allStepsOk_bind; [|intros [e|]; [apply allSteps_ok, allSteps_ret|done]].
  apply allSteps_ok, allSteps_deleteWhere. intros o x Ho _. by apply Hok.
Qed.

Lemma deleteThen_within {k} (o : Object k) ns rest :
  namespaceOf o = ns → allStepsOk (within ns) rest → allStepsOk (within ns) (deleteThen o rest).
Proof.
  intros Ho Hr. apply allStepsOk_bind; [by apply allSteps_ok, allSteps_request|].
  intros [e|]; [destruct (IsNotFound e)|]; try done. apply allSteps_ok, allSteps_ret.
Qed.

Lemma cleanup_within cr :
  namespaceOf cr ≠ EmptyString → allStepsOk (within (namespaceOf cr)) (cleanup cr).
Proof.
  intros Hns. unfold cleanup, cleanupMonitoring.
  destruct (ExternalSyncDisabled cr), (DescopedModeEnabled cr);
    repeat first [apply deleteListed_within; [done|]|apply deleteThen_within; [done|]];
    apply allSteps_ok, allSteps_ret.
Qed.

Lemma within_deleteRequests ns tr key :
  Forall (within ns) tr → key ∈ deleteRequests tr → key_Namespace key = ns.
Proof.
  rewrite Forall_forall. intros Hw. unfold deleteRequests. rewrite list_elem_of_omap.
  intros ([c x] & Hs & Hk). specialize (Hw _ Hs). destruct c; simplify_eq/=. exact Hw.
Qed.

(** The rules and pod monitors of a sync are written to the namespace of the
    Prometheus operator. *)
Definition besideOperator (cr : Observability) (key : ObjectKey) : Prop :=
  key_Namespace key = GetPrometheusOperatorNamespace cr.

Ltac solve_beside :=
  apply allSteps_CreateOrUpdate_pure; [by intros ? ?|..];
    intros o x Hk key Hkey; cbn [projT1 callWrites] in Hkey; rewrite Hk in Hkey;
    by injection Hkey as <-.

Lemma fetchResource_reads P path tag token : allSteps (writesIn P) (fetchResource path tag token).
Proof. solve_creates; by intros ? ?. Qed.

Lemma rules_beside cr rules :
  allSteps (writesIn (besideOperator cr)) (createRequestedRules cr rules).
Proof.
  apply allSteps_forEach. intros rule _. apply allSteps_bind; [apply fetchResource_reads|].
  intros [bytes|e]; [|apply allSteps_ret]. unfold parseRuleFromYaml.
  destruct (decodeRule bytes) as [parsed|e]; [|apply allSteps_ret].
  apply allSteps_bind; [solve_beside|intros []; apply allSteps_ret].
Qed.

Lemma monitors_beside cr monitors :
  allSteps (writesIn (besideOperator cr)) (createRequestedPodMonitors cr monitors).
Proof.
  apply allSteps_forEach. intros monitor _. apply allSteps_bind; [apply fetchResource_reads|].
  intros [bytes|e]; [|apply allSteps_ret]. unfold parsePodMonitorFromYaml.
  destruct (decodePodMonitor bytes) as [parsed|e]; [|apply allSteps_ret].
  apply allSteps_bind; [solve_beside|intros []; apply allSteps_ret].
Qed.

(** C38: The cleanup of the configuration stage of a resource in a namespace deletes
    objects of that namespace only, provided the server lists objects of the
    namespace it was asked for.  So when the Prometheus operator is in another
    namespace, which it can be in descoped mode, none of the rules and pod monitors
    that a sync wrote is deleted by the cleanup. *)
Theorem configuration_cleanup_namespace cr rules monitors :
  namespaceOf cr ≠ EmptyString →
  wp (createRequestedRules cr rules) (λ ruleCalls _,
  wp (createRequestedPodMonitors cr monitors) (λ monitorCalls _,
  wp (cleanup cr) (λ tr _, Forall answerOk tr →
    (∀ key, key ∈ deleteRequests tr → key_Namespace key = namespaceOf cr) ∧
    (GetPrometheusOperatorNamespace cr ≠ namespaceOf cr →
     ∀ key, key ∈ writeKeys ruleCalls ∨ key ∈ writeKeys monitorCalls →
       key ∉ deleteRequests tr)))).
Proof.
  intros Hns. eapply wp_mono; [|apply allSteps_writeKeys, rules_beside]. intros tr1 o1 Hrules.
  eapply wp_mono; [|apply allSteps_writeKeys, monitors_beside]. intros tr2 o2 Hmonitors.
  eapply wp_mono; [|by apply cleanup_within]. intros tr o Hw Hok. specialize (Hw Hok). simpl in Hrules, Hmonitors.
  split; [intros key; by apply within_deleteRequests|]. intros Hne key Hin Hdel.
  apply Hne. rewrite <-(within_deleteRequests _ _ _ Hw Hdel). symmetry.
  rewrite Forall_forall in Hrules, Hmonitors. destruct Hin as [Hin|Hin]; [by apply Hrules|by apply Hmonitors].
Qed.

(** *** Syncing when due *)

(** C8: The configuration stage hands back the resource as it was given, or with the
    single label app=prometheus in place of its labels, and changes nothing else of
    it; and of the status to be written it changes at most the time of the last
    sync and the host of the resources route: the stage named there, the result and
    message of the previous stage, the token expiry, the cluster id and the
    migration flag are those it was given. *)
Theorem configuration_frame cr s :
  wp (reconcile cr s) (λ _ o, ∀ cr' s' r, o = Done (cr', s', r) →
    (cr' = cr ∨ cr' = withMeta (set_Labels (Some {["app" := "prometheus"]})) cr) ∧
    ∃ lastSynced host, s' = mkObservabilityStatus (status_Stage s) (status_StageStatus s)
      (status_LastMessage s) (status_TokenExpires s) (status_ClusterID s) lastSynced
      (status_Migrated s) host).
Proof.
  eapply wp_mono; [|apply reconcile_hands_back]. intros tr o Hr cr' s' r ->.
  destruct (Hr _ eq_refl) as (Hc & Hs & _). split; [done|].
  exists (status_LastSynced s'), (status_ResourcesRoute s'). exact Hs.
Qed.

(** C7: The counters of configuration syncs agree with what a reconciliation did:
    it counts at most one event; a counted success is a run that ended with
    success and recorded the time of the clock (zero without external sync); a
    counted failure is a run that reported an error; and no run but a counted
    success moves the time of the last sync, except to zero when there is no
    configuration yet. *)
Theorem sync_counted_once cr s :
  wp (reconcile cr s) (λ tr o, ∀ cr' s' st e, o = Done (cr', s', (st, e)) →
    (countOf SuccessfulConfigurationSyncs tr + countOf FailedConfigurationSyncs tr ≤ 1)%nat ∧
    (countOf SuccessfulConfigurationSyncs tr = 1%nat →
       st = ResultSuccess ∧ e = None ∧ syncTime cr tr (status_LastSynced s')) ∧
    (countOf FailedConfigurationSyncs tr = 1%nat → st = ResultFailed ∧ is_Some e) ∧
    (status_LastSynced s' ≠ status_LastSynced s →
       countOf SuccessfulConfigurationSyncs tr = 1%nat ∨
       st = ResultInProgress ∧ status_LastSynced s' = 0%Z)).
Proof.
  eapply wp_mono; [|apply reconcile_hands_back]. intros tr o Hr cr' s' st e ->.
  destruct (Hr _ eq_refl) as (_ & _ & Ha). unfold tally in Ha.
  inversion Ha as [? Ht|? ? Ht|? ? ? Ht Hl]; injection Ht as -> ->; subst;
    split_and!; try done; try lia; eauto. tauto.
Qed.

(** *** Nothing to do *)

(** What gives no reason to sync, up to the instant [latest]: the secrets of the
    tokens are listed, each has a lifetime that is a number, which is not positive or
    an expiry at least one hour after [latest]; every object asked for is there; and
    the clock is not past [latest]. *)
Definition tokenFresh (latest : Time.t) (secret : Secret) : Prop :=
  ∃ lifetime expires,
    gomap_get (secret_Data (body secret)) "lifetime" = Some lifetime ∧
    Strconv.ParseInt lifetime = (expires, None) ∧
    ((0 < expires)%Z → int64_ok (expires + Time.unixToInternal) ∧
      (nanos latest + Time.Hour ≤ (expires + Time.unixToInternal) * 1000000000)%Z).

Definition calm (latest : Time.t) (st : step) : Prop :=
  match st with
  | existT c x =>
      match c as c return answer c → Prop with
      | CGet k _ _ => λ r, ∃ o : Object k, r = inl o
      | CList KSecret _ _ => λ r, ∃ secrets, r = inl secrets ∧ Forall (tokenFresh latest) secrets
      | CNow => λ now, clockOk now ∧ (nanos now ≤ nanos latest)%Z
      | _ => λ _, True
      end x
  end.

(** Looking only. *)
Definition looking (c : call) : bool :=
  match c with CGet _ _ _ | CList _ _ _ | CNow => true | _ => false end.
Definition looks (st : step) : Prop := looking (projT1 st) = true.

Section idle.
Context (latest : Time.t).

(** Given such answers the program only looks, and returns [a]. *)
Definition idles {A} (p : prog A) (a : A) : Prop :=
  wp p (λ tr o, Forall (calm latest) tr → Forall looks tr ∧ o = Done a).

Lemma idles_ret {A} (a : A) : idles (Ret a) a.
Proof. by intros _. Qed.

Lemma idles_bind {A B} (p : prog A) (f : A → prog B) a b :
  idles p a → idles (f a) b → idles (pbind p f) b.
Proof.
  intros Hp Hf. apply wp_bind. eapply wp_mono; [|exact Hp]. intros tr o Ho. destruct o as [a'|].
  - apply wp_beh. intros tr' o' Hb [Hc Hc']%Forall_app. destruct (Ho Hc) as [Hl [= ->]].
    destruct (proj1 (wp_beh _ _) Hf _ _ Hb Hc') as [Hl' ->]. split; [by apply Forall_app|done].
  - intros Hc. by destruct (Ho Hc).
Qed.

Lemma idles_call {B} c (f : answer c → prog B) b :
  looking c = true → (∀ x, calm latest (c ⇝ x) → idles (f x) b) → idles (pbind (request c) f) b.
Proof.
  intros Hl Hf. apply wp_request. intros x. apply wp_beh. intros tr o Hb [Hc Htr]%Forall_cons.
  destruct (proj1 (wp_beh _ _) (Hf x Hc) _ _ Hb Htr) as [? ->]. split; [by constructor|done].
Qed.

Lemma idles_forEach {A R} (xs : list A) (b : A → prog (option R)) :
  Forall (λ x, idles (b x) None) xs → idles (forEach xs b) None.
Proof. induction 1 as [|x xs Hx _ IH]; simpl; [apply idles_ret|by apply (idles_bind _ _ None)]. Qed.

Lemma TokensExpired_idles cr : idles (TokensExpired cr) (false, None).
Proof.
  apply idles_call; [done|]. intros ? (secrets & -> & Hf).
  apply (idles_bind _ _ None); [|apply idles_ret]. apply idles_forEach.
  eapply Forall_impl; [exact Hf|]. intros secret (lifetime & expires & Hl & Hp & Hx).
  change RemoteTokenLifetime with "lifetime". rewrite Hl, Hp.
  apply (idles_bind _ _ false); [|apply idles_ret]. unfold AuthTokenExpires.
  case_bool_decide as Hpos; [|apply idles_ret]. destruct (Hx Hpos) as [Hok Hfresh].
  apply idles_call; [done|]. intros now [Hclock Hle].
  assert (Time.After (Time.Add now Time.Hour) (Time.Unix expires) = false) as ->; [|apply idles_ret].
  apply not_true_iff_false. rewrite AuthTokenExpires_at by done. lia.
Qed.

Lemma missing_idles {k} (o : Object k) : idles (missing o) (inl false).
Proof. apply idles_call; [done|]. intros ? [o' ->]. apply idles_ret. Qed.

Lemma checkForMissingCR_idles cr : idles (checkForMissingCR cr) (inl false).
Proof.
  do 2 (apply (idles_bind _ _ (inl false)); [apply missing_idles|]).
  destruct (DescopedModeEnabled cr); [apply idles_ret|].
  apply (idles_bind _ _ (inl false)); [apply missing_idles|apply idles_ret].
Qed.

(** When the next sync is due, in nanoseconds since January 1 of year 1. *)
Definition nextSyncAt (cr : Observability) (period : Z) : Z :=
  ((status_LastSynced (statusOf cr) + Time.unixToInternal) * 1000000000 + period)%Z.

Lemma resyncDue_idles cr period :
  Duration.ParseDuration (spec_ResyncPeriod (specOf cr)) = Some period → int64_ok period →
  (Z.abs (status_LastSynced (statusOf cr)) ≤ 2 ^ 62)%Z → (nanos latest < nextSyncAt cr period)%Z →
  idles (resyncDue cr) (inl false).
Proof.
  intros Hp Hok Habs Hlt. unfold resyncDue. rewrite Hp. apply idles_call; [done|].
  intros now [[[Hs Hn] _] Hle]. set (x := Time.Unix _).
  assert (x = Time.mkTime (status_LastSynced (statusOf cr) + Time.unixToInternal) 0) as Hx.
  { subst x. unfold Time.Unix. rewrite wrap64_id; [done|].
    unfold int64_ok, minInt64, maxInt64, Time.unixToInternal in *. lia. }
  clearbody x. subst x. unfold nextSyncAt, nanos in *.
  unfold int64_ok, minInt64, maxInt64, Time.unixToInternal in *.
  pose proof (Z.quot_rem' period 1000000000).
  pose proof (Z.rem_bound_abs period 1000000000 ltac:(done)).
  set (x := Time.mkTime _ 0).
  destruct (Time.Add_nanos x period) as [Hr Hy];
    [split; simpl; unfold int64_ok, minInt64, maxInt64; lia
    |simpl; unfold int64_ok, minInt64, maxInt64; lia..|].
  cbn [x Time.sec Time.nsec] in Hy.
  assert (Time.Before now (Time.Add x period) = true) as ->; [|apply idles_ret].
  unfold Time.Before. rewrite orb_true_iff, andb_true_iff, !Z.ltb_lt, Z.eqb_eq. lia.
Qed.
End idle.

(** C26: Within the resync period, and without a reason to force a sync, the whole
    stage only looks: with external sync enabled, after a sync whose time was
    recorded, and with a period that parses, if up to an instant before the end of
    the period the clock is not past that instant, the token secrets are listed and
    each holds a number as its lifetime that is not positive or an expiry at least
    an hour later, and every custom resource asked for is there, then the stage
    makes no call but reads, lists and looks at the clock, returns the resource and
    the status as they were given and reports success.  The instants are compared
    to the nanosecond; the recorded time is within 2^62 seconds of 1970, so that no
    sum overflows. *)
Theorem sync_skipped_within_period cr s period latest :
  ExternalSyncDisabled cr = false → status_LastSynced (statusOf cr) ≠ 0%Z →
  (Z.abs (status_LastSynced (statusOf cr)) ≤ 2 ^ 62)%Z →
  Duration.ParseDuration (spec_ResyncPeriod (specOf cr)) = Some period → int64_ok period →
  (nanos latest < (status_LastSynced (statusOf cr) + Time.unixToInternal) * 1000000000 + period)%Z →
  wp (reconcile cr s) (λ tr o, Forall (calm latest) tr →
    Forall looks tr ∧ o = Done (cr, s, (ResultSuccess, None))).
Proof.
  intros Hx Hl Habs Hp Hok Hlt. fold (nextSyncAt cr period) in Hlt.
  assert (idles latest (syncWhenDue cr s false) (cr, s, (ResultSuccess, None))) as Hdue.
  { unfold syncWhenDue. rewrite bool_decide_false by done. cbn [negb andb].
    apply (idles_bind _ _ _ (inl false)); [by eapply resyncDue_idles|apply idles_ret]. }
  change (idles latest (reconcile cr s) (cr, s, (ResultSuccess, None))).
  unfold reconcile. rewrite Hx.
  destruct (spec_ConfigurationSelector (specOf cr)); [|apply idles_ret].
  apply (idles_bind _ _ _ (false, None)); [apply TokensExpired_idles|]. cbn [orb].
  destruct (status_Migrated s); [|done].
  apply (idles_bind _ _ _ (inl false)); [apply checkForMissingCR_idles|done].
Qed.

(** C9: Every object a reconciliation of the configuration creates is of a kind the
    operator manages there, in the namespace of the custom resource or of the
    Prometheus operator. *)
Theorem configuration_footprint cr s :
  wp (reconcile cr s) (λ tr _, ∀ key, key ∈ createKeys tr → footprint cr key).
Proof.
  eapply wp_mono; [|apply reconcile_calls]. intros tr o Htr key.
  unfold createKeys. rewrite list_elem_of_omap. intros ([c x] & Hs & Hk).
  simpl in Htr. rewrite Forall_forall in Htr. destruct (Htr _ Hs) as [Hc _].
  destruct c; simplify_eq/=. exact Hc.
Qed.
End stage.

(** A resource whose last sync was a second ago. *)
Definition syncedCr : Observability :=
  mkObject (k:=KObservability) (metaOf "obs" "ns")
    (mkObservabilityBody
       (mkObservabilitySpec EmptyString (Some emptySelector) "1h" None None None None None
          EmptyString EmptyString EmptyString EmptyString)
       (set_LastSynced 1700000000 zeroStatus)).

(** Within the hour, against a server that has every object asked for and a token
    that never expires. *)
Definition calmSecret : Secret :=
  withBody (k:=KSecret) (mkSecretBody EmptyString (Some {["lifetime" := "0"]}) None)
    (stub KSecret "obs-token" "ns").

Definition calmServer : Env unit := λ c s,
  (match c as c return answer c with
   | CGet k ns n => inl (stub k n ns)
   | CList KSecret _ _ => inl [calmSecret]
   | CList _ _ _ => inl []
   | CCreate o => inl o
   | CUpdate o => inl o
   | CStatusUpdate o => inl o
   | CDelete _ => None
   | CHttp _ => inr (OtherError "unavailable")
   | CNow => Time.Unix 1700000001
   | CRand _ => inr (OtherError "unavailable")
   | CReadFile _ => inr FileNotExist
   | CGetenv _ => EmptyString
   | CInc _ => tt
   | CRange keys => keys
   end, s).

Definition plainStage (s : ObservabilityStatus) : prog Outcome :=
  @reconcile plainNet plainCodec plainTokenCodec referenceUtil 10 syncedCr s.

(** The migrated resource: a list, three reads and the clock. *)
Lemma sync_skipped_within_period_witness :
  let '(o, tr, _) := exec calmServer (plainStage (set_Migrated true zeroStatus)) tt in
  length tr = 5%nat ∧ Forall looks tr ∧
  o = Done (syncedCr, set_Migrated true zeroStatus, (ResultSuccess, None)).
Proof.
  pose proof (wp_exec calmServer (plainStage (set_Migrated true zeroStatus)) tt _
    (@sync_skipped_within_period plainNet plainCodec plainTokenCodec referenceUtil 10 syncedCr
       (set_Migrated true zeroStatus) 3600000000000 (Time.Unix 1700000001)
       eq_refl ltac:(discriminate) ltac:(vm_compute; discriminate) ltac:(vm_compute; reflexivity)
       ltac:(vm_compute; split; discriminate) ltac:(vm_compute; reflexivity))) as Hw.
  cbv beta in Hw.
  split; [vm_compute; reflexivity|]. apply Hw.
  repeat first [apply Forall_cons_2|apply Forall_nil_2].
  - exists [calmSecret]. split; [reflexivity|]. apply Forall_cons_2; [|apply Forall_nil_2].
    exists "0", 0%Z. split; [reflexivity|]. split; [vm_compute; reflexivity|]. intros Hz; inversion Hz.
  - eexists. reflexivity.
  - eexists. reflexivity.
  - eexists. reflexivity.
  - split; [|apply Z.le_refl]. vm_compute. repeat split; discriminate.
Defined.

(** A server that has no object any more and lists nothing. *)
Definition gone : Env unit := λ c s,
  (match c as c return answer c with
   | CGet _ _ _ => inr (StatusError ReasonGone "gone")
   | CList _ _ _ => inl []
   | CCreate o => inl o
   | CUpdate o => inl o
   | CStatusUpdate o => inl o
   | CDelete _ => None
   | CHttp _ => inr (OtherError "unavailable")
   | CNow => Time.Unix 0
   | CRand _ => inr (OtherError "unavailable")
   | CReadFile _ => inr FileNotExist
   | CGetenv _ => EmptyString
   | CInc _ => tt
   | CRange keys => keys
   end, s).

(** Not every failure is counted: when the check for missing custom resources
    fails the stage reports the error, and neither counter moves. *)
Lemma failed_sync_uncounted :
  let '(o, tr, _) :=
    exec gone (@reconcile plainNet plainCodec plainTokenCodec referenceUtil 10 syncedCr
                 (set_Migrated true zeroStatus)) tt in
  tally tr = (0, 0)%nat ∧
  ∃ cr s e, o = Done (cr, s, (ResultFailed, Some e)).
Proof. vm_compute. split; [reflexivity|]. by eexists _, _, _. Qed.

(** A resource in descoped mode, beside the Prometheus operator. *)
Definition descopedCr : Observability :=
  mkObject (k:=KObservability) (metaOf "obs" "ns")
    (mkObservabilityBody
       (mkObservabilitySpec EmptyString (Some emptySelector) "1h" None None None None
          (Some (mkDescopedMode (Some true) "monitoring"))
          EmptyString EmptyString EmptyString EmptyString) zeroStatus).

Definition ruleFile : ResourceInfo :=
  mkResourceInfo "id" "rule" "https://host/rule.yaml" EmptyString EmptyString.

Lemma configuration_cleanup_namespace_witness :
  wp (@createRequestedRules plainNet plainCodec referenceUtil descopedCr [ruleFile]) (λ ruleCalls _,
  wp (@createRequestedPodMonitors plainNet plainCodec referenceUtil descopedCr []) (λ _ _,
  wp (cleanup descopedCr) (λ tr _, Forall answerOk tr →
    ∀ key, key ∈ writeKeys ruleCalls → key ∉ deleteRequests tr))).
Proof.
  eapply wp_mono; [|apply (@configuration_cleanup_namespace plainNet plainCodec referenceUtil);
    discriminate].
  intros tr1 o1 H1. eapply wp_mono; [|exact H1]. intros tr2 o2 H2. eapply wp_mono; [|exact H2].
  intros tr o H3 Hok key Hin. apply H3; [exact Hok|discriminate|left; exact Hin].
Defined.
End configuration_reconciler.
