(* ===== verification/Operator.v ===== *)
(** * The operator put together (getReconcilerForStage of
    controllers/observability_controller.go)

    The controller with its real stages, and the theorems that follow from the
    controller's theorems and the stages' contracts. *)

From S2P Require Import Prelude GoLib ApiTypes K8s Prog Client Api ModelPrometheus ModelResources.
From S2P Require Import Utils TokenStage PromtailStage GrafanaInstallationStage.
From S2P Require Import GrafanaConfigurationStage PrometheusInstallationStage.
From S2P Require Import PrometheusConfigurationStage AlertmanagerStage CsvStage MigrationStage.
From S2P Require Import LoggingStage Token Controller ControllerProofs Metrics External.
From S2P Require Import ConfigurationStage.

#[local] Existing Instances token.contract promtail_installation.contract
  grafana_installation.contract grafana_configuration.contract
  prometheus_installation.contract prometheus_configuration.contract
  alertmanager_installation.contract csv.contract migration.contract
  logging_installation.contract configuration_reconciler.contract.

Section operator.
Context `{Net} `{Codec} `{TokenCodec} `{ControllerUtil} (depth : nat).

Definition getReconcilerForStage (stage : ObservabilityStageName)
  : option ObservabilityReconciler :=
  match stage with
  | PrometheusInstallation => Some prometheus_installation.reconciler
  | PrometheusConfiguration => Some prometheus_configuration.reconciler
  | GrafanaInstallation => Some grafana_installation.reconciler
  | GrafanaConfiguration => Some grafana_configuration.reconciler
  | Csv => Some csv.reconciler
  | TokenRequest => Some token.reconciler
  | PromtailInstallation => Some promtail_installation.reconciler
  | AlertmanagerInstallation => Some alertmanager_installation.reconciler
  | Configuration => Some (configuration_reconciler.reconciler depth)
  | LoggingInstallation => Some logging_installation.reconciler
  | Migration => Some migration.reconciler
  | OtherStage _ => None
  end.

(** The request handler of the running operator. *)
Definition operator (st : ControllerState) (ns name : string) :=
  ReconcileRequest getReconcilerForStage st ns name.

(** ** The contracts of the stages *)

(** The objects of fixed name the stages manage. *)
Definition ownedBy (stage : ObservabilityStageName) (cr : Observability) : list ObjectKey :=
  match stage with
  | PrometheusInstallation => owned (R:=prometheus_installation.reconciler) cr
  | PrometheusConfiguration => owned (R:=prometheus_configuration.reconciler) cr
  | GrafanaInstallation => owned (R:=grafana_installation.reconciler) cr
  | GrafanaConfiguration => owned (R:=grafana_configuration.reconciler) cr
  | Csv => owned (R:=csv.reconciler) cr
  | TokenRequest => owned (R:=token.reconciler) cr
  | PromtailInstallation => owned (R:=promtail_installation.reconciler) cr
  | AlertmanagerInstallation => owned (R:=alertmanager_installation.reconciler) cr
  | Configuration => owned (R:=configuration_reconciler.reconciler depth) cr
  | LoggingInstallation => owned (R:=logging_installation.reconciler) cr
  | Migration => owned (R:=migration.reconciler) cr
  | OtherStage _ => []
  end.

Lemma stages_cleanup stage R :
  getReconcilerForStage stage = Some R →
  ∀ cr, deletesOnSuccess (ownedBy stage cr) (Cleanup R cr).
Proof. destruct stage; intros [= <-] cr; apply cleanup_deletes. Qed.

Lemma stages_cleanup_reads stage R :
  getReconcilerForStage stage = Some R →
  ∀ cr, allSteps readsOrDeletes (Cleanup R cr).
Proof. destruct stage; intros [= <-] cr; apply cleanup_reads_or_deletes. Qed.

Lemma stages_silent stage R :
  getReconcilerForStage stage = Some R →
  (∀ cr s, allSteps stageSilent (Reconcile R cr s)) ∧ ∀ cr, allSteps stageSilent (Cleanup R cr).
Proof.
  destruct stage; intros [= <-];
    (split; [apply reconcile_stage_silent|apply cleanup_stage_silent]).
Qed.

Lemma stages_preserve : stagesPreserve getReconcilerForStage.
Proof. intros stage R. destruct stage; intros [= <-]; apply reconcile_preserves. Qed.

(** What the stages create, but for the ones whose objects depend on the
    repositories or on the state of the logging operator.  The storage of token
    lifetimes carries the managed-by label, by which the cleanup of the configuration
    stage finds it. *)
Lemma stages_create stage R :
  getReconcilerForStage stage = Some R → stage ≠ Configuration → stage ≠ LoggingInstallation →
  ∀ cr s, allStepsOk (createsIn (λ key, key ∈ ownedBy stage cr ∨
    stage = PrometheusConfiguration ∧ key = keyOf (GetPrometheusAuthTokenLifetimes cr)))
    (Reconcile R cr s).
Proof.
  intros HR Hc Hl cr s. eapply wp_mono with (Φ := λ tr _, Forall answerOk tr →
    Forall (createsIn (λ key, key ∈ ownedBy stage cr ∨ match stage with
      | PrometheusConfiguration => key ∈ [keyOf (GetPrometheusAuthTokenLifetimes cr)]
      | _ => False end)) tr).
  - intros tr o Ha Hok. eapply Forall_impl; [by apply Ha|]. intros [c x] Hs. unfold createsIn in *.
    destruct c; try done. destruct Hs as [?|Hs]; [by left|].
    destruct stage; try done. right. by apply list_elem_of_singleton in Hs.
  - destruct stage; try done; injection HR as <-;
      match goal with |- wp (Reconcile ?R _ _) _ => exact (reconcile_creates (R:=R) cr s) end.
Qed.

(** ** Properties *)

Lemma stages_have_reconcilers stage :
  stage ∈ getInstallationStages ++ getCleanupStages →
  hasReconciler getReconcilerForStage stage = true.
Proof. revert stage. apply Forall_forall. by repeat constructor. Qed.

(** Every stage of both pipelines has a reconciler, so none is skipped, and the
    cleanup runs every stage of the installation but the migration, once each. *)
Lemma every_stage_handled :
  (∀ stage, stage ∈ getInstallationStages ++ getCleanupStages →
     hasReconciler getReconcilerForStage stage = true) ∧
  Migration :: getCleanupStages ≡ₚ getInstallationStages.
Proof.
  split.
  - apply stages_have_reconcilers.
  - unfold getCleanupStages, getInstallationStages. solve_Permutation.
Qed.

(** The filter of the stages that have a reconciler keeps every stage. *)
Lemma stages_all_run (stages : list ObservabilityStageName) :
  stages ⊆ getInstallationStages ++ getCleanupStages →
  List.filter (hasReconciler getReconcilerForStage) stages = stages.
Proof.
  induction stages as [|stage stages IH]; intros Hin; simpl; [done|].
  rewrite stages_have_reconcilers by set_solver. f_equal. apply IH. set_solver.
Qed.

Lemma stagesFor_known obs : stagesFor obs ⊆ getInstallationStages ++ getCleanupStages.
Proof. unfold stagesFor. destruct (deleting obs); set_solver. Qed.

(** C6: When a reconcile stops before its last stage succeeded, the status to be
    written says where and why.  The stages before the one named in the status all
    ran, in order, and succeeded; the calls end with those of the named stage (its
    cleanup for a deleted resource), which returned a result other than success;
    the status carries that very result and the text of the error returned with
    it, or the empty message without one, and is otherwise the status the stage
    handed back.  Whether or not it stops, the resource keeps its name, namespace,
    finalizers, deletion timestamp and spec. *)
Theorem status_names_stopped_stage obs :
  wp (runStages getReconcilerForStage (stagesFor obs) obs (statusOf obs)) (λ tr o,
    ∀ obs' next' fin, o = Done (obs', next', fin) → sameResource obs obs' ∧
    (fin = false → ∃ runs after R obs1 next1 next2 x calls counted err,
       stagesFor obs = map run_Stage runs ++ status_Stage next' :: after ∧
       Forall (validRun getReconcilerForStage) runs ∧
       Forall (λ r, run_Status r = ResultSuccess) runs ∧
       getReconcilerForStage (status_Stage next') = Some R ∧ sameResource obs obs1 ∧
       beh (callStage R obs1 next1) calls
         (Done (obs', next2, (status_StageStatus next', err))) ∧
       status_StageStatus next' ≠ ResultSuccess ∧
       tr = mjoin (map run_Trace runs) ++
         (CInc (TotalReconciliations (status_Stage next')) ⇝ x) :: calls ++ counted ∧
       failureCounted (status_Stage next') err counted ∧
       next' = set_StageStatus (status_StageStatus next')
                 (set_LastMessage (default EmptyString (Error <$> err)) next2))).
Proof.
  eapply wp_mono; [|apply runStages_status, stages_preserve].
  intros tr o Ho obs' next' fin Hd. destruct (Ho _ _ _ Hd) as [? Hf]. split; [done|].
  intros Hfin. destruct (Hf Hfin) as (before & stage & after & runs & R & obs1 & next1 & next2 & x
    & calls & counted & status & err & Hst & Hv & Hs & Hmap & HR & Hsame & Hb & Hne & Hc & Htr & Hn & <-).
  exists runs, after, R, obs1, next1, next2, x, calls, counted, err.
  assert (status_StageStatus next' = status) as -> by (by rewrite Hn).
  rewrite Hmap, stages_all_run; [split_and!; assumption|].
  intros s Hin. apply (stagesFor_known obs). rewrite Hst. apply elem_of_app. by left.
Qed.

(** The whole cleanup: every cleanup stage succeeded, in order, and what each of
    them owns was deleted. *)
Definition cleanedUp (obs : Observability) (work : trace) : Prop :=
  (∃ works, work = mjoin works ∧ Forall2 (cleanupRun getReconcilerForStage obs) getCleanupStages works) ∧
  ∀ stage key, stage ∈ getCleanupStages → key ∈ ownedBy stage obs → key ∈ deletedKeys work.

Lemma runStages_cleanedUp obs :
  deleting obs = true →
  wp (runStages getReconcilerForStage getCleanupStages obs (statusOf obs)) (λ work o,
    Forall readsOrDeletes work ∧ ∀ obs' next fin, o = Done (obs', next, fin) →
    obs' = obs ∧ (fin = true → cleanedUp obs work)).
Proof.
  intros Hd. eapply wp_mono;
    [|apply wp_and; [apply (runStages_cleanup _ ownedBy stages_cleanup)
      |apply wp_and; [apply (runStages_reads _ stages_cleanup_reads)
                     |apply runStages_cleanup_runs]]; exact Hd].
  intros work o [Hrun [Hreads Hruns]]. split; [done|]. intros obs' next fin Ho.
  destruct (Hrun _ _ _ Ho) as [-> Hall]. split; [done|]. intros Hfin. split.
  - destruct (Hruns _ _ _ Ho Hfin) as (works & -> & Hw). exists works. split; [done|].
    rewrite stages_all_run in Hw; [done|]. intros s Hs. apply elem_of_app. by right.
  - intros stage key Hstage Hkey. apply (Hall Hfin stage Hstage); [|done].
    apply stages_have_reconcilers, elem_of_app. by right.
Qed.

(** The part of a reconcile of a deleted resource after it was read. *)
Lemma deletion_wp st obs :
  deleting obs = true →
  wp (reconcileStages getReconcilerForStage st obs) (λ tr o, ∃ work last,
    tr = work ++ last ∧ Forall readsOrDeletes work ∧
    ((o = Panicked ∧ last = []) ∨ ∃ st' res e, o = Done (st', res, e) ∧
    ((∃ r, last = [CUpdate (withFinalizers [] obs) ⇝ r] ∧ noInit st' = noInit st ∧
        res = noRequeue ∧ e = writeError r ∧ cleanedUp obs work) ∨
     res ≠ noRequeue ∧ (noInit st = true → last = [] ∨ ∃ next r,
        last = [CStatusUpdate (set_CrStatus next obs) ⇝ r])))).
Proof.
  intros Hd. apply wp_bind. rewrite Hd. eapply wp_mono; [|by apply runStages_cleanedUp].
  intros work [[[obs' next] fin]|] [Hreads Hrun]; [|exists work, []; rewrite app_nil_r; auto].
  destruct (Hrun _ _ _ eq_refl) as [-> Hall].
  eapply wp_mono; [|apply wp_and; [apply finishReconcile_closing|apply finishReconcile_done]].
  intros last o [Ho (st' & res & e & ->)].
  exists work, last. do 2 (split; [done|]). right. exists st', res, e. split; [done|].
  specialize (Ho _ _ _ eq_refl).
  destruct Ho as [r _ Hfin|st1 r Hdel Hf Hn _|st1 Hdel Hk Hs _|st1 o' Hdel Hk Hs _|st1 e' Hdel Hk Hs _].
  - left. exists r. split_and!; try done; by apply Hall.
  - right. split; [done|]. intros Hn'. congruence.
  - right. split; [done|]. by left.
  - right. split; [done|]. right. by eexists _, _.
  - right. split; [done|]. right. by eexists _, _.
Qed.

(** C1: A resource that a user created (no-init mode) and deleted loses its finalizer
    only after every cleanup stage succeeded.  If the reconcile of it sends any
    update of an object, whatever its kind, then what precedes the update, after the
    read of the resource, are successful cleanups of all cleanup stages in order,
    which create and update nothing, and every object of fixed name that a stage
    owns was deleted or was not there;
    the update is the one that empties the finalizers of the resource that was
    read, it is the last call, and the request is not queued again. *)
Theorem finalizer_dropped_after_cleanup st ns name :
  noInit st = true →
  wp (operator st ns name) (λ tr o, ∃ answer rest,
    tr = (CGet KObservability ns name ⇝ answer) :: rest ∧
    ∀ obs k (u : Object k) x, answer = inl obs → deleting obs = true → (CUpdate u ⇝ x) ∈ rest →
    ∃ works r,
      rest = mjoin works ++ [CUpdate (withFinalizers [] obs) ⇝ r] ∧
      Forall2 (cleanupRun getReconcilerForStage obs) getCleanupStages works ∧
      Forall readsOrDeletes (mjoin works) ∧
      (∀ stage key, stage ∈ getCleanupStages → key ∈ ownedBy stage obs →
         key ∈ deletedKeys (mjoin works)) ∧
      ∃ st', o = Done (st', noRequeue, writeError r) ∧ noInit st' = true).
Proof.
  intros Hn. apply wp_request. intros [obs|e0]; [|by eexists _, []].
  destruct (deleting obs) eqn:Hd; simpl.
  - eapply wp_mono; [|by apply deletion_wp]. intros rest o (work & last & -> & Hw & Hlast).
    eexists _, (work ++ last). split; [done|]. intros obs' k u x [= <-] _ Hu.
    assert ((CUpdate u ⇝ x) ∈ last) as Hin.
    { apply elem_of_app in Hu as [Hu|Hu]; [|done].
      by pose proof (proj1 (Forall_forall _ _) Hw _ Hu). }
    destruct Hlast as [[_ ->]|(st' & res & e & -> & [(r & -> & Hn' & -> & -> & Hc)|[_ Hl]])].
    + by apply elem_of_nil in Hin.
    + destruct Hc as [(works & -> & Hws) Hk]. exists works, r. split_and!; try done.
      exists st'. by rewrite Hn'.
    + destruct (Hl Hn) as [->|(next & r & ->)]; [by apply elem_of_nil in Hin|].
      by apply list_elem_of_singleton in Hin.
  - apply wp_true. intros tr o. eexists _, tr. split; [done|].
    intros obs' k u x [= <-]. congruence.
Qed.

(** C5: A resource that a user created (no-init mode) never loses its finalizer
    before the cleanup is complete: as long as the reconcile of the deleted
    resource asks for a requeue, it updates nothing in the cluster but, as its
    last call, the status of the resource. *)
Theorem finalizer_kept_until_clean st obs :
  deleting obs = true → noInit st = true →
  wp (reconcileStages getReconcilerForStage st obs) (λ tr o, ∀ st' res e,
    o = Done (st', res, e) → res ≠ noRequeue →
    ∃ work last, tr = work ++ last ∧ Forall readsOrDeletes work ∧
      (last = [] ∨ ∃ next r, last = [CStatusUpdate (set_CrStatus next obs) ⇝ r])).
Proof.
  intros Hd Hn. eapply wp_mono; [|by apply deletion_wp]. intros tr o Ho st' res e Hres Hreq.
  subst o. destruct Ho as (work & last & -> & Hw & [[? _]|(? & ? & ? & [= <- <- <-] & Hl)]); [done|].
  destruct Hl as [(r & _ & _ & -> & _)|[_ Hl]]; [done|]. exists work, last. auto.
Qed.

(** C40: The finalizer of a deleted resource that the operator created itself (noInit
    is false) is removed by every reconcile that ends, whether or not the cleanup
    stages succeeded: the last call is the update that empties the finalizers. *)
Theorem finalizer_stripped_early st obs :
  deleting obs = true → noInit st = false → Finalizers (meta obs) ≠ [] →
  wp (reconcileStages getReconcilerForStage st obs) (λ tr o, ∀ st' res e,
    o = Done (st', res, e) → ∃ work r,
    tr = work ++ [CUpdate (withFinalizers [] obs) ⇝ r] ∧ e = writeError r ∧
    Forall readsOrDeletes work).
Proof.
  intros Hd Hn Hf. apply wp_bind. eapply wp_mono;
    [|rewrite Hd; by apply runStages_cleanedUp].
  intros work [[[obs' next] fin]|] [Hreads Hrun]; [|done].
  destruct (Hrun _ _ _ eq_refl) as [-> _].
  eapply wp_mono; [|apply finishReconcile_closing]. intros last o Ho st' res e Hres.
  exists work. destruct (Ho _ _ _ Hres) as [r|? r| ? _ [?|?]| ? ? _ [?|?]| ? ? _ [?|?]];
    first [by exists r|congruence].
Qed.

(** C23: A stage cleans up what it created.  For every stage but the configuration and
    the logging stage: every object that some run of its reconciliation creates for a
    resource is deleted, or found missing, by every run of its cleanup for the
    resource that reports success.  The one exception is the config map of token
    lifetimes of the Prometheus configuration stage, whose removal is not claimed.
    The server is assumed to answer for the objects it was asked for. *)
Theorem created_is_cleaned_up stage R cr s :
  getReconcilerForStage stage = Some R → stage ≠ Configuration → stage ≠ LoggingInstallation →
  wp (Reconcile R cr s) (λ calls _, Forall answerOk calls →
  wp (Cleanup R cr) (λ tr o, ∀ e, o = Done (ResultSuccess, e) →
    ∀ key, key ∈ createKeys calls → key ∈ deletedKeys tr ∨
      stage = PrometheusConfiguration ∧
      key = mkKey KConfigMap (namespaceOf cr) "observatorium-token-lifetimes")).
Proof.
  intros HR Hc Hl. eapply wp_mono; [|exact (stages_create stage R HR Hc Hl cr s)].
  intros calls o1 Hcreates Hok. specialize (Hcreates Hok).
  eapply wp_mono; [|exact (stages_cleanup stage R HR cr)]. intros tr o Hdel e Ho key Hkey.
  unfold createKeys in Hkey. apply list_elem_of_omap in Hkey as ([c x] & Hs & Hk).
  rewrite Forall_forall in Hcreates. specialize (Hcreates _ Hs).
  destruct c; simplify_eq/=. destruct Hcreates as [Hin|[-> Hin]].
  - left. by apply (Hdel e).
  - by right.
Qed.

(** C18: Whenever the metrics are scraped, no stage has more failures than
    reconciliations: after the registration at start-up and any part of any
    sequence of reconciles the counters can be read, and for every stage the
    failure counter is at most the total. *)
Theorem failures_at_most_reconciliations `{metrics.PrometheusClient} r h pre :
  metrics.init metrics.newRegistry = Some r →
  metrics.history getReconcilerForStage h → pre `prefix_of` h →
  ∃ r', metrics.metricsAfter r pre = Some r' ∧ ∀ stage,
    (metrics.value r' (metrics.series (FailedReconciliations stage)) ≤
     metrics.value r' (metrics.series (TotalReconciliations stage)))%nat.
Proof.
  intros Hi Hh Hp. destruct metrics.init_newRegistry as (r0 & Hr0 & Hv0).
  destruct (metrics.metricsAfter_value r pre) as (r' & ? & Hv). exists r'. split; [done|].
  intros stage. assert (r0 = r) as -> by congruence. rewrite !Hv, !Hv0.
  pose proof (metrics.history_balanced _ stages_silent h Hh (metrics.stageString stage) pre Hp) as Hb.
  unfold metrics.failed, metrics.total in Hb. simpl. lia.
Qed.
End operator.

(** ** Instances *)

(** An environment that refuses every deletion and accepts every update. *)
Definition refusing : Env unit := λ c s,
  (match c as c return answer c with
   | CGet _ _ _ => inr (OtherError "unavailable")
   | CList _ _ _ => inr (OtherError "unavailable")
   | CCreate o => inl o
   | CUpdate o => inl o
   | CStatusUpdate o => inl o
   | CDelete _ => Some (OtherError "refused")
   | CHttp _ => inr (OtherError "unavailable")
   | CNow => Time.Unix 0
   | CRand _ => inr (OtherError "unavailable")
   | CReadFile _ => inr FileNotExist
   | CGetenv _ => EmptyString
   | CInc _ => tt
   | CRange keys => keys
   end, s).

Definition deletedCr : Observability :=
  mkObject (k:=KObservability)
    (mkMeta "obs" "ns" None None [ObservabilityFinalizer] (Some 0%Z) EmptyString)
    (mkObservabilityBody zeroSpec zeroStatus).

Definition plainOperator (st : ControllerState) (obs : Observability) :=
  reconcileStages (@getReconcilerForStage plainNet plainCodec plainTokenCodec referenceUtil 10)
    st obs.

(** What the Promtail stage creates on a cluster that has nothing. *)
Definition bareServer : Env unit := λ c s,
  (match c as c return answer c with
   | CGet _ _ _ => inr (StatusError ReasonNotFound "not found")
   | c' => (refusing c' s).1
   end, s).

Definition promtailRun : trace :=
  (exec bareServer (Reconcile (@promtail_installation.reconciler referenceUtil) deletedCr zeroStatus)
     tt).1.2.

Lemma created_is_cleaned_up_witness :
  length (createKeys promtailRun) = 3%nat ∧
  wp (Cleanup (@promtail_installation.reconciler referenceUtil) deletedCr) (λ tr o, ∀ e,
    o = Done (ResultSuccess, e) → ∀ key, key ∈ createKeys promtailRun → key ∈ deletedKeys tr).
Proof.
  split; [vm_compute; reflexivity|].
  pose proof (wp_exec bareServer _ tt _ (@created_is_cleaned_up plainNet plainCodec plainTokenCodec
    referenceUtil 10 PromtailInstallation _ deletedCr zeroStatus eq_refl ltac:(discriminate)
    ltac:(discriminate))) as Hw. cbv beta in Hw.
  eapply wp_mono; [|apply Hw].
  - intros tr o H e Ho key Hk. destruct (H e Ho key Hk) as [Hd|[[=] _]]. exact Hd.
  - repeat (apply Forall_cons_2; [try (intros ? [=]; fail); try (intros ? [= <-]; reflexivity)|]).
    apply Forall_nil_2.
Defined.

Lemma finalizer_kept_until_clean_witness :
  wp (plainOperator (mkControllerState false true) deletedCr) (λ tr o, ∀ st' res e,
    o = Done (st', res, e) → res ≠ noRequeue →
    ∃ work last, tr = work ++ last ∧ Forall readsOrDeletes work ∧
      (last = [] ∨ ∃ next r, last = [CStatusUpdate (set_CrStatus next deletedCr) ⇝ r])).
Proof.
  apply (@finalizer_kept_until_clean plainNet plainCodec plainTokenCodec referenceUtil 10);
    reflexivity.
Defined.

(** Against a server that refuses every deletion the reconcile of a deleted resource
    deletes nothing and ends with the update that empties the finalizers. *)
Lemma finalizer_stripped_early_witness :
  (let '(_, tr, _) := exec refusing (plainOperator (mkControllerState true false) deletedCr) tt in
   deletedKeys tr = []) ∧
  wp (plainOperator (mkControllerState true false) deletedCr) (λ tr o, ∀ st' res e,
    o = Done (st', res, e) → ∃ work r,
    tr = work ++ [CUpdate (withFinalizers [] deletedCr) ⇝ r] ∧ e = writeError r ∧
    Forall readsOrDeletes work).
Proof.
  split; [vm_compute; reflexivity|].
  apply (@finalizer_stripped_early plainNet plainCodec plainTokenCodec referenceUtil 10);
    [reflexivity|reflexivity|discriminate].
Defined.

(** The refusing server, which has the deleted resource. *)
Definition refusingWithCr : Env unit := λ c s,
  match c as c return answer c * unit with
  | CGet KObservability _ _ => (inl deletedCr, s)
  | c' => refusing c' s
  end.

#[local] Existing Instance metrics.plainClient.

(** A reconcile of the deleted resource against it. *)
Definition plainRequest : prog (ControllerState * Result * option error) :=
  @operator plainNet plainCodec plainTokenCodec referenceUtil 10
    (mkControllerState true true) "ns" "obs".

Definition refusedRun : trace := (exec refusingWithCr plainRequest tt).1.2.

(** A server whose only object is the deleted resource. *)
Definition emptied : Env unit := λ c s,
  (match c as c return answer c with
   | CGet KObservability _ _ => inl deletedCr
   | CGet _ _ _ => inr (StatusError ReasonNotFound "not found")
   | CList _ _ _ => inl []
   | CDelete _ => Some (StatusError ReasonNotFound "not found")
   | c' => (refusing c' s).1
   end, s).

(** The resource a step read. *)
Definition readCr (s : step) : option (Observability + error) :=
  match s with existT (CGet KObservability _ _) r => Some r | _ => None end.

(** Against it the reconcile ends with the update of the resource, and the ten
    cleanups came before it. *)
Lemma finalizer_dropped_after_cleanup_witness :
  ∃ works r, (exec emptied plainRequest tt).1.2 =
    (CGet KObservability "ns" "obs" ⇝ inl deletedCr) ::
      mjoin works ++ [CUpdate (withFinalizers [] deletedCr) ⇝ r] ∧
    Forall2 (cleanupRun (@getReconcilerForStage plainNet plainCodec plainTokenCodec
      referenceUtil 10) deletedCr) getCleanupStages works.
Proof.
  destruct (wp_exec emptied plainRequest tt _
    (@finalizer_dropped_after_cleanup plainNet plainCodec plainTokenCodec referenceUtil 10
       (mkControllerState true true) "ns" "obs" eq_refl)) as (answer & rest & Htr & Hall).
  assert (answer = inl deletedCr) as ->.
  { apply (f_equal (λ t, head t ≫= readCr)) in Htr. vm_compute in Htr. injection Htr as <-. reflexivity. }
  destruct (Hall deletedCr KObservability (withFinalizers [] deletedCr)
    (inl (withFinalizers [] deletedCr)) eq_refl eq_refl) as (works & r & -> & Hw & _).
  - assert (List.tl (exec emptied plainRequest tt).1.2 = rest) as <- by (rewrite Htr; reflexivity).
    apply list_elem_of_In. vm_compute. tauto.
  - exists works, r. split; [exact Htr|exact Hw].
Defined.

(** One reconciliation and one failure of the first cleanup stage are counted. *)
Lemma failures_at_most_reconciliations_witness :
  ∃ r r', metrics.init metrics.newRegistry = Some r ∧
    metrics.metricsAfter r refusedRun = Some r' ∧
    metrics.hits (metrics.series (FailedReconciliations PrometheusConfiguration)) refusedRun = 1%nat ∧
    ∀ stage, (metrics.value r' (metrics.series (FailedReconciliations stage)) ≤
              metrics.value r' (metrics.series (TotalReconciliations stage)))%nat.
Proof.
  eexists _. destruct (@failures_at_most_reconciliations plainNet plainCodec plainTokenCodec
    referenceUtil 10 metrics.plainClient _ refusedRun refusedRun eq_refl) as (r' & ? & ?).
  - apply (metrics.history_reconcile _ [] (mkControllerState true true) "ns" "obs" _
      (exec refusingWithCr plainRequest tt).1.1);
      [apply metrics.history_start|exact (exec_beh refusingWithCr plainRequest tt)].
  - reflexivity.
  - exists r'. split; [reflexivity|]. split; [assumption|]. split; [vm_compute; reflexivity|].
    assumption.
Defined.
