(* ===== verification/Convergence.v ===== *)
(** * Reconciling again changes nothing

    A reconciler is level-triggered: it runs again and again on the same resource.
    This file proves, against the interface [ApiServer], that the stages that write
    fixed objects settle: once a run has succeeded, later runs leave the cluster
    exactly as it is, whatever requests fail in between.  [settling] is what a
    callback of CreateOrUpdate needs for that, [convergent] what a stage has, with
    rules for the ways the stages are put together. *)

From S2P Require Import Prelude GoLib ApiTypes K8s Prog Client Api Cluster ModelPrometheus.
From S2P Require Import ModelResources Utils PromtailStage GrafanaConfigurationStage.
From S2P Require Import PrometheusConfigurationStage AlertmanagerStage Token Controller.
From S2P Require Import ControllerProofs External Operator.

(** A request that did not fail: a read that found the object or found it missing,
    a write that was carried out.  Other calls are not concerned. *)
Definition isAccepted (s : step) : bool :=
  match s with
  | existT (CGet _ _ _) r => match r with inl _ => true | inr e => IsNotFound e end
  | existT (CCreate _) r => succeeded r
  | existT (CUpdate _) r => succeeded r
  | _ => true
  end.
Definition accepted (s : step) : Prop := isAccepted s = true.

Lemma all_accepted tr : forallb isAccepted tr = true → Forall accepted tr.
Proof. rewrite forallb_forall, Forall_forall. intros Ha s Hs%list_elem_of_In. by apply Ha. Qed.

Section convergence.
Context `{ApiServer} `{ControllerUtil}.

(** ** Callbacks *)

(** The same object, with the same finalizers and deletion timestamp. *)
Definition sameObject {k} (x y : Object k) : Prop :=
  keyOf y = keyOf x ∧ Finalizers (meta y) = Finalizers (meta x) ∧
  DeletionTimestamp (meta y) = DeletionTimestamp (meta x).

(** On this object the callback makes no call, and writing back what it returns
    changes nothing. *)
Definition stableOn {k} (f : MutateFn k) (cur : Object k) : Prop :=
  ∃ y, f cur = Ret (y, None) ∧ sameObject cur y ∧
    stamp (ResourceVersion (meta cur)) (storedForm hostOf (Some cur) y) = cur.

(** The kind is one whose stored form is described.  Whatever the callback made is
    stable once it is stored; so is a stored object that it left unchanged; and it
    writes nothing itself. *)
Record settling {k} (f : MutateFn k) : Prop := {
  settling_described : described k = true;
  settling_stored : ∀ x tr y c v, beh (f x) tr (Done (y, None)) →
    stableOn f (stamp v (storedForm hostOf c y));
  settling_unchanged : ∀ cur tr, storedForm hostOf (Some cur) cur = cur →
    beh (f cur) tr (Done (cur, None)) → stableOn f cur;
  settling_reads : ∀ x, allSteps (writesIn (λ _, False)) (f x);
  settling_returns : ∀ x, wp (f x) (λ _ o, ∀ y e, o = Done (y, e) →
    e = None ∧ sameObject x y);
}.

Lemma stamp_same {k} (o : Object k) : stamp (ResourceVersion (meta o)) o = o.
Proof. by destruct o as [[] ?]. Qed.

Lemma settling_pure {k} (g : Object k → Object k) :
  described k = true → (∀ x, sameObject x (g x)) →
  (∀ x c v, let cur := stamp v (storedForm hostOf c (g x)) in
     stamp v (storedForm hostOf (Some cur) (g cur)) = cur) →
  settling (pureMutate g).
Proof.
  intros Hd Hk Hg. split; [done|..].
  - intros x tr y c v [_ [= ->]]. eexists. split_and!; [done|apply Hk|apply Hg].
  - intros cur tr Ha [_ [= Hc]]. exists cur. unfold pureMutate. rewrite <-Hc.
    split_and!; [done..|]. rewrite Ha. apply stamp_same.
  - intros x. apply allSteps_ret.
  - intros x y e [= <- <-]. auto.
Qed.

(** A callback on a kind the server stores as written, which does the same again
    on its own result. *)
Lemma settling_plain {k} (g : Object k → Object k) :
  described k = true → (∀ (c : option (Object k)) o, storedForm hostOf c o = o) →
  (∀ x, sameObject x (g x)) →
  (∀ x v, stamp v (g (stamp v (g x))) = stamp v (g x)) →
  settling (pureMutate g).
Proof. intros Hd Ha Hk Hg. apply settling_pure; [done..|]. intros x c v cur. unfold cur. by rewrite !Ha. Qed.

Lemma admitSecret_data (s : Secret) : is_Some (secret_Data (body s)) → is_Some (secret_Data (body (admitSecret s))).
Proof. intros Hd. simpl. repeat case_match; eauto. Qed.

Lemma settling_session n type : settling (sessionSecretMutate n type).
Proof.
  assert (∀ cur : Secret, is_Some (secret_Data (body cur)) → admitSecret cur = cur →
    stableOn (sessionSecretMutate n type) cur) as Hstable.
  { intros cur [d Hd] Ha. exists cur. unfold sessionSecretMutate. rewrite Hd.
    split_and!; [done..|]. simpl. rewrite Ha. apply stamp_same. }
  split; [done|..].
  - intros x tr y c v Hb. apply Hstable; [|exact (f_equal (stamp v) (admitSecret_twice y))].
    pose proof (proj1 (wp_beh _ _) (sessionSecretMutate_wp n type x) _ _ Hb) as Hw.
    destruct (secret_Data (body x)) as [d|] eqn:Hd.
    + destruct Hw as [_ [= ->]]. apply (admitSecret_data x). by rewrite Hd.
    + destruct Hw as [(e & _ & [=])|(b & _ & [= ->])]. simpl. case_decide as Hz; [|by eexists].
      apply (f_equal (.!! "session_secret")) in Hz. by rewrite lookup_insert_eq in Hz.
  - intros cur tr Ha Hb.
    pose proof (proj1 (wp_beh _ _) (sessionSecretMutate_wp n type cur) _ _ Hb) as Hw.
    destruct (secret_Data (body cur)) as [d|] eqn:Hd; [by apply Hstable; [rewrite Hd|]|].
    destruct Hw as [(e & _ & [=])|(b & _ & [= Hc])]. exfalso.
    apply (f_equal (λ s : Secret, secret_StringData (body s))) in Hc.
    change (admitSecret cur = cur) in Ha. rewrite <-Ha in Hc. done.
  - intros x. by apply allSteps_sessionSecretMutate.
  - intros x. eapply wp_mono; [|apply sessionSecretMutate_wp]. intros tr o Ho y e ->.
    destruct (secret_Data (body x)); [by destruct Ho as [_ [= -> ->]]|].
    by destruct Ho as [(? & _ & [=])|(? & _ & [= -> ->])].
Qed.

(** ** Objects *)

(** The object is there and the callback has nothing to do. *)
Definition converged {k} (obj : Object k) (f : MutateFn k) (s : State) : Prop :=
  ∃ cur, view s k (namespaceOf obj) (nameOf obj) = Some cur ∧ stableOn f cur.

(** [p] writes the objects [K] only; a run of it whose result is a success by [ok],
    with all writes accepted, leaves them in a condition [C] in which further runs
    of [p] change nothing at all. *)
Record convergentIf {A} (ok : A → bool) (K : list ObjectKey) (C : State → Prop) (p : prog A)
  : Prop := {
  conv_writes : allSteps (writesIn (λ key, key ∈ K)) p;
  conv_depends : dependsOn K C;
  conv_establishes : wp p (λ tr o, Forall accepted tr →
    ∀ s s' a, served s tr s' → o = Done a → ok a = true → C s');
  conv_keeps : wp p (λ tr _, ∀ s s', C s → served s tr s' → sameView s s');
}.

Definition okResult (r : StageResult) : bool := bool_decide (r.1 = ResultSuccess).
Abbreviation convergent := (convergentIf okResult).

Lemma convergent_reads {A} (ok : A → bool) p :
  allSteps (writesIn (λ _, False)) p → convergentIf ok [] (λ _, True) p.
Proof.
  intros Hr. split.
  - eapply allSteps_impl; [|exact Hr]. intros s Hs key Hk. by destruct (Hs key Hk).
  - done.
  - by apply wp_true.
  - eapply wp_mono; [|exact Hr]. intros tr o Htr s s' _ Hs. by eapply served_reads.
Qed.

Lemma convergent_success : convergent [] (λ _, True) success.
Proof. apply convergent_reads, allSteps_ret. Qed.

(** *** CreateOrUpdate *)

(** The read and the callback in front of a write. *)
Lemma mutate_reads {k} (f : MutateFn k) x tr o s s1 s' ns n r :
  settling f → beh (f x) tr o → serve s (CGet k ns n ⇝ r) s1 → served s1 tr s' → sameView s s'.
Proof.
  intros Hf Hb Hg Hs. apply (served_reads s ((CGet k ns n ⇝ r) :: tr)); [by exists s1|].
  constructor; [by intros ?|]. exact (proj1 (wp_beh _ _) (settling_reads _ Hf x) tr o Hb).
Qed.

(** When no request fails, what the callback returned was stored, or the stored
    object was left as it was. *)
Lemma CreateOrUpdate_establishes {k} (obj : Object k) (f : MutateFn k) :
  settling f → DeletionTimestamp (meta obj) = None →
  wp (CreateOrUpdate obj f) (λ tr o, Forall accepted tr → ∀ s s', served s tr s' →
    ∀ o' e, o = Done (o', e) → e = None ∧ converged obj f s').
Proof.
  intros Hf Hnew. pose proof (settling_described _ Hf) as Hdesc.
  apply wp_bind, CreateOrUpdate_contract. intros r.
  assert (∀ x tr y e, beh (f x) tr (Done (y, e)) → e = None ∧ sameObject x y) as Hret.
  { intros x tr y e Hb. by apply (proj1 (wp_beh _ _) (settling_returns _ Hf x) _ _ Hb). }
  destruct r as [cur|e].
  - apply wp_bind, wp_beh. intros tr [[y e]|] Hb; [|done].
    destruct (Hret _ _ _ _ Hb) as [-> (Hk & Hfin & Hdel)]. simpl. rewrite app_nil_r.
    case_decide as Hd; [split|].
    + intros -> _ s s' (s1 & Hg & Hs) o' e [= <- <-]. split; [done|].
      rewrite app_nil_r in Hs. apply serve_get in Hg as Hv. exists cur.
      rewrite (mutate_reads _ _ _ _ _ _ _ _ _ _ Hf Hb Hg Hs).
      split; [done|]. eapply settling_unchanged; [done| |done]. eauto using view_admitted.
    + intros [o1|e1]; simpl; intros [_ Ha]%Forall_cons s s' (s1 & Hg & Hs) o' e [= <- <-].
      * split; [done|]. rewrite app_nil_r in Hs. apply served_app in Hs as (s2 & Hs2 & s3 & Hu & ->).
        rewrite app_nil_r in Hs2. apply serve_get in Hg as Hcur.
        assert (view s2 k (namespaceOf y) (nameOf y) = Some cur) as Hbefore.
        { injection Hd as -> ->. by rewrite (mutate_reads _ _ _ _ _ _ _ _ _ _ Hf Hb Hg Hs2). }
        apply serve_update in Hu as [(? & [=] & _)|(c & o2 & Hc & [[= ->]|(? & [=])] & Hv & _ & Hst)].
        rewrite Hbefore in Hc. injection Hc as <-. destruct (Hst Hdesc Hdel) as [[v ->] _].
        destruct Hv as [Hv|(_ & ? & ?)]; [|congruence].
        injection Hd as Hns Hn. rewrite Hns, Hn in Hv. eexists. split; [exact Hv|].
        by eapply settling_stored.
      * rewrite app_nil_r in Ha. apply Forall_app in Ha as [_ [Ha _]%Forall_cons]. done.
    + intros e1 _ s s' (s1 & Hg & _) o' e _. apply serve_get, view_key in Hg.
      exfalso. apply Hd. by rewrite Hk, Hg.
  - destruct (IsNotFound e) eqn:He.
    2: { simpl. intros [Ha _]%Forall_cons. unfold accepted in Ha. simpl in Ha. congruence. }
    apply wp_bind, wp_beh. intros tr [[y e']|] Hb; [|done].
    destruct (Hret _ _ _ _ Hb) as [-> (Hk & _ & Hdel)]. simpl. rewrite app_nil_r.
    case_decide as Hd; [|done].
    intros [o1|e1]; simpl; intros [_ Ha]%Forall_cons s s' (s1 & Hg & Hs) o' e'' [= <- <-].
    + split; [done|]. rewrite app_nil_r in Hs. apply served_app in Hs as (s2 & Hs2 & s3 & Hc & ->).
      apply serve_create in Hc as (_ & Hv & Hst). destruct Hst as [v ->]; [done|congruence|].
      injection Hd as Hns Hn.
      rewrite Hns, Hn in Hv. eexists. split; [exact Hv|]. by eapply settling_stored.
    + rewrite app_nil_r in Ha. apply Forall_app in Ha as [_ [Ha _]%Forall_cons]. done.
Qed.

(** Writing back what is stored already. *)
Lemma update_noop {k} (y cur : Object k) r s s' :
  described k = true → sameObject cur y →
  serve s (CUpdate y ⇝ r) s' → view s k (namespaceOf y) (nameOf y) = Some cur →
  stamp (ResourceVersion (meta cur)) (storedForm hostOf (Some cur) y) = cur → sameView s s'.
Proof.
  intros Hdesc (_ & Hfin & Hdel) Hu Hv Hst k' ns n.
  destruct (decide (keyOf y = mkKey k' ns n)) as [Heq|Hne].
  - unfold keyOf in Heq. injection Heq as <- <- <-. apply serve_update in Hu. simpl in Hu.
    rewrite Hv in *.
    destruct Hu as [(? & _ & ->)|(c & o' & [= <-] & _ & Hafter & _ & Ho)]; [done|].
    destruct Hafter as [->|(_ & ? & ?)]; [|congruence]. by rewrite (proj2 (Ho Hdesc Hdel) Hst).
  - apply (serve_frame _ _ _ _ _ _ _ Hu). simpl. congruence.
Qed.

Lemma CreateOrUpdate_keeps {k} (obj : Object k) (f : MutateFn k) :
  settling f →
  wp (CreateOrUpdate obj f) (λ tr _, ∀ s s', converged obj f s → served s tr s' → sameView s s').
Proof.
  intros Hf. apply wp_bind, CreateOrUpdate_contract. intros [cur|e].
  - apply wp_bind, wp_beh. intros tr o Hb.
    assert (∀ s s1 s2, converged obj f s →
      serve s (CGet k (namespaceOf obj) (nameOf obj) ⇝ inl cur) s1 → served s1 tr s2 →
      sameView s s2 ∧ stableOn f cur ∧
      view s2 k (namespaceOf obj) (nameOf obj) = Some cur) as Hread.
    { intros s s1 s2 (c & Hv & Hst) Hg Hs.
      assert (sameView s s2) as Hsame by (by eapply mutate_reads).
      split; [done|]. apply serve_get in Hg. rewrite Hv in Hg. injection Hg as ->.
      split; [done|]. by rewrite Hsame. }
    destruct o as [[y [e|]]|]; simpl; rewrite ?app_nil_r.
    + intros s s' Hc (s1 & Hg & Hs). by eapply Hread.
    + case_decide as Hd; [split|].
      * intros _ s s' Hc (s1 & Hg & Hs). by eapply Hread.
      * intros r. assert (∀ s s', converged obj f s →
          served s ((CGet k (namespaceOf obj) (nameOf obj) ⇝ inl cur) :: tr ++ [CUpdate y ⇝ r]) s' →
          sameView s s') as Hup.
        { intros s s' Hc (s1 & Hg & (s2 & Hs & s3 & Hu & ->)%served_app).
          destruct (Hread _ _ _ Hc Hg Hs) as (Hsame & (y' & Hy & Hso & Hst) & Hv).
          rewrite Hy in Hb. destruct Hb as [-> [= ->]]. transitivity s2; [done|].
          injection Hd as Hns Hn. rewrite <-Hns, <-Hn in Hv.
          eapply update_noop; [by apply (settling_described _ Hf)|done..]. }
        by destruct r; simpl; rewrite ?app_nil_r.
      * intros e s s' Hc (s1 & Hg & Hs). by eapply Hread.
    + intros s s' Hc (s1 & Hg & Hs). by eapply Hread.
  - destruct (IsNotFound e) eqn:He.
    + assert (∀ tr' s s', converged obj f s →
        served s ((CGet k (namespaceOf obj) (nameOf obj) ⇝ inr e) :: tr') s' → False) as Hno.
      { intros tr' s s' (c & Hv & _) (s1 & Hg & _). apply serve_get in Hg.
        rewrite Hg in Hv by done. done. }
      apply wp_bind, wp_true. intros tr [[y [e'|]]|]; simpl;
        [intros s s' Hc Hs; by destruct (Hno _ _ _ Hc Hs)|
        |intros s s' Hc Hs; by destruct (Hno _ _ _ Hc Hs)].
      case_decide; [intros [o1|e1]|intros e1]; simpl; intros s s' Hc Hs;
        by destruct (Hno _ _ _ Hc Hs).
    + intros get s s' _ Hs. apply (served_reads s _ s' Hs). by repeat constructor.
Qed.

(** One after the other, on different objects: [f] goes on after a success, and
    otherwise writes nothing and does not succeed. *)
Lemma convergent_bind {A B} (ok1 : A → bool) (ok2 : B → bool) (G : A → Prop) K1 K2 C1 C2
    (p : prog A) (f : A → prog B) :
  convergentIf ok1 K1 C1 p → wp p (λ _ o, ∀ a, o = Done a → G a) → K1 ## K2 → dependsOn K2 C2 →
  (∀ a, G a → ok1 a = true → convergentIf ok2 K2 C2 (f a)) →
  (∀ a, ok1 a = false → allSteps (writesIn (λ _, False)) (f a) ∧
     wp (f a) (λ _ o, ∀ b, o = Done b → ok2 b = false)) →
  convergentIf ok2 (K1 ++ K2) (λ s, C1 s ∧ C2 s) (pbind p f).
Proof.
  intros H1 HG Hd HC2 Hf Hstop. split.
  - apply (allSteps_bind_post _ _ G); [|exact HG|].
    + eapply allSteps_impl; [|exact (conv_writes _ _ _ _ H1)].
      intros s Hs key Hk; apply elem_of_app; auto.
    + intros a Ha. destruct (ok1 a) eqn:Hok.
      * eapply allSteps_impl; [|exact (conv_writes _ _ _ _ (Hf a Ha Hok))].
        intros s Hs key Hk; apply elem_of_app; auto.
      * eapply allSteps_impl; [|exact (proj1 (Hstop a Hok))]. intros s Hs key Hk. by destruct (Hs key Hk).
  - intros s s' Heq [HC1 HC]. split;
      [eapply (conv_depends _ _ _ _ H1); [|done]|eapply HC2; [|done]];
      intros k ns n Hin; apply Heq, elem_of_app; auto.
  - apply wp_bind. eapply wp_mono; [|exact (wp_and _ _ _ HG (conv_establishes _ _ _ _ H1))].
    intros tr [a|] [Ha HC1]; [|done]. specialize (Ha _ eq_refl). destruct (ok1 a) eqn:Hok.
    + eapply wp_mono; [|exact (wp_and _ _ _ (conv_establishes _ _ _ _ (Hf a Ha Hok))
        (conv_writes _ _ _ _ (Hf a Ha Hok)))].
      intros tr' o [He Hw] [Ha1 Ha2]%Forall_app s s' b (s1 & Hs1 & Hs2)%served_app Ho Hb.
      split; [|by eapply He]. eapply (conv_depends _ _ _ _ H1); [|by eapply HC1].
      intros k ns n Hin. eapply served_frame; [exact Hs2|exact Hw|]. intros Hin2. by eapply Hd.
    + eapply wp_mono; [|exact (proj2 (Hstop a Hok))].
      intros tr' o Hb _ s s' b _ Ho Hok2. by rewrite (Hb b Ho) in Hok2.
  - apply wp_bind. eapply wp_mono; [|exact (wp_and _ _ _ HG (conv_keeps _ _ _ _ H1))].
    intros tr [a|] [Ha Hk1]; [|naive_solver]. specialize (Ha _ eq_refl). destruct (ok1 a) eqn:Hok.
    + eapply wp_mono; [|apply (conv_keeps _ _ _ _ (Hf a Ha Hok))]. intros tr' o Hk2 s s' [HC1 HC].
      intros (s1 & Hs1 & Hs2)%served_app. assert (sameView s s1) as Hv by eauto.
      transitivity s1; [done|]. apply Hk2; [|done]. eapply HC2; [|exact HC]. intros k ns n _. apply Hv.
    + eapply wp_mono; [|exact (proj1 (Hstop a Hok))].
      intros tr' o Hr s s' [HC1 _] (s1 & Hs1 & Hs2)%served_app.
      transitivity s1; [by eapply Hk1|by eapply served_reads].
Qed.

(** The result is worked on without writing, and stays a success or a failure. *)
Lemma convergent_after {A B} (ok1 : A → bool) (ok2 : B → bool) K C (p : prog A) (f : A → prog B) :
  convergentIf ok1 K C p →
  (∀ a, allSteps (writesIn (λ _, False)) (f a) ∧
     wp (f a) (λ _ o, ∀ b, o = Done b → ok2 b = ok1 a)) →
  convergentIf ok2 K C (pbind p f).
Proof.
  intros Hp Hf. split.
  - apply allSteps_bind; [apply Hp|]. intros a. eapply allSteps_impl; [|apply Hf].
    intros s Hs key Hk. by destruct (Hs key Hk).
  - apply Hp.
  - apply wp_bind. eapply wp_mono; [|apply (conv_establishes _ _ _ _ Hp)]. intros tr [a|] He; [|done].
    destruct (Hf a) as [Hr Hok]. eapply wp_mono; [|exact (wp_and _ _ _ Hr Hok)].
    intros tr' o [Hr' Ho] [Ha _]%Forall_app s s' b (s1 & Hs1 & Hs2)%served_app Hb Hb'.
    apply (conv_depends _ _ _ _ Hp s1).
    + intros k ns n _. exact (served_reads s1 tr' s' Hs2 Hr' k ns n).
    + apply (He Ha s s1 a Hs1 eq_refl). by rewrite <-(Ho b Hb).
  - apply wp_bind. eapply wp_mono; [|apply (conv_keeps _ _ _ _ Hp)]. intros tr [a|] Hk; [|done].
    eapply wp_mono; [|exact (proj1 (Hf a))]. intros tr' o Hr s s' HC (s1 & Hs1 & Hs2)%served_app.
    transitivity s1; [by eapply Hk|by eapply served_reads].
Qed.

(** A call that writes nothing in front. *)
Lemma convergent_call {A} (ok : A → bool) K C (c : call) (f : answer c → prog A) :
  callWrites c = None → (∀ x, convergentIf ok K C (f x)) → inhabited (answer c) →
  convergentIf ok K C (pbind (request c) f).
Proof.
  intros Hc Hf [x0].
  assert (∀ s x s', serve s (c ⇝ x) s' → sameView s s') as Hsame.
  { intros s x s' Hs k ns n. apply (serve_frame _ _ _ _ _ _ _ Hs). by rewrite Hc. }
  split.
  - apply allSteps_bind; [apply allSteps_request|intros x; apply Hf]. intros x key Hk. simpl in Hk. congruence.
  - apply (Hf x0).
  - intros x. eapply wp_mono; [|apply (conv_establishes _ _ _ _ (Hf x))].
    intros tr o He [_ Ha]%Forall_cons s s' a (s1 & _ & Hs). by eapply He.
  - intros x. eapply wp_mono; [|apply (conv_keeps _ _ _ _ (Hf x))].
    intros tr o Hk s s' HC (s1 & H1 & H2). pose proof (Hsame _ _ _ H1) as H1'.
    transitivity s1; [done|]. apply Hk; [|done].
    eapply (conv_depends _ _ _ _ (Hf x0)); [|exact HC]. intros k ns n _. apply H1'.
Qed.

Lemma convergent_andThen K1 K2 C1 C2 p1 p2 :
  convergent K1 C1 p1 → convergent K2 C2 p2 → K1 ## K2 →
  convergent (K1 ++ K2) (λ s, C1 s ∧ C2 s) (p1 ;;; p2).
Proof.
  intros H1 H2 Hd. apply (convergent_bind okResult okResult (λ _, True)); auto.
  - by apply wp_true.
  - apply H2.
  - intros [st e] _ Hok. apply bool_decide_eq_true in Hok. simpl in Hok. by rewrite decide_True.
  - intros [st e] Hok. pose proof Hok as Hst. apply bool_decide_eq_false in Hst. simpl in Hst.
    rewrite decide_False by done. split; [apply allSteps_ret|]. by intros b [= <-].
Qed.

(** A CreateOrUpdate whose error is turned into a verdict without further calls. *)
Lemma convergent_CreateOrUpdate {k} (obj : Object k) (f : MutateFn k)
    (h : Object k * option error → prog StageResult) :
  settling f → DeletionTimestamp (meta obj) = None → (∀ r, ∃ res, h r = Ret res) →
  convergent [keyOf obj] (converged obj f) (pbind (CreateOrUpdate obj f) h).
Proof.
  intros Hf Hnew Hh. split.
  - apply allSteps_bind; [|intros r; destruct (Hh r) as [res ->]; apply allSteps_ret].
    apply allSteps_CreateOrUpdate; [done| | |].
    + intros o. eapply allSteps_impl; [|apply (settling_reads _ Hf)].
      intros s Hs key Hk. by destruct (Hs key Hk).
    + intros o x Hk key [= <-]. rewrite Hk. left.
    + intros o x Hk key [= <-]. rewrite Hk. left.
  - intros s s' Heq (cur & Hv & Hst). exists cur. split; [|done].
    rewrite Heq; [done|]. left.
  - apply wp_bind. eapply wp_mono; [|by apply CreateOrUpdate_establishes].
    intros tr [[o' e]|] He; [|done]. destruct (Hh (o', e)) as [res ->]. simpl.
    rewrite app_nil_r. intros Ha s s' a Hs _ _. by eapply He.
  - apply wp_bind. eapply wp_mono; [|by apply (CreateOrUpdate_keeps obj f)].
    intros tr [r|] Hk; [|done]. destruct (Hh r) as [res ->]. simpl. by rewrite app_nil_r.
Qed.

Lemma convergent_ensure {k} (obj : Object k) (f : MutateFn k) :
  settling f → DeletionTimestamp (meta obj) = None →
  convergent [keyOf obj] (converged obj f) (ensure obj f).
Proof. intros Hf Hnew. apply convergent_CreateOrUpdate; [done..|]. intros [o [e|]]; by eexists. Qed.

(** Skipped under a condition. *)
Lemma convergent_unless (b : bool) K (C : State → Prop) p :
  convergent K C p → convergent K (λ s, b = false → C s) (if b then success else p).
Proof.
  intros Hp. destruct b.
  - destruct convergent_success as [_ _ _ Hk]. split; [apply allSteps_ret|done|by apply wp_true|].
    eapply wp_mono; [|exact Hk]. naive_solver.
  - destruct Hp as [Hw Hd He Hk]. split; [done|intros s s' Heq HC _; by eapply Hd; [|apply HC]| |].
    + eapply wp_mono; [|exact He]. naive_solver.
    + eapply wp_mono; [|exact Hk]. naive_solver.
Qed.

(** ** Stages *)

(** Discharges [settling] for a callback that overwrites fields with constants. *)
Ltac solve_settling :=
  first [ apply settling_session
        | apply settling_plain; [done|by intros|by intros|by intros]
        | apply settling_pure; [done|by intros|by intros]
        | apply settling_pure; [done|by intros|] ].

(** The Alertmanager route keeps the host it has. *)
Lemma alertmanager_route_settles (target : string) :
  settling (pureMutate (λ route : Route,
    withBody (k:=KRoute) (mkRouteBody
      (mkRouteSpec (route_Host (route_Spec (body route))) (mkRouteTarget "Service" target)
         (Some (FromString "web")) (Some "reencrypt") "None") (route_Ingress (body route))) route)).
Proof.
  solve_settling. intros [m [[h t p l w] ing]] c v cur. unfold cur, storedForm, admitRoute.
  cbn [withBody body route_Spec route_Host]. destruct (nonempty h) eqn:Hn;
    cbn [stamp withMeta withBody withHost body route_Spec route_Host]; [by rewrite Hn|].
  match goal with |- context [if nonempty ?h then _ else _] => destruct (nonempty h) end; reflexivity.
Qed.

Lemma waitForRouteReady_reads route : allSteps (writesIn (λ _, False)) (waitForRouteReady route).
Proof. apply allSteps_waitForRouteReady. by intros. Qed.

(** Objects of different kinds are different. *)
Lemma disjoint_kinds (K1 K2 : list ObjectKey) :
  map key_Kind K1 ## map key_Kind K2 → K1 ## K2.
Proof.
  intros Hd key H1 H2. apply (Hd (key_Kind key)); apply list_elem_of_fmap; eauto.
Qed.

Ltac solve_convergent :=
  repeat match goal with
  | |- ∃ C, convergent _ C _ => eexists
  | |- convergent _ _ (andThen _ _) => apply convergent_andThen
  | |- convergent _ _ (ensure _ _) => apply convergent_ensure; [solve_settling|]
  | |- convergent _ _ success => apply convergent_success
  | |- convergent _ _ (waitForRouteReady _) => apply convergent_reads, waitForRouteReady_reads
  | |- convergent _ _ (pbind (CreateOrUpdate _ _) _) =>
      apply convergent_CreateOrUpdate;
        [| |intros [? [?|]]; cbn [fst snd]; try case_match; by eexists]
  | |- settling _ => solve [solve_settling]
  | |- DeletionTimestamp _ = None => reflexivity
  | |- _ ## _ => apply disjoint_kinds; set_solver
  | |- convergent _ _ ?p => unfold_head p
  end.

(** The objects of the four stages that write fixed objects. *)
Definition prometheusKeys (cr : Observability) : list ObjectKey :=
  [keyOf (GetPrometheusProxySecret cr)] ++ [keyOf (GetPrometheusServiceAccount cr)] ++
  [keyOf (GetPrometheusClusterRole cr)] ++ [keyOf (GetPrometheusClusterRoleBinding cr)] ++
  [keyOf (GetPrometheusService cr)] ++ [keyOf (GetPrometheusRoute cr)] ++ [] ++ [].

Definition lifetimesKeys (cr : Observability) : list ObjectKey :=
  [keyOf (GetPrometheusAuthTokenLifetimes cr)] ++ [].

Definition grafanaKeys (cr : Observability) : list ObjectKey :=
  [keyOf (GetGrafanaProxySecret cr)] ++ [keyOf (GetGrafanaClusterRole cr)] ++
  [keyOf (GetGrafanaClusterRoleBinding cr)] ++ [keyOf (GetGrafanaDatasource cr)] ++ [].

Definition alertmanagerKeys (cr : Observability) : list ObjectKey :=
  [keyOf (GetAlertmanagerProxySecret cr)] ++ [keyOf (GetAlertmanagerServiceAccount cr)] ++
  [keyOf (GetAlertmanagerClusterRole cr)] ++ [keyOf (GetAlertmanagerClusterRoleBinding cr)] ++
  [keyOf (GetAlertmanagerService cr)] ++ [keyOf (GetAlertmanagerRoute cr)] ++ [] ++ [].

Definition promtailKeys (cr : Observability) : list ObjectKey :=
  [keyOf (GetPromtailServiceAccount cr)] ++ [keyOf (GetPromtailClusterRole cr)] ++
  [keyOf (GetPromtailClusterRoleBinding cr)] ++ [].

Lemma prometheus_convergent cr :
  ∃ C, convergent (prometheusKeys cr) C (prometheus_configuration.reconcileResources cr).
Proof. unfold prometheusKeys, prometheus_configuration.reconcileResources. solve_convergent. Qed.

Lemma grafana_convergent cr :
  ∃ C, convergent (grafanaKeys cr) C (grafana_configuration.reconcile cr).
Proof. eexists. apply convergent_unless. unfold grafanaKeys. solve_convergent. Qed.

Lemma alertmanager_convergent cr :
  ∃ C, convergent (alertmanagerKeys cr) C (alertmanager_installation.reconcile cr).
Proof.
  unfold alertmanagerKeys, alertmanager_installation.reconcile. solve_convergent.
  apply alertmanager_route_settles.
Qed.

Lemma promtail_convergent cr :
  ∃ C, convergent (promtailKeys cr) C (promtail_installation.reconcile cr).
Proof. eexists. apply convergent_unless. unfold promtailKeys. solve_convergent. Qed.

(** ** Stages of one resource *)

(** The resource in another round: its name, namespace, spec and deletion timestamp
    are the same, the rest of its metadata and its status may differ. *)
Definition sameSpec (cr cr' : Observability) : Prop :=
  nameOf cr' = nameOf cr ∧ namespaceOf cr' = namespaceOf cr ∧
  DeletionTimestamp (meta cr') = DeletionTimestamp (meta cr) ∧ specOf cr' = specOf cr.

Lemma sameSpec_rebuild cr cr' :
  sameSpec cr cr' → ∃ l a fs v st, cr' = mkObject (k:=KObservability)
    (mkMeta (Name (meta cr)) (Namespace (meta cr)) l a fs (DeletionTimestamp (meta cr)) v)
    (mkObservabilityBody (Spec (body cr)) st).
Proof.
  destruct cr' as [[n ns l a fs d v] [sp st]]. unfold sameSpec, nameOf, namespaceOf, specOf.
  simpl. intros (-> & -> & -> & ->). by exists l, a, fs, v, st.
Qed.

Lemma sameSpec_refl cr : sameSpec cr cr.
Proof. done. Qed.

(** What a stage hands back is the resource it was given. *)
Lemma sameSpec_kept cr cr1 cr2 : sameSpec cr cr1 → sameResource cr1 cr2 → sameSpec cr cr2.
Proof.
  intros (Hn & Hns & Hd & Hsp) [Hm Hsp']. unfold sameSpec, nameOf, namespaceOf in *.
  rewrite <-Hn, <-Hns, <-Hd, <-Hsp. split_and!; [..|done];
    [by apply (f_equal Name) in Hm|by apply (f_equal Namespace) in Hm
    |by apply (f_equal DeletionTimestamp) in Hm].
Qed.

(** What these stages write depends on the name, the namespace and the spec of the
    resource only, so it is the same in every later round. *)
Definition dependsOnSpec {A} (p : Observability → A) : Prop :=
  ∀ cr cr', sameSpec cr cr' → p cr' = p cr.

Ltac solve_dependsOnSpec :=
  intros cr cr' (l & a & fs & v & st & ->)%sameSpec_rebuild; reflexivity.

Lemma prometheus_spec : dependsOnSpec prometheus_configuration.reconcileResources.
Proof. solve_dependsOnSpec. Qed.
Lemma lifetimes_spec : dependsOnSpec prometheus_configuration.reconcileTokenLifetimeStorage.
Proof. solve_dependsOnSpec. Qed.
Lemma grafana_spec : dependsOnSpec grafana_configuration.reconcile.
Proof. solve_dependsOnSpec. Qed.
Lemma alertmanager_spec : dependsOnSpec alertmanager_installation.reconcile.
Proof. solve_dependsOnSpec. Qed.
Lemma promtail_spec : dependsOnSpec promtail_installation.reconcile.
Proof. solve_dependsOnSpec. Qed.

Definition okStage (r : Observability * ObservabilityStatus * StageResult) : bool := okResult r.2.

(** The stage settles on [cr], whatever its status and the rest of its metadata. *)
Definition settles (cr : Observability) (R : ObservabilityReconciler) (K : list ObjectKey)
    (C : State → Prop) : Prop :=
  ∀ cr' s, sameSpec cr cr' → convergentIf okStage K C (Reconcile R cr' s).

Lemma stateless_settles cr K p c :
  dependsOnSpec p → (∃ C, convergent K C (p cr)) → ∃ C, settles cr (mkReconciler (stateless p) c) K C.
Proof.
  intros Hp [C Hc]. exists C. intros cr' s Hs. simpl. unfold stateless. rewrite (Hp _ _ Hs).
  apply (convergent_after okResult okStage); [exact Hc|]. intros a. split; [apply allSteps_ret|].
  by intros b [= <-].
Qed.

Lemma okResult_true (r : StageResult) : okResult r = true → r.1 = ResultSuccess.
Proof. apply bool_decide_eq_true. Qed.
Lemma okResult_false (r : StageResult) : okResult r = false → r.1 ≠ ResultSuccess.
Proof. apply bool_decide_eq_false. Qed.

Lemma lifetimes_convergent cr :
  ∃ C, convergent (lifetimesKeys cr) C
    (prometheus_configuration.reconcileTokenLifetimeStorage cr ;;; success).
Proof. unfold lifetimesKeys. solve_convergent. Qed.

Lemma prometheus_settles cr :
  ∃ C, settles cr prometheus_configuration.reconciler (prometheusKeys cr ++ [] ++ lifetimesKeys cr) C.
Proof.
  destruct (prometheus_convergent cr) as [C1 H1], (lifetimes_convergent cr) as [C2 H2].
  eexists. intros cr' s Hs. cbn [Reconcile prometheus_configuration.reconciler].
  unfold prometheus_configuration.reconcile.
  rewrite (prometheus_spec _ _ Hs).
  apply (convergent_bind okResult okStage (λ _, True)); [exact H1|by apply wp_true| | | |].
  { apply disjoint_kinds. set_solver. }
  { instantiate (1 := λ st, True ∧ C2 st). intros st st' Heq [_ HC]. split; [done|].
    eapply (conv_depends _ _ _ _ H2); [|exact HC]. exact Heq. }
  2: { intros a Ha%okResult_false. rewrite decide_False by done. split; [apply allSteps_ret|].
       intros b [= <-]. by apply bool_decide_eq_false. }
  intros a _ Ha%okResult_true. rewrite decide_True by done.
  apply (convergent_bind okStage okStage (λ a, sameSpec cr a.1.1)).
  - apply convergent_reads. unfold prometheus_configuration.fetchClusterId. solve_creates. by intros key.
  - eapply wp_mono; [|apply prometheus_configuration.fetchClusterId_preserves].
    intros tr o Ho [[cr1 s1] r] Hd. destruct (Ho _ _ _ Hd) as [Hsame _].
    by eapply sameSpec_kept.
  - set_solver.
  - apply H2.
  - intros [[cr1 s1] r] Hsame Hok%okResult_true. simpl in Hsame, Hok. rewrite decide_True by done.
    rewrite (lifetimes_spec _ _ Hsame). apply (convergent_after okResult okStage); [exact H2|].
    intros b. split; [apply allSteps_ret|]. by intros ? [= <-].
  - intros [[cr1 s1] r] Hok. pose proof (okResult_false _ Hok) as Hr. simpl in Hr.
    rewrite decide_False by done. split; [apply allSteps_ret|]. by intros b [= <-].
Qed.

(** ** The controller's loop *)

Section loop.
Context (reconcilerFor : ObservabilityStageName → option ObservabilityReconciler).
Context (cr : Observability) (keys : ObservabilityStageName → list ObjectKey)
  (cond : ObservabilityStageName → State → Prop).

Fixpoint separate (stages : list ObservabilityStageName) : Prop :=
  match stages with
  | [] => True
  | stage :: stages' => keys stage ## mjoin (map keys stages') ∧ separate stages'
  end.

Fixpoint allConds (stages : list ObservabilityStageName) (s : State) : Prop :=
  match stages with
  | [] => True
  | stage :: stages' => cond stage s ∧ allConds stages' s
  end.

Hypothesis alive : deleting cr = false.

Definition stageSettles (stage : ObservabilityStageName) : Prop :=
  ∃ R, reconcilerFor stage = Some R ∧ preservesResource R ∧ settles cr R (keys stage) (cond stage).

Definition okRun (r : Observability * ObservabilityStatus * ObservabilityStageStatus) : bool :=
  bool_decide (r.2 = ResultSuccess).
Definition okLoop (r : Observability * ObservabilityStatus * bool) : bool := r.2.

Lemma alive_same cr' : sameSpec cr cr' → deleting cr' = false.
Proof. intros (l & a & fs & v & st & ->)%sameSpec_rebuild. exact alive. Qed.

Lemma runStage_settles stage R cr' next :
  settles cr R (keys stage) (cond stage) → sameSpec cr cr' →
  convergentIf okRun (keys stage) (cond stage) (runStage stage R cr' next).
Proof.
  intros HR Hs. unfold runStage. apply convergent_call; [done| |by repeat constructor].
  intros _. unfold callStage. rewrite (alive_same _ Hs).
  apply (convergent_after okStage okRun); [by apply HR|]. intros [[cr1 next1] [status err]].
  split; [unfold recordResult; solve_creates; by intros key|].
  eapply wp_mono; [|apply recordResult_status]. by intros ? o -> b [= <-].
Qed.

Lemma runStages_settle stages :
  Forall stageSettles stages → separate stages → ∀ cr' next, sameSpec cr cr' →
  convergentIf okLoop (mjoin (map keys stages)) (allConds stages)
    (runStages reconcilerFor stages cr' next).
Proof.
  induction 1 as [|stage stages (R & HR & HP & HS) _ IH]; intros Hsep cr' next Hs; cbn [runStages].
  { apply convergent_reads, allSteps_ret. }
  destruct Hsep as [Hd Hsep]. rewrite HR.
  change (mjoin (map keys (stage :: stages))) with (keys stage ++ mjoin (map keys stages)).
  apply (convergent_bind okRun okLoop (λ a, sameSpec cr a.1.1)).
  - by apply runStage_settles.
  - eapply wp_mono; [|by apply runStage_status]. intros tr o Ho [[cr1 next1] status] Hd'.
    destruct (Ho _ _ _ Hd') as [Hsame _]. by eapply sameSpec_kept.
  - exact Hd.
  - by apply (IH Hsep cr next).
  - intros [[cr1 next1] status] Hsame Hok%bool_decide_eq_true. simpl in Hok.
    rewrite decide_True by done. by apply IH.
  - intros [[cr1 next1] status] Hok%bool_decide_eq_false. simpl in Hok.
    rewrite decide_False by done. split; [apply allSteps_ret|]. by intros b [= <-].
Qed.
End loop.

(** ** The stages together *)

(** The stages that write fixed objects only, in the order of the installation. *)
Definition fixedStages : list ObservabilityStageName :=
  [PrometheusConfiguration; GrafanaConfiguration; AlertmanagerInstallation; PromtailInstallation].

Definition fixedKeys (cr : Observability) (stage : ObservabilityStageName) : list ObjectKey :=
  match stage with
  | PrometheusConfiguration => prometheusKeys cr ++ [] ++ lifetimesKeys cr
  | GrafanaConfiguration => grafanaKeys cr
  | AlertmanagerInstallation => alertmanagerKeys cr
  | PromtailInstallation => promtailKeys cr
  | _ => []
  end.

(** The names the user may choose differ from each other and from the fixed
    names. *)
Definition distinctNames (cr : Observability) : Prop :=
  NoDup [GetDefaultNamePrometheus cr; GetDefaultNameAlertmanager cr;
         nameOf (GetGrafanaClusterRole cr); nameOf (GetGrafanaClusterRoleBinding cr);
         PromtailDefaultName].

Lemma fixed_separate cr : distinctNames cr → separate (fixedKeys cr) fixedStages.
Proof.
  unfold distinctNames. rewrite !NoDup_cons, !not_elem_of_cons.
  intros ((Hpa & Hpg & Hpb & Hpp & _) & (Hag & Hab & Hap & _) & _).
  unfold nameOf in *. simpl in *. unfold fixedStages. cbn [separate].
  split_and!; [..|done]; intros key H1 H2;
    unfold prometheusKeys, lifetimesKeys, grafanaKeys, alertmanagerKeys, promtailKeys in *;
    apply list_elem_of_In in H1, H2; simpl in H1, H2; destruct_or?; subst; try done;
    unfold keyOf, namespaceOf, nameOf in *; simpl in *; congruence.
Qed.
End convergence.

Section operator_converges.
Context `{ApiServer} `{Net} `{Codec} `{TokenCodec} `{ControllerUtil} (depth : nat).

Lemma stageSettles_intro cr keys cond stage R :
  getReconcilerForStage depth stage = Some R → settles cr R (keys stage) (cond stage) →
  stageSettles (getReconcilerForStage depth) cr keys cond stage.
Proof. intros HR HS. exists R. split_and!; [done| |done]. by apply (stages_preserve depth stage). Qed.

Lemma fixedStages_settle cr :
  ∃ cond, Forall (stageSettles (getReconcilerForStage depth) cr (fixedKeys cr) cond) fixedStages.
Proof.
  destruct (prometheus_settles cr) as [Cp Hp].
  destruct (stateless_settles cr _ _ grafana_configuration.cleanup grafana_spec
    (grafana_convergent cr)) as [Cg Hg].
  destruct (stateless_settles cr _ _ alertmanager_installation.cleanup alertmanager_spec
    (alertmanager_convergent cr)) as [Ca Ha].
  destruct (stateless_settles cr _ _ promtail_installation.cleanup promtail_spec
    (promtail_convergent cr)) as [Ct Ht].
  exists (λ stage, match stage with
    | PrometheusConfiguration => Cp
    | GrafanaConfiguration => Cg
    | AlertmanagerInstallation => Ca
    | _ => Ct
    end).
  unfold fixedStages. rewrite !Forall_cons, Forall_nil.
  split_and!; [..|done]; (eapply stageSettles_intro; [reflexivity|assumption]).
Qed.

(** C4: Once reconciled, the cluster stays as it is.  The controller's loop runs the
    Prometheus configuration, Grafana configuration, Alertmanager and Promtail
    stages of a resource that is not deleted; when all of them succeeded and no
    request failed, then every later run of them, for the resource with the same
    name, namespace and spec and with any other metadata and status, leaves every
    object of the cluster unchanged, even when requests of the later run fail and
    wherever it stops.  The names the user chose for Prometheus and
    Alertmanager have to differ from each other and from the cluster roles and
    bindings of Grafana and Promtail, and nothing else writes between the runs. *)
Theorem reconciled_is_stable cr s1 next1 tr1 cr1 next1' s2 cr2 next2 tr2 o2 s3 :
  distinctNames cr → deleting cr = false → sameSpec cr cr2 →
  beh (runStages (getReconcilerForStage depth) fixedStages cr next1) tr1 (Done (cr1, next1', true)) →
  Forall accepted tr1 → served s1 tr1 s2 →
  beh (runStages (getReconcilerForStage depth) fixedStages cr2 next2) tr2 o2 → served s2 tr2 s3 →
  sameView s2 s3.
Proof.
  intros Hsep%fixed_separate Hal Hsame Hb1 Ha Hs1 Hb2 Hs2.
  destruct (fixedStages_settle cr) as [cond Hst].
  pose proof (runStages_settle _ cr _ cond Hal _ Hst Hsep) as Hconv.
  apply (proj1 (wp_beh _ _) (conv_keeps _ _ _ _ (Hconv cr2 next2 Hsame)) tr2 o2 Hb2); [|exact Hs2].
  exact (proj1 (wp_beh _ _) (conv_establishes _ _ _ _ (Hconv cr next1 (sameSpec_refl cr)))
    tr1 _ Hb1 Ha s1 s2 _ Hs1 eq_refl eq_refl).
Qed.
End operator_converges.

(** ** Instances *)

(** Running against the store. *)
Definition plainHost (r : Route) : string := nameOf r +:+ ".apps".

#[local] Instance plainServer : ApiServer := storeServer plainHost.

Lemma exec_served {A} (p : prog A) (s : State) :
  served s (exec (respond plainHost) p s).1.2 (exec (respond plainHost) p s).2.
Proof.
  revert s. induction p as [a| |c k IH]; intros s; simpl; [done..|].
  destruct (respond plainHost c s) as [x s1] eqn:Hr. specialize (IH x s1).
  destruct (exec _ (k x) s1) as [[o tr] s2]. by exists s1.
Qed.

(** A resource with the given names of Prometheus and Alertmanager. *)
Definition namedCr (prometheus alertmanager : string) : Observability :=
  mkObject (k:=KObservability) (metaOf "obs" "ns")
    (mkObservabilityBody
       (mkObservabilitySpec EmptyString None EmptyString None None None
          (Some zeroSelfContained) None EmptyString alertmanager prometheus EmptyString) zeroStatus).

(** The stages of the operator. *)
Definition plainReconcilers :=
  @getReconcilerForStage plainNet plainCodec plainTokenCodec referenceUtil 10.

(** The resource as a later round reads it: with the status of the first one. *)
Definition laterCr (cr : Observability) : Observability :=
  set_CrStatus (set_ClusterID "id" (set_Stage Configuration (statusOf cr)))
    (withMeta (set_ResourceVersion "2") cr).

Definition plainStages (cr : Observability) :=
  runStages plainReconcilers fixedStages cr (statusOf cr).

(** A cluster with nothing but its version, whose id the stages ask for. *)
Definition freshStore : Store :=
  put (mkObject (k:=KClusterVersion) (metaOf "version" EmptyString)
         (mkClusterVersionBody "id" "4.14")) (λ _, ∅).

(** The run of the stages on a fresh cluster, the cluster after it, and a run of
    the next round. *)
Definition firstRun (cr : Observability) := exec (respond plainHost) (plainStages cr) freshStore.
Definition secondRun (cr : Observability) :=
  exec (respond plainHost) (plainStages (laterCr cr)) (firstRun cr).2.

(** Whether the loop finished. *)
Definition finishedLoop (o : outcome (Observability * ObservabilityStatus * bool)) : bool :=
  match o with Done (_, _, fin) => fin | Panicked => false end.

Lemma reconciled_is_stable_witness :
  let cr := namedCr "p" "a" in
  finishedLoop (firstRun cr).1.1 = true ∧ sameView (firstRun cr).2 (secondRun cr).2.
Proof.
  set (cr := namedCr "p" "a").
  assert (∃ r, (firstRun cr).1.1 = Done (r, true)) as [[cr1 next1] Hrun]
    by (eexists; vm_compute; reflexivity).
  split; [rewrite Hrun; reflexivity|].
  apply (@reconciled_is_stable plainServer plainNet plainCodec plainTokenCodec referenceUtil 10
    cr freshStore (statusOf cr) (firstRun cr).1.2 cr1 next1 _ (laterCr cr) (statusOf (laterCr cr))
    (secondRun cr).1.2 (secondRun cr).1.1).
  - apply (bool_decide_unpack _). vm_compute. reflexivity.
  - reflexivity.
  - repeat split.
  - rewrite <-Hrun. exact (exec_beh (respond plainHost) (plainStages cr) freshStore).
  - apply all_accepted. vm_compute. reflexivity.
  - exact (exec_served (plainStages cr) freshStore).
  - exact (exec_beh (respond plainHost) (plainStages (laterCr cr)) _).
  - exact (exec_served (plainStages (laterCr cr)) _).
Defined.

(** The rules of a cluster role in a store. *)
Definition rolesIn (s : Store) (name : string) : option (list PolicyRule) :=
  (λ o : Object KClusterRole, role_Rules (body o)) <$> view s KClusterRole EmptyString name.

(** When the user gives Prometheus and Alertmanager one name, their stages write
    the same cluster role in turn, and it never settles: after all stages it has
    the rules of Alertmanager, after the next run of the Prometheus stage those of
    Prometheus. *)
Lemma equal_names_fight :
  let cr := namedCr "x" "x" in
  let s := (firstRun cr).2 in
  let s' := (exec (respond plainHost)
               (@prometheus_configuration.reconcileResources referenceUtil cr) s).2 in
  rolesIn s "x" = Some alertmanager_installation.alertmanagerRules ∧
  rolesIn s' "x" = Some prometheus_configuration.prometheusRules.
Proof. vm_compute. split; reflexivity. Qed.
