(* ===== verification/Liveness.v ===== *)
(** * A deleted resource is released

    The theorems about the finalizer say what cannot happen before the cleanup is
    complete.  This file proves that the cleanup gets there: against the interface
    [ApiServer], as long as no request fails and the workloads the operator waits
    for are gone, every round of the controller makes progress, and after a bounded
    number of rounds the finalizer is dropped ([releasedWithin]).  A stage that
    cannot stop is one that [passes]; the stage of the cluster service versions
    removes one version per round ([drains]).  Between two rounds the rest of the
    cluster may do anything that leaves the objects the cleanup depends on
    undisturbed ([undisturbedIn]). *)

From S2P Require Import Prelude GoLib ApiTypes K8s Prog Client Api Cluster ModelPrometheus.
From S2P Require Import ModelResources Utils TokenStage PromtailStage GrafanaInstallationStage.
From S2P Require Import GrafanaConfigurationStage PrometheusInstallationStage.
From S2P Require Import PrometheusConfigurationStage AlertmanagerStage CsvStage MigrationStage.
From S2P Require Import LoggingStage Token Controller ControllerProofs External.
From S2P Require Import ConfigurationStage Convergence Operator.

(** ** Requests that do not fail *)

(** A missing object is not a failure of a read or of a deletion. *)
Definition isHealthy (s : step) : bool :=
  match s with
  | existT (CGet _ _ _) r => match r with inl _ => true | inr e => IsNotFound e end
  | existT (CList _ _ _) r => succeeded r
  | existT (CCreate _) r => succeeded r
  | existT (CUpdate _) r => succeeded r
  | existT (CStatusUpdate _) r => succeeded r
  | existT (CDelete _) r => match r with None => true | Some e => IsNotFound e end
  | _ => true
  end.
Definition healthy (s : step) : Prop := isHealthy s = true.

(** ** What the rounds depend on *)

Definition watched (k : Kind) : bool :=
  match k with
  | KObservability | KStatefulSet | KDeployment | KSubscription | KClusterServiceVersion => true
  | _ => false
  end.

(** What of an object is still the same later on: the spec of the resource and that
    it is deleted, what a subscription installed, the finalizers of a cluster
    service version. *)
Definition remains {k} : Object k → Object k → Prop :=
  match k as k return Object k → Object k → Prop with
  | KObservability => λ o o', specOf o' = specOf o ∧ (deleting o = true → deleting o' = true)
  | KSubscription => λ o o', Labels (meta o') = Labels (meta o) ∧ body o' = body o
  | KClusterServiceVersion => λ o o', Finalizers (meta o') = Finalizers (meta o)
  | _ => λ _ _, True
  end.

Lemma remains_refl {k} (o : Object k) : remains o o.
Proof. by destruct k. Qed.

Lemma remains_trans {k} (o1 o2 o3 : Object k) : remains o1 o2 → remains o2 o3 → remains o1 o3.
Proof. destruct k; simpl; try done; [intros [-> ->] [-> ->]|intros -> ->|intros [-> ?] [-> ?]]; auto. Qed.

Lemma remains_marked {k} (o o' : Object k) : marked o o' → remains o o'.
Proof. intros (t & v & ->). by destruct k. Qed.

Section liveness.
Context `{ApiServer}.

(** No watched object appears, and those that are there remain. *)
Definition undisturbed (s s' : State) : Prop :=
  ∀ k, watched k = true → ∀ ns n o', view s' k ns n = Some o' →
    ∃ o, view s k ns n = Some o ∧ remains o o'.

#[export] Instance undisturbed_preorder : PreOrder undisturbed.
Proof.
  split.
  - intros s k _ ns n o Ho. exists o. split; [done|apply remains_refl].
  - intros s1 s2 s3 H12 H23 k Hk ns n o3 Ho3.
    destruct (H23 k Hk ns n o3 Ho3) as (o2 & Ho2 & ?), (H12 k Hk ns n o2 Ho2) as (o1 & Ho1 & ?).
    exists o1. split; [done|]. by eapply remains_trans.
Qed.

Lemma sameView_undisturbed s s' : sameView s s' → undisturbed s s'.
Proof. intros Heq k _ ns n o Ho. rewrite Heq in Ho. exists o. auto using remains_refl. Qed.

(** The objects the cleanup of a resource in [home] depends on: those of its
    namespace, and the subscriptions in the logging namespace. *)
Definition relevantKind (k : Kind) : bool :=
  match k with
  | KObservability | KStatefulSet | KDeployment | KClusterServiceVersion => true
  | _ => false
  end.

Definition relevant (home : string) (k : Kind) (ns : string) : bool :=
  relevantKind k && bool_decide (ns = home) ||
  bool_decide (k = KSubscription) && bool_decide (ns = logging_installation.loggingNs).

(** No relevant object appears, and those that are there remain.  Everything else
    in the cluster may change. *)
Definition undisturbedIn (home : string) (s s' : State) : Prop :=
  ∀ k ns, relevant home k ns = true → ∀ n o', view s' k ns n = Some o' →
    ∃ o, view s k ns n = Some o ∧ remains o o'.

Lemma undisturbed_in home s s' : undisturbed s s' → undisturbedIn home s s'.
Proof.
  intros Hu k ns Hk n o'. apply (Hu k).
  destruct k; try done; unfold relevant in Hk; by rewrite bool_decide_false in Hk.
Qed.

(** A change of one object. *)
Lemma undisturbed_at {k} (o : Object k) s c x s' :
  serve s (c ⇝ x) s' → callWrites c = Some (keyOf o) →
  (∀ o', view s' k (namespaceOf o) (nameOf o) = Some o' →
     ∃ cur, view s k (namespaceOf o) (nameOf o) = Some cur ∧ remains cur o') →
  undisturbed s s'.
Proof.
  intros Hs Hc Ho k' _ ns n o' Ho'.
  destruct (decide (keyOf o = mkKey k' ns n)) as [Heq|Hne].
  - unfold keyOf in Heq. injection Heq as <- <- <-. by apply Ho.
  - rewrite (serve_frame _ _ _ _ _ _ _ Hs) in Ho' by congruence.
    exists o'. auto using remains_refl.
Qed.

Lemma delete_undisturbed {k} (o : Object k) s r s' :
  serve s (CDelete o ⇝ r) s' → healthy (CDelete o ⇝ r) → undisturbed s s'.
Proof.
  intros Hs Hh. apply (undisturbed_at o _ _ _ _ Hs); [done|]. intros o' Ho'.
  apply serve_delete in Hs. destruct r as [e|].
  - destruct (Hs Hh) as [_ Hn]. congruence.
  - destruct Hs as (cur & Hcur & Hafter & _). exists cur. split; [done|].
    destruct Hafter as [Hn|(o1 & Ho1 & Hm)]; [congruence|]. rewrite Ho1 in Ho'.
    injection Ho' as <-. by apply remains_marked.
Qed.

Lemma step_undisturbed s st s' :
  serve s st s' → healthy st → readsOrDeletes st → undisturbed s s'.
Proof.
  destruct st as [c x]. intros Hs Hh Hr.
  destruct c; try done; try (apply sameView_undisturbed; intros ???; by apply (serve_frame _ _ _ _ _ _ _ Hs)).
  by eapply delete_undisturbed.
Qed.

Lemma status_undisturbed (o : Observability) s r s' :
  serve s (CStatusUpdate o ⇝ r) s' → undisturbed s s'.
Proof.
  intros Hs. apply (undisturbed_at (k:=KObservability) o _ _ _ _ Hs); [done|].
  intros o' Ho'. apply serve_status in Hs as [Heq|(cur & v & st & Hcur & Hafter)].
  - rewrite Heq in Ho'. exists o'. auto using remains_refl.
  - exists cur. split; [done|]. rewrite Hafter in Ho'. by injection Ho' as <-.
Qed.

(** ** When nothing holds a cleanup up *)

(** The workloads are gone, the logging operator the operator subscribed to is
    installed, and the cluster service versions to be removed are among [names] and
    have no finalizers. *)
Record cleared (names : list string) (cr : Observability) (s : State) : Prop := {
  cleared_namespace : namespaceOf cr ≠ EmptyString;
  cleared_prometheus :
    view s KStatefulSet (namespaceOf cr) ("prometheus-" +:+ nameOf (GetPrometheus cr)) = None;
  cleared_alertmanager :
    view s KStatefulSet (namespaceOf cr) ("alertmanager-" +:+ nameOf (GetAlertmanagerCr cr)) = None;
  cleared_grafana : view s KDeployment (namespaceOf cr) "grafana-deployment" = None;
  cleared_logging : ∀ n o, view s KSubscription logging_installation.loggingNs n = Some o →
    matchesLabels loggingLabels o = true → nonempty (subscription_InstalledCSV (body o)) = true;
  cleared_csvs : ∀ n c, view s KClusterServiceVersion (namespaceOf cr) n = Some c →
    csv.isOurs cr c = true → n ∈ names ∧ Finalizers (meta c) = [];
}.

(** The condition depends on the relevant objects. *)
Lemma absent_undisturbed home s s' k ns n :
  undisturbedIn home s s' → relevant home k ns = true → view s k ns n = None → view s' k ns n = None.
Proof.
  intros Hu Hk Hn. destruct (view s' k ns n) as [o'|] eqn:Ho'; [|done].
  destruct (Hu k ns Hk n o' Ho') as (o & Ho & _). congruence.
Qed.

Lemma relevant_home home k :
  relevantKind k = true → relevant home k home = true.
Proof. intros Hk. unfold relevant. rewrite Hk. by rewrite bool_decide_true. Qed.

Lemma cleared_undisturbedIn names cr s s' :
  cleared names cr s → undisturbedIn (namespaceOf cr) s s' → cleared names cr s'.
Proof.
  intros [Hns Hp Ha Hg Hl Hc] Hu. split; [done|..].
  1-3: eapply absent_undisturbed; [done|by apply relevant_home|done].
  - intros n o' Ho' Hm. destruct (Hu KSubscription logging_installation.loggingNs eq_refl _ _ Ho') as (o & Ho & HL & Hb).
    rewrite Hb. apply (Hl n o Ho). by rewrite <-Hm; unfold matchesLabels; rewrite HL.
  - intros n c' Hc' Hours.
    destruct (Hu KClusterServiceVersion _ (relevant_home _ KClusterServiceVersion eq_refl) _ _ Hc') as (c & Hv & Hf).
    simpl in Hf. rewrite Hf. apply (Hc n c Hv). revert Hours.
    apply view_key in Hv as [= Hn1 Hn2]. apply view_key in Hc' as [= Hn1' Hn2'].
    unfold csv.isOurs, csv.isOperatorCsv. by rewrite Hn1, Hn2, Hn1', Hn2'.
Qed.

Lemma cleared_undisturbed names cr s s' :
  cleared names cr s → undisturbed s s' → cleared names cr s'.
Proof. intros Hc Hu. eapply cleared_undisturbedIn; [done|by apply undisturbed_in]. Qed.

(** ** Programs that nothing holds up *)

Section goes.
Context (names : list string) (cr : Observability).
Implicit Types P : State → Prop.

(** From a cleared state with [P], without failing requests, [p] returns a result
    with [Q] and disturbs nothing. *)
Definition goes {A} P (p : prog A) (Q : A → State → Prop) : Prop :=
  wp p (λ tr o, ∀ s s', cleared names cr s → P s → served s tr s' → Forall healthy tr →
    undisturbed s s' ∧ ∃ a, o = Done a ∧ Q a s').

Lemma goes_conseq {A} P P' (p : prog A) (Q Q' : A → State → Prop) :
  goes P p Q → (∀ s, cleared names cr s → P' s → P s) →
  (∀ a s, cleared names cr s → Q a s → Q' a s) → goes P' p Q'.
Proof.
  intros Hp HP HQ. eapply wp_mono; [|exact Hp]. intros tr o Ho s s' Hc HP' Hs Hh.
  destruct (Ho s s' Hc (HP s Hc HP') Hs Hh) as [Hu (a & -> & Ha)].
  split; [done|]. exists a. split; [done|]. apply HQ; [by eapply cleared_undisturbed|done].
Qed.

Lemma goes_ret {A} P (a : A) (Q : A → State → Prop) :
  (∀ s, cleared names cr s → P s → Q a s) → goes P (Ret a) Q.
Proof.
  intros HQ s s' Hc HP Hs _. simpl in Hs. subst s'. split; [done|]. exists a. auto.
Qed.

Lemma goes_absurd {A} P (p : prog A) (Q : A → State → Prop) :
  (∀ s, cleared names cr s → P s → False) → goes P p Q.
Proof. intros HP. apply wp_true. intros tr o s s' Hc HPs. by destruct (HP s). Qed.

Lemma goes_pure {A} (φ : Prop) P (p : prog A) (Q : A → State → Prop) :
  (∀ s, P s → φ) → (φ → goes P p Q) → goes P p Q.
Proof.
  intros Hφ Hp. apply wp_beh. intros tr o Hb s s' Hc HP.
  exact (proj1 (wp_beh _ _) (Hp (Hφ s HP)) tr o Hb s s' Hc HP).
Qed.

Lemma goes_bind {A B} P (p : prog A) (f : A → prog B) R Q :
  goes P p R → (∀ a, goes (R a) (f a) Q) → goes P (pbind p f) Q.
Proof.
  intros Hp Hf. apply wp_bind. eapply wp_mono; [|exact Hp]. intros tr [a|] Ho.
  - eapply wp_mono; [|exact (Hf a)].
    intros tr' o Ho' s s' Hc HP (s1 & Hs1 & Hs2)%served_app [Hh1 Hh2]%Forall_app.
    destruct (Ho s s1 Hc HP Hs1 Hh1) as [Hu (a' & [= <-] & Ha)].
    destruct (Ho' s1 s' (cleared_undisturbed _ _ _ _ Hc Hu) Ha Hs2 Hh2) as [Hu' Hres].
    split; [by transitivity s1|done].
  - intros s s' Hc HP Hs Hh. by destruct (Ho s s' Hc HP Hs Hh) as [_ (a & [=] & _)].
Qed.

(** A call of a cleanup; the state before it is at hand. *)
Lemma goes_request P c :
  (∀ x, readsOrDeletes (c ⇝ x)) →
  goes P (request c) (λ x s', healthy (c ⇝ x) ∧
    ∃ s, cleared names cr s ∧ P s ∧ serve s (c ⇝ x) s').
Proof.
  intros Hr x s s' Hc HP (s1 & Hs & Hend) [Hh _]%Forall_cons. simpl in Hend. subst s'.
  split; [by eapply step_undisturbed|]. exists x. split; [done|]. split; [done|]. by exists s.
Qed.

(** The verdict of a stage that is done. *)
Definition passes (p : prog StageResult) : Prop :=
  goes (λ _, True) p (λ r _, r = (ResultSuccess, None)).

Lemma passes_success : passes success.
Proof. by apply goes_ret. Qed.

Lemma goes_passes P p : passes p → goes P p (λ r _, r = (ResultSuccess, None)).
Proof. intros Hp. by eapply goes_conseq. Qed.

Lemma passes_deleteThen {k} (o : Object k) rest : passes rest → passes (deleteThen o rest).
Proof.
  intros Hr. eapply goes_bind; [by apply goes_request|]. intros [e|]; [|by apply goes_passes].
  destruct (IsNotFound e) eqn:He; [by apply goes_passes|]. apply goes_absurd.
  intros s _ [Hh _]. unfold healthy in Hh. simpl in Hh. congruence.
Qed.

Lemma passes_deleteMatchThen {k} (o : Object k) rest :
  passes rest → passes (deleteMatchThen o rest).
Proof.
  intros Hr. eapply goes_bind; [by apply goes_request|]. intros [e|]; [|by apply goes_passes].
  destruct (IsNotFound e || IsNoMatchError e) eqn:He; [by apply goes_passes|]. apply goes_absurd.
  intros s _ [Hh _]. unfold healthy in Hh. simpl in Hh. by rewrite Hh in He.
Qed.

Lemma passes_andThen p rest : passes p → passes rest → passes (p ;;; rest).
Proof.
  intros Hp Hr. eapply goes_bind; [exact Hp|]. intros [st e].
  case_decide; [by apply goes_passes|]. apply goes_absurd. by intros s _ [= -> _].
Qed.

(** A listing in a namespace. *)
Lemma listed_view {k} s ns labels (os : list (Object k)) s' o :
  serve s (CList k ns labels ⇝ inl os) s' → ns ≠ EmptyString → o ∈ os →
  namespaceOf o = ns ∧ view s k ns (nameOf o) = Some o.
Proof.
  intros Hs Hns Ho. apply serve_list in Hs as [_ Hs]. apply Hs in Ho as [Hl Hv].
  unfold listed in Hl. apply andb_true_iff in Hl as [Hl _].
  destruct ns; [done|]. simpl in Hl. case_bool_decide as Heq; [|done]. by rewrite Heq in Hv.
Qed.

Lemma passes_waitForRemoval k name :
  (∀ s, cleared names cr s → view s k (namespaceOf cr) name = None) →
  passes (waitForRemoval k cr name).
Proof.
  intros Hgone. eapply goes_bind; [by apply goes_request|]. intros [items|e].
  - destruct (existsIn _ items) eqn:Hex; [|by apply goes_passes, passes_success].
    apply goes_absurd. intros s1 _ (_ & s & Hc & _ & Hs).
    apply existsIn_spec in Hex as (o & Ho & Hn). case_bool_decide as Heq; [|done].
    destruct (listed_view _ _ _ _ _ _ Hs (cleared_namespace _ _ _ Hc) Ho) as [_ Hv].
    rewrite Heq, (Hgone s Hc) in Hv. done.
  - apply goes_absurd. by intros s _ [Hh _].
Qed.

(** Objects that are there, each once. *)
Definition present {k} (os : list (Object k)) (s : State) : Prop :=
  NoDup (map keyOf os) ∧ ∀ x, x ∈ os → view s k (namespaceOf x) (nameOf x) = Some x.

Lemma listed_present {k} s ns labels (os : list (Object k)) s' :
  serve s (CList k ns labels ⇝ inl os) s' → present os s'.
Proof.
  intros Hs. assert (sameView s s') as Hsame by (intros ???; by apply (serve_frame _ _ _ _ _ _ _ Hs)).
  apply serve_list in Hs as [Hnd Hitems]. split.
  - apply NoDup_fmap_2_strong; [|done]. intros x y Hx Hy [= Hns Hn].
    apply Hitems in Hx as [_ Hx], Hy as [_ Hy]. congruence.
  - intros x Hx. rewrite Hsame. by apply Hitems.
Qed.

(** Deleting objects that are there, one after the other. *)
Lemma goes_deleteWhere {k} (os : list (Object k)) :
  goes (present os) (deleteWhere (λ _, true) os) (λ e _, e = None).
Proof.
  induction os as [|x os IH]; [by apply goes_ret|].
  eapply goes_bind; [by apply goes_request|]. intros [e|].
  - apply goes_absurd. intros s1 _ (Hh & s & _ & [_ Hv] & Hs).
    destruct (serve_delete _ _ _ _ _ Hs Hh) as [Hn _]. rewrite Hv in Hn by left. done.
  - eapply goes_conseq; [exact IH| |done]. intros s1 _ (_ & s & _ & [Hnd Hv] & Hs).
    apply NoDup_cons in Hnd as [Hx Hnd]. split; [done|]. intros y Hy.
    rewrite <-(Hv y) by (by right). apply (serve_frame _ _ _ _ _ _ _ Hs). simpl.
    intros [= Heq1 Heq2]. apply Hx, list_elem_of_fmap. exists y. split; [|done].
    unfold keyOf. by rewrite Heq1, Heq2.
Qed.

Lemma passes_deleteListed k labels rest :
  passes rest → passes (configuration_reconciler.deleteListed k cr labels rest).
Proof.
  intros Hr. eapply goes_bind; [by apply goes_request|]. intros [items|e].
  - eapply goes_bind.
    + eapply goes_conseq; [apply goes_deleteWhere| |done]. intros s1 _ (_ & s & _ & _ & Hs).
      by eapply listed_present.
    + intros [e|]; [by apply goes_absurd|by apply goes_passes].
  - apply goes_absurd. by intros s _ [Hh _].
Qed.

Lemma goes_forEach {A R} (xs : list A) (b : A → prog (option R)) :
  (∀ x, goes (λ _, True) (b x) (λ r _, r = None)) →
  goes (λ _, True) (forEach xs b) (λ r _, r = None).
Proof.
  intros Hb. induction xs as [|x xs IH]; [by apply goes_ret|].
  eapply goes_bind; [apply Hb|]. intros [r|]; [by apply goes_absurd|]. by eapply goes_conseq.
Qed.

End goes.

(** ** The stages *)

Ltac solve_passes :=
  repeat match goal with
  | |- passes _ _ success => apply passes_success
  | |- passes _ _ (deleteThen _ _) => apply passes_deleteThen
  | |- passes _ _ (deleteMatchThen _ _) => apply passes_deleteMatchThen
  | |- passes _ _ (configuration_reconciler.deleteListed _ _ _ _) => apply passes_deleteListed
  | |- passes _ _ (andThen _ _) => apply passes_andThen
  | |- passes _ _ (waitForRemoval _ _ _) =>
      apply passes_waitForRemoval; let s := fresh in let Hc := fresh in intros s Hc; apply Hc
  | |- passes _ _ (if ?b then _ else _) => destruct b
  | |- passes _ _ ?p => unfold_head p
  end.

Section stages.
Context (names : list string) (cr : Observability).

Lemma grafana_installation_passes : passes names cr (grafana_installation.cleanup cr).
Proof.
  unfold grafana_installation.cleanup. destruct (DescopedModeEnabled cr); [solve_passes|].
  do 3 apply passes_deleteThen. eapply goes_bind; [by apply goes_request|].
  intros [deployments|e]; [|apply goes_absurd; by intros s _ [Hh _]].
  eapply goes_bind.
  - eapply goes_conseq; [apply goes_forEach| |]; [|done..]. intros d.
    case_decide; [|by apply goes_ret]. eapply goes_bind; [by apply goes_request|].
    intros [e|]; [|by apply goes_ret]. destruct (IsNotFound e) eqn:He; [by apply goes_ret|].
    apply goes_absurd. intros s _ [Hh _]. unfold healthy in Hh. simpl in Hh. congruence.
  - intros [r|]; [by apply goes_absurd|by apply goes_passes, passes_success].
Qed.

Lemma logging_passes : passes names cr (logging_installation.cleanup cr).
Proof.
  unfold logging_installation.cleanup. destruct (DescopedModeEnabled cr); [solve_passes|].
  eapply (goes_bind _ _ _ _ _ (λ managed s, managed = inl false ∨ managed = inl true ∧
    ∃ o, listed logging_installation.loggingNs loggingLabels o = true ∧
      view s KSubscription (namespaceOf o) (nameOf o) = Some o)).
  { eapply goes_bind; [by apply goes_request|].
    intros [[|o os]|e]; [by apply goes_ret; auto| |apply goes_absurd; by intros s _ [Hh _]].
    apply goes_ret. intros s1 _ (_ & s & _ & _ & Hs). right. split; [done|]. exists o.
    apply serve_list in Hs as Ho. rewrite (serve_frame _ _ _ _ _ _ _ Hs) by done.
    apply Ho. left. }
  intros [[]|e]; [|by apply goes_passes, passes_success|apply goes_absurd; by intros s _ [|[]]].
  eapply (goes_bind _ _ _ _ _ (λ name _, ∃ n, name = inl n ∧ nonempty n = true)).
  { eapply goes_bind; [by apply goes_request|].
    intros [[|o os]|e]; [| |apply goes_absurd; by intros s _ [Hh _]].
    - apply goes_absurd. intros s1 _ (_ & s & _ & [?|(_ & o & Ho)] & Hs); [done|].
      apply serve_list in Hs as [_ Hs]. by apply Hs, elem_of_nil in Ho.
    - apply goes_ret. intros s1 _ (_ & s & Hc & _ & Hs). eexists. split; [done|].
      destruct (listed_view _ _ _ _ _ o Hs) as [_ Hv]; [done|left|].
      apply (cleared_logging _ _ _ Hc _ _ Hv). apply serve_list in Hs as [_ Hs].
      destruct (proj1 (Hs o)) as [Hl _]; [left|]. unfold listed in Hl.
      by apply andb_true_iff in Hl as [_ Hl]. }
  intros [n|e]; [|apply goes_absurd; by intros s _ (n & [=] & _)].
  destruct (nonempty n) eqn:Hn; [apply goes_passes; solve_passes|].
  apply goes_absurd. intros s _ (n' & [= <-] & Hn'). congruence.
Qed.

(** The cluster service versions: one less, or none left. *)
Definition fewer (s : State) : Prop :=
  ∃ names', length names' < length names ∧ cleared names' cr s.

(** A version of ours that is deleted is not there any more. *)
Lemma csv_removed c s x s' :
  cleared names cr s → view s KClusterServiceVersion (namespaceOf c) (nameOf c) = Some c →
  csv.isOurs cr c = true → serve s (CDelete c ⇝ x) s' → healthy (CDelete c ⇝ x) → fewer s'.
Proof.
  intros Hc Hv Hours Hs Hh.
  assert (undisturbed s s') as Hu by (by eapply delete_undisturbed).
  assert (namespaceOf c = namespaceOf cr) as Hns.
  { unfold csv.isOurs, csv.isOperatorCsv in Hours. by case_bool_decide. }
  destruct (cleared_csvs _ _ _ Hc (nameOf c) c) as [Hin Hfin]; [by rewrite <-Hns|done|].
  assert (view s' KClusterServiceVersion (namespaceOf cr) (nameOf c) = None) as Hgone.
  { rewrite <-Hns. apply serve_delete in Hs. destruct x as [e|]; [by apply (Hs Hh)|].
    destruct Hs as (cur & Hcur & _ & Hafter). apply Hafter; [|done]. congruence. }
  exists (filter (.≠ nameOf c) names). split.
  - by apply (length_filter_lt _ _ (nameOf c)); [|intros []].
  - destruct (cleared_undisturbed _ _ _ _ Hc Hu) as [? ? ? ? ? Hcsvs]. split; try done.
    intros n c' Hc' Hours'. destruct (Hcsvs n c' Hc' Hours') as [Hn ?]. split; [|done].
    apply list_elem_of_filter. split; [|done]. intros ->. congruence.
Qed.

Lemma csv_drains :
  goes names cr (λ _, True) (csv.cleanup cr) (λ r s, r = (ResultSuccess, None) ∨
    r = (ResultInProgress, None) ∧ fewer s).
Proof.
  eapply goes_bind; [by apply goes_request|].
  intros [csvs|e]; [|apply goes_absurd; by intros s _ [Hh _]].
  destruct (firstSuchThat _ _) as [c|] eqn:Hf; [|by apply goes_ret; auto].
  apply firstSuchThat_Some in Hf as (pre & post & -> & Hours & _).
  eapply (goes_bind _ _ _ _ _ (λ x s, healthy (CDelete c ⇝ x) ∧ fewer s)).
  - eapply goes_conseq; [by apply goes_request|intros s _ HP; exact HP|].
    intros x s' _ (Hh & s & Hc & (_ & s0 & _ & _ & Hlist) & Hs). split; [done|].
    apply listed_present in Hlist as [_ Hv]. eapply csv_removed; [done| |done..].
    apply Hv, elem_of_app. right. left.
  - intros [e|]; [|by apply goes_ret; intros s _ [_ ?]; right].
    destruct (IsNotFound e) eqn:He; [by apply goes_ret; intros s _ [_ ?]; right|].
    apply goes_absurd. intros s _ [Hh _]. unfold healthy in Hh. simpl in Hh. congruence.
Qed.

(** ** The stage loop *)

Section loop.
Context (reconcilerFor : ObservabilityStageName → option ObservabilityReconciler).
Hypothesis deleted : deleting cr = true.

Lemma goes_runStage stage R next (Q : ObservabilityStageStatus → State → Prop) :
  goes names cr (λ _, True) (Cleanup R cr) (λ r s, r.2 = None ∧ Q r.1 s) →
  goes names cr (λ _, True) (runStage stage R cr next) (λ r s, r.1.1 = cr ∧ Q r.2 s).
Proof.
  intros HR. eapply goes_bind; [by apply goes_request|]. intros x.
  eapply (goes_bind _ _ _ _ _ (λ r s, r.1.1 = cr ∧ r.2.2 = None ∧ Q r.2.1 s)).
  - unfold callStage. rewrite deleted.
    eapply goes_bind; [by eapply goes_conseq|]. intros r. by apply goes_ret.
  - intros [[obs next'] [status [e|]]]; [by apply goes_absurd; intros s _ (_ & [=] & _)|].
    apply goes_ret. by intros s _ (Ho & _ & HQ).
Qed.

Lemma goes_runStages stages last R next :
  (∀ stage, stage ∈ stages → ∃ R, reconcilerFor stage = Some R ∧ passes names cr (Cleanup R cr)) →
  reconcilerFor last = Some R →
  goes names cr (λ _, True) (Cleanup R cr) (λ r s, r = (ResultSuccess, None) ∨
    r = (ResultInProgress, None) ∧ fewer s) →
  goes names cr (λ _, True) (runStages reconcilerFor (stages ++ [last]) cr next)
    (λ r s, r.1.1 = cr ∧ (r.2 = false → fewer s)).
Proof.
  intros Hall Hlast HR. revert next.
  induction stages as [|stage stages IH]; intros next; cbn [app runStages].
  - rewrite Hlast. eapply goes_bind.
    + eapply (goes_runStage _ _ _ (λ status s, status = ResultSuccess ∨ fewer s)).
      eapply goes_conseq; [exact HR|done|]. intros r s _ [->|[-> ?]]; auto.
    + intros [[obs next'] status]. case_decide; apply goes_ret; intros s _ [Ho [?|?]]; auto; done.
  - destruct (Hall stage) as (R1 & -> & H1); [left|]. eapply goes_bind.
    + eapply (goes_runStage _ _ _ (λ status s, status = ResultSuccess)).
      eapply goes_conseq; [exact H1|done|]. by intros r s _ ->.
    + intros [[obs next'] status]. case_decide as Hs.
      * apply (goes_pure _ _ (obs = cr)); [by intros s [? _]|]. intros ->.
        eapply goes_conseq; [apply IH|done|done]. intros stage' Hin. apply Hall. by right.
      * apply goes_absurd. by intros s _ [_ ?].
Qed.
End loop.
End stages.

(** The condition is about the name and the spec of the resource. *)
Lemma cleared_same names cr cr' s :
  keyOf cr' = keyOf cr → specOf cr' = specOf cr → cleared names cr s → cleared names cr' s.
Proof.
  intros [= Hns Hn] Hspec [Hc0 Hp Ha Hg Hl Hc].
  assert (nameOf (GetPrometheus cr') = nameOf (GetPrometheus cr) ∧
          nameOf (GetAlertmanagerCr cr') = nameOf (GetAlertmanagerCr cr)) as [Ep Ea].
  { unfold nameOf. simpl. unfold GetDefaultNamePrometheus, GetDefaultNameAlertmanager, selfContained.
    by rewrite Hspec. }
  assert (∀ c, csv.isOurs cr' c = csv.isOurs cr c) as Eo.
  { intros c. unfold csv.isOurs, csv.isOperatorCsv. by rewrite Hns. }
  split; rewrite ?Hns, ?Ep, ?Ea; try done. intros n c. rewrite Eo. apply Hc.
Qed.

(** ** Rounds of the controller *)

Section rounds.
Context `{Net} `{Codec} `{TokenCodec} `{ControllerUtil} (depth : nat) (ns name : string).

Lemma cleanup_stages_pass names cr stage :
  stage ∈ [PrometheusConfiguration; GrafanaConfiguration; PrometheusInstallation;
   GrafanaInstallation; AlertmanagerInstallation; PromtailInstallation;
   LoggingInstallation; Configuration; TokenRequest] →
  ∃ R, getReconcilerForStage depth stage = Some R ∧ passes names cr (Cleanup R cr).
Proof.
  revert stage. apply Forall_forall. repeat apply Forall_cons_2; [..|apply Forall_nil_2];
    (eexists; split; [reflexivity|]); simpl;
    first [apply grafana_installation_passes|apply logging_passes|solve_passes].
Qed.

(** The resource, if it is still there, is deleted and nothing holds its cleanup
    up. *)
Definition ready (names : list string) (s : State) : Prop :=
  ∀ obs, view s KObservability ns name = Some obs → deleting obs = true ∧ cleared names obs s.

(** The resource is gone or has no finalizers. *)
Definition free (s : State) : Prop :=
  ∀ obs, view s KObservability ns name = Some obs → Finalizers (meta obs) = [].

Lemma ready_undisturbed names s s' : ready names s → undisturbedIn ns s s' → ready names s'.
Proof.
  intros Hr Hu obs' Hv'.
  destruct (Hu KObservability ns (relevant_home _ KObservability eq_refl) _ _ Hv') as (obs & Hv & Hspec & Hdel).
  destruct (Hr obs Hv) as [Hd Hc]. split; [by apply Hdel|].
  pose proof (view_key _ _ _ _ _ Hv') as [= Hns' _]. rewrite <-Hns' in Hu.
  eapply cleared_undisturbedIn; [|done]. apply (cleared_same _ obs); [|done..].
  by rewrite (view_key _ _ _ _ _ Hv), (view_key _ _ _ _ _ Hv').
Qed.

(** Fewer cluster service versions than before. *)
Lemma ready_fewer names obs s s1 s' :
  view s KObservability ns name = Some obs → deleting obs = true → undisturbed s s1 →
  fewer names obs s1 → undisturbed s1 s' →
  ∃ names', length names' < length names ∧ ready names' s'.
Proof.
  intros Hv Hd Hu1 (names' & Hlt & Hc) Hu2. exists names'. split; [done|].
  apply (ready_undisturbed _ s1); [|by apply undisturbed_in]. intros obs1 Hv1.
  destruct (Hu1 KObservability eq_refl _ _ _ Hv1) as (obs0 & Hv0 & Hspec & Hdel).
  rewrite Hv in Hv0. injection Hv0 as <-. split; [by apply Hdel|].
  apply (cleared_same _ obs); [|done..].
  by rewrite (view_key _ _ _ _ _ Hv), (view_key _ _ _ _ _ Hv1).
Qed.

(** The end of a round, after the stages. *)
Lemma finish_round names st obs next fin :
  noInit st = true → deleting obs = true →
  wp (finishReconcile st obs next fin) (λ tr o, ∀ s s1 s',
    view s KObservability ns name = Some obs → undisturbed s s1 →
    (fin = false → fewer names obs s1) → served s1 tr s' → Forall healthy tr →
    ∃ st1 res, o = Done (st1, res, None) ∧ noInit st1 = true ∧
      (res = noRequeue ∧ free s' ∨
       ∃ names', length names' < length names ∧ ready names' s')).
Proof.
  intros Hn Hd. eapply wp_mono;
    [|exact (wp_and _ _ _ (finishReconcile_closing st obs next fin) (finishReconcile_done st obs next fin))].
  intros tr o [Hcl (st' & res & e & ->)] s s1 s' Hv Hu Hfew Hs Hh.
  pose proof (view_key _ _ _ _ _ Hv) as [= Hns Hname].
  destruct (Hcl _ _ _ eq_refl) as [r _ Hfin|st1 r Hdel Hf Hno Hst|st1 Hdel _ _ Hst|st1 o' Hdel _ _ Hst|st1 e' _ _ _ _].
  - destruct r as [o'|e']; [|by apply Forall_cons in Hh as [Hh _]].
    eexists _, _. split; [done|]. split; [done|]. left. split; [done|].
    destruct Hs as (s2 & Hs & Hend). simpl in Hend. subst s'. intros obs' Hv'.
    apply serve_update in Hs. change (namespaceOf (withFinalizers [] obs)) with (namespaceOf obs) in Hs.
    change (nameOf (withFinalizers [] obs)) with (nameOf obs) in Hs. rewrite Hns, Hname in Hs.
    destruct Hs as [(? & [=] & _)|(cur & o1 & _ & _ & Hafter & Hf & _)].
    destruct Hafter as [Ha|[Ha _]]; rewrite Ha in Hv'; [by injection Hv' as <-|done].
  - congruence.
  - rewrite Hd in Hdel. simpl in Hdel, Hs. subst s'. eexists _, _. split; [done|].
    split; [congruence|]. right. eapply ready_fewer; [done..|by apply Hfew|done].
  - rewrite Hd in Hdel. simpl in Hdel. destruct Hs as (s2 & Hs & Hend). simpl in Hend. subst s'.
    eexists _, _. split; [done|]. split; [congruence|]. right.
    eapply ready_fewer; [done..|by apply Hfew|]. by eapply status_undisturbed.
  - by apply Forall_cons in Hh as [Hh _].
Qed.

(** A round: the resource is free, or there are fewer versions left. *)
Lemma round_progress names st :
  noInit st = true →
  wp (operator depth st ns name) (λ tr o, ∀ s s',
    ready names s → served s tr s' → Forall healthy tr →
    ∃ st1 res, o = Done (st1, res, None) ∧ noInit st1 = true ∧
      (res = noRequeue ∧ free s' ∨
       ∃ names', length names' < length names ∧ ready names' s')).
Proof.
  intros Hn. apply wp_request. intros [obs|e].
  - destruct (deleting obs) eqn:Hd.
    2: { apply wp_true. intros tr o s s' Hr (s0 & Hg & _) _. apply serve_get in Hg.
         destruct (Hr obs Hg). congruence. }
    simpl. unfold reconcileStages. rewrite Hd. apply wp_bind.
    eapply wp_mono; [|eapply (goes_runStages names obs (getReconcilerForStage depth) Hd
      [PrometheusConfiguration; GrafanaConfiguration; PrometheusInstallation;
       GrafanaInstallation; AlertmanagerInstallation; PromtailInstallation;
       LoggingInstallation; Configuration; TokenRequest] Csv);
      [apply cleanup_stages_pass|reflexivity|apply csv_drains]].
    intros tr o Hrun.
    assert (∀ s s0 s1, ready names s → serve s (CGet KObservability ns name ⇝ inl obs) s0 →
      served s0 tr s1 → Forall healthy tr → view s KObservability ns name = Some obs ∧
      undisturbed s s1 ∧ ∃ next fin, o = Done (obs, next, fin) ∧
      (fin = false → fewer names obs s1)) as Hloop.
    { intros s s0 s1 Hr Hg Hs Hh.
      assert (undisturbed s s0) as Hu.
      { apply sameView_undisturbed. intros ???. by apply (serve_frame _ _ _ _ _ _ _ Hg). }
      apply serve_get in Hg. destruct (Hr obs Hg) as [_ Hc].
      destruct (Hrun s0 s1 (cleared_undisturbed _ _ _ _ Hc Hu) I Hs Hh)
        as [Hu' ([[obs' next] fin] & -> & Ho & Hf)].
      simpl in Ho, Hf. subst obs'. split; [done|]. split; [by transitivity s0|]. eauto. }
    destruct o as [[[obs' next] fin]|].
    + apply wp_beh. intros tr' o Hb s s' Hr (s0 & Hg & (s1 & Hs1 & Hs2)%served_app).
      intros [_ [Hh1 Hh2]%Forall_app]%Forall_cons.
      destruct (Hloop s s0 s1 Hr Hg Hs1 Hh1) as (Hv & Hu & ? & ? & [= -> <- <-] & Hf).
      exact (proj1 (wp_beh _ _) (finish_round names st obs next fin Hn Hd) tr' o Hb
               s s1 s' Hv Hu Hf Hs2 Hh2).
    + intros s s' Hr (s0 & Hg & Hs) [_ Hh]%Forall_cons.
      by destruct (Hloop s s0 s' Hr Hg Hs Hh) as (_ & _ & ? & ? & [=] & _).
  - intros s s' Hr (s0 & Hg & Hend) [Hh _]%Forall_cons. simpl in Hend. subst s'.
    unfold healthy in Hh. simpl in Hh. rewrite Hh. eexists _, _. split; [done|]. split; [done|].
    left. split; [done|]. intros obs Hv. rewrite (serve_frame _ _ _ _ _ _ _ Hg) in Hv by done.
    apply serve_get in Hg. by rewrite Hg in Hv.
Qed.

(** Whatever the server answers, as long as no request fails: the controller
    returns without error, and the resource is free after this round, or within
    [n - 1] more, whatever happens in between that leaves it undisturbed. *)
Fixpoint releasedWithin (n : nat) (st : ControllerState) (s : State) : Prop :=
  match n with
  | 0 => False
  | S n' =>
      wp (operator depth st ns name) (λ tr o, ∀ s1,
        served s tr s1 → Forall healthy tr →
        ∃ st1 res, o = Done (st1, res, None) ∧
          (res = noRequeue ∧ free s1 ∨
           ∀ s2, undisturbedIn ns s1 s2 → releasedWithin n' st1 s2))
  end.

(** C2: A deleted resource is released.  In no-init mode, and as long as no request
    fails (an object that is not found is no failure), the controller removes the
    finalizer within one round more than the list [names] is long, where [names]
    lists the cluster service versions of the operator that are to be removed, and
    no round panics or reports an error.  It is assumed at
    the start that the resource is in a namespace; that the stateful sets of
    Prometheus and Alertmanager and the deployment of Grafana in that namespace are
    gone; that every labelled subscription in the logging namespace names an
    installed cluster service version (without one the logging cleanup would fail in
    every round); and that the cluster service versions of the operator in the
    namespace are among [names] and have no finalizers of their own.  Between the
    rounds anything may change except this: no resource, stateful set, deployment
    or cluster service version appears in the namespace, no subscription appears in
    the logging namespace, and of those that stay the resource keeps its spec and
    stays deleted, a subscription keeps its labels and content, and a cluster
    service version its finalizers. *)
Theorem deletion_completes names st s :
  noInit st = true → ready names s → releasedWithin (S (length names)) st s.
Proof.
  remember (length names) as n eqn:Hlen. assert (length names ≤ n) as Hle by lia. clear Hlen.
  revert names st s Hle. induction n as [n IH] using lt_wf_ind. intros names st s Hle Hn Hr.
  eapply wp_mono; [|exact (round_progress names st Hn)]. intros tr o Ho s1 Hs Hh.
  destruct (Ho s s1 Hr Hs Hh) as (st1 & res & -> & Hn1 & Hend). exists st1, res. split; [done|].
  destruct Hend as [?|(names' & Hlt & Hr')]; [by left|]. right. intros s2 Hu.
  destruct n as [|n]; [lia|]. apply (IH n ltac:(lia) names'); [lia|done|].
  by eapply ready_undisturbed.
Qed.
End rounds.
End liveness.

(** ** An instance *)

#[local] Instance plainCluster : ApiServer := storeServer plainHost.

Definition operatorCsv (n : string) : Object KClusterServiceVersion :=
  stub KClusterServiceVersion n "ns".

(** A cluster with a deleted resource, a secret of ours, and the versions of the
    Grafana and the Prometheus operator. *)
Definition deletionStore : Store := λ k,
  match k as k return gmap (string * string) (Object k) with
  | KObservability => {[("ns", "obs") := deletedCr]}
  | KClusterServiceVersion =>
      {[("ns", "grafana-operator.v1") := operatorCsv "grafana-operator.v1";
        ("ns", "prometheusoperator.v1") := operatorCsv "prometheusoperator.v1"]}
  | KSecret => {[("ns", "s") := withMeta (set_Labels managedBy) (stub KSecret "s" "ns")]}
  | _ => ∅
  end.

Definition plainRounds : nat → ControllerState → Store → Prop :=
  @releasedWithin plainCluster plainNet plainCodec plainTokenCodec referenceUtil 10 "ns" "obs".

(** The cluster after a number of rounds. *)
Fixpoint afterRounds (n : nat) (s : Store) : Store :=
  match n with
  | 0 => s
  | S n' => afterRounds n' (exec (respond plainHost) plainRequest s).2
  end.

Lemma deletion_completes_witness :
  plainRounds 3 (mkControllerState true true) deletionStore ∧
  view (afterRounds 2 deletionStore) KObservability "ns" "obs" ≠ None ∧
  view (afterRounds 3 deletionStore) KObservability "ns" "obs" = None.
Proof.
  split; [|split; [by vm_compute|by vm_compute]].
  apply (@deletion_completes plainCluster plainNet plainCodec plainTokenCodec referenceUtil 10
    "ns" "obs" ["grafana-operator.v1"; "prometheusoperator.v1"]); [reflexivity|].
  intros obs Hv. assert (obs = deletedCr) as -> by (vm_compute in Hv |- *; congruence).
  split; [reflexivity|].
  split; [discriminate|vm_compute; reflexivity|vm_compute; reflexivity|vm_compute; reflexivity| |].
  { intros n o (o0 & Ho & _)%fmap_Some. change (deletionStore KSubscription) with
      (∅ : gmap (string * string) (Object KSubscription)) in Ho. rewrite lookup_empty in Ho. discriminate Ho. }
  intros n c (c0 & Hc0 & ->)%fmap_Some _. unfold deletionStore in Hc0.
  apply lookup_insert_Some in Hc0 as [[[= <-] <-]|[_ [[= <-] <-]%lookup_singleton_Some]];
    (split; [|reflexivity]); [left|right; left].
Defined.
